(* ===== verification/_CoqProject ===== *)
-Q . S2P
Prelude.v
AsyncIo.v
BufReadWrite.v
Config.v
Reader.v
RingBuf.v
MsgSender.v
SenderCall.v
Writer.v
Duplex.v
Wakeup.v
Oneshot.v
Conn.v
ConnHandle.v
Manager.v
Lifecycle.v
Endpoint.v
SockAddr.v
CStrings.v
CWakers.v
CCallbacks.v
CApi.v
CReader.v
Tracer.v
