(* ===== verification/Prelude.v ===== *)
(** * Verification of socket_manager

    socket_manager is a Rust library (the files [src/src/*.rs]) with a C interface
    ([src/src/c_api]) that runs TCP connections on a tokio runtime in a background
    thread.  A program listens on or connects to addresses; for every connection
    it gets a callback with a [MsgSender] and a [Conn], starts the connection with
    a message callback and a configuration, and is told when it ends.

    ** The parts of the program and where they are modelled

    - [Prelude] (this file): [Result], [Poll], [io::Error], panics and fuel as the
      monad [outcome], slices and [usize] arithmetic at its width, the tactics and
      the hint database [sm] of the development.
    - [AsyncIo], [RingBuf], [Oneshot]: what tokio, async-ringbuf and dashmap
      promise, as classes.  One class has the operations, a second one has the
      laws, stated through an abstract view of the object (the history of a
      reader or a writer, the contents, waker and ends of a ring buffer, the queue
      of a channel).  Each file ends with instances that meet the laws; all
      witnesses are stated for those.
    - [BufReadWrite]: [buf_read_write.rs], the buffer between the socket and the
      message callback.  A future is polled one step at a time, so that a future
      dropped by [select!] is a state like any other.
    - [Config], [Reader]: [ConnConfig] of [conn.rs] and [read.rs], both loops.
    - [MsgSender]: [msg_sender.rs]: the chain of ring buffers ([Pipe]) and the
      three ways to send, as whole functions.  [SenderCall]: the same methods as the
      sequences of their single accesses to shared memory.
    - [Writer]: [write.rs], both loops.  [Duplex]: sender, rings, writer and socket
      together, as a step relation.  [Wakeup]: the waker of a pending send in that
      system.
    - [Conn]: [conn.rs] and the [ConnectionState] of [lib.rs]; the one-shot channels
      live in a store because maps and tasks share them.
    - [ConnHandle]: [conn_handle.rs], the task of one connection, over an interface
      for the reader and writer tasks ([TaskOps], [TaskSpec]).
    - [Manager]: [lib.rs] and [utils.rs]: the methods of [SocketManager], its main
      loop, the connecting and listening tasks and all connections.  [Lifecycle]: how
      connections come to their end, by a [close], an abort or otherwise, while
      everything else goes on.
    - [Endpoint]: the manager with the real reader and writer as its tasks: the
      instances that discharge [TaskOps] and [TaskSpec], and the theorem that the
      invariants of the byte streams hold in every reachable state.
    - [SockAddr]: the text form of addresses in the standard library.  [CStrings]: [c_api/utils.rs], error strings and addresses over an abstract heap.  [CWakers]: [c_api/async_ffi], wakers for C++ code and notifiers, with
      the accounts of who owns a reference.  [CCallbacks]: [c_api/on_conn.rs],
      [on_msg.rs] and [conn_events.rs], the callbacks into C++ and the boxes that
      are handed out.  [CApi]: the exported functions.  [CReader]: a receiver of the
      C++ side as the callback of the reader task.  [Tracer]: [c_api/tracer.rs] and
      [init_logger], log records for the C side.

    Names are those of the code.  A [struct] is a [Record], an [enum] an
    [Inductive]; an [async fn] is an [Inductive] of its await points with one step
    function, whose result says where the task is suspended next.

    ** Concurrency

    A step makes one access to a shared object (a ring, a channel, a map), or
    several of which only one can be noticed by the others: a step of the writer
    waits for a ring and then asks for its state, while the sender only adds bytes
    to the ring and closes it in the end.  In [MsgSender] what the receiver does to
    the ring meanwhile is an argument: [env] has one move of the receiver for each
    access of the sender.  In [SenderCall] and [Duplex] the accesses of a call are
    steps of their own, and the writer runs between them.  A sender makes one call
    at a time, as [&mut self] demands.  In [Manager] the steps of all parties are
    interleaved freely: a list of [input]s names the part that runs next and what
    the operating system, the user's callbacks, the timers and the random choice of
    [select!] answer.  Theorems quantify over these lists.  Nothing is assumed about
    the scheduler: a task that tokio does not run any more is one that the list does
    not name.  From the end of the main loop on, the runtime may drop the task, the
    reader and the writer of a connection at any time, as [shutdown_timeout] does;
    a task that was aborted through its handle may still run for a while.

    ** What the theorems show

    - Bytes: [fill_flush] and [flush] neither lose, repeat nor reorder bytes, keep
      the offsets in range, and may be dropped at any await point
      ([BufReadWrite]); the message callback acknowledges a prefix of what was
      read and all of it at a normal end, and is not called again after an error
      ([Reader]); the three sends append to the
      stream exactly what they report ([MsgSender]), also when the writer runs
      between their accesses ([Duplex]); the socket receives a prefix of that
      stream and all of it at a normal end ([Duplex]); and both hold for every
      connection of the running manager ([Endpoint]).  The reader gives a C++
      receiver just these bytes too ([CReader]).
    - Progress: flushes complete, a timer tick delivers what is buffered, the end of
      the stream ends the reader, a dropped sender lets the writer drain and end; the
      waker of a pending send is called or still registered on a full ring, and it
      is called within a bounded number of steps of the writer ([Wakeup]); a
      connection with a reason to end, a [close] or an abort among them, is done after
      four turns of its task, whatever the other parties do in between, if the
      shutdown of the runtime does not drop it ([Lifecycle]).
    - Protocol: the callbacks of a connection are [OnConnect], perhaps
      [OnRemoteClose], [OnConnectionClose]; a [Conn] is consumed once; stop signals
      reach those they are meant for and nobody else ([Conn], [ConnHandle],
      [Manager], [Lifecycle]).
    - The C interface: what is returned determines what has happened, strings are
      freed, IPv4 addresses and errors survive the round trip ([CStrings], [CApi]); a
      manager lives well from [socket_manager_init] to [socket_manager_free]
      ([CApi]); wakers are neither leaked nor used after they were freed ([CWakers],
      [CReader]); the logger is set once and gets the events of its level
      ([Tracer]).
    - Some theorems state behaviour that the documentation of the code does not
      promise, or denies: [send_block] on a closed connection with a full ring
      does not return, [send_nonblock] on a closed connection may return [Ok], a
      [close] right after the start of a connection is lost, a listener accepts
      nothing after one error of [accept], a connection that the shutdown of the
      runtime drops never gets its [OnConnectionClose], a connection may make its last
      callback after the timeout of the shutdown, when [join] has returned, and a
      connection that ends stops a newer one with the same pair of addresses.

    ** Fuel and bounds

    Loops that poll until something happens carry fuel, and [NoFuel] is an outcome
    of its own.  [WriteAll::poll] gets as much as there are bytes left, [burst_write]
    one more: each round takes at least one byte, and their theorems show that the
    fuel suffices.  [send_async] loops at most twice, because the second round
    returns; counted in accesses, a send of [n] bytes that does not block makes at
    most [5 + 2 * n] of them.  Only [send_block] may run for ever: its fuel is the
    number of polls, an argument of the model; [send_block_unblocks] says when it
    returns.
    Lengths of slices are at most [isize::MAX], as Rust guarantees; [usize]
    addition wraps around at its width, as in a release build.

    ** What is not modelled

    The C++ wrapper, the tests and the examples, which are not Rust code; the
    functions of the C++ side that the library calls, the subscriber of tracing, the
    parser and printer of IPv6 addresses, the check of UTF-8 and the allocator are
    parameters; log
    lines that are only written; memory below the level of objects: the functions
    that borrow an object through a pointer are given the object; the failure of
    [malloc]; the order in which the operating system and tokio schedule, which is
    arbitrary here, and so when a current-thread runtime stops to poll its tasks; the
    length of the timeout of the shutdown (it may pass at any time after the main
    loop has ended); the single sends before a connection is
    started (what they have left in the pipe is part of the state in which it
    starts).

    ** What is left to do

    The exported functions of connections and senders over the store of boxes as
    one system with [Manager], so that a whole C program is a sequence of steps;
    the calls of a notifier as steps of [Duplex]; a bound on the turns between a
    command and its effect under a fair scheduler. *)

From stdpp Require Export base tactics numbers list strings gmap.
From Stdlib Require Export Strings.Byte Lia.

#[export] Set Default Goal Selector "!".

Declare Scope sm_scope.
Delimit Scope sm_scope with sm.
#[global] Open Scope Z_scope.
#[global] Open Scope list_scope.

(** ** The standard-library types of the program *)

(** [u8] buffers are lists of bytes. *)
Abbreviation byte := Byte.byte.

#[export] Instance byte_eq_decision : EqDecision byte := Byte.byte_eq_dec.

(** [std::result::Result]. *)
Inductive result (T E : Type) : Type :=
| Ok (t : T)
| Err (e : E).

Arguments Ok {T E} t.
Arguments Err {T E} e.

(** [std::task::Poll]. *)
Inductive poll (T : Type) : Type :=
| Ready (t : T)
| Pending.

Arguments Ready {T} t.
Arguments Pending {T}.

(** The [std::io::ErrorKind]s that the program creates itself; an error that
    comes from the operating system carries its code ([IoOs]). *)
Inductive ErrorKind : Type :=
| Other
| WriteZero
| InvalidInput.

(** [std::io::Error]: [Error::new kind msg], a bare kind (from
    [ErrorKind::into]), or an operating-system error. *)
Inductive io_error : Type :=
| IoNew (kind : ErrorKind) (msg : string)
| IoSimple (kind : ErrorKind)
| IoOs (code : Z).

Definition error_kind (e : io_error) : option ErrorKind :=
  match e with
  | IoNew k _ | IoSimple k => Some k
  | IoOs _ => None
  end.

Abbreviation io_result T := (result T io_error).

#[export] Instance ErrorKind_eq_decision : EqDecision ErrorKind.
Proof. solve_decision. Defined.
#[export] Instance io_error_eq_decision : EqDecision io_error.
Proof. solve_decision. Defined.
#[export] Instance result_eq_decision `{EqDecision T, EqDecision E} :
  EqDecision (result T E).
Proof. solve_decision. Defined.
#[export] Instance poll_eq_decision `{EqDecision T} : EqDecision (poll T).
Proof. solve_decision. Defined.

(** [std::task::Waker]: a data pointer and a vtable pointer. *)
Record Waker : Type := mkWaker { waker_data : Z; waker_vtable : Z }.

#[export] Instance Waker_eq_decision : EqDecision Waker.
Proof. solve_decision. Defined.

(** The outcome of running Rust code: a value, a panic (failed assertion,
    out-of-range slice, [unwrap] of [None]), or a loop that was still running
    when the fuel of the model was spent. *)
Inductive outcome (A : Type) : Type :=
| Ret (a : A)
| Panic
| NoFuel.

Arguments Ret {A} a.
Arguments Panic {A}.
Arguments NoFuel {A}.

Definition obind {A B} (m : outcome A) (f : A -> outcome B) : outcome B :=
  match m with
  | Ret a => f a
  | Panic => Panic
  | NoFuel => NoFuel
  end.

Notation "'let*' x ':=' m 'in' k" := (obind m (fun x => k))
  (at level 10, x name, m at level 200, k at level 200) : sm_scope.
Notation "'let*' ' p ':=' m 'in' k" :=
  (obind m (fun x => match x with p => k end))
  (at level 10, p pattern, m at level 200, k at level 200) : sm_scope.
#[global] Open Scope sm_scope.

(** ** Machine integers *)

(** [usize] and [u64] are 64 bits wide, [c_long] and [isize] are signed 64-bit,
    [c_int] is signed 32-bit. *)
Definition usize_bound : Z := 2 ^ 64.
Definition isize_bound : Z := 2 ^ 63.

(** Addition on [usize], with the wrap-around of a build without overflow
    checks. *)
Definition usize_add (a b : Z) : Z := (a + b) mod usize_bound.

(** The two's-complement reading of the low [w] bits of [x]: the [as] casts to
    signed types. *)
Definition to_signed (w : Z) (x : Z) : Z :=
  let y := x mod 2 ^ w in
  if y <? 2 ^ (w - 1) then y else y - 2 ^ w.

(** [std::time::Duration], in nanoseconds. *)
Abbreviation Duration := Z (only parsing).

Definition is_zero (d : Duration) : bool := d =? 0.

(** [Duration::from_millis] of a [u64]. *)
Definition from_millis (ms : Z) : Duration := ms * 1000000.

(** ** Slices with [usize] bounds *)

Definition zlen {A} (l : list A) : Z := Z.of_nat (length l).
Definition ztake {A} (n : Z) (l : list A) : list A := take (Z.to_nat n) l.
Definition zdrop {A} (n : Z) (l : list A) : list A := drop (Z.to_nat n) l.

(** [l[a..b]] when it is in range. *)
Definition slice {A} (l : list A) (a b : Z) : list A := ztake (b - a) (zdrop a l).

(** [&l[a..b]]: Rust panics when [a > b] or [b > l.len()]. *)
Definition slice_checked {A} (l : list A) (a b : Z) : outcome (list A) :=
  if (a <=? b) && (b <=? zlen l) then Ret (slice l a b) else Panic.

(** Writing [data] into [l] at offset [off] (the effect of filling
    [&mut l[off..]] with [data], [off + data.len() <= l.len()]). *)
Definition splice {A} (l : list A) (off : Z) (data : list A) : list A :=
  ztake off l ++ data ++ zdrop (off + zlen data) l.

(** ** Automation *)

(** Facts about list lengths and slices, rewritten to arithmetic. *)
Create Rewrite HintDb zlist.

(** The hint database of the invariants of the components. *)
Create HintDb sm.

(** Split the [if]s on integer comparisons of the goal and of the context. *)
Ltac zcase :=
  repeat match goal with
  | H : (_ <=? _) = true |- _ => apply Z.leb_le in H
  | H : (_ <=? _) = false |- _ => apply Z.leb_gt in H
  | H : (_ <? _) = true |- _ => apply Z.ltb_lt in H
  | H : (_ <? _) = false |- _ => apply Z.ltb_ge in H
  | H : (_ =? _) = true |- _ => apply Z.eqb_eq in H
  | H : (_ =? _) = false |- _ => apply Z.eqb_neq in H
  | H : _ && _ = true |- _ => apply andb_prop in H as [? ?]
  end.

(** Unfold a monadic bind of a known outcome and destruct pairs. *)
Ltac ostep :=
  repeat match goal with
  | H : Ret _ = Ret _ |- _ => injection H as H; subst
  | H : Panic = Ret _ |- _ => discriminate H
  | H : NoFuel = Ret _ |- _ => discriminate H
  | H : Ready _ = Ready _ |- _ => injection H as H; subst
  | H : Ok _ = Ok _ |- _ => injection H as H; subst
  | H : obind _ _ = Ret _ |- _ =>
      let E := fresh "E" in
      match type of H with
      | obind ?m _ = _ => destruct m eqn:E; cbn [obind] in H; try discriminate H
      end
  end.

(** ** Lemmas on slices *)

Section zlist.
Context {A : Type}.
Implicit Types l : list A.

Lemma zlen_nonneg l : 0 <= zlen l.
Proof. unfold zlen; lia. Qed.

Lemma zlen_nil : zlen (@nil A) = 0.
Proof. reflexivity. Qed.

Lemma zlen_app l1 l2 : zlen (l1 ++ l2) = zlen l1 + zlen l2.
Proof. unfold zlen. rewrite length_app. lia. Qed.

Lemma zlen_replicate n (x : A) : zlen (replicate (Z.to_nat n) x) = Z.max 0 n.
Proof. unfold zlen. rewrite length_replicate. lia. Qed.

Lemma zlen_ztake n l : 0 <= n <= zlen l -> zlen (ztake n l) = n.
Proof. unfold zlen, ztake. rewrite length_take. lia. Qed.

Lemma zlen_ztake_le n l : zlen (ztake n l) <= zlen l.
Proof. unfold zlen, ztake. rewrite length_take. lia. Qed.

Lemma zlen_zdrop n l : 0 <= n <= zlen l -> zlen (zdrop n l) = zlen l - n.
Proof. unfold zlen, zdrop. rewrite length_drop. lia. Qed.

Lemma zlen_slice l a b : 0 <= a <= b -> b <= zlen l -> zlen (slice l a b) = b - a.
Proof.
  intros. unfold slice. rewrite zlen_ztake; [done|].
  rewrite zlen_zdrop; lia.
Qed.

Lemma zlen_zero_iff l : zlen l = 0 <-> l = [].
Proof. unfold zlen. destruct l; cbn; split; intros; (congruence || lia). Qed.

Lemma zlen_pos_iff l : 0 < zlen l <-> l <> [].
Proof. unfold zlen. destruct l; cbn; split; intros; (congruence || lia). Qed.

Lemma ztake_0 l : ztake 0 l = [].
Proof. reflexivity. Qed.

Lemma zdrop_0 l : zdrop 0 l = l.
Proof. reflexivity. Qed.

Lemma ztake_all n l : zlen l <= n -> ztake n l = l.
Proof. unfold zlen, ztake. intros. apply take_ge. lia. Qed.

Lemma zdrop_all n l : zlen l <= n -> zdrop n l = [].
Proof. unfold zlen, zdrop. intros. apply drop_ge. lia. Qed.

Lemma ztake_zdrop n l : ztake n l ++ zdrop n l = l.
Proof. apply take_drop. Qed.

Lemma zdrop_zdrop n m l : 0 <= n -> 0 <= m -> zdrop n (zdrop m l) = zdrop (m + n) l.
Proof. intros. unfold zdrop. rewrite drop_drop. f_equal. lia. Qed.

Lemma ztake_app_le n l1 l2 : n <= zlen l1 -> ztake n (l1 ++ l2) = ztake n l1.
Proof. unfold zlen, ztake. intros. apply take_app_le. lia. Qed.

Lemma zdrop_app_le n l1 l2 : n <= zlen l1 -> zdrop n (l1 ++ l2) = zdrop n l1 ++ l2.
Proof. unfold zlen, zdrop. intros. apply drop_app_le. lia. Qed.

Lemma zdrop_app_ge n l1 l2 : zlen l1 <= n -> zdrop n (l1 ++ l2) = zdrop (n - zlen l1) l2.
Proof. unfold zlen, zdrop. intros. rewrite drop_app_ge by lia. f_equal. lia. Qed.

Lemma slice_self l : slice l 0 (zlen l) = l.
Proof. unfold slice. rewrite zdrop_0. apply ztake_all. lia. Qed.

Lemma slice_empty l a : slice l a a = [].
Proof. unfold slice. replace (a - a) with 0 by lia. apply ztake_0. Qed.

Lemma slice_to_end l a : a <= zlen l -> slice l a (zlen l) = zdrop a l.
Proof.
  intros Ha. unfold slice. unfold zlen in Ha. apply ztake_all. unfold zlen, zdrop. rewrite length_drop. lia.
Qed.

(** A slice is cut in two at any point between its bounds. *)
Lemma slice_split l a b c :
  0 <= a <= b -> b <= c -> slice l a c = slice l a b ++ slice l b c.
Proof.
  intros. unfold slice, ztake, zdrop.
  replace (Z.to_nat (c - a)) with (Z.to_nat (b - a) + Z.to_nat (c - b))%nat by lia.
  rewrite <- take_take_drop, drop_drop. do 3 f_equal. lia.
Qed.

(** Taking and dropping inside a slice. *)
Lemma ztake_slice l a b n :
  0 <= n <= b - a -> ztake n (slice l a b) = slice l a (a + n).
Proof.
  intros. unfold slice, ztake. rewrite take_take. f_equal. lia.
Qed.

Lemma zlen_splice l off data :
  0 <= off -> off + zlen data <= zlen l -> zlen (splice l off data) = zlen l.
Proof.
  intros. pose proof (zlen_nonneg data). unfold splice.
  rewrite !zlen_app, zlen_ztake, zlen_zdrop by lia. lia.
Qed.

(** Filling [l[off..]] leaves what lies before [off] as it was. *)
Lemma slice_splice_before l off data a :
  0 <= a <= off -> off <= zlen l -> slice (splice l off data) a off = slice l a off.
Proof.
  intros. unfold slice, splice.
  rewrite zdrop_app_le by (rewrite zlen_ztake; lia).
  rewrite ztake_app_le by (rewrite zlen_zdrop, zlen_ztake by (rewrite ?zlen_ztake; lia); lia).
  unfold ztake, zdrop. rewrite skipn_firstn_comm, take_take.
  f_equal. lia.
Qed.

(** The filled part holds the data. *)
Lemma slice_splice_data l off data :
  0 <= off <= zlen l -> slice (splice l off data) off (off + zlen data) = data.
Proof.
  intros. unfold slice, splice.
  rewrite zdrop_app_ge by (rewrite zlen_ztake; lia).
  rewrite zlen_ztake by lia. replace (off - off) with 0 by lia. rewrite zdrop_0.
  replace (off + zlen data - off) with (zlen data) by lia.
  rewrite ztake_app_le by lia. apply ztake_all. lia.
Qed.

Lemma slice_checked_ret l a b :
  0 <= a <= b -> b <= zlen l -> slice_checked l a b = Ret (slice l a b).
Proof.
  intros. unfold slice_checked.
  rewrite (proj2 (Z.leb_le a b)), (proj2 (Z.leb_le b (zlen l))) by lia. done.
Qed.

Lemma slice_checked_le l a b l' : slice_checked l a b = Ret l' -> zlen l' <= zlen l.
Proof.
  unfold slice_checked. destruct (_ && _); [|done]. intros [= <-].
  unfold zlen, slice, ztake, zdrop. rewrite length_take, length_drop. lia.
Qed.
End zlist.

#[export] Hint Rewrite @zlen_app @zlen_nil @ztake_0 @zdrop_0 @slice_empty : zlist.
#[export] Hint Rewrite @zlen_ztake @zlen_zdrop @zlen_slice using lia : zlist.
#[export] Hint Resolve zlen_nonneg : sm.

Lemma usize_add_small a b :
  0 <= a -> 0 <= b -> a + b < usize_bound -> usize_add a b = a + b.
Proof. intros. unfold usize_add. apply Z.mod_small. lia. Qed.

(** Changing one element of a list in place. *)
Lemma alter_as_insert {A} (f : A -> A) (l : list A) i x :
  l !! i = Some x -> alter f i l = <[i := f x]> l.
Proof.
  revert i. induction l as [|y l IH]; intros [|i] Hl; cbn in *; [done..| |].
  - by injection Hl as ->.
  - f_equal. by apply IH.
Qed.
