(* ===== verification/AsyncIo.v ===== *)
(** * The asynchronous I/O traits of tokio

    [buf_read_write.rs], [read.rs] and [write.rs] are generic in, or use, the
    traits [AsyncRead] and [AsyncWrite] of tokio, which is not part of this
    repository.  A trait is a [Class] of operations on an abstract state; what
    the trait documents about its implementations is a second [Class] of laws.
    The laws name a ghost history: the bytes a reader has handed out so far
    ([consumed]) and the bytes a writer has accepted so far ([written]). *)

From S2P Require Import Prelude.

(** One poll of [AsyncReadExt::read] on a buffer of [cap] bytes: the bytes that
    were put at the start of the buffer, or an error, or [Pending]. *)
Class AsyncRead (R : Type) : Type :=
  poll_read : R -> Waker -> Z -> R * poll (io_result (list byte)).

(** [AsyncWrite::poll_write]: the number of bytes that were taken from the
    front of the argument. *)
Class AsyncWrite (W : Type) : Type :=
  poll_write : W -> Waker -> list byte -> W * poll (io_result Z).

(** What is documented of [AsyncRead]: a read puts at most [cap] bytes in the
    buffer, and a read that does not return [Ok] consumes nothing. *)
Class AsyncReadSpec (R : Type) `{AsyncRead R} : Type := {
  consumed : R -> list byte;
  poll_read_ok r cx cap r' data :
    0 < cap -> poll_read r cx cap = (r', Ready (Ok data)) ->
    zlen data <= cap /\ consumed r' = consumed r ++ data;
  poll_read_err r cx cap r' e :
    poll_read r cx cap = (r', Ready (Err e)) -> consumed r' = consumed r;
  poll_read_pending r cx cap r' :
    poll_read r cx cap = (r', Pending) -> consumed r' = consumed r
}.

(** What is documented of [AsyncWrite]: [Ok n] means that the first [n] bytes
    were taken, [n <= bytes.len()], and any other return takes nothing. *)
Class AsyncWriteSpec (W : Type) `{AsyncWrite W} : Type := {
  written : W -> list byte;
  poll_write_ok w cx bytes w' n :
    poll_write w cx bytes = (w', Ready (Ok n)) ->
    0 <= n <= zlen bytes /\ written w' = written w ++ ztake n bytes;
  poll_write_err w cx bytes w' e :
    poll_write w cx bytes = (w', Ready (Err e)) -> written w' = written w;
  poll_write_pending w cx bytes w' :
    poll_write w cx bytes = (w', Pending) -> written w' = written w
}.

(** ** Scripted endpoints

    A reader and a writer that follow a script, with their history; they meet
    the laws, and the concrete runs of the development use them. *)

Record ScriptReader : Type := mkScriptReader {
  sr_script : list (poll (io_result (list byte)));
  sr_consumed : list byte
}.

(** The next answer of the script, cut to the capacity of the buffer (the rest
    stays for the next read); at the end of the script the stream is at its
    end. *)
#[export] Instance ScriptReader_read : AsyncRead ScriptReader := fun r _ cap =>
  match sr_script r with
  | [] => (r, Ready (Ok []))
  | Ready (Ok data) :: rest =>
      let now := ztake cap data in
      let later := zdrop cap data in
      let rest' := if zlen later =? 0 then rest else Ready (Ok later) :: rest in
      (mkScriptReader rest' (sr_consumed r ++ now), Ready (Ok now))
  | a :: rest => (mkScriptReader rest (sr_consumed r), a)
  end.

Record ScriptWriter : Type := mkScriptWriter {
  sw_script : list (poll (io_result Z));
  sw_written : list byte
}.

(** The next answer of the script, [Ok n] cut to the length of the argument; at
    the end of the script everything is taken. *)
#[export] Instance ScriptWriter_write : AsyncWrite ScriptWriter := fun w _ bytes =>
  match sw_script w with
  | [] => (mkScriptWriter [] (sw_written w ++ bytes), Ready (Ok (zlen bytes)))
  | Ready (Ok n) :: rest =>
      let n := Z.max 0 (Z.min n (zlen bytes)) in
      (mkScriptWriter rest (sw_written w ++ ztake n bytes), Ready (Ok n))
  | a :: rest => (mkScriptWriter rest (sw_written w), a)
  end.

#[export] Instance ScriptReader_spec : AsyncReadSpec ScriptReader.
Proof.
  refine {| consumed := sr_consumed |}; intros r cx cap r';
    unfold poll_read, ScriptReader_read;
    destruct (sr_script r) as [|[[data|e]|] rest].
  all: try (intros; simplify_eq; done).
  - intros ? Hcap [= <- <-]. cbn. rewrite app_nil_r. split; [rewrite zlen_nil; lia|done].
  - intros ? Hcap [= <- <-]. cbn. split; [|done].
    unfold ztake, zlen. rewrite length_take. lia.
Defined.

#[export] Instance ScriptWriter_spec : AsyncWriteSpec ScriptWriter.
Proof.
  refine {| written := sw_written |}; intros w cx bytes w';
    unfold poll_write, ScriptWriter_write;
    pose proof (zlen_nonneg bytes);
    destruct (sw_script w) as [|[[n|e]|] rest].
  all: try (intros; simplify_eq; done).
  - intros ? [= <- <-]; cbn. rewrite ztake_all by lia. split; [lia|done].
  - intros ? [= <- <-]; cbn. split; [lia|done].
Defined.

(** A writer that takes the first byte of whatever it is given. *)
Record ByteWriter : Type := mkByteWriter { bw_written : list byte }.

#[export] Instance ByteWriter_write : AsyncWrite ByteWriter := fun w _ bytes =>
  (mkByteWriter (bw_written w ++ ztake 1 bytes), Ready (Ok (Z.min 1 (zlen bytes)))).

#[export] Instance ByteWriter_spec : AsyncWriteSpec ByteWriter.
Proof.
  refine {| written := bw_written |}; intros w cx bytes w';
    unfold poll_write, ByteWriter_write; pose proof (zlen_nonneg bytes).
  - intros ? [= <- <-]; cbn. split; [lia|].
    destruct bytes as [|b l]; [done|]. rewrite Z.min_l; [done|].
    unfold zlen; cbn [length]. lia.
  - intros; simplify_eq.
  - intros; simplify_eq.
Defined.
