(* ===== verification/BufReadWrite.v ===== *)
(** * The buffered reader-to-writer pump ([buf_read_write.rs])

    [BufReadWrite] reads from a [reader] into a buffer of fixed size and writes
    the buffer to a [writer] when it is full or when it is told to.  Its two
    asynchronous methods are modelled at the granularity of one poll of their
    futures, so that a future that is dropped half way (by [tokio::select!])
    is a state like any other. *)

From S2P Require Import Prelude AsyncIo.

Record BufReadWrite (R W : Type) : Type := mkBRW {
  reader : R;
  writer : W;
  buf : list byte;
  r_offset : Z;
  w_offset : Z
}.

Arguments mkBRW {R W}.
Arguments reader {R W}.
Arguments writer {R W}.
Arguments buf {R W}.
Arguments r_offset {R W}.
Arguments w_offset {R W}.

(** The state of a suspended [fill_flush] future: not polled yet, or suspended
    at its first ([self.flush().await]) or second ([self.reader.read(..).await])
    await point. *)
Inductive FillFlush : Type :=
| FF_Start
| FF_Flush
| FF_Read.

#[export] Instance FillFlush_eq_decision : EqDecision FillFlush.
Proof. solve_decision. Defined.

Section defs.
Context {R W : Type} `{AsyncRead R} `{AsyncWrite W}.

(** [BufReadWrite::new]: asserts a positive size. *)
Definition new (reader : R) (writer : W) (write_buffer_size : Z)
  : outcome (BufReadWrite R W) :=
  if 0 <? write_buffer_size
  then Ret (mkBRW reader writer (replicate (Z.to_nat write_buffer_size) Byte.x00) 0 0)
  else Panic.

(** The [while pos < end] loop of [WriteAll::poll], with what follows it.  The
    result is the writer, the new [*r_offset] and [*w_offset], and the value of
    the poll. *)
Fixpoint write_all_loop (fuel : nat) (cx : Waker) (w : W) (buf : list byte)
    (pos end_ w_off : Z) : outcome (W * Z * Z * poll (io_result unit)) :=
  if pos <? end_ then
    match fuel with
    | O => NoFuel
    | S fuel =>
        let* chunk := slice_checked buf pos end_ in
        match poll_write w cx chunk with
        | (w, Ready (Ok n)) =>
            let pos := usize_add pos n in
            if n =? 0 then Ret (w, pos, w_off, Ready (Err (IoSimple WriteZero)))
            else write_all_loop fuel cx w buf pos end_ w_off
        | (w, Ready (Err e)) => Ret (w, pos, w_off, Ready (Err e))
        | (w, Pending) => Ret (w, pos, w_off, Pending)
        end
    end
  else if pos =? end_ then Ret (w, 0, 0, Ready (Ok tt))
  else Panic.

(** [WriteAll::poll]; every iteration of the loop moves [pos] forward, so
    [end - pos] iterations are enough. *)
Definition WriteAll_poll (cx : Waker) (w : W) (buf : list byte)
    (r_off w_off : Z) : outcome (W * Z * Z * poll (io_result unit)) :=
  write_all_loop (Z.to_nat (w_off - r_off)) cx w buf r_off w_off w_off.

(** One poll of the future of [flush]: [write_all] on the fields of [self]. *)
Definition poll_flush (cx : Waker) (b : BufReadWrite R W)
  : outcome (BufReadWrite R W * poll (io_result unit)) :=
  let* '(w, r, wo, p) := WriteAll_poll cx (writer b) (buf b) (r_offset b) (w_offset b) in
  Ret (mkBRW (reader b) w (buf b) r wo, p).

(** One poll of [self.reader.read(&mut self.buf[self.w_offset..])] and, when it
    is ready, the rest of [fill_flush]. *)
Definition poll_read_part (cx : Waker) (b : BufReadWrite R W)
  : outcome (FillFlush * BufReadWrite R W * poll (io_result Z)) :=
  let* room := slice_checked (buf b) (w_offset b) (zlen (buf b)) in
  match poll_read (reader b) cx (zlen room) with
  | (r, Ready (Ok data)) =>
      let n := zlen data in
      Ret (FF_Start,
           mkBRW r (writer b) (splice (buf b) (w_offset b) data) (r_offset b)
             (usize_add (w_offset b) n),
           Ready (Ok n))
  | (r, Ready (Err e)) =>
      Ret (FF_Start, mkBRW r (writer b) (buf b) (r_offset b) (w_offset b), Ready (Err e))
  | (r, Pending) =>
      Ret (FF_Read, mkBRW r (writer b) (buf b) (r_offset b) (w_offset b), Pending)
  end.

(** One poll of [self.flush().await?] inside [fill_flush] and what follows it. *)
Definition poll_flush_part (cx : Waker) (b : BufReadWrite R W)
  : outcome (FillFlush * BufReadWrite R W * poll (io_result Z)) :=
  let* '(b, p) := poll_flush cx b in
  match p with
  | Ready (Ok _) => poll_read_part cx b
  | Ready (Err e) => Ret (FF_Start, b, Ready (Err e))
  | Pending => Ret (FF_Flush, b, Pending)
  end.

(** One poll of the future of [fill_flush], in the state [st] of that future.
    A future that has returned is spent; the state given back is then that of
    the next call. *)
Definition poll_fill_flush (cx : Waker) (st : FillFlush) (b : BufReadWrite R W)
  : outcome (FillFlush * BufReadWrite R W * poll (io_result Z)) :=
  match st with
  | FF_Start =>
      if w_offset b =? zlen (buf b) then poll_flush_part cx b
      else poll_read_part cx b
  | FF_Flush => poll_flush_part cx b
  | FF_Read => poll_read_part cx b
  end.

(** The bytes that were read and not yet written. *)
Definition pending_bytes (b : BufReadWrite R W) : list byte :=
  slice (buf b) (r_offset b) (w_offset b).

(** The representation invariant. *)
Definition wf (b : BufReadWrite R W) : Prop :=
  0 <= r_offset b <= w_offset b /\ w_offset b <= zlen (buf b) /\
  0 < zlen (buf b) < isize_bound.

(** The states of the [fill_flush] future that go with a buffer: it waits in
    [flush] only with a full buffer and in [read] only with room. *)
Definition ff_wf (st : FillFlush) (b : BufReadWrite R W) : Prop :=
  match st with
  | FF_Start => True
  | FF_Flush => w_offset b = zlen (buf b)
  | FF_Read => w_offset b < zlen (buf b)
  end.

(** Every byte that left the reader is either delivered to the writer or
    pending, in order. *)
Definition conserved `{!AsyncReadSpec R} `{!AsyncWriteSpec W}
    (b : BufReadWrite R W) : Prop :=
  written (writer b) ++ pending_bytes b = consumed (reader b).
End defs.

(** ** Lemmas *)

Section lemmas.
Context {R W : Type} `{AsyncReadSpec R} `{AsyncWriteSpec W}.
Implicit Types b : BufReadWrite R W.

(** What [WriteAll::poll] does from offset [pos]: it neither panics nor runs
    out of fuel, it delivers a prefix of [buf[pos..end]], and the offsets it
    leaves delimit the rest. *)
Lemma write_all_loop_spec fuel cx (w : W) buf pos end_ :
  0 <= pos <= end_ -> end_ <= zlen buf -> zlen buf < isize_bound ->
  end_ - pos <= Z.of_nat fuel ->
  exists w' r' wo' p sent,
    write_all_loop fuel cx w buf pos end_ end_ = Ret (w', r', wo', p) /\
    0 <= r' <= wo' /\ wo' <= end_ /\
    written w' = written w ++ sent /\
    slice buf pos end_ = sent ++ slice buf r' wo' /\
    (if decide (p = Ready (Ok tt)) then r' = 0 /\ wo' = 0
     else wo' = end_ /\ r' = pos + zlen sent).
Proof.
  intros Hpos Hend Hlen. revert w pos Hpos.
  induction fuel as [|fuel IH]; intros w pos Hpos Hfuel; cbn [write_all_loop].
  all: destruct (Z.ltb_spec pos end_) as [Hlt|Hge].
  2, 4: rewrite (proj2 (Z.eqb_eq pos end_)) by lia;
    eexists _, _, _, _, []; split; [done|]; rewrite decide_True by done; rewrite app_nil_r;
    replace pos with end_ by lia; rewrite !slice_empty; split_and!; done || lia.
  1: lia.
  rewrite slice_checked_ret by lia. cbn [obind].
  destruct (poll_write w cx (slice buf pos end_)) as [w1 [[n|e]|]] eqn:E.
  - apply poll_write_ok in E as [Hn Hw].
    rewrite zlen_slice in Hn by lia.
    assert (isize_bound < usize_bound) by done.
    rewrite usize_add_small by lia.
    rewrite ztake_slice in Hw by lia.
    destruct (Z.eqb_spec n 0) as [->|Hn0].
    + rewrite Z.add_0_r in Hw |- *. rewrite slice_empty in Hw.
      eexists _, _, _, _, []; split; [done|]. rewrite decide_False by done.
      rewrite Hw, (zlen_nil (A := byte)).
      split_and!; done || lia.
    + destruct (IH w1 (pos + n)) as (w' & r' & wo' & p & sent & -> & Hr & Hwo & Hb & Hs & Hp);
        [lia..|].
      eexists _, _, _, _, (slice buf pos (pos + n) ++ sent); split; [done|].
      rewrite Hb, Hw, zlen_app, zlen_slice, <- !app_assoc, <- Hs, <- slice_split by lia.
      split_and!; [done || lia..|]. case_decide; [done|lia].
  - apply poll_write_err in E as Hw. eexists _, _, _, _, []; split; [done|].
    rewrite decide_False by done. rewrite Hw, app_nil_r, (zlen_nil (A := byte)).
    split_and!; done || lia.
  - apply poll_write_pending in E as Hw. eexists _, _, _, _, []; split; [done|].
    rewrite decide_False by done. rewrite Hw, app_nil_r, (zlen_nil (A := byte)).
    split_and!; done || lia.
Qed.

(** A writer that takes at least one byte each time never leaves the loop
    early. *)
Lemma write_all_loop_completes fuel cx (w : W) buf pos end_ wo :
  0 <= pos <= end_ -> end_ <= zlen buf -> zlen buf < isize_bound ->
  end_ - pos <= Z.of_nat fuel ->
  (forall w bytes, bytes <> [] ->
     exists w' n, @poll_write W _ w cx bytes = (w', Ready (Ok n)) /\ n <> 0) ->
  exists w', write_all_loop fuel cx w buf pos end_ wo = Ret (w', 0, 0, Ready (Ok tt)).
Proof.
  intros Hpos Hend Hlen Hfuel Hw. revert w pos Hpos Hfuel.
  induction fuel as [|fuel IH]; intros w pos Hpos Hfuel; cbn [write_all_loop].
  all: destruct (Z.ltb_spec pos end_) as [Hlt|Hge];
    [|rewrite (proj2 (Z.eqb_eq pos end_)) by lia; by eexists].
  1: lia.
  rewrite slice_checked_ret by lia. cbn [obind].
  destruct (Hw w (slice buf pos end_)) as (w1 & n & E & Hn).
  { apply zlen_pos_iff. rewrite zlen_slice; lia. }
  rewrite E. apply poll_write_ok in E as [Hn' _]. rewrite zlen_slice in Hn' by lia.
  assert (isize_bound < usize_bound) by done.
  rewrite (proj2 (Z.eqb_neq n 0)), usize_add_small by lia. apply IH; lia.
Qed.

(** The same for the future of [flush]. *)
Lemma poll_flush_spec cx b :
  wf b ->
  exists b' p sent,
    poll_flush cx b = Ret (b', p) /\ wf b' /\
    reader b' = reader b /\ buf b' = buf b /\
    written (writer b') = written (writer b) ++ sent /\
    pending_bytes b = sent ++ pending_bytes b' /\
    (if decide (p = Ready (Ok tt)) then r_offset b' = 0 /\ w_offset b' = 0
     else w_offset b' = w_offset b /\ r_offset b' = r_offset b + zlen sent).
Proof.
  intros (Hr & Hw & Hl).
  destruct (write_all_loop_spec (Z.to_nat (w_offset b - r_offset b)) cx (writer b)
    (buf b) (r_offset b) (w_offset b)) as (w' & r' & wo' & p & sent & E & Hr' & Hwo & Hb & Hs & Hp);
    [lia..|].
  exists (mkBRW (reader b) w' (buf b) r' wo'), p, sent.
  unfold poll_flush, WriteAll_poll. rewrite E. cbn [obind].
  unfold wf, pending_bytes; cbn. split_and!; try done; lia.
Qed.

(** The read part of [fill_flush] with room in the buffer. *)
Lemma poll_read_part_spec cx b :
  wf b -> w_offset b < zlen (buf b) ->
  exists st' b' p,
    poll_read_part cx b = Ret (st', b', p) /\ wf b' /\ ff_wf st' b' /\
    zlen (buf b') = zlen (buf b) /\ writer b' = writer b /\
    match p with
    | Ready (Ok n) => exists data,
        st' = FF_Start /\ n = zlen data /\
        poll_read (reader b) cx (zlen (buf b) - w_offset b)
          = (reader b', Ready (Ok data)) /\
        consumed (reader b') = consumed (reader b) ++ data /\
        pending_bytes b' = pending_bytes b ++ data
    | Ready (Err _) =>
        st' = FF_Start /\ consumed (reader b') = consumed (reader b) /\
        pending_bytes b' = pending_bytes b
    | Pending =>
        st' = FF_Read /\ consumed (reader b') = consumed (reader b) /\
        pending_bytes b' = pending_bytes b
    end.
Proof.
  intros (Hr & Hw & Hl) Hroom. unfold poll_read_part.
  rewrite slice_checked_ret by lia. cbn [obind]. rewrite zlen_slice by lia.
  destruct (poll_read (reader b) cx (zlen (buf b) - w_offset b)) as [r' [[data|e]|]] eqn:E.
  - pose proof (zlen_nonneg data).
    apply poll_read_ok in E as Hok; [|lia]. destruct Hok as [Hn Hc].
    assert (isize_bound < usize_bound) by done.
    rewrite usize_add_small by lia.
    eexists _, _, _. split; [done|]. unfold wf, ff_wf, pending_bytes; cbn.
    rewrite !zlen_splice by lia. split_and!; try done; try lia.
    exists data. split_and!; try done.
    rewrite (slice_split _ (r_offset b) (w_offset b)) by lia.
    rewrite slice_splice_before, slice_splice_data by lia. done.
  - apply poll_read_err in E as Hc. eexists _, _, _. split; [done|].
    unfold wf, ff_wf, pending_bytes; cbn. split_and!; try done; lia.
  - apply poll_read_pending in E as Hc. eexists _, _, _. split; [done|].
    unfold wf, ff_wf, pending_bytes; cbn. split_and!; try done; lia.
Qed.

(** After a completed [flush] there is room to read into. *)
Lemma flushed_room b b' :
  wf b -> wf b' -> buf b' = buf b -> w_offset b' = 0 -> w_offset b' < zlen (buf b').
Proof. unfold wf. intros. lia. Qed.

(** The flush part of [fill_flush], with a full buffer: either it stops before
    the read, or it empties the buffer and reads into it. *)
Lemma poll_flush_part_spec cx b :
  wf b -> w_offset b = zlen (buf b) ->
  exists b1 p1 sent,
    poll_flush cx b = Ret (b1, p1) /\ wf b1 /\ reader b1 = reader b /\ buf b1 = buf b /\
    written (writer b1) = written (writer b) ++ sent /\
    pending_bytes b = sent ++ pending_bytes b1 /\
    match p1 with
    | Ready (Ok _) =>
        poll_flush_part cx b = poll_read_part cx b1 /\ w_offset b1 < zlen (buf b1)
    | Ready (Err e) => poll_flush_part cx b = Ret (FF_Start, b1, Ready (Err e))
    | Pending =>
        poll_flush_part cx b = Ret (FF_Flush, b1, Pending) /\ w_offset b1 = zlen (buf b1)
    end.
Proof.
  intros Hwf Hfull. unfold poll_flush_part.
  destruct (poll_flush_spec cx b Hwf) as (b1 & p1 & sent & E & Hwf1 & Hrd & Hb & Hc & Hs & Hp).
  exists b1, p1, sent. rewrite E. cbn [obind].
  split_and!; try done.
  destruct p1 as [[[]|e]|].
  - rewrite decide_True in Hp by done. destruct Hp as [_ Hw0].
    split; [done|]. by eapply flushed_room.
  - done.
  - rewrite decide_False in Hp by done. split; [done|]. rewrite Hb. lia.
Qed.

(** A case analysis of one poll of [fill_flush]: the poll either stops in the
    flush or is the read part from a state with room, which is [b] itself or
    [b] after a completed flush. *)
Lemma poll_fill_flush_cases cx st b :
  wf b -> ff_wf st b ->
  exists b1 sent, wf b1 /\ reader b1 = reader b /\ zlen (buf b1) = zlen (buf b) /\
    written (writer b1) = written (writer b) ++ sent /\
    pending_bytes b = sent ++ pending_bytes b1 /\
    ((poll_fill_flush cx st b = Ret (FF_Flush, b1, Pending) /\
        w_offset b1 = zlen (buf b1)) \/
     (exists e, poll_fill_flush cx st b = Ret (FF_Start, b1, Ready (Err e))) \/
     (poll_fill_flush cx st b = poll_read_part cx b1 /\ w_offset b1 < zlen (buf b1))).
Proof.
  intros Hwf Hst.
  assert (w_offset b = zlen (buf b) ->
    poll_fill_flush cx st b = poll_flush_part cx b) as Hfull.
  { intros E. unfold poll_fill_flush. rewrite E, Z.eqb_refl.
    destruct st; cbn in Hst; [done..|lia]. }
  assert (w_offset b < zlen (buf b) ->
    poll_fill_flush cx st b = poll_read_part cx b) as Hroom.
  { intros E. unfold poll_fill_flush. rewrite (proj2 (Z.eqb_neq _ _)) by lia.
    destruct st; cbn in Hst; [done|lia|done]. }
  destruct (decide (w_offset b = zlen (buf b))) as [E|E].
  - rewrite (Hfull E).
    destruct (poll_flush_part_spec cx b Hwf E)
      as (b1 & p1 & sent & _ & Hwf1 & Hrd & Hb & Hc & Hs & Hp).
    exists b1, sent. rewrite Hb. split_and!; try done.
    rewrite Hb in Hp. destruct p1 as [[[]|e]|]; eauto.
  - exists b, []. destruct Hwf as (Hr & Hw & Hl). rewrite Hroom, app_nil_r by lia.
    split_and!; try done; try lia. right; right. split; [done|lia].
Qed.

(** What one poll of [fill_flush] does, for the tasks that use it. *)
Lemma poll_fill_flush_spec cx st b :
  wf b -> ff_wf st b ->
  exists st' b' p sent data, poll_fill_flush cx st b = Ret (st', b', p) /\
    wf b' /\ ff_wf st' b' /\ zlen (buf b') = zlen (buf b) /\
    written (writer b') = written (writer b) ++ sent /\
    consumed (reader b') = consumed (reader b) ++ data /\
    pending_bytes b ++ data = sent ++ pending_bytes b' /\
    (forall n, p = Ready (Ok n) -> n = zlen data) /\
    (p = Pending -> data = []).
Proof.
  intros Hwf Hst.
  destruct (poll_fill_flush_cases cx st b Hwf Hst)
    as (b1 & sent & Hwf1 & Hrd & Hlen & Hw1 & Hs & Hcases).
  destruct Hcases as [[-> Hf]|[[e ->]|[-> Hroom]]].
  1, 2: eexists _, _, _, sent, []; rewrite Hrd, !app_nil_r; split_and!; done.
  destruct (poll_read_part_spec cx b1 Hwf1 Hroom)
    as (st' & b' & p & -> & Hwf' & Hst' & Hl & Hw & Hp).
  rewrite Hlen in Hl. rewrite Hrd in Hp. rewrite <- Hw in Hw1.
  destruct p as [[n|e]|].
  - destruct Hp as (data & _ & -> & _ & Hc & Hpd). eexists _, _, _, sent, data.
    rewrite Hs, Hpd, <- app_assoc. split_and!; try done. by intros n [= ->].
  - destruct Hp as (_ & Hc & Hpd). eexists _, _, _, sent, [].
    rewrite Hs, Hpd, !app_nil_r. split_and!; done.
  - destruct Hp as (_ & Hc & Hpd). eexists _, _, _, sent, [].
    rewrite Hs, Hpd, !app_nil_r. split_and!; done.
Qed.

(** Conservation follows from the three equations of [poll_fill_flush_spec]. *)
Lemma conserved_step b b' sent data :
  conserved b ->
  written (writer b') = written (writer b) ++ sent ->
  consumed (reader b') = consumed (reader b) ++ data ->
  pending_bytes b ++ data = sent ++ pending_bytes b' ->
  conserved b'.
Proof.
  unfold conserved. intros Hc Hw Hr Hp.
  by rewrite Hw, Hr, <- Hc, <- !app_assoc, Hp.
Qed.

(** With a writer that takes something each time, [flush] completes. *)
Lemma poll_flush_willing cx b :
  wf b ->
  (forall w bytes, bytes <> [] ->
     exists w' n, @poll_write W _ w cx bytes = (w', Ready (Ok n)) /\ n <> 0) ->
  exists b', poll_flush cx b = Ret (b', Ready (Ok tt)).
Proof.
  intros (Hr & Hwo & Hl) Hw.
  destruct (write_all_loop_completes (Z.to_nat (w_offset b - r_offset b)) cx (writer b)
    (buf b) (r_offset b) (w_offset b) (w_offset b)) as [w' E]; [lia..|done|].
  unfold poll_flush, WriteAll_poll. rewrite E. by eexists.
Qed.

(** The state of a suspended [fill_flush] future is determined by the buffer. *)
Lemma fill_flush_restart cx st b :
  ff_wf st b -> poll_fill_flush cx FF_Start b = poll_fill_flush cx st b.
Proof.
  unfold poll_fill_flush, ff_wf. destruct st; intros Hst; [done| |].
  - by rewrite Hst, Z.eqb_refl.
  - rewrite (proj2 (Z.eqb_neq _ _)) by lia. done.
Qed.

(** What every write of a piece of the buffer keeps about the writer is kept by
    the operations of the pump. *)
Definition write_keeps cx (n : Z) (P : W -> Prop) : Prop :=
  forall w bytes w' r, zlen bytes <= n -> P w -> poll_write w cx bytes = (w', r) -> P w'.

Lemma write_all_loop_keeps P fuel cx (w : W) buf pos end_ wo w' r wo' p :
  write_keeps cx (zlen buf) P -> P w ->
  write_all_loop fuel cx w buf pos end_ wo = Ret (w', r, wo', p) -> P w'.
Proof.
  intros HP. revert w pos. induction fuel as [|fuel IH]; intros w pos Hw; cbn [write_all_loop].
  - destruct (pos <? end_); [done|]. destruct (pos =? end_); [|done]. by intros [= <- _ _ _].
  - destruct (pos <? end_); [|destruct (pos =? end_); [|done]; by intros [= <- _ _ _]].
    destruct (slice_checked buf pos end_) as [chunk| |] eqn:Es; [|done..]. cbn [obind].
    destruct (poll_write w cx chunk) as [w1 q] eqn:E.
    assert (P w1) as Hw1.
    { eapply HP; [|exact Hw|exact E]. by eapply slice_checked_le. }
    destruct q as [[n|e]|]; [destruct (n =? 0)|..]; try (by intros [= <- _ _ _]). by apply IH.
Qed.

Lemma poll_flush_keeps P cx b b' p :
  write_keeps cx (zlen (buf b)) P -> P (writer b) -> poll_flush cx b = Ret (b', p) -> P (writer b').
Proof.
  intros HP Hw. unfold poll_flush, WriteAll_poll.
  destruct (write_all_loop _ _ _ _ _ _ _) as [[[[w r] wo] q]| |] eqn:E; [|done..].
  cbn. intros [= <- <-]. by eapply write_all_loop_keeps.
Qed.

Lemma poll_read_part_writer cx b st b' p :
  poll_read_part cx b = Ret (st, b', p) -> writer b' = writer b.
Proof.
  unfold poll_read_part. destruct (slice_checked _ _ _); [|done..]. cbn [obind].
  destruct (poll_read _ _ _) as [r [[d|e]|]]; by intros [= _ <- _].
Qed.

Lemma poll_fill_flush_keeps P cx st b st' b' p :
  write_keeps cx (zlen (buf b)) P -> P (writer b) ->
  poll_fill_flush cx st b = Ret (st', b', p) -> P (writer b').
Proof.
  intros HP Hw.
  assert (poll_flush_part cx b = Ret (st', b', p) -> P (writer b')) as Hflush.
  { unfold poll_flush_part. destruct (poll_flush cx b) as [[b1 q]| |] eqn:E; [|done..]. cbn [obind].
    apply (poll_flush_keeps P) in E; [|done..]. destruct q as [[u|e]|].
    - intros Er%poll_read_part_writer. by rewrite Er.
    - by intros [= _ <- _].
    - by intros [= _ <- _]. }
  assert (poll_read_part cx b = Ret (st', b', p) -> P (writer b')) as Hread.
  { intros Er%poll_read_part_writer. by rewrite Er. }
  destruct st; cbn [poll_fill_flush]; [destruct (_ =? _)|..]; auto.
Qed.

(** Where an error of the writer goes.  [P] holds of the writer until a write fails,
    [Q e] once one has failed with [e]; the pump stops at the first failure and hands
    the error on. *)
Definition write_fails cx (P : W -> Prop) (Q : io_error -> W -> Prop) : Prop :=
  forall w bytes w' r, P w -> poll_write w cx bytes = (w', r) ->
    match r with Ready (Err e) => Q e w' | _ => P w' end.

Lemma write_all_loop_fails P Q fuel cx (w : W) buf pos end_ wo w' r wo' p :
  write_fails cx P Q -> P w ->
  write_all_loop fuel cx w buf pos end_ wo = Ret (w', r, wo', p) ->
  P w' \/ exists e, p = Ready (Err e) /\ Q e w'.
Proof.
  intros HP. revert w pos. induction fuel as [|fuel IH]; intros w pos Hw; cbn [write_all_loop].
  - destruct (pos <? end_); [done|]. destruct (pos =? end_); [|done]. intros [= <- _ _ _]. by left.
  - destruct (pos <? end_); [|destruct (pos =? end_); [|done]; intros [= <- _ _ _]; by left].
    destruct (slice_checked buf pos end_) as [chunk| |]; [|done..]. cbn [obind].
    destruct (poll_write w cx chunk) as [w1 q] eqn:E. specialize (HP w chunk w1 q Hw E).
    destruct q as [[n|e]|]; [destruct (n =? 0)|..].
    + intros [= <- _ _ _]. by left.
    + by apply IH.
    + intros [= <- _ _ <-]. right. by exists e.
    + intros [= <- _ _ _]. by left.
Qed.

Lemma poll_flush_fails P Q cx b b' p :
  write_fails cx P Q -> P (writer b) -> poll_flush cx b = Ret (b', p) ->
  P (writer b') \/ exists e, p = Ready (Err e) /\ Q e (writer b').
Proof.
  intros HP Hw. unfold poll_flush, WriteAll_poll.
  destruct (write_all_loop _ _ _ _ _ _ _) as [[[[w r] wo] q]| |] eqn:E; [|done..].
  cbn. intros [= <- <-]. by eapply write_all_loop_fails.
Qed.

Lemma poll_fill_flush_fails P Q cx st b st' b' p :
  write_fails cx P Q -> P (writer b) -> poll_fill_flush cx st b = Ret (st', b', p) ->
  P (writer b') \/ exists e, p = Ready (Err e) /\ Q e (writer b').
Proof.
  intros HP Hw.
  assert (poll_flush_part cx b = Ret (st', b', p) ->
    P (writer b') \/ exists e, p = Ready (Err e) /\ Q e (writer b')) as Hflush.
  { unfold poll_flush_part. destruct (poll_flush cx b) as [[b1 q]| |] eqn:E; [|done..]. cbn [obind].
    apply (poll_flush_fails P Q) in E; [|done..]. destruct E as [E|(e & -> & E)].
    - destruct q as [[u|e]|]; [intros Er%poll_read_part_writer; rewrite Er|intros [= _ <- _]..]; by left.
    - intros [= _ <- <-]. right. by exists e. }
  assert (poll_read_part cx b = Ret (st', b', p) -> P (writer b')) as Hread.
  { intros Er%poll_read_part_writer. by rewrite Er. }
  destruct st; cbn [poll_fill_flush]; [destruct (_ =? _)|..]; auto.
Qed.

(** [BufReadWrite::new] gives an empty buffer of the requested size. *)
Lemma new_spec (r : R) (w : W) size :
  0 < size < isize_bound ->
  exists b, new r w size = Ret b /\ wf b /\ reader b = r /\ writer b = w /\
    zlen (buf b) = size /\ pending_bytes b = [].
Proof.
  intros Hs. unfold new. rewrite (proj2 (Z.ltb_lt 0 size)) by lia.
  eexists. split; [done|]. unfold wf, pending_bytes; cbn.
  rewrite zlen_replicate, slice_empty. split_and!; done || lia.
Qed.
End lemmas.

#[export] Hint Resolve conserved_step : sm.

(** ** Properties *)

Section properties.
Context {R W : Type} `{AsyncReadSpec R} `{AsyncWriteSpec W}.
Implicit Types b : BufReadWrite R W.

(** C15: one poll of [fill_flush], in any reachable state of its future and
    whatever the reader and the writer answer, neither panics nor loops; it
    keeps the offsets in range, and no byte is lost, duplicated or reordered:
    what the writer has taken followed by what is in the buffer is exactly what
    has left the reader. *)
Theorem fill_flush_conserves cx st b :
  wf b -> ff_wf st b -> conserved b ->
  exists st' b' p, poll_fill_flush cx st b = Ret (st', b', p) /\
    wf b' /\ ff_wf st' b' /\ conserved b'.
Proof.
  intros Hwf Hst Hc.
  destruct (poll_fill_flush_spec cx st b Hwf Hst)
    as (st' & b' & p & sent & data & E & Hwf' & Hst' & _ & Hw & Hr & Hp & _).
  exists st', b', p. split_and!; try done. eauto with sm.
Qed.

(** C21: [flush] is all or nothing in its report and exact in its progress: on
    [Ok] the writer has received exactly the pending bytes and the buffer is
    empty; on [Pending] or an error it has received a prefix of them, the read
    offset has moved past that prefix, and what is left is still pending. *)
Theorem flush_exact cx b :
  wf b ->
  exists b' p, poll_flush cx b = Ret (b', p) /\ wf b' /\ reader b' = reader b /\
    match p with
    | Ready (Ok _) =>
        written (writer b') = written (writer b) ++ pending_bytes b /\
        r_offset b' = 0 /\ w_offset b' = 0
    | _ => exists sent,
        written (writer b') = written (writer b) ++ sent /\
        pending_bytes b = sent ++ pending_bytes b' /\
        r_offset b' = r_offset b + zlen sent /\ w_offset b' = w_offset b
    end.
Proof.
  intros Hwf.
  destruct (poll_flush_spec cx b Hwf) as (b' & p & sent & E & Hwf' & Hrd & Hb & Hc & Hs & Hp).
  exists b', p. split_and!; try done.
  destruct p as [[[]|e]|]; [|rewrite decide_False in Hp by done; exists sent; by destruct Hp..].
  rewrite decide_True in Hp by done. destruct Hp as [Hr0 Hw0].
  unfold pending_bytes in Hs at 2. rewrite Hr0, Hw0, slice_empty, app_nil_r in Hs.
  by rewrite Hs.
Qed.

(** C22: [fill_flush] is cancellation safe: dropping a suspended [fill_flush]
    future and calling [fill_flush] again is the same as polling the suspended
    future again, in every state the future can be suspended in. *)
Theorem fill_flush_cancel_safe cx st b :
  ff_wf st b -> poll_fill_flush cx FF_Start b = poll_fill_flush cx st b.
Proof.
  apply fill_flush_restart.
Qed.

(** [fill_flush] returns [Ok(0)], which the read loops take as the end of
    the stream, only when the reader itself answered [Ok(0)] to a read into a
    non-empty buffer. *)
Theorem fill_flush_zero_is_eof cx st b st' b' :
  wf b -> ff_wf st b ->
  poll_fill_flush cx st b = Ret (st', b', Ready (Ok 0)) ->
  exists cap, 0 < cap /\ poll_read (reader b) cx cap = (reader b', Ready (Ok [])).
Proof.
  intros Hwf Hst Heq.
  destruct (poll_fill_flush_cases cx st b Hwf Hst)
    as (b1 & sent & Hwf1 & Hrd & Hlen & Hc1 & Hs & Hcases).
  destruct Hcases as [[E Hf]|[[e E]|[E Hroom]]]; rewrite E in Heq; [done..|].
  destruct (poll_read_part_spec cx b1 Hwf1 Hroom)
    as (st2 & b2 & p & E2 & _ & _ & _ & _ & Hp).
  rewrite E2 in Heq. injection Heq as -> -> ->.
  destruct Hp as (data & _ & Hn & Hread & _).
  symmetry in Hn. apply zlen_zero_iff in Hn as ->.
  exists (zlen (buf b1) - w_offset b1). split; [lia|]. by rewrite <- Hrd.
Qed.

End properties.

Section contract.
Context {R W : Type} `{AsyncRead R} `{AsyncWrite W}.
Implicit Types b : BufReadWrite R W.

(** A writer that claims to have taken more bytes than it was given (against
    the contract of [AsyncWrite]) is caught by the [assert_eq!] at the end of
    [WriteAll::poll]: the task panics instead of skipping bytes. *)
Lemma flush_overrun_panics cx b w' n :
  wf b -> poll_write (writer b) cx (pending_bytes b) = (w', Ready (Ok n)) ->
  pending_bytes b <> [] -> zlen (pending_bytes b) < n < isize_bound ->
  poll_flush cx b = Panic.
Proof.
  intros (Hr & Hw & Hl) E Hne Hn. unfold pending_bytes in *.
  apply zlen_pos_iff in Hne. rewrite zlen_slice in Hne, Hn by lia.
  unfold poll_flush, WriteAll_poll.
  assert (isize_bound + isize_bound <= usize_bound) by done.
  destruct (Z.to_nat (w_offset b - r_offset b)) as [|fuel] eqn:Ef; [lia|].
  cbn [write_all_loop]. rewrite (proj2 (Z.ltb_lt _ _)) by lia.
  rewrite slice_checked_ret by lia. cbn [obind]. rewrite E.
  rewrite (proj2 (Z.eqb_neq n 0)), usize_add_small by lia.
  destruct fuel; cbn [write_all_loop];
    rewrite (proj2 (Z.ltb_ge _ _)), (proj2 (Z.eqb_neq _ _)) by lia; done.
Qed.

End contract.

(** ** Concrete runs *)

(** A full buffer of four bytes of which the first is already delivered; the
    writer takes two bytes and then reports [Pending]. *)
Definition demo_brw : BufReadWrite ScriptReader ScriptWriter :=
  mkBRW (mkScriptReader [Ready (Ok [x05; x06])] [x01; x02; x03; x04])
    (mkScriptWriter [Ready (Ok 2); Pending] [x01]) [x01; x02; x03; x04] 1 4.

Definition demo_cx : Waker := mkWaker 1 1.

(** Two polls of [fill_flush] on it: suspended in the flush, then flushed and
    filled again. *)
Example demo_fill_flush :
  (let* '(st, b, p) := poll_fill_flush demo_cx FF_Start demo_brw in
   let* '(st', b', p') := poll_fill_flush demo_cx st b in
   Ret (st, p, written (writer b), st', p', written (writer b'), pending_bytes b'))
  = Ret (FF_Flush, Pending, [x01; x02; x03],
         FF_Start, Ready (Ok 2), [x01; x02; x03; x04], [x05; x06]).
Proof. vm_compute. reflexivity. Qed.

Lemma demo_brw_wf : wf demo_brw.
Proof. unfold wf. cbn. unfold zlen, isize_bound. cbn. lia. Qed.

Lemma fill_flush_conserves_witness :
  wf demo_brw /\ ff_wf FF_Start demo_brw /\ conserved demo_brw /\
  exists st' b' p, poll_fill_flush demo_cx FF_Start demo_brw = Ret (st', b', p) /\
    wf b' /\ ff_wf st' b' /\ conserved b'.
Proof.
  split; [apply demo_brw_wf|]. split; [exact I|]. split; [reflexivity|].
  apply (fill_flush_conserves demo_cx FF_Start demo_brw);
    [apply demo_brw_wf|exact I|reflexivity].
Defined.

Lemma flush_exact_witness :
  exists b' p, poll_flush demo_cx demo_brw = Ret (b', p) /\ wf b' /\
    reader b' = reader demo_brw /\
    match p with
    | Ready (Ok _) =>
        written (writer b') = written (writer demo_brw) ++ pending_bytes demo_brw /\
        r_offset b' = 0 /\ w_offset b' = 0
    | _ => exists sent,
        written (writer b') = written (writer demo_brw) ++ sent /\
        pending_bytes demo_brw = sent ++ pending_bytes b' /\
        r_offset b' = r_offset demo_brw + zlen sent /\ w_offset b' = w_offset demo_brw
    end.
Proof. apply (flush_exact demo_cx demo_brw demo_brw_wf). Defined.

Lemma fill_flush_cancel_safe_witness :
  poll_fill_flush demo_cx FF_Start demo_brw = poll_fill_flush demo_cx FF_Flush demo_brw.
Proof. apply (fill_flush_cancel_safe demo_cx FF_Flush demo_brw). reflexivity. Defined.

(** A reader at the end of its stream, with an empty buffer. *)
Definition demo_eof : BufReadWrite ScriptReader ScriptWriter :=
  mkBRW (mkScriptReader [] []) (mkScriptWriter [] []) [x00; x00] 0 0.

Lemma fill_flush_zero_is_eof_witness :
  exists cap, 0 < cap /\
    poll_read (reader demo_eof) demo_cx cap = (reader demo_eof, Ready (Ok [])).
Proof.
  apply (fill_flush_zero_is_eof demo_cx FF_Start demo_eof FF_Start demo_eof).
  - unfold wf, zlen, isize_bound; cbn; lia.
  - exact I.
  - vm_compute. reflexivity.
Defined.
