(* ===== verification/Config.v ===== *)
(** * Connection configuration ([ConnConfig] of [conn.rs]) and the size
    constants shared by the reader and the writer *)

From S2P Require Import Prelude.

(** A zero interval means no automatic flush. *)
Record ConnConfig : Type := mkConnConfig {
  write_flush_interval : Duration;
  read_msg_flush_interval : Duration;
  msg_buffer_size : Z
}.

#[export] Instance ConnConfig_eq_decision : EqDecision ConnConfig.
Proof. solve_decision. Defined.

Definition MIN_MSG_BUFFER_SIZE : Z := 1024 * 8.
Definition MAX_MSG_BUFFER_SIZE : Z := 1024 * 1024 * 8.
