(* ===== verification/Reader.v ===== *)
(** * The reader task ([read.rs])

    [handle_reader] pumps the read half of the socket into the [on_msg]
    callback through a [BufReadWrite].  Each of its two loops is a state
    machine whose states are the await points of the task; a step polls the
    future the task is suspended on.  Whether the flush timer is ready is an
    input of the step. *)

From S2P Require Import Prelude AsyncIo Config BufReadWrite.

(** ** The message callback *)

(** [on_msg]: called with the bytes and a waker; [Ok(n)] acknowledges the first
    [n] bytes.  [S] is the state of the callback object, which lives outside
    the library. *)
Class OnMsg (S : Type) : Type :=
  on_msg : S -> list byte -> Waker -> S * poll (result Z string).

(** The contract of the callback: it acknowledges at most what it was given. *)
Class OnMsgSpec (S : Type) `{OnMsg S} : Type := {
  acked : S -> list byte;
  on_msg_ok s bytes wk s' n :
    on_msg s bytes wk = (s', Ready (Ok n)) ->
    0 <= n <= zlen bytes /\ acked s' = acked s ++ ztake n bytes;
  on_msg_err s bytes wk s' e :
    on_msg s bytes wk = (s', Ready (Err e)) -> acked s' = acked s;
  on_msg_pending s bytes wk s' :
    on_msg s bytes wk = (s', Pending) -> acked s' = acked s
}.

(** [OnMsgWrite], the callback seen as an [AsyncWrite]. *)
Record OnMsgWrite (S : Type) : Type := mkOnMsgWrite { on_msg_obj : S }.

Arguments mkOnMsgWrite {S}.
Arguments on_msg_obj {S}.

Section on_msg_write.
Context {S : Type} `{OnMsg S}.

#[export] Instance OnMsgWrite_poll_write : AsyncWrite (OnMsgWrite S) :=
  fun self cx bytes =>
    match on_msg (on_msg_obj self) bytes cx with
    | (s, Ready (Ok n)) => (mkOnMsgWrite s, Ready (Ok n))
    | (s, Ready (Err e)) =>
        (mkOnMsgWrite s, Ready (Err (IoNew Other ("error writing message: " +:+ e))))
    | (s, Pending) => (mkOnMsgWrite s, Pending)
    end.

Definition OnMsgWrite_poll_flush (self : OnMsgWrite S) (cx : Waker)
  : OnMsgWrite S * poll (io_result unit) := (self, Ready (Ok tt)).

Definition OnMsgWrite_poll_shutdown (self : OnMsgWrite S) (cx : Waker)
  : OnMsgWrite S * poll (io_result unit) := (self, Ready (Ok tt)).
End on_msg_write.

#[export] Instance OnMsgWrite_spec {S} `{OnMsgSpec S} : AsyncWriteSpec (OnMsgWrite S).
Proof.
  refine {| written := fun w => acked (on_msg_obj w) |}; intros w cx bytes w';
    unfold poll_write, OnMsgWrite_poll_write;
    destruct (on_msg (on_msg_obj w) bytes cx) as [s [[n|e]|]] eqn:E;
    intros; simplify_eq; cbn.
  - by eapply on_msg_ok.
  - by eapply on_msg_err.
  - by eapply on_msg_pending.
Defined.

(** A recorder around a callback, which passes the calls and the answers on: the
    error that a call has returned, and whether there was a call after it. *)
Record Recorded (S : Type) : Type := mkRecorded {
  rec_cb : S;
  rec_error : option string;
  rec_again : bool
}.

Arguments mkRecorded {S}.
Arguments rec_cb {S}.
Arguments rec_error {S}.
Arguments rec_again {S}.

#[export] Instance Recorded_on_msg {S} `{OnMsg S} : OnMsg (Recorded S) := fun s bytes wk =>
  let '(cb, p) := on_msg (rec_cb s) bytes wk in
  (match rec_error s with
   | Some e => mkRecorded cb (Some e) true
   | None => mkRecorded cb (match p with Ready (Err e) => Some e | _ => None end) (rec_again s)
   end, p).

#[export] Instance Recorded_spec {S} `{OnMsgSpec S} : OnMsgSpec (Recorded S).
Proof.
  refine {| acked := fun s => acked (rec_cb s) |}; intros s bytes wk s';
    unfold on_msg, Recorded_on_msg; destruct (on_msg (rec_cb s) bytes wk) as [cb p] eqn:E.
  - intros n [= <- ->]. apply on_msg_ok in E. by destruct (rec_error s).
  - intros e [= <- ->]. apply on_msg_err in E. by destruct (rec_error s).
  - intros [= <- ->]. apply on_msg_pending in E. by destruct (rec_error s).
Defined.

Lemma recorded_fails {S} `{OnMsg S} cx :
  write_fails cx
    (fun w : OnMsgWrite (Recorded S) =>
       rec_error (on_msg_obj w) = None /\ rec_again (on_msg_obj w) = false)
    (fun err w => exists e, err = IoNew Other ("error writing message: " +:+ e) /\
       rec_error (on_msg_obj w) = Some e /\ rec_again (on_msg_obj w) = false).
Proof.
  intros [s] bytes w' r [He Ha]. unfold poll_write, OnMsgWrite_poll_write, on_msg, Recorded_on_msg.
  cbn [on_msg_obj] in *. rewrite He. destruct (on_msg (rec_cb s) bytes cx) as [cb [[n|e]|]];
    intros [= <- <-]; cbn; [done|by exists e|done].
Qed.

(** ** The task *)

(** The await points of the two loops: [NF_*] for
    [handle_reader_no_auto_flush], [AF_*] for [handle_reader_auto_flush]. *)
Inductive ReaderTask : Type :=
| NF_Fill (ff : FillFlush)
| NF_Final
| AF_Select (ff : FillFlush) (has_data : bool)
| AF_Tick
| AF_Final
| Finished (r : io_result unit).

#[export] Instance ReaderTask_eq_decision : EqDecision ReaderTask.
Proof. solve_decision. Defined.

Section task.
Context {R S : Type} `{AsyncRead R} `{OnMsg S}.
Abbreviation brw := (BufReadWrite R (OnMsgWrite S)).

(** [handle_reader_no_auto_flush]: the buffer, and the task before its first
    [fill_flush]. *)
Definition handle_reader_no_auto_flush (read : R) (s : S) (msg_buf_size : Z)
  : outcome (ReaderTask * brw) :=
  let* b := new read (mkOnMsgWrite s) msg_buf_size in
  Ret (NF_Fill FF_Start, b).

(** [while read_write.fill_flush().await? != 0 {}] and the last flush. *)
Definition no_auto_flush_step (cx : Waker) (t : ReaderTask) (b : brw)
  : outcome (ReaderTask * brw) :=
  match t with
  | NF_Fill ff =>
      let* '(ff, b, p) := poll_fill_flush cx ff b in
      match p with
      | Ready (Ok n) => Ret (if n =? 0 then NF_Final else NF_Fill FF_Start, b)
      | Ready (Err e) => Ret (Finished (Err e), b)
      | Pending => Ret (NF_Fill ff, b)
      end
  | NF_Final =>
      let* '(b, p) := poll_flush cx b in
      match p with
      | Ready r => Ret (Finished r, b)
      | Pending => Ret (NF_Final, b)
      end
  | _ => Ret (t, b)
  end.

(** [handle_reader_auto_flush]: [has_data] is false at the start.  A zero
    duration fails the [debug_assert!], and [tokio::time::interval] panics on
    it. *)
Definition handle_reader_auto_flush (read : R) (s : S) (duration : Duration)
    (msg_buf_size : Z) : outcome (ReaderTask * brw) :=
  if is_zero duration then Panic else
  let* b := new read (mkOnMsgWrite s) msg_buf_size in
  Ret (AF_Select FF_Start false, b).

(** The biased [select!]: [fill_flush] is polled first; the tick is polled only
    when [fill_flush] is pending and there is data.  A completed branch drops
    the future of the other one. *)
Definition auto_flush_step (cx : Waker) (tick : bool) (t : ReaderTask) (b : brw)
  : outcome (ReaderTask * brw) :=
  match t with
  | AF_Select ff has_data =>
      let* '(ff, b, p) := poll_fill_flush cx ff b in
      match p with
      | Ready (Ok n) => Ret (if n =? 0 then AF_Final else AF_Select FF_Start true, b)
      | Ready (Err e) => Ret (Finished (Err e), b)
      | Pending =>
          if has_data && tick then Ret (AF_Tick, b) else Ret (AF_Select ff has_data, b)
      end
  | AF_Tick =>
      let* '(b, p) := poll_flush cx b in
      match p with
      | Ready (Ok _) => Ret (AF_Select FF_Start false, b)
      | Ready (Err e) => Ret (Finished (Err e), b)
      | Pending => Ret (AF_Tick, b)
      end
  | AF_Final =>
      let* '(b, p) := poll_flush cx b in
      match p with
      | Ready r => Ret (Finished r, b)
      | Pending => Ret (AF_Final, b)
      end
  | _ => Ret (t, b)
  end.

(** [handle_reader]: clamps the buffer size and picks the loop. *)
Definition handle_reader (read : R) (s : S) (config : ConnConfig)
  : outcome (ReaderTask * brw) :=
  let msg_buf_size :=
    Z.max (Z.min (msg_buffer_size config) MAX_MSG_BUFFER_SIZE) MIN_MSG_BUFFER_SIZE in
  let duration := read_msg_flush_interval config in
  if is_zero duration
  then handle_reader_no_auto_flush read s msg_buf_size
  else handle_reader_auto_flush read s duration msg_buf_size.

(** One step of whichever loop the task is in. *)
Definition reader_step (cx : Waker) (tick : bool) (t : ReaderTask) (b : brw)
  : outcome (ReaderTask * brw) :=
  match t with
  | NF_Fill _ | NF_Final => no_auto_flush_step cx t b
  | AF_Select _ _ | AF_Tick | AF_Final => auto_flush_step cx tick t b
  | Finished _ => Ret (t, b)
  end.

(** A run of the task, one step for every element of [ticks] (whether the flush
    timer is ready at that step). *)
Fixpoint reader_run (cx : Waker) (ticks : list bool) (t : ReaderTask) (b : brw)
  : outcome (ReaderTask * brw) :=
  match ticks with
  | [] => Ret (t, b)
  | tick :: ticks =>
      let* '(t, b) := reader_step cx tick t b in
      reader_run cx ticks t b
  end.

(** The invariant of the task.  [has_data = false] means that nothing is
    buffered, so that the disabled tick leaves no byte behind; the task ends
    with [Ok] only with an empty buffer. *)
Definition task_inv (t : ReaderTask) (b : brw) : Prop :=
  match t with
  | NF_Fill ff => ff_wf ff b
  | AF_Select ff has_data => ff_wf ff b /\ (has_data = false -> pending_bytes b = [])
  | Finished (Ok _) => pending_bytes b = []
  | _ => True
  end.

(** The part of the invariant that does not depend on the await point. *)
Definition brw_inv `{!AsyncReadSpec R} `{!OnMsgSpec S} (size : Z) (b : brw) : Prop :=
  wf b /\ conserved b /\ zlen (buf b) = size.

(** A callback that acknowledges at least one byte whenever it is called. *)
Definition willing (cx : Waker) : Prop :=
  forall (s : S) bytes, bytes <> [] ->
    exists s' n, on_msg s bytes cx = (s', Ready (Ok n)) /\ n <> 0.

(** A reader that is at the end of its stream. *)
Definition at_eof (cx : Waker) (r : R) : Prop :=
  forall cap, exists r', poll_read r cx cap = (r', Ready (Ok [])).
End task.

(** ** Lemmas *)

Section lemmas.
Context {R S : Type} `{AsyncReadSpec R} `{OnMsgSpec S}.
Abbreviation brw := (BufReadWrite R (OnMsgWrite S)).
Implicit Types b : brw.

Lemma flush_keeps_inv cx size b :
  brw_inv size b ->
  exists b' p, poll_flush cx b = Ret (b', p) /\ brw_inv size b' /\
    (p = Ready (Ok tt) -> pending_bytes b' = []).
Proof.
  intros (Hwf & Hc & Hl).
  destruct (poll_flush_spec cx b Hwf)
    as (b' & p & sent & E & Hwf' & Hr & Hb & Hw & Hs & Hp).
  exists b', p. split; [done|]. split.
  - split_and!; [done| |by rewrite Hb].
    apply (conserved_step b b' sent []); rewrite ?app_nil_r; congruence.
  - intros ->. rewrite decide_True in Hp by done. destruct Hp as [Hr0 Hw0].
    unfold pending_bytes. by rewrite Hr0, Hw0, slice_empty.
Qed.

Lemma fill_flush_keeps_inv cx size ff b :
  brw_inv size b -> ff_wf ff b ->
  exists ff' b' p, poll_fill_flush cx ff b = Ret (ff', b', p) /\
    brw_inv size b' /\ ff_wf ff' b' /\
    (pending_bytes b = [] -> p = Pending -> pending_bytes b' = []).
Proof.
  intros (Hwf & Hc & Hl) Hff.
  destruct (poll_fill_flush_spec cx ff b Hwf Hff)
    as (ff' & b' & p & sent & data & E & Hwf' & Hff' & Hlen & Hw & Hr & Hp & _ & Hpd).
  exists ff', b', p. split; [done|]. split; [split_and!; [done| |congruence]|].
  - by eapply conserved_step.
  - split; [done|]. intros Hnil ->. rewrite Hnil, Hpd in Hp by done.
    symmetry in Hp. by apply app_eq_nil in Hp as [_ Hp].
Qed.

(** With a willing callback a flush delivers everything. *)
Lemma flush_delivers cx size b :
  brw_inv size b -> @willing S _ cx ->
  exists b', poll_flush cx b = Ret (b', Ready (Ok tt)) /\ brw_inv size b' /\
    reader b' = reader b /\ acked (on_msg_obj (writer b')) = consumed (reader b').
Proof.
  intros Hb Hw. destruct (flush_keeps_inv cx size b Hb) as (b' & p & E & Hb' & Hnil).
  destruct Hb as (Hwf & _ & _).
  destruct (poll_flush_spec cx b Hwf) as (b2 & p2 & _ & E2 & _ & Hr & _).
  destruct (poll_flush_willing cx b Hwf) as [b3 E3].
  { intros w bytes Hne. destruct (Hw (on_msg_obj w) bytes Hne) as (s' & n & E1 & Hn).
    exists (mkOnMsgWrite s'), n. split; [|done].
    unfold poll_write, OnMsgWrite_poll_write. by rewrite E1. }
  rewrite E2 in E. injection E as <- <-. rewrite E2 in E3. injection E3 as <- ->.
  exists b2. split_and!; try done. destruct Hb' as (_ & Hc & _).
  unfold conserved in Hc. cbn in Hc. by rewrite Hnil, app_nil_r in Hc.
Qed.

(** At the end of the stream and with a willing callback, one poll of
    [fill_flush] returns [Ok(0)]. *)
Lemma fill_flush_at_eof cx size ff b :
  brw_inv size b -> ff_wf ff b -> @willing S _ cx -> at_eof cx (reader b) ->
  exists b', poll_fill_flush cx ff b = Ret (FF_Start, b', Ready (Ok 0)) /\ brw_inv size b'.
Proof.
  intros Hb Hff Hw Heof.
  destruct (fill_flush_keeps_inv cx size ff b Hb Hff) as (ff' & b' & p & E & Hb' & _ & _).
  exists b'. split; [|done]. rewrite E.
  assert (forall b1, wf b1 -> reader b1 = reader b -> w_offset b1 < zlen (buf b1) ->
    exists b2, poll_read_part cx b1 = Ret (FF_Start, b2, Ready (Ok 0))) as Hread.
  { intros b1 (Hr1 & Hw1 & _) Hrd Hroom. unfold poll_read_part.
    rewrite slice_checked_ret by lia. cbn [obind]. rewrite Hrd.
    destruct (Heof (zlen (slice (buf b1) (w_offset b1) (zlen (buf b1))))) as [r' ->].
    by eexists. }
  rewrite <- (fill_flush_restart cx ff b Hff) in E. unfold poll_fill_flush in E.
  pose proof Hb as (Hwf & _ & _).
  destruct (Z.eqb_spec (w_offset b) (zlen (buf b))) as [Hfull|Hroom].
  - destruct (flush_delivers cx size b Hb Hw) as (b1 & E1 & _).
    destruct (poll_flush_part_spec cx b Hwf Hfull)
      as (b2 & p2 & sent & E2 & Hwf2 & Hrd2 & _ & _ & _ & Hp2).
    rewrite E1 in E2. injection E2 as <- <-. destruct Hp2 as [Hp2 Hlt].
    destruct (Hread b1 Hwf2 Hrd2 Hlt) as [b3 E3]. congruence.
  - destruct (Hread b Hwf eq_refl) as [b3 E3]; [|congruence].
    destruct Hwf as (_ & ? & _). lia.
Qed.

(** Every step of the task keeps the invariant and does not panic. *)
Lemma reader_step_inv cx tick size t b :
  brw_inv size b -> task_inv t b ->
  exists t' b', reader_step cx tick t b = Ret (t', b') /\ brw_inv size b' /\ task_inv t' b'.
Proof.
  intros Hb Ht.
  destruct t as [ff| |ff has_data| | |r]; cbn [reader_step]; [| | | | |by eexists _, _].
  - destruct (fill_flush_keeps_inv cx size ff b Hb Ht) as (ff' & b' & p & E & Hb' & Hff & _).
    unfold no_auto_flush_step. rewrite E. cbn [obind].
    destruct p as [[n|e]|]; [destruct (n =? 0)|..]; by eexists _, _.
  - destruct (flush_keeps_inv cx size b Hb) as (b' & p & E & Hb' & Hnil).
    unfold no_auto_flush_step. rewrite E. cbn [obind].
    destruct p as [[[]|e]|]; eexists _, _; (split_and!; [done..|]); cbn; auto.
  - destruct Ht as [Ht Hd].
    destruct (fill_flush_keeps_inv cx size ff b Hb Ht) as (ff' & b' & p & E & Hb' & Hff & Hn).
    unfold auto_flush_step. rewrite E. cbn [obind].
    destruct p as [[n|e]|]; [destruct (n =? 0)|..|destruct (has_data && tick)];
      eexists _, _; (split_and!; [done..|]); cbn; naive_solver.
  - destruct (flush_keeps_inv cx size b Hb) as (b' & p & E & Hb' & Hnil).
    unfold auto_flush_step. rewrite E. cbn [obind].
    destruct p as [[[]|e]|]; eexists _, _; (split_and!; [done..|]); cbn; auto.
  - destruct (flush_keeps_inv cx size b Hb) as (b' & p & E & Hb' & Hnil).
    unfold auto_flush_step. rewrite E. cbn [obind].
    destruct p as [[[]|e]|]; eexists _, _; (split_and!; [done..|]); cbn; auto.
Qed.

Lemma reader_run_inv cx ticks size t b :
  brw_inv size b -> task_inv t b ->
  exists t' b', reader_run cx ticks t b = Ret (t', b') /\ brw_inv size b' /\ task_inv t' b'.
Proof.
  revert t b. induction ticks as [|tick ticks IH]; intros t b Hb Ht; [by eexists _, _|].
  destruct (reader_step_inv cx tick size t b Hb Ht) as (t1 & b1 & E & Hb1 & Ht1).
  cbn [reader_run]. rewrite E. cbn [obind]. by apply IH.
Qed.

(** What the callback keeps about its own state is kept by the task. *)
Lemma reader_step_keeps P cx tick t b t' b' :
  write_keeps cx (zlen (buf b)) P -> P (writer b) ->
  reader_step cx tick t b = Ret (t', b') -> P (writer b').
Proof.
  intros HP Hw.
  destruct t as [ff| |ff has_data| | |r];
    cbn [reader_step no_auto_flush_step auto_flush_step]; [..|by intros [= _ <-]].
  1, 3: destruct (poll_fill_flush cx ff b) as [[[ff' b1] p]| |] eqn:E; [|done..]; cbn [obind];
    apply (poll_fill_flush_keeps P) in E; [|done..];
    destruct p as [[n|e]|]; try destruct (has_data && tick); by intros [= _ <-].
  all: destruct (poll_flush cx b) as [[b1 p]| |] eqn:E; [|done..]; cbn [obind];
    apply (poll_flush_keeps P) in E; [|done..]; destruct p as [[u|e]|]; by intros [= _ <-].
Qed.

Lemma reader_run_keeps P cx ticks size t b t' b' :
  brw_inv size b -> task_inv t b -> write_keeps cx size P -> P (writer b) ->
  reader_run cx ticks t b = Ret (t', b') -> P (writer b').
Proof.
  intros Hb Ht HP. revert t b Hb Ht. induction ticks as [|tick ticks IH]; intros t b Hb Ht Hw E.
  - by injection E as _ <-.
  - destruct (reader_step_inv cx tick size t b Hb Ht) as (t1 & b1 & E1 & Hb1 & Ht1).
    cbn [reader_run] in E. rewrite E1 in E. apply (IH t1 b1); try done.
    eapply reader_step_keeps; [|done|exact E1]. destruct Hb as (_ & _ & ->). done.
Qed.

(** An error of the callback ends the task. *)
Definition alive_or_failed (P : OnMsgWrite S -> Prop) (Q : io_error -> OnMsgWrite S -> Prop)
    (t : ReaderTask) b : Prop :=
  P (writer b) \/ exists e, t = Finished (Err e) /\ Q e (writer b).

Lemma reader_step_fails P Q cx tick t b t' b' :
  write_fails cx P Q -> alive_or_failed P Q t b ->
  reader_step cx tick t b = Ret (t', b') -> alive_or_failed P Q t' b'.
Proof.
  intros HP [Hw|(e & -> & Hq)]; [|intros [= <- <-]; right; by exists e].
  unfold alive_or_failed. destruct t as [ff| |ff has_data| | |r];
    cbn [reader_step no_auto_flush_step auto_flush_step]; [..|intros [= _ <-]; by left].
  1, 3: destruct (poll_fill_flush cx ff b) as [[[ff' b1] p]| |] eqn:E; [|done..]; cbn [obind];
    apply (poll_fill_flush_fails P Q) in E; [|done..]; destruct E as [E|(e & -> & E)];
    [destruct p as [[n|e]|]; try destruct (has_data && tick); intros [= _ <-]; by left
    |intros [= <- <-]; right; by exists e].
  all: destruct (poll_flush cx b) as [[b1 p]| |] eqn:E; [|done..]; cbn [obind];
    apply (poll_flush_fails P Q) in E; [|done..]; destruct E as [E|(e & -> & E)];
    [destruct p as [[u|e]|]; intros [= _ <-]; by left|intros [= <- <-]; right; by exists e].
Qed.

Lemma reader_run_fails P Q cx ticks t b t' b' :
  write_fails cx P Q -> alive_or_failed P Q t b ->
  reader_run cx ticks t b = Ret (t', b') -> alive_or_failed P Q t' b'.
Proof.
  intros HP. revert t b. induction ticks as [|tick ticks IH]; intros t b Ht E; cbn [reader_run] in E.
  - by injection E as <- <-.
  - destruct (reader_step cx tick t b) as [[t1 b1]| |] eqn:E1; [|done..].
    apply (IH t1 b1); [|done]. by eapply reader_step_fails.
Qed.

(** The size that [handle_reader] asks for is between the two bounds, and the
    task starts in its invariant. *)
Lemma handle_reader_inv (r : R) (s : S) config :
  acked s = consumed r ->
  exists size t b, handle_reader r s config = Ret (t, b) /\
    MIN_MSG_BUFFER_SIZE <= size <= MAX_MSG_BUFFER_SIZE /\
    brw_inv size b /\ task_inv t b /\ reader b = r /\ on_msg_obj (writer b) = s.
Proof.
  intros Hs. unfold handle_reader.
  set (size := Z.max _ _).
  assert (MIN_MSG_BUFFER_SIZE <= size <= MAX_MSG_BUFFER_SIZE) as Hsize.
  { unfold size, MIN_MSG_BUFFER_SIZE, MAX_MSG_BUFFER_SIZE. lia. }
  destruct (new_spec r (mkOnMsgWrite s) size) as (b & E & Hwf & Hr & Hw & Hl & Hp).
  { unfold MIN_MSG_BUFFER_SIZE, MAX_MSG_BUFFER_SIZE, isize_bound in *. lia. }
  assert (conserved b) as Hc.
  { unfold conserved. rewrite Hp, Hw, Hr, app_nil_r. done. }
  exists size. unfold handle_reader_no_auto_flush, handle_reader_auto_flush.
  rewrite E. cbn [obind].
  destruct (is_zero _); eexists _, b; (split; [done|]); rewrite Hw, Hr;
    split_and!; try done; lia.
Qed.
End lemmas.

(** ** Properties *)

Section properties.
Context {R S : Type} `{AsyncReadSpec R} `{OnMsgSpec S}.

(** C9: end to end, for every configuration, every behaviour of the socket, of
    the callback and of the flush timer, and after any number of steps: the
    reader task does not panic; the bytes acknowledged by the callback are a
    prefix of the bytes read from the socket, in order; what is missing is in
    the buffer and is at most [MAX_MSG_BUFFER_SIZE] bytes; and when the task
    has ended with [Ok] nothing is missing. *)
Theorem reader_delivers_prefix cx ticks (r : R) (s : S) config :
  acked s = consumed r ->
  exists t0 b0 t b,
    handle_reader r s config = Ret (t0, b0) /\
    reader_run cx ticks t0 b0 = Ret (t, b) /\
    consumed (reader b) = acked (on_msg_obj (writer b)) ++ pending_bytes b /\
    zlen (pending_bytes b) <= MAX_MSG_BUFFER_SIZE /\
    (t = Finished (Ok tt) -> acked (on_msg_obj (writer b)) = consumed (reader b)).
Proof.
  intros Hs.
  destruct (handle_reader_inv r s config Hs)
    as (size & t0 & b0 & E0 & Hsize & Hb0 & Ht0 & _).
  destruct (reader_run_inv cx ticks size t0 b0 Hb0 Ht0) as (t & b & E & Hb & Ht).
  exists t0, b0, t, b. destruct Hb as (Hwf & Hc & Hl).
  unfold conserved in Hc. cbn in Hc. split_and!; try done.
  - destruct Hwf as (Hr & Hw & _). unfold pending_bytes.
    rewrite zlen_slice by lia. lia.
  - intros ->. cbn in Ht. by rewrite Ht, app_nil_r in Hc.
Qed.

(** C24: with auto flush no byte is stranded: whenever the task waits with its
    flush tick disabled ([has_data = false]), the buffer is empty. *)
Theorem auto_flush_no_stranded_bytes cx ticks (r : R) (s : S) config t0 b0 ff b :
  acked s = consumed r ->
  handle_reader r s config = Ret (t0, b0) ->
  reader_run cx ticks t0 b0 = Ret (AF_Select ff false, b) ->
  acked (on_msg_obj (writer b)) = consumed (reader b).
Proof.
  intros Hs E0 E.
  destruct (handle_reader_inv r s config Hs)
    as (size & t & b1 & E1 & _ & Hb0 & Ht0 & _).
  rewrite E0 in E1. injection E1 as <- <-.
  destruct (reader_run_inv cx ticks size t0 b0 Hb0 Ht0) as (t' & b' & E' & Hb & Ht).
  rewrite E in E'. injection E' as <- <-. destruct Hb as (_ & Hc & _).
  destruct Ht as [_ Hp]. unfold conserved in Hc. cbn in Hc.
  by rewrite Hp, app_nil_r in Hc.
Qed.


(** C34: with auto flush and a callback that takes data, a flush tick that fires
    while the task waits for the socket delivers everything that was read so
    far, and the task goes back to waiting with the tick disabled. *)
Theorem tick_delivers cx size ff (b : BufReadWrite R (OnMsgWrite S)) ff1 b1 tick :
  brw_inv size b -> ff_wf ff b -> @willing S _ cx ->
  poll_fill_flush cx ff b = Ret (ff1, b1, Pending) ->
  exists b2, reader_run cx [true; tick] (AF_Select ff true) b
      = Ret (AF_Select FF_Start false, b2) /\
    reader b2 = reader b1 /\
    acked (on_msg_obj (writer b2)) = consumed (reader b2).
Proof.
  intros Hb Hff Hw E.
  destruct (fill_flush_keeps_inv cx size ff b Hb Hff) as (ff' & b' & p & E' & Hb' & _).
  rewrite E in E'. injection E' as <- <- <-.
  destruct (flush_delivers cx size b1 Hb' Hw) as (b2 & E2 & _ & Hr & Ha).
  exists b2. split; [|done]. cbn [reader_run reader_step auto_flush_step].
  rewrite E. cbn. rewrite E2. done.
Qed.

(** C25: at the end of the stream, with a callback that takes data, the reader
    task ends with [Ok] after two steps in either loop, and every byte that was
    read has been acknowledged. *)
Theorem reader_eof_finishes cx size t (b : BufReadWrite R (OnMsgWrite S)) tick1 tick2 :
  brw_inv size b -> task_inv t b -> @willing S _ cx -> at_eof cx (reader b) ->
  (exists ff, t = NF_Fill ff) \/ (exists ff d, t = AF_Select ff d) ->
  exists b', reader_run cx [tick1; tick2] t b = Ret (Finished (Ok tt), b') /\
    acked (on_msg_obj (writer b')) = consumed (reader b').
Proof.
  intros Hb Ht Hw Heof Hsel.
  assert (exists ff, ff_wf ff b /\ forall b1,
    poll_fill_flush cx ff b = Ret (FF_Start, b1, Ready (Ok 0)) ->
    exists t1, reader_step cx tick1 t b = Ret (t1, b1) /\ (t1 = NF_Final \/ t1 = AF_Final))
    as (ff & Hff & Hstep).
  { destruct Hsel as [[ff ->]|[ff [d ->]]]; exists ff; cbn in Ht; (split; [tauto|]);
      intros b1 E; cbn [reader_step no_auto_flush_step auto_flush_step]; rewrite E;
      eexists; split; eauto. }
  destruct (fill_flush_at_eof cx size ff b Hb Hff Hw Heof) as (b1 & E & Hb1).
  destruct (Hstep b1 E) as (t1 & E1 & Ht1).
  destruct (flush_delivers cx size b1 Hb1 Hw) as (b2 & E2 & _ & _ & Ha).
  exists b2. split; [|done]. cbn [reader_run]. rewrite E1. cbn [obind].
  destruct Ht1 as [-> | ->]; cbn [reader_step no_auto_flush_step auto_flush_step];
    rewrite E2; done.
Qed.

(** C27: the configuration is honoured: the message buffer is the requested
    size clamped to 8 KiB..8 MiB (so a size of zero is the minimum, not an
    unbuffered mode), and the auto-flush loop runs exactly when the read flush
    interval is not zero. *)
Theorem handle_reader_config (r : R) (s : S) config :
  exists t b, handle_reader r s config = Ret (t, b) /\
    zlen (buf b) = Z.max 8192 (Z.min (msg_buffer_size config) 8388608) /\
    t = if decide (read_msg_flush_interval config = 0)
        then NF_Fill FF_Start else AF_Select FF_Start false.
Proof.
  unfold handle_reader, handle_reader_no_auto_flush, handle_reader_auto_flush.
  unfold MIN_MSG_BUFFER_SIZE, MAX_MSG_BUFFER_SIZE, is_zero, new.
  rewrite (proj2 (Z.ltb_lt 0 _)) by lia. cbn [obind].
  destruct (Z.eqb_spec (read_msg_flush_interval config) 0) as [E|E];
    (rewrite decide_True by done) || (rewrite decide_False by done);
    eexists _, _; (split; [done|]); cbn [buf]; rewrite zlen_replicate; split; done || lia.
Qed.

(** C26: an error of the callback ends the reader.  Take any callback, with a recorder
    around it, any socket, configuration and timer, and any number of steps of the
    task, in either of the two loops and wherever the callback is called (also in the
    flush of a full buffer inside [fill_flush]).  As soon as a call of the callback has
    returned an error the task is finished, with an [Other] error that carries the
    message; the callback is never called again after it; and what it has
    acknowledged together with what is still buffered is exactly what was read. *)
Theorem callback_error_ends_reader cx ticks (r : R) (s : S) config :
  acked s = consumed r ->
  exists t0 b0 t b,
    handle_reader r (mkRecorded s None false) config = Ret (t0, b0) /\
    reader_run cx ticks t0 b0 = Ret (t, b) /\
    (forall e, rec_error (on_msg_obj (writer b)) = Some e ->
       t = Finished (Err (IoNew Other ("error writing message: " +:+ e)))) /\
    rec_again (on_msg_obj (writer b)) = false /\
    consumed (reader b) = acked (rec_cb (on_msg_obj (writer b))) ++ pending_bytes b.
Proof.
  intros Hs.
  assert (acked (mkRecorded s None false) = consumed r) as Hs' by exact Hs.
  destruct (handle_reader_inv r (mkRecorded s None false) config Hs')
    as (size & t0 & b0 & E0 & _ & Hb0 & Ht0 & _ & Hcb).
  destruct (reader_run_inv cx ticks size t0 b0 Hb0 Ht0) as (t & b & E & Hb & _).
  exists t0, b0, t, b. destruct Hb as (_ & Hc & _). unfold conserved in Hc. cbn in Hc.
  destruct (reader_run_fails _ _ cx ticks t0 b0 t b (recorded_fails cx)) as [[Hn Ha]|(e & -> & m & -> & Hm & Ha)];
    [left; by rewrite Hcb|done|..]; split_and!; try done; congruence.
Qed.

End properties.

(** ** Concrete runs *)

(** A callback that follows a script and then acknowledges everything. *)
Record ScriptCb : Type := mkScriptCb {
  cb_script : list (poll (result Z string));
  cb_acked : list byte
}.

#[export] Instance ScriptCb_on_msg : OnMsg ScriptCb := fun s bytes _ =>
  match cb_script s with
  | [] => (mkScriptCb [] (cb_acked s ++ bytes), Ready (Ok (zlen bytes)))
  | Ready (Ok n) :: rest =>
      let n := Z.max 0 (Z.min n (zlen bytes)) in
      (mkScriptCb rest (cb_acked s ++ ztake n bytes), Ready (Ok n))
  | a :: rest => (mkScriptCb rest (cb_acked s), a)
  end.

#[export] Instance ScriptCb_spec : OnMsgSpec ScriptCb.
Proof.
  refine {| acked := cb_acked |}; intros s bytes wk s';
    unfold on_msg, ScriptCb_on_msg;
    pose proof (zlen_nonneg bytes);
    destruct (cb_script s) as [|[[n|e]|] rest].
  all: try (intros; simplify_eq; done).
  - intros ? [= <- <-]; cbn. rewrite ztake_all by lia. split; [lia|done].
  - intros ? [= <- <-]; cbn. split; [lia|done].
Defined.

(** A callback that acknowledges everything. *)
#[export] Instance Greedy_on_msg : OnMsg (list byte) := fun s bytes _ =>
  (s ++ bytes, Ready (Ok (zlen bytes))).

#[export] Instance Greedy_spec : OnMsgSpec (list byte).
Proof.
  refine {| acked := fun s => s |}; intros s bytes wk s' n;
    unfold on_msg, Greedy_on_msg; intros; simplify_eq.
  pose proof (zlen_nonneg bytes). rewrite ztake_all by lia. split; [lia|done].
Defined.

Lemma greedy_willing cx : @willing (list byte) _ cx.
Proof.
  intros s bytes Hne. apply zlen_pos_iff in Hne. eexists _, _. split; [reflexivity|lia].
Qed.

Definition demo_reader : ScriptReader :=
  mkScriptReader [Ready (Ok [x01; x02]); Pending; Ready (Ok [x03])] [].
Definition demo_cb : ScriptCb := mkScriptCb [Ready (Ok 1); Pending] [].
Definition demo_config : ConnConfig := mkConnConfig 0 20000000 1.

(** Read two bytes; the tick fires and the callback takes one of them; the
    flush resumes; the stream brings one more byte and ends. *)
Example demo_reader_run :
  (let* '(t0, b0) := handle_reader demo_reader demo_cb demo_config in
   let* '(t1, b1) := reader_run demo_cx [false; true; false] t0 b0 in
   let* '(t2, b2) := reader_run demo_cx [false; false; false; false] t1 b1 in
   Ret (t1, acked (on_msg_obj (writer b1)), t2, acked (on_msg_obj (writer b2))))
  = Ret (AF_Tick, [x01], Finished (Ok tt), [x01; x02; x03]).
Proof. vm_compute. reflexivity. Qed.

Lemma reader_delivers_prefix_witness :
  exists t0 b0 t b,
    handle_reader demo_reader demo_cb demo_config = Ret (t0, b0) /\
    reader_run demo_cx [false; true] t0 b0 = Ret (t, b) /\
    consumed (reader b) = acked (on_msg_obj (writer b)) ++ pending_bytes b /\
    zlen (pending_bytes b) <= MAX_MSG_BUFFER_SIZE /\
    (t = Finished (Ok tt) -> acked (on_msg_obj (writer b)) = consumed (reader b)).
Proof. apply (reader_delivers_prefix demo_cx [false; true]). reflexivity. Defined.

Definition zeros (n : Z) : list byte := replicate (Z.to_nat n) x00.

Lemma auto_flush_no_stranded_bytes_witness :
  let b := mkBRW (mkScriptReader [Ready (Ok [x03])] [x01; x02])
    (mkOnMsgWrite (mkScriptCb [] [x01; x02])) (splice (zeros 8192) 0 [x01; x02]) 0 0 in
  acked (on_msg_obj (writer b)) = consumed (reader b).
Proof.
  apply (auto_flush_no_stranded_bytes demo_cx [false; true; false; false]
    demo_reader demo_cb demo_config (AF_Select FF_Start false)
    (mkBRW demo_reader (mkOnMsgWrite demo_cb) (zeros 8192) 0 0) FF_Start).
  - reflexivity.
  - vm_compute. reflexivity.
  - vm_compute. reflexivity.
Defined.

(** A small buffer with two bytes in it. *)
Definition demo_small : BufReadWrite ScriptReader (OnMsgWrite (list byte)) :=
  mkBRW (mkScriptReader [Pending] [x01; x02]) (mkOnMsgWrite []) [x01; x02; x00] 0 2.

Lemma demo_small_inv : brw_inv 3 demo_small.
Proof.
  split; [|split; [reflexivity|reflexivity]].
  unfold wf, zlen, isize_bound; cbn; lia.
Qed.

Lemma tick_delivers_witness :
  exists b2, reader_run demo_cx [true; false] (AF_Select FF_Start true) demo_small
      = Ret (AF_Select FF_Start false, b2) /\
    reader b2 = mkScriptReader [] [x01; x02] /\
    acked (on_msg_obj (writer b2)) = consumed (reader b2).
Proof.
  apply (tick_delivers demo_cx 3 FF_Start demo_small FF_Read
    (mkBRW (mkScriptReader [] [x01; x02]) (mkOnMsgWrite []) [x01; x02; x00] 0 2)).
  - apply demo_small_inv.
  - exact I.
  - apply greedy_willing.
  - reflexivity.
Defined.

Lemma reader_eof_finishes_witness :
  let b := mkBRW (mkScriptReader [] [x01; x02]) (mkOnMsgWrite []) [x01; x02; x00] 0 2 in
  exists b', reader_run demo_cx [false; false] (AF_Select FF_Start true) b
      = Ret (Finished (Ok tt), b') /\
    acked (on_msg_obj (writer b')) = consumed (reader b').
Proof.
  intros b. apply (reader_eof_finishes demo_cx 3 (AF_Select FF_Start true) b).
  - split; [|split; [reflexivity|reflexivity]]. unfold wf, zlen, isize_bound; cbn; lia.
  - split; [exact I|done].
  - apply greedy_willing.
  - intros cap. by eexists.
  - right. by eexists _, _.
Defined.

(** Two bytes are read, the tick fires and the callback refuses them. *)
Lemma callback_error_ends_reader_witness :
  let cb := mkScriptCb [Ready (Err "boom")] [] in
  exists t0 b0 t b,
    handle_reader demo_reader (mkRecorded cb None false) demo_config = Ret (t0, b0) /\
    reader_run demo_cx [false; true; false; false] t0 b0 = Ret (t, b) /\
    t = Finished (Err (IoNew Other ("error writing message: " +:+ "boom"))) /\
    rec_again (on_msg_obj (writer b)) = false.
Proof.
  intros cb.
  destruct (callback_error_ends_reader demo_cx [false; true; false; false] demo_reader cb demo_config)
    as (t0 & b0 & t & b & E0 & E & He & Ha & _).
  - reflexivity.
  - exists t0, b0, t, b. split; [exact E0|]. split; [exact E|]. split; [|exact Ha].
    apply He. vm_compute in E0. injection E0 as <- <-. vm_compute in E. injection E as <- <-. reflexivity.
Defined.

(** The same in the flush of a full buffer, inside [fill_flush]: the error is handed
    on and nothing more is read. *)
Example callback_error_full_buffer :
  (let* '(t0, b0) := handle_reader (mkScriptReader [Ready (Ok (zeros 8192)); Ready (Ok [x01])] [])
     (mkRecorded (mkScriptCb [Ready (Err "boom")] []) None false) (mkConnConfig 0 0 0) in
   let* '(t1, b1) := reader_run demo_cx [false; false; false] t0 b0 in
   Ret (t1, rec_error (on_msg_obj (writer b1)), zlen (consumed (reader b1))))
  = Ret (Finished (Err (IoNew Other ("error writing message: " +:+ "boom"))), Some "boom"%string, 8192).
Proof. vm_compute. reflexivity. Qed.
