(* ===== verification/RingBuf.v ===== *)
(** * The ring buffers of async-ringbuf and the unbounded channels of tokio

    Neither crate is part of this repository.  Their operations are classes over
    an abstract state; what they document is stated through an abstract view of
    that state.  Every operation is one atomic access to the shared object, so
    that a sequence of accesses of the two ends is an interleaving of them.  The
    last part of the file gives simple implementations that meet the laws. *)

From S2P Require Import Prelude.

(** ** Ring buffers *)

(** What a ring buffer is, seen from outside: its capacity, the bytes that were
    taken out so far, the bytes that are in it, whether the two ends are still
    held, the waker the producer has registered and that was not called yet, and
    the wakers of the producer that were called, the oldest first. *)
Record ring_view : Type := mkView {
  v_cap : Z;
  v_popped : list byte;
  v_contents : list byte;
  v_prod : bool;
  v_cons : bool;
  v_waker : option Waker;
  v_woken : list Waker
}.

(** Everything that was ever pushed into the ring. *)
Definition v_pushed (v : ring_view) : list byte := v_popped v ++ v_contents v.

(** The wakers that were called once the registered one is called as well. *)
Definition v_called (v : ring_view) : list Waker := v_woken v ++ option_list (v_waker v).

(** A ring never holds more than its capacity. *)
Definition ring_ok (v : ring_view) : Prop := zlen (v_contents v) <= v_cap v.

Class RingBufOps (Rb : Type) : Type := {
  (** [AsyncHeapRb::new(capacity)], both ends held. *)
  rb_new : Z -> Rb;
  (** producer: [push_slice], [poll_write], [register_waker], [is_closed], drop *)
  rb_push_slice : Rb -> list byte -> Rb * Z;
  rb_poll_write : Rb -> Waker -> list byte -> Rb * poll (io_result Z);
  rb_register_waker : Rb -> Waker -> Rb;
  rb_prod_is_closed : Rb -> bool;
  rb_drop_prod : Rb -> Rb;
  (** consumer: one poll of [wait_occupied(n)], [is_closed], [occupied_len],
      [as_slices], [advance_read_index], drop *)
  rb_wait_occupied : Rb -> Waker -> Z -> Rb * poll unit;
  rb_cons_is_closed : Rb -> bool;
  rb_occupied_len : Rb -> Z;
  rb_as_slices : Rb -> list byte * list byte;
  rb_advance_read_index : Rb -> Z -> Rb;
  rb_drop_cons : Rb -> Rb
}.

Class RingBufSpec (Rb : Type) `{RingBufOps Rb} : Type := {
  rb_view : Rb -> ring_view;
  rb_new_view cap : rb_view (rb_new cap) = mkView cap [] [] true true None [];
  (** [push_slice] takes as many bytes as fit. *)
  rb_push_slice_view rb bytes rb' n :
    ring_ok (rb_view rb) -> rb_push_slice rb bytes = (rb', n) ->
    n = Z.min (zlen bytes) (v_cap (rb_view rb) - zlen (v_contents (rb_view rb))) /\
    rb_view rb' = mkView (v_cap (rb_view rb)) (v_popped (rb_view rb))
      (v_contents (rb_view rb) ++ ztake n bytes)
      (v_prod (rb_view rb)) (v_cons (rb_view rb)) (v_waker (rb_view rb)) (v_woken (rb_view rb));
  (** [poll_write] takes a prefix of the bytes when it returns [Ok]; it may
      register the waker of its context. *)
  rb_poll_write_view rb cx bytes rb' p :
    ring_ok (rb_view rb) -> rb_poll_write rb cx bytes = (rb', p) ->
    exists n wk, 0 <= n <= zlen bytes /\
      zlen (v_contents (rb_view rb)) + n <= v_cap (rb_view rb) /\
      rb_view rb' = mkView (v_cap (rb_view rb)) (v_popped (rb_view rb))
        (v_contents (rb_view rb) ++ ztake n bytes)
        (v_prod (rb_view rb)) (v_cons (rb_view rb)) wk (v_woken (rb_view rb)) /\
      match p with Ready (Ok m) => m = n | _ => n = 0 end;
  (** With the consumer there and room in the ring it takes something. *)
  rb_poll_write_ready rb cx bytes :
    v_cons (rb_view rb) = true ->
    zlen (v_contents (rb_view rb)) < v_cap (rb_view rb) -> bytes <> [] ->
    exists rb' n, rb_poll_write rb cx bytes = (rb', Ready (Ok n)) /\ n <> 0;
  rb_register_waker_view rb w :
    rb_view (rb_register_waker rb w) =
      mkView (v_cap (rb_view rb)) (v_popped (rb_view rb)) (v_contents (rb_view rb))
        (v_prod (rb_view rb)) (v_cons (rb_view rb)) (Some w) (v_woken (rb_view rb));
  (** Each end is closed for the other one when it was dropped. *)
  rb_prod_is_closed_view rb : rb_prod_is_closed rb = negb (v_cons (rb_view rb));
  rb_cons_is_closed_view rb : rb_cons_is_closed rb = negb (v_prod (rb_view rb));
  rb_drop_prod_view rb :
    rb_view (rb_drop_prod rb) =
      mkView (v_cap (rb_view rb)) (v_popped (rb_view rb)) (v_contents (rb_view rb))
        false (v_cons (rb_view rb)) (v_waker (rb_view rb)) (v_woken (rb_view rb));
  (** [wait_occupied(n)] waits for [n] bytes or for the producer to go. *)
  rb_wait_occupied_view rb cx n rb' p :
    rb_wait_occupied rb cx n = (rb', p) ->
    rb_view rb' = rb_view rb /\
    (p = Ready tt <->
     n <= zlen (v_contents (rb_view rb)) \/ v_prod (rb_view rb) = false);
  rb_occupied_len_view rb : rb_occupied_len rb = zlen (v_contents (rb_view rb));
  (** The two slices are the contents in order; the first is empty only if both
      are. *)
  rb_as_slices_view rb left right :
    rb_as_slices rb = (left, right) ->
    left ++ right = v_contents (rb_view rb) /\ (left = [] -> right = []);
  (** Taking [n] bytes out calls the waker of the producer; taking nothing may or
      may not call it. *)
  rb_advance_view rb n :
    0 <= n <= zlen (v_contents (rb_view rb)) ->
    exists wk wn, rb_view (rb_advance_read_index rb n) =
      mkView (v_cap (rb_view rb)) (v_popped (rb_view rb) ++ ztake n (v_contents (rb_view rb)))
        (zdrop n (v_contents (rb_view rb)))
        (v_prod (rb_view rb)) (v_cons (rb_view rb)) wk wn /\
      (wk = None /\ wn = v_called (rb_view rb) \/
       n = 0 /\ wk = v_waker (rb_view rb) /\ wn = v_woken (rb_view rb));
  (** Dropping the consumer calls it, too: the producer finds the ring closed. *)
  rb_drop_cons_view rb :
    rb_view (rb_drop_cons rb) =
      mkView (v_cap (rb_view rb)) (v_popped (rb_view rb)) (v_contents (rb_view rb))
        (v_prod (rb_view rb)) false None (v_called (rb_view rb))
}.

(** ** Unbounded channels ([tokio::sync::mpsc::unbounded_channel]) *)

Class MpscOps (Ch : Type -> Type) : Type := {
  mpsc_new : forall {A}, Ch A;
  (** [send]: the error gives the value back. *)
  mpsc_send : forall {A}, Ch A -> A -> Ch A * result unit A;
  (** One poll of [recv]; [None] when all senders are gone and nothing is left. *)
  mpsc_poll_recv : forall {A}, Ch A -> Waker -> Ch A * poll (option A);
  mpsc_drop_tx : forall {A}, Ch A -> Ch A;
  (** Dropping the receiver drops the values that are still in the channel. *)
  mpsc_drop_rx : forall {A}, Ch A -> Ch A * list A;
  (** The text of [SendError]. *)
  mpsc_send_error : string
}.

Record chan_view (A : Type) : Type := mkChan {
  c_queue : list A;
  c_tx : bool;
  c_rx : bool
}.

Arguments mkChan {A}.
Arguments c_queue {A}.
Arguments c_tx {A}.
Arguments c_rx {A}.

Class MpscSpec (Ch : Type -> Type) `{MpscOps Ch} : Type := {
  mpsc_view : forall {A}, Ch A -> chan_view A;
  mpsc_new_view A : mpsc_view (@mpsc_new Ch _ A) = mkChan [] true true;
  (** [send] succeeds exactly when the receiver is there. *)
  mpsc_send_view A (c : Ch A) a c' r :
    mpsc_send c a = (c', r) ->
    if c_rx (mpsc_view c)
    then r = Ok tt /\
         mpsc_view c' = mkChan (c_queue (mpsc_view c) ++ [a]) (c_tx (mpsc_view c)) true
    else r = Err a /\ mpsc_view c' = mpsc_view c;
  mpsc_poll_recv_view A (c : Ch A) cx c' p :
    mpsc_poll_recv c cx = (c', p) ->
    match c_queue (mpsc_view c) with
    | a :: q => p = Ready (Some a) /\
        mpsc_view c' = mkChan q (c_tx (mpsc_view c)) (c_rx (mpsc_view c))
    | [] => p = (if c_tx (mpsc_view c) then Pending else Ready None) /\
        mpsc_view c' = mpsc_view c
    end;
  mpsc_drop_tx_view A (c : Ch A) :
    mpsc_view (mpsc_drop_tx c) = mkChan (c_queue (mpsc_view c)) false (c_rx (mpsc_view c));
  mpsc_drop_rx_view A (c : Ch A) c' dropped :
    mpsc_drop_rx c = (c', dropped) ->
    dropped = c_queue (mpsc_view c) /\
    mpsc_view c' = mkChan [] (c_tx (mpsc_view c)) false
}.

(** ** Implementations that meet the laws *)

(** A ring buffer as its own view.  On a ring whose consumer is gone
    [poll_write] answers [Ok(0)]. *)
Definition ListRing : Type := ring_view.

Definition lr_set_contents (v : ring_view) (c : list byte) : ring_view :=
  mkView (v_cap v) (v_popped v) c (v_prod v) (v_cons v) (v_waker v) (v_woken v).

Definition lr_push (v : ring_view) (bytes : list byte) : ring_view * Z :=
  let n := Z.min (zlen bytes) (v_cap v - zlen (v_contents v)) in
  (lr_set_contents v (v_contents v ++ ztake n bytes), n).

Definition lr_register (v : ring_view) (w : Waker) : ring_view :=
  mkView (v_cap v) (v_popped v) (v_contents v) (v_prod v) (v_cons v) (Some w)
    (v_woken v).

Definition lr_poll_write (v : ring_view) (cx : Waker) (bytes : list byte)
  : ring_view * poll (io_result Z) :=
  if v_cons v then
    let '(v', n) := lr_push v bytes in
    if n =? 0 then (lr_register v cx, Pending) else (v', Ready (Ok n))
  else (v, Ready (Ok 0)).

#[export] Instance ListRing_ops : RingBufOps ListRing := {|
  rb_new cap := mkView cap [] [] true true None [];
  rb_push_slice := lr_push;
  rb_poll_write := lr_poll_write;
  rb_register_waker := lr_register;
  rb_prod_is_closed v := negb (v_cons v);
  rb_drop_prod v :=
    mkView (v_cap v) (v_popped v) (v_contents v) false (v_cons v) (v_waker v)
      (v_woken v);
  rb_wait_occupied v _ n :=
    (v, if (n <=? zlen (v_contents v)) || negb (v_prod v) then Ready tt else Pending);
  rb_cons_is_closed v := negb (v_prod v);
  rb_occupied_len v := zlen (v_contents v);
  rb_as_slices v := (v_contents v, []);
  rb_advance_read_index v n :=
    mkView (v_cap v) (v_popped v ++ ztake n (v_contents v)) (zdrop n (v_contents v))
      (v_prod v) (v_cons v) (if 0 <? n then None else v_waker v)
      (if 0 <? n then v_called v else v_woken v);
  rb_drop_cons v :=
    mkView (v_cap v) (v_popped v) (v_contents v) (v_prod v) false None
      (v_called v)
|}.

#[export] Instance ListRing_spec : RingBufSpec ListRing.
Proof.
  refine {| rb_view := fun v => v |}.
  all: try done.
  - intros v bytes v' n _ [= <- <-]. done.
  - intros v cx bytes v' p Hok. unfold ring_ok in Hok. cbn. unfold lr_poll_write, lr_push.
    pose proof (zlen_nonneg bytes).
    destruct (v_cons v) eqn:Ec; [destruct (Z.eqb_spec (Z.min (zlen bytes)
      (v_cap v - zlen (v_contents v))) 0) as [E|E]|]; intros [= <- <-].
    + exists 0, (Some cx). rewrite ztake_0, app_nil_r. unfold lr_register. rewrite Ec.
      split_and!; done || lia.
    + exists (Z.min (zlen bytes) (v_cap v - zlen (v_contents v))), (v_waker v). unfold lr_set_contents. rewrite Ec.
      split_and!; try done; lia.
    + exists 0, (v_waker v). rewrite ztake_0, app_nil_r. destruct v; cbn in *. subst.
      split_and!; done || lia.
  - intros v cx bytes Hc Hroom Hne. apply zlen_pos_iff in Hne.
    cbn. unfold lr_poll_write, lr_push. rewrite Hc, (proj2 (Z.eqb_neq _ _)) by lia.
    eexists _, _. split; [done|]. lia.
  - intros v cx n v' p [= <- <-]. split; [done|].
    destruct (Z.leb_spec n (zlen (v_contents v))), (v_prod v); cbn;
      split; intros Hp; try done; try (by left); try (by right); destruct Hp; done || lia.
  - intros v l r [= <- <-]. by rewrite app_nil_r.
  - intros v n Hn. eexists _, _. split; [done|]. destruct (Z.ltb_spec 0 n); [by left|].
    right. split_and!; done || lia.
Defined.

(** A channel as its own view. *)
#[export] Instance ListChan_ops : MpscOps chan_view := {|
  mpsc_new A := mkChan [] true true;
  mpsc_send A c a :=
    if c_rx c then (mkChan (c_queue c ++ [a]) (c_tx c) true, Ok tt) else (c, Err a);
  mpsc_poll_recv A c _ :=
    match c_queue c with
    | a :: q => (mkChan q (c_tx c) (c_rx c), Ready (Some a))
    | [] => (c, if c_tx c then Pending else Ready None)
    end;
  mpsc_drop_tx A c := mkChan (c_queue c) false (c_rx c);
  mpsc_drop_rx A c := (mkChan [] (c_tx c) false, c_queue c);
  mpsc_send_error := "channel closed"
|}.

#[export] Instance ListChan_spec : MpscSpec chan_view.
Proof.
  refine {| mpsc_view := fun A c => c |}; intros; cbn in *; try done.
  - destruct (c_rx c); by simplify_eq.
  - destruct (c_queue c); by simplify_eq.
  - by simplify_eq.
Defined.
