(* ===== verification/MsgSender.v ===== *)
(** * The message sender ([msg_sender.rs])

    A [MsgSender] and its [MsgRcv] share a chain of ring buffers: the sender
    pushes into the newest ring, and hands new rings to the receiver through an
    unbounded channel.  The shared memory is a [Pipe]: the rings in the order in
    which they were made, and the channel, which carries their indices.

    The receiver runs concurrently.  What it does to the ring between two
    accesses of the sender is the list [env] of the operations below, one
    element for every access. *)

From S2P Require Import Prelude RingBuf.

(** 256 KB. *)
Definition RING_BUFFER_SIZE : Z := 256 * 1024.

Record Pipe (Rb : Type) (Ch : Type -> Type) : Type := mkPipe {
  rings : list Rb;
  chan : Ch nat
}.

Arguments mkPipe {Rb Ch}.
Arguments rings {Rb Ch}.
Arguments chan {Rb Ch}.

(** [ring_buf] is the index of the ring the sender holds the producer of;
    [rings_prd] is the sending end of [chan]. *)
Record MsgSender : Type := mkSender { ring_buf : nat }.

Inductive BurstWriteState : Type :=
| BW_Pending
| BW_Finished.

Section defs.
Context {Rb : Type} {Ch : Type -> Type} `{RingBufOps Rb} `{MpscOps Ch}.

(** One access of the sender happens after the next move of the receiver. *)
Definition interfere (env : list (Rb -> Rb)) (rb : Rb) : Rb * list (Rb -> Rb) :=
  match env with
  | [] => (rb, [])
  | f :: env => (f rb, env)
  end.

Definition set_ring (p : Pipe Rb Ch) (i : nat) (rb : Rb) : Pipe Rb Ch :=
  mkPipe (<[i := rb]> (rings p)) (chan p).

(** [make_sender]: one ring, already handed to the receiver. *)
Definition make_sender : outcome (MsgSender * Pipe Rb Ch) :=
  match mpsc_send mpsc_new 0%nat with
  | (c, Ok _) => Ret (mkSender 0, mkPipe [rb_new RING_BUFFER_SIZE] c)
  | (_, Err _) => Panic
  end.

(** [burst_write]: push until the ring takes nothing or everything is in. *)
Fixpoint burst_write (fuel : nat) (env : list (Rb -> Rb)) (offset : Z) (rb : Rb)
    (bytes : list byte) : outcome (list (Rb -> Rb) * Z * Rb * BurstWriteState) :=
  match fuel with
  | O => NoFuel
  | S fuel =>
      let '(rb, env) := interfere env rb in
      let* chunk := slice_checked bytes offset (zlen bytes) in
      let '(rb, n) := rb_push_slice rb chunk in
      if n =? 0 then Ret (env, offset, rb, BW_Pending)
      else
        let offset := usize_add offset n in
        if offset =? zlen bytes then Ret (env, offset, rb, BW_Finished)
        else burst_write fuel env offset rb bytes
  end.

(** Every push moves [offset] forward, so one iteration per byte and one more
    are enough. *)
Definition burst_fuel (bytes : list byte) : nat := S (length bytes).

(** The loop of the [write_all] future that [send_block] blocks on:
    [while offset < bytes.len() { offset += poll_fn(poll_write).await? }], with
    [polls] polls.  [cx] is the context of [block_on].  [NoFuel] means that the
    call has not returned yet. *)
Fixpoint write_all_block (polls : nat) (cx : Waker) (env : list (Rb -> Rb))
    (offset : Z) (rb : Rb) (bytes : list byte)
  : outcome (list (Rb -> Rb) * Rb * io_result unit) :=
  if offset <? zlen bytes then
    match polls with
    | O => NoFuel
    | S polls =>
        let '(rb, env) := interfere env rb in
        let* chunk := slice_checked bytes offset (zlen bytes) in
        match rb_poll_write rb cx chunk with
        | (rb, Ready (Ok n)) =>
            write_all_block polls cx env (usize_add offset n) rb bytes
        | (rb, Ready (Err e)) => Ret (env, rb, Err e)
        | (rb, Pending) => write_all_block polls cx env offset rb bytes
        end
    end
  else Ret (env, rb, Ok tt).

(** [MsgSender::send_block]. *)
Definition send_block (polls : nat) (cx : Waker) (env : list (Rb -> Rb))
    (s : MsgSender) (p : Pipe Rb Ch) (bytes : list byte)
  : outcome (MsgSender * Pipe Rb Ch * io_result unit) :=
  if zlen bytes =? 0 then Ret (s, p, Ok tt)
  else
    match rings p !! ring_buf s with
    | None => Panic
    | Some rb =>
        let* '(env, offset, rb, st) := burst_write (burst_fuel bytes) env 0 rb bytes in
        match st with
        | BW_Finished => Ret (s, set_ring p (ring_buf s) rb, Ok tt)
        | BW_Pending =>
            let* '(env, rb, r) := write_all_block polls cx env offset rb bytes in
            Ret (s, set_ring p (ring_buf s) rb, r)
        end
    end.

(** The error of a [send] on a channel whose receiver is gone. *)
Definition connection_closed : io_error :=
  IoNew WriteZero ("connection closed: " +:+ @mpsc_send_error Ch _).

(** [self.rings_prd.send(ring)?; self.ring_buf = ring_buf]: hand the new ring to
    the receiver, then drop the producer of the old one.  On an error both ends
    of the new ring are dropped and the sender is as it was. *)
Definition switch_ring (s : MsgSender) (p : Pipe Rb Ch) (new_ring : Rb)
  : outcome (MsgSender * Pipe Rb Ch * io_result unit) :=
  match mpsc_send (chan p) (length (rings p)) with
  | (c, Err _) => Ret (s, mkPipe (rings p) c, Err connection_closed)
  | (c, Ok _) =>
      match rings p !! ring_buf s with
      | None => Panic
      | Some old =>
          Ret (mkSender (length (rings p)),
               mkPipe (<[ring_buf s := rb_drop_prod old]> (rings p) ++ [new_ring]) c,
               Ok tt)
      end
  end.

(** [MsgSender::send_nonblock]. *)
Definition send_nonblock (env : list (Rb -> Rb)) (s : MsgSender) (p : Pipe Rb Ch)
    (bytes : list byte) : outcome (MsgSender * Pipe Rb Ch * io_result unit) :=
  if zlen bytes =? 0 then Ret (s, p, Ok tt)
  else
    match rings p !! ring_buf s with
    | None => Panic
    | Some rb =>
        let* '(env, offset, rb, st) := burst_write (burst_fuel bytes) env 0 rb bytes in
        let p := set_ring p (ring_buf s) rb in
        match st with
        | BW_Finished => Ret (s, p, Ok tt)
        | BW_Pending =>
            let new_buf_size := Z.max RING_BUFFER_SIZE (zlen bytes - offset) in
            let* rest := slice_checked bytes offset (zlen bytes) in
            let '(new_ring, _) := rb_push_slice (rb_new new_buf_size) rest in
            switch_ring s p new_ring
        end
    end.

(** The loop of [send_async]; [waker_registered] becomes true in the first
    iteration that does not return, and the next one returns. *)
Fixpoint send_async_loop (fuel : nat) (env : list (Rb -> Rb)) (offset : Z)
    (waker_registered : bool) (rb : Rb) (bytes : list byte) (waker : Waker)
  : outcome (Rb * poll (io_result Z)) :=
  match fuel with
  | O => NoFuel
  | S fuel =>
      let '(rb, env) := interfere env rb in
      if rb_prod_is_closed rb
      then Ret (rb, Ready (Err (IoNew Other "connection closed")))
      else
        let* '(env, offset, rb, _) := burst_write (burst_fuel bytes) env offset rb bytes in
        if 0 <? offset then Ret (rb, Ready (Ok offset))
        else if waker_registered then Ret (rb, Pending)
        else
          let '(rb, env) := interfere env rb in
          let rb := rb_register_waker rb waker in
          send_async_loop fuel env offset true rb bytes waker
  end.

(** [MsgSender::send_async]. *)
Definition send_async (env : list (Rb -> Rb)) (s : MsgSender) (p : Pipe Rb Ch)
    (bytes : list byte) (waker : Waker)
  : outcome (MsgSender * Pipe Rb Ch * poll (io_result Z)) :=
  if zlen bytes =? 0 then Ret (s, p, Ready (Ok 0))
  else
    match rings p !! ring_buf s with
    | None => Panic
    | Some rb =>
        let* '(rb, r) := send_async_loop 2 env 0 false rb bytes waker in
        Ret (s, set_ring p (ring_buf s) rb, r)
    end.

(** [MsgSender::flush]: hand over a new empty ring, which closes the old one. *)
Definition flush (s : MsgSender) (p : Pipe Rb Ch)
  : outcome (MsgSender * Pipe Rb Ch * io_result unit) :=
  switch_ring s p (rb_new RING_BUFFER_SIZE).

(** Dropping the sender drops [ring_buf] and then [rings_prd]. *)
Definition drop_sender (s : MsgSender) (p : Pipe Rb Ch) : outcome (Pipe Rb Ch) :=
  match rings p !! ring_buf s with
  | None => Panic
  | Some rb => Ret (mkPipe (<[ring_buf s := rb_drop_prod rb]> (rings p)) (mpsc_drop_tx (chan p)))
  end.

(** ** Specification *)

Context `{!RingBufSpec Rb} `{!MpscSpec Ch}.

(** Everything the sender has put into the chain of rings, in order. *)
Definition stream (p : Pipe Rb Ch) : list byte :=
  concat ((fun rb => v_pushed (rb_view rb)) <$> rings p).

(** What the receiver may do to a ring: take bytes from the front and drop its
    end; it calls the producer's waker only when it does one of the two. *)
Definition consumer_move (f : Rb -> Rb) : Prop :=
  forall rb, ring_ok (rb_view rb) ->
    exists k, 0 <= k <= zlen (v_contents (rb_view rb)) /\
      v_cap (rb_view (f rb)) = v_cap (rb_view rb) /\
      v_popped (rb_view (f rb)) = v_popped (rb_view rb) ++ ztake k (v_contents (rb_view rb)) /\
      v_contents (rb_view (f rb)) = zdrop k (v_contents (rb_view rb)) /\
      v_prod (rb_view (f rb)) = v_prod (rb_view rb) /\
      (v_cons (rb_view rb) = false -> v_cons (rb_view (f rb)) = false) /\
      (v_waker (rb_view (f rb)) = v_waker (rb_view rb) \/ 0 < k \/
       v_cons (rb_view (f rb)) = false).

(** The producer's side of the pipe: the sender holds the newest ring, all
    older rings are closed, and no ring holds more than its capacity. *)
Definition sender_wf (s : MsgSender) (p : Pipe Rb Ch) : Prop :=
  exists pre rb, rings p = pre ++ [rb] /\ ring_buf s = length pre /\
    ring_ok (rb_view rb) /\ v_prod (rb_view rb) = true /\
    Forall (fun r => ring_ok (rb_view r) /\ v_prod (rb_view r) = false) pre /\
    c_tx (mpsc_view (chan p)) = true.
End defs.

Arguments connection_closed Ch {_}.

(** ** Lemmas *)

Section lemmas.
Context {Rb : Type} {Ch : Type -> Type} `{RingBufSpec Rb} `{MpscSpec Ch}.
Implicit Types (rb : Rb) (p : Pipe Rb Ch) (env : list (Rb -> Rb)).

(** What the receiver may not change between two accesses of the sender, and
    what the sender's waker tells when nothing was taken. *)
Definition ring_le (v v' : ring_view) : Prop :=
  v_cap v' = v_cap v /\ v_prod v' = v_prod v /\ ring_ok v' /\
  (v_cons v = false -> v_cons v' = false).

Lemma consumer_move_le f rb :
  consumer_move f -> ring_ok (rb_view rb) ->
  ring_le (rb_view rb) (rb_view (f rb)) /\
  v_pushed (rb_view (f rb)) = v_pushed (rb_view rb) /\
  zlen (v_contents (rb_view (f rb))) <= zlen (v_contents (rb_view rb)) /\
  (v_waker (rb_view (f rb)) = v_waker (rb_view rb) \/
   zlen (v_contents (rb_view (f rb))) < v_cap (rb_view rb) \/
   v_cons (rb_view (f rb)) = false).
Proof.
  intros Hf Hok. destruct (Hf rb Hok) as (k & Hk & Hcap & Hpop & Hcon & Hprod & Hcons & Hwk).
  unfold ring_le, v_pushed, ring_ok in *.
  rewrite Hcap, Hpop, Hcon, Hprod, <- app_assoc, ztake_zdrop, zlen_zdrop by lia.
  split_and!; try done; [lia..|]. destruct Hwk as [?|[?|?]]; [auto| |auto].
  right; left; lia.
Qed.

Lemma interfere_le env rb :
  Forall consumer_move env -> ring_ok (rb_view rb) ->
  exists rb' env', interfere env rb = (rb', env') /\ Forall consumer_move env' /\
    ring_le (rb_view rb) (rb_view rb') /\
    v_pushed (rb_view rb') = v_pushed (rb_view rb) /\
    zlen (v_contents (rb_view rb')) <= zlen (v_contents (rb_view rb)) /\
    (v_waker (rb_view rb') = v_waker (rb_view rb) \/
     zlen (v_contents (rb_view rb')) < v_cap (rb_view rb) \/
     v_cons (rb_view rb') = false).
Proof.
  intros Henv Hok. destruct env as [|f env]; cbn.
  - eexists _, _. unfold ring_le. split_and!; auto; lia.
  - apply Forall_cons in Henv as [Hf Henv]. eexists _, _. split; [done|].
    split; [done|]. by apply consumer_move_le.
Qed.

(** The receiver's side of a ring is as it was. *)
Definition same_cons (v v' : ring_view) : Prop :=
  v_popped v' = v_popped v /\ v_cons v' = v_cons v.

Lemma ring_le_trans v1 v2 v3 : ring_le v1 v2 -> ring_le v2 v3 -> ring_le v1 v3.
Proof. unfold ring_le. intros (? & ? & ? & ?) (? & ? & ? & ?). split_and!; auto; congruence. Qed.

(** [push_slice] of a non-empty slice appends a prefix of it, and pushes nothing
    only into a full ring. *)
Lemma push_slice_spec rb bytes rb' n :
  ring_ok (rb_view rb) -> rb_push_slice rb bytes = (rb', n) ->
  0 <= n <= zlen bytes /\ ring_le (rb_view rb) (rb_view rb') /\
  v_pushed (rb_view rb') = v_pushed (rb_view rb) ++ ztake n bytes /\
  v_waker (rb_view rb') = v_waker (rb_view rb) /\
  same_cons (rb_view rb) (rb_view rb') /\
  zlen (v_contents (rb_view rb')) = zlen (v_contents (rb_view rb)) + n /\
  (n < zlen bytes -> zlen (v_contents (rb_view rb')) = v_cap (rb_view rb)).
Proof.
  intros Hok E. pose proof (rb_push_slice_view _ _ _ _ Hok E) as [Hn ->].
  pose proof (zlen_nonneg bytes). unfold ring_le, same_cons, v_pushed, ring_ok in *; cbn.
  rewrite app_assoc, zlen_app, zlen_ztake by lia. split_and!; try done; lia.
Qed.

Lemma ring_ok_new cap : 0 <= cap -> ring_ok (rb_view (@rb_new Rb _ cap)).
Proof. intros. rewrite rb_new_view. unfold ring_ok. cbn. rewrite (zlen_nil (A := byte)). lia. Qed.

(** [burst_write]: what was pushed is exactly the bytes between the two offsets;
    it stops early only at a full ring. *)
Lemma burst_write_spec fuel env offset rb bytes :
  Forall consumer_move env -> ring_ok (rb_view rb) ->
  0 <= offset < zlen bytes -> zlen bytes < isize_bound ->
  zlen bytes - offset < Z.of_nat fuel ->
  exists env' offset' rb' st,
    burst_write fuel env offset rb bytes = Ret (env', offset', rb', st) /\
    Forall consumer_move env' /\ offset <= offset' <= zlen bytes /\
    ring_le (rb_view rb) (rb_view rb') /\
    v_pushed (rb_view rb') = v_pushed (rb_view rb) ++ slice bytes offset offset' /\
    match st with
    | BW_Finished => offset' = zlen bytes
    | BW_Pending => offset' < zlen bytes /\
        zlen (v_contents (rb_view rb')) = v_cap (rb_view rb')
    end /\
    (offset' = offset ->
       zlen (v_contents (rb_view rb')) <= zlen (v_contents (rb_view rb)) /\
       (v_waker (rb_view rb') = v_waker (rb_view rb) \/ v_cons (rb_view rb') = false)) /\
    (env = [] -> env' = [] /\ same_cons (rb_view rb) (rb_view rb')).
Proof.
  revert env offset rb. induction fuel as [|fuel IH];
    intros env offset rb Henv Hok Hoff Hlen Hfuel; [lia|]. cbn [burst_write].
  destruct (interfere_le env rb Henv Hok) as (rb1 & env1 & E1 & Henv1 & Hle1 & Hp1 & Hsh & Hwk).
  rewrite E1, slice_checked_ret by lia. cbn [obind].
  destruct (rb_push_slice rb1 (slice bytes offset (zlen bytes))) as [rb2 n] eqn:E2.
  apply push_slice_spec in E2 as (Hn & Hle2 & Hp2 & Hw2 & Hc2 & Hz & Hfull); [|apply Hle1].
  assert (env = [] -> env1 = [] /\ same_cons (rb_view rb) (rb_view rb2)) as Hnil.
  { intros ->. injection E1 as <- <-. done. }
  rewrite zlen_slice in Hn, Hfull by lia.
  assert (isize_bound < usize_bound) by done.
  pose proof (ring_le_trans _ _ _ Hle1 Hle2) as Hle.
  pose proof Hle1 as (Hcap1 & _). pose proof Hle2 as (Hcap2 & _).
  rewrite ztake_slice in Hp2 by lia. rewrite Hp1 in Hp2.
  destruct (Z.eqb_spec n 0) as [->|Hn0].
  - rewrite Z.add_0_r in Hp2. eexists _, _, _, _. split; [done|].
    split_and!; try done; try lia.
    intros _. split; [lia|]. rewrite Hw2, (proj2 Hc2). destruct Hwk as [Hwk|[Hwk|Hwk]]; [by left|lia|by right].
  - rewrite usize_add_small by lia.
    destruct (Z.eqb_spec (offset + n) (zlen bytes)) as [Heq|Hne].
    + eexists _, _, _, _. split; [done|]. split_and!; try done; lia.
    + destruct (IH env1 (offset + n) rb2) as
        (env' & off' & rb' & st & E & He & Ho & Hle' & Hp' & Hst & _ & Hnil');
        [done|apply Hle2|lia..|].
      eexists _, _, _, _. split; [exact E|]. rewrite Hp', Hp2, <- app_assoc, <- slice_split by lia.
      split_and!; try done; try lia; [by eapply ring_le_trans|].
      intros Hem. destruct (Hnil Hem) as [He1 [Hs1 Hs2]].
      destruct (Hnil' He1) as [He2 [Hs3 Hs4]]. unfold same_cons. split_and!; congruence.
Qed.

(** *** The newest ring of the pipe *)

Lemma lookup_last (pre : list Rb) rb : (pre ++ [rb]) !! length pre = Some rb.
Proof. by apply list_lookup_middle. Qed.

Lemma insert_last (pre : list Rb) rb rb' : <[length pre := rb']> (pre ++ [rb]) = pre ++ [rb'].
Proof.
  rewrite <- (Nat.add_0_r (length pre)). by rewrite insert_app_r.
Qed.

Lemma stream_snoc (pre : list Rb) rb (c : Ch nat) :
  stream (mkPipe (pre ++ [rb]) c) = stream (mkPipe pre c) ++ v_pushed (rb_view rb).
Proof.
  unfold stream; cbn. rewrite fmap_app, concat_app. cbn. by rewrite app_nil_r.
Qed.

(** [sender_wf] names the pieces of the pipe. *)
Definition sender_parts s p pre rb : Prop :=
  rings p = pre ++ [rb] /\ ring_buf s = length pre /\
  ring_ok (rb_view rb) /\ v_prod (rb_view rb) = true /\
  Forall (fun r => ring_ok (rb_view r) /\ v_prod (rb_view r) = false) pre /\
  c_tx (mpsc_view (chan p)) = true.

Lemma sender_parts_wf s p pre rb : sender_parts s p pre rb -> sender_wf s p.
Proof. intros Hp. by exists pre, rb. Qed.

Lemma sender_lookup s p pre rb : sender_parts s p pre rb -> rings p !! ring_buf s = Some rb.
Proof. intros (-> & -> & _). apply lookup_last. Qed.

Lemma sender_set_ring s p pre rb rb' :
  sender_parts s p pre rb -> ring_le (rb_view rb) (rb_view rb') ->
  sender_parts s (set_ring p (ring_buf s) rb') pre rb'.
Proof.
  intros (Hr & Hi & Hok & Hprod & Hpre & Htx) (Hcap & Hp & Hok' & _).
  unfold set_ring, sender_parts; cbn. rewrite Hr, Hi, insert_last.
  split_and!; try done. congruence.
Qed.

Lemma stream_parts s p pre rb :
  sender_parts s p pre rb ->
  stream p = stream (mkPipe pre (chan p)) ++ v_pushed (rb_view rb).
Proof.
  intros (Hr & _). destruct p as [rs c]; cbn in *. subst. exact (stream_snoc pre rb c).
Qed.

Lemma stream_set_ring s p pre rb rb' data :
  sender_parts s p pre rb -> ring_le (rb_view rb) (rb_view rb') ->
  v_pushed (rb_view rb') = v_pushed (rb_view rb) ++ data ->
  stream (set_ring p (ring_buf s) rb') = stream p ++ data.
Proof.
  intros Hp Hle Hd. rewrite (stream_parts _ _ _ _ Hp).
  rewrite (stream_parts _ _ _ _ (sender_set_ring _ _ _ _ _ Hp Hle)), Hd. cbn [chan set_ring].
  by rewrite app_assoc.
Qed.

(** Handing over a new ring: it needs the receiver; the stream grows by what is
    in the new ring, and without the receiver nothing changes. *)
Lemma switch_ring_spec s p pre rb new_ring :
  sender_parts s p pre rb ->
  ring_ok (rb_view new_ring) -> v_prod (rb_view new_ring) = true ->
  exists c, 
    if c_rx (mpsc_view (chan p)) then
      switch_ring s p new_ring =
        Ret (mkSender (length (rings p)),
             mkPipe (pre ++ [rb_drop_prod rb] ++ [new_ring]) c, Ok tt) /\
      mpsc_view c = mkChan (c_queue (mpsc_view (chan p)) ++ [length (rings p)]) true true /\
      sender_parts (mkSender (length (rings p)))
        (mkPipe (pre ++ [rb_drop_prod rb] ++ [new_ring]) c) (pre ++ [rb_drop_prod rb]) new_ring
    else
      switch_ring s p new_ring =
        Ret (s, mkPipe (rings p) c, Err (connection_closed Ch)) /\
      mpsc_view c = mpsc_view (chan p) /\
      sender_parts s (mkPipe (rings p) c) pre rb.
Proof.
  intros Hp Hok Hprod. pose proof Hp as (Hr & Hi & Hok0 & Hprod0 & Hpre & Htx).
  destruct (mpsc_send (chan p) (length (rings p))) as [c r] eqn:E.
  exists c. apply mpsc_send_view in E as Hv. unfold switch_ring. rewrite E.
  destruct (c_rx (mpsc_view (chan p))) eqn:Erx.
  - destruct Hv as [-> Hv]. rewrite (sender_lookup _ _ _ _ Hp), Hr, Hi, insert_last.
    rewrite Hv, Htx, Hr, <- app_assoc. cbn [app]. split_and!; try done.
    unfold sender_parts; cbn. rewrite <- app_assoc. rewrite Hv, !length_app.
    split_and!; try done. apply Forall_app; split; [done|].
    apply Forall_singleton. by rewrite rb_drop_prod_view.
  - destruct Hv as [-> Hv]. split_and!; try done. unfold sender_parts; cbn. by rewrite Hv.
Qed.

Lemma stream_switch s p pre rb new_ring (c : Ch nat) :
  sender_parts s p pre rb ->
  stream (mkPipe (pre ++ [rb_drop_prod rb] ++ [new_ring]) c) =
    stream p ++ v_pushed (rb_view new_ring).
Proof.
  intros Hp. rewrite app_assoc, !stream_snoc, (stream_parts _ _ _ _ Hp).
  by rewrite rb_drop_prod_view.
Qed.
(** *** The effect of a call on the pipe *)

(** [extends quiet s p s' p' data]: the call changed the pipe only by appending
    [data] to the stream: it pushed to the newest ring, and it may have handed
    over one new ring, closing the old one.  If the receiver was [quiet] during
    the call its side of the rings is as it was. *)
Definition extends (quiet : Prop) (s : MsgSender) p (s' : MsgSender) p'
    (data : list byte) : Prop :=
  exists pre rb rb1 d1,
    sender_parts s p pre rb /\ ring_le (rb_view rb) (rb_view rb1) /\
    v_pushed (rb_view rb1) = v_pushed (rb_view rb) ++ d1 /\
    (quiet -> same_cons (rb_view rb) (rb_view rb1)) /\
    ((s' = s /\ data = d1 /\ sender_parts s' p' pre rb1 /\
      mpsc_view (chan p') = mpsc_view (chan p)) \/
     (exists new d2, data = d1 ++ d2 /\
      rb_view new = mkView (v_cap (rb_view new)) [] d2 true true (v_waker (rb_view new)) (v_woken (rb_view new)) /\
      sender_parts s' p' (pre ++ [rb_drop_prod rb1]) new /\
      c_rx (mpsc_view (chan p)) = true /\
      mpsc_view (chan p') =
        mkChan (c_queue (mpsc_view (chan p)) ++ [length (rings p)]) true true)).

Lemma extends_wf quiet s p s' p' data :
  extends quiet s p s' p' data -> sender_wf s' p'.
Proof.
  intros (pre & rb & rb1 & d1 & _ & _ & _ & _ & [(_ & _ & Hp & _)|(new & d2 & _ & _ & Hp & _)]);
    eauto using sender_parts_wf.
Qed.

Lemma extends_stream quiet s p s' p' data :
  extends quiet s p s' p' data -> stream p' = stream p ++ data.
Proof.
  intros (pre & rb & rb1 & d1 & Hp & Hle & Hd & _ & Hcase).
  rewrite (stream_parts _ _ _ _ Hp).
  destruct Hcase as [(-> & -> & Hp' & _)|(new & d2 & -> & Hv & Hp' & _)].
  - by rewrite (stream_parts _ _ _ _ Hp'), Hd, app_assoc.
  - rewrite (stream_parts _ _ _ _ Hp'), stream_snoc, rb_drop_prod_view.
    unfold v_pushed at 2. rewrite Hv. cbn. unfold v_pushed in Hd |- *. cbn.
    by rewrite Hd, <- !app_assoc.
Qed.

Lemma extends_refl quiet s p : sender_wf s p -> extends quiet s p s p [].
Proof.
  intros (pre & rb & Hp). exists pre, rb, rb, []. rewrite app_nil_r.
  split_and!; try done.
  - destruct Hp as (_ & _ & ? & _). by split_and!.
  - left. by split_and!.
Qed.

(** A call that only touches the newest ring. *)
Lemma extends_set_ring quiet s p pre rb rb' data :
  sender_parts s p pre rb -> ring_le (rb_view rb) (rb_view rb') ->
  v_pushed (rb_view rb') = v_pushed (rb_view rb) ++ data ->
  (quiet -> same_cons (rb_view rb) (rb_view rb')) ->
  extends quiet s p s (set_ring p (ring_buf s) rb') data.
Proof.
  intros Hp Hle Hd Hq. exists pre, rb, rb', data. split_and!; try done.
  left. split_and!; try done. by apply (sender_set_ring s p pre rb).
Qed.

(** A call that pushes to the newest ring and then hands over a new one. *)
Lemma extends_switch quiet s p pre rb rb1 d1 new d2 :
  sender_parts s p pre rb -> ring_le (rb_view rb) (rb_view rb1) ->
  v_pushed (rb_view rb1) = v_pushed (rb_view rb) ++ d1 ->
  (quiet -> same_cons (rb_view rb) (rb_view rb1)) ->
  rb_view new = mkView (v_cap (rb_view new)) [] d2 true true (v_waker (rb_view new)) (v_woken (rb_view new)) ->
  ring_ok (rb_view new) ->
  exists s' p' r data, switch_ring s (set_ring p (ring_buf s) rb1) new = Ret (s', p', r) /\
    extends quiet s p s' p' data /\
    (r = Ok tt /\ data = d1 ++ d2 /\ c_rx (mpsc_view (chan p)) = true \/
     r = Err (connection_closed Ch) /\ data = d1 /\ c_rx (mpsc_view (chan p)) = false).
Proof.
  intros Hp Hle Hd Hq Hnew Hok.
  pose proof (sender_set_ring _ _ _ _ _ Hp Hle) as Hp1.
  destruct (switch_ring_spec s _ pre rb1 new Hp1 Hok) as (c & Hc); [by rewrite Hnew|].
  cbn [chan set_ring] in Hc. destruct (c_rx (mpsc_view (chan p))) eqn:Erx.
  - destruct Hc as (E & Hv & Hp2). eexists _, _, _, (d1 ++ d2). split; [exact E|].
    split; [|by left]. exists pre, rb, rb1, d1. split_and!; try done. right.
    exists new, d2. rewrite app_assoc in Hp2 |- *. split_and!; try done. cbn [chan].
    rewrite Hv. do 3 f_equal. unfold set_ring; cbn. by rewrite length_insert.
  - destruct Hc as (E & Hv & Hp2). eexists _, _, _, d1. split; [exact E|].
    split; [|by right]. exists pre, rb, rb1, d1. split_and!; try done. left.
    split_and!; try done.
Qed.
(** [send_nonblock] takes all bytes, or fails because the receiver is gone. *)
Lemma send_nonblock_effect env s p bytes :
  sender_wf s p -> Forall consumer_move env -> zlen bytes < isize_bound ->
  exists s' p' r data, send_nonblock env s p bytes = Ret (s', p', r) /\
    extends (env = []) s p s' p' data /\
    (r = Ok tt /\ data = bytes \/
     r = Err (connection_closed Ch) /\ data `prefix_of` bytes /\
     c_rx (mpsc_view (chan p)) = false).
Proof.
  intros Hwf Henv Hlen. unfold send_nonblock.
  destruct (Z.eqb_spec (zlen bytes) 0) as [E0|E0].
  { apply zlen_zero_iff in E0 as ->. eexists _, _, _, []. split; [done|].
    split; [by apply extends_refl|by left]. }
  destruct Hwf as (pre & rb & Hp). fold (sender_parts s p pre rb) in Hp.
  pose proof Hp as (_ & _ & Hok & _). pose proof (zlen_nonneg bytes).
  rewrite (sender_lookup _ _ _ _ Hp).
  destruct (burst_write_spec (burst_fuel bytes) env 0 rb bytes)
    as (env' & off & rb1 & st & -> & _ & Hoff & Hle & Hd & Hst & _ & Hq);
    [done|done|lia|done|unfold burst_fuel, zlen; lia|]. cbn [obind].
  assert (env = [] -> same_cons (rb_view rb) (rb_view rb1)) as Hq' by (intros Hn; by apply Hq).
  destruct st.
  - destruct Hst as [Hlt _]. rewrite slice_checked_ret by lia. cbn [obind].
    destruct (rb_push_slice (rb_new (Z.max RING_BUFFER_SIZE (zlen bytes - off)))
      (slice bytes off (zlen bytes))) as [new n] eqn:En.
    apply rb_push_slice_view in En as [Hn Hv];
      [|by apply ring_ok_new; unfold RING_BUFFER_SIZE; lia].
    rewrite rb_new_view in Hn, Hv. cbn in Hn, Hv. rewrite (zlen_slice bytes) in Hn by lia.
    rewrite (zlen_nil (A := byte)) in Hn.
    rewrite ztake_all in Hv by (rewrite zlen_slice; lia).
    destruct (extends_switch (env = []) s p pre rb rb1 (slice bytes 0 off) new
      (slice bytes off (zlen bytes))) as (s' & p' & r & data & E & Hext & Hr); try done.
    { by rewrite Hv. }
    { rewrite Hv. unfold ring_ok; cbn. rewrite zlen_slice by lia. lia. }
    exists s', p', r, data. split_and!; try done.
    destruct Hr as [(-> & -> & Hrx)|(-> & -> & Hrx)].
    + left. split; [done|]. rewrite <- slice_split by lia. apply slice_self.
    + right. split_and!; try done. exists (slice bytes off (zlen bytes)).
      rewrite <- slice_split by lia. by rewrite slice_self.
  - subst off. rewrite slice_self in Hd. eexists _, _, _, bytes. split; [done|].
    split; [|by left]. by apply (extends_set_ring _ s p pre rb).
Qed.

(** The loop of [send_async] from either of its two iterations. *)
Lemma send_async_loop_spec fuel env (registered : bool) rb bytes waker :
  Forall consumer_move env -> ring_ok (rb_view rb) ->
  0 < zlen bytes < isize_bound ->
  ((if registered then 1 else 2) <= fuel)%nat ->
  (registered = true -> v_waker (rb_view rb) = Some waker \/ v_cons (rb_view rb) = false) ->
  exists rb' r data, send_async_loop fuel env 0 registered rb bytes waker = Ret (rb', r) /\
    ring_le (rb_view rb) (rb_view rb') /\
    v_pushed (rb_view rb') = v_pushed (rb_view rb) ++ data /\
    (env = [] -> same_cons (rb_view rb) (rb_view rb')) /\
    match r with
    | Ready (Ok n) => 0 < n <= zlen bytes /\ data = ztake n bytes
    | Ready (Err e) => e = IoNew Other "connection closed" /\ data = [] /\
        v_cons (rb_view rb') = false
    | Pending => data = [] /\ zlen (v_contents (rb_view rb')) = v_cap (rb_view rb') /\
        (v_waker (rb_view rb') = Some waker \/ v_cons (rb_view rb') = false)
    end.
Proof.
  revert env registered rb. induction fuel as [|fuel IH];
    intros env registered rb Henv Hok Hlen Hfuel Hreg; [destruct registered; cbn in Hfuel; lia|].
  cbn [send_async_loop].
  destruct (interfere_le env rb Henv Hok) as (rb1 & env1 & E1 & Henv1 & Hle1 & Hp1 & _ & Hwk1).
  rewrite E1. rewrite rb_prod_is_closed_view.
  assert (env = [] -> env1 = [] /\ rb1 = rb) as Hnil1.
  { intros ->. by injection E1 as <- <-. }
  destruct (v_cons (rb_view rb1)) eqn:Ec; cbn [negb].
  2: { eexists _, _, []. split; [done|]. rewrite app_nil_r. split_and!; try done.
       intros Hn. destruct (Hnil1 Hn) as [_ ->]. by split. }
  destruct (burst_write_spec (burst_fuel bytes) env1 0 rb1 bytes)
    as (env2 & off & rb2 & st & -> & Henv2 & Hoff & Hle2 & Hp2 & Hst & Hwk2 & Hq2);
    [done|apply Hle1|lia|lia|unfold burst_fuel, zlen; lia|]. cbn [obind].
  pose proof (ring_le_trans _ _ _ Hle1 Hle2) as Hle. rewrite Hp1 in Hp2.
  assert (env = [] -> env2 = [] /\ same_cons (rb_view rb) (rb_view rb2)) as Hnil2.
  { intros Hn. destruct (Hnil1 Hn) as [Hn1 <-]. by apply Hq2. }
  destruct (Z.ltb_spec 0 off) as [Hpos|Hz].
  { eexists _, _, (ztake off bytes). split; [done|].
    unfold slice in Hp2. rewrite Z.sub_0_r, zdrop_0 in Hp2.
    split_and!; try done; [|lia]. intros Hn. by apply Hnil2. }
  assert (off = 0) as -> by lia. rewrite slice_empty, app_nil_r in Hp2.
  destruct st; [|lia]. destruct Hst as [_ Hfull]. destruct (Hwk2 eq_refl) as [Hsh Hwk].
  destruct Hle1 as (Hcap1 & _ & _ & Hc1). pose proof Hle2 as (Hcap2 & _ & Hok2 & _).
  destruct registered.
  - eexists _, _, []. split; [done|]. rewrite app_nil_r. split_and!; try done.
    { intros Hn. by apply Hnil2. }
    destruct Hwk as [Hwk|]; [|by right]. left. rewrite Hwk.
    destruct (v_cons (rb_view rb)); [|specialize (Hc1 eq_refl); congruence].
    destruct (Hreg eq_refl) as [Hreg'|]; [|done].
    destruct Hwk1 as [->|[?|?]]; [done|lia|congruence].
  - destruct (interfere_le env2 rb2 Henv2 Hok2) as (rb3 & env3 & E3 & Henv3 & Hle3 & Hp3 & _).
    rewrite E3.
    assert (env = [] -> env3 = [] /\ same_cons (rb_view rb) (rb_view rb3)) as Hnil3.
    { intros Hn. destruct (Hnil2 Hn) as [-> ?]. by injection E3 as <- <-. }
    destruct (IH env3 true (rb_register_waker rb3 waker))
      as (rb' & r & data & E & Hle' & Hp' & Hq' & Hr); [done| |done|lia| |].
    + rewrite rb_register_waker_view. apply Hle3.
    + intros _. left. by rewrite rb_register_waker_view.
    + exists rb', r, data. rewrite rb_register_waker_view in Hle', Hp', Hq'.
      split; [done|]. cbn in Hp', Hq'. unfold v_pushed in *; cbn in Hp'.
      split_and!; try done.
      * eapply ring_le_trans; [exact Hle|]. by eapply ring_le_trans.
      * by rewrite Hp', Hp3, Hp2.
      * intros Hn. destruct (Hnil3 Hn) as [Hn2 [Hs1 Hs2]].
        destruct (Hq' Hn2) as [Hs3 Hs4]. cbn in *. split; congruence.
Qed.

Lemma send_async_effect env s p bytes waker :
  sender_wf s p -> Forall consumer_move env -> zlen bytes < isize_bound ->
  exists s' p' r data, send_async env s p bytes waker = Ret (s', p', r) /\
    extends (env = []) s p s' p' data /\
    match r with
    | Ready (Ok n) => data = ztake n bytes /\ (bytes = [] /\ n = 0 \/ 0 < n <= zlen bytes)
    | Ready (Err e) => e = IoNew Other "connection closed" /\ data = [] /\
        exists rb, rings p' !! ring_buf s' = Some rb /\ v_cons (rb_view rb) = false
    | Pending => data = [] /\ exists rb, rings p' !! ring_buf s' = Some rb /\
        zlen (v_contents (rb_view rb)) = v_cap (rb_view rb) /\
        (v_waker (rb_view rb) = Some waker \/ v_cons (rb_view rb) = false)
    end.
Proof.
  intros Hwf Henv Hlen. unfold send_async.
  destruct (Z.eqb_spec (zlen bytes) 0) as [E0|E0].
  { apply zlen_zero_iff in E0 as ->. eexists _, _, _, []. split; [done|].
    split; [by apply extends_refl|]. auto. }
  destruct Hwf as (pre & rb & Hp). fold (sender_parts s p pre rb) in Hp.
  pose proof Hp as (_ & _ & Hok & _). pose proof (zlen_nonneg bytes).
  rewrite (sender_lookup _ _ _ _ Hp).
  destruct (send_async_loop_spec 2 env false rb bytes waker)
    as (rb' & r & data & -> & Hle & Hd & Hq & Hr); [done|done|lia|lia|done|]. cbn [obind].
  exists s, (set_ring p (ring_buf s) rb'), r, data. split; [done|].
  split; [by apply (extends_set_ring _ s p pre rb)|].
  rewrite (sender_lookup _ _ _ _ (sender_set_ring _ _ _ _ _ Hp Hle)).
  destruct r as [[n|e]|].
  - destruct Hr as [Hn ->]. auto.
  - destruct Hr as (-> & -> & Hc). eauto.
  - destruct Hr as (-> & Hfull & Hw). split; [done|]. by exists rb'.
Qed.

(** The blocking loop of [send_block]: what has been taken when it returns. *)
Definition block_post env offset rb bytes
    (o : outcome (list (Rb -> Rb) * Rb * io_result unit)) : Prop :=
  match o with
  | Ret (_, rb', r) => exists offset', offset <= offset' <= zlen bytes /\
      ring_le (rb_view rb) (rb_view rb') /\
      v_pushed (rb_view rb') = v_pushed (rb_view rb) ++ slice bytes offset offset' /\
      (env = [] -> same_cons (rb_view rb) (rb_view rb')) /\
      (r = Ok tt -> offset' = zlen bytes)
  | NoFuel => True
  | Panic => False
  end.

Lemma write_all_block_spec polls cx env offset rb bytes :
  Forall consumer_move env -> ring_ok (rb_view rb) ->
  0 <= offset <= zlen bytes -> zlen bytes < isize_bound ->
  block_post env offset rb bytes (write_all_block polls cx env offset rb bytes).
Proof.
  revert env offset rb. induction polls as [|polls IH];
    intros env offset rb Henv Hok Hoff Hlen; cbn [write_all_block];
    destruct (Z.ltb_spec offset (zlen bytes)) as [Hlt|Hge]; [done| | |].
  1, 3: exists offset; rewrite slice_empty, app_nil_r; (split_and!; try done; lia).
  destruct (interfere_le env rb Henv Hok) as (rb1 & env1 & E1 & Henv1 & Hle1 & Hp1 & _ & _).
  rewrite E1, slice_checked_ret by lia. cbn [obind].
  assert (env = [] -> env1 = [] /\ rb1 = rb) as Hnil1.
  { intros ->. by injection E1 as <- <-. }
  destruct (rb_poll_write rb1 cx (slice bytes offset (zlen bytes))) as [rb2 pw] eqn:E2.
  apply rb_poll_write_view in E2 as (n & wk & Hn & Hfit & Hv & Hm); [|apply Hle1].
  rewrite zlen_slice in Hn by lia.
  assert (ring_le (rb_view rb) (rb_view rb2)) as Hle2.
  { eapply ring_le_trans; [done|]. rewrite Hv. unfold ring_le, ring_ok; cbn.
    rewrite zlen_app, zlen_ztake by (rewrite zlen_slice; lia). split_and!; done || lia. }
  assert (v_pushed (rb_view rb2) = v_pushed (rb_view rb) ++ slice bytes offset (offset + n)) as Hp2.
  { rewrite Hv. unfold v_pushed in *; cbn. rewrite app_assoc, Hp1.
    by rewrite ztake_slice by lia. }
  assert (env = [] -> env1 = [] /\ same_cons (rb_view rb) (rb_view rb2)) as Hq2.
  { intros Hem. destruct (Hnil1 Hem) as [? ->]. rewrite Hv. by split. }
  assert (isize_bound < usize_bound) by done.
  assert (forall m, m = n -> block_post env offset rb bytes
    (write_all_block polls cx env1 (offset + m) rb2 bytes)) as Hrec.
  { intros m ->. specialize (IH env1 (offset + n) rb2 Henv1 ltac:(apply Hle2) ltac:(lia) Hlen).
    destruct (write_all_block _ _ _ _ _ _) as [[[env' rb'] r]| |]; try done.
    destruct IH as (off' & Ho & Hle & Hp & Hq & Hr). exists off'.
    rewrite Hp, Hp2, <- app_assoc, <- slice_split by lia.
    split_and!; try done; try lia; [by eapply ring_le_trans|].
    intros Hem. destruct (Hq2 Hem) as [Hem1 []], (Hq Hem1). split; congruence. }
  destruct pw as [[m|e]|].
  - subst m. rewrite usize_add_small by lia. by apply Hrec.
  - subst n. exists offset. rewrite Z.add_0_r in Hp2. split_and!; try done; try lia.
    intros Hem. by apply Hq2.
  - subst n. specialize (Hrec 0 eq_refl). by rewrite Z.add_0_r in Hrec.
Qed.

Lemma send_block_effect polls cx env s p bytes :
  sender_wf s p -> Forall consumer_move env -> zlen bytes < isize_bound ->
  match send_block polls cx env s p bytes with
  | Ret (s', p', r) => exists data, extends (env = []) s p s' p' data /\
      data `prefix_of` bytes /\ (r = Ok tt -> data = bytes)
  | NoFuel => True
  | Panic => False
  end.
Proof.
  intros Hwf Henv Hlen. unfold send_block.
  destruct (Z.eqb_spec (zlen bytes) 0) as [E0|E0].
  { apply zlen_zero_iff in E0 as ->. exists []. split_and!; try done.
    by apply extends_refl. }
  destruct Hwf as (pre & rb & Hp). fold (sender_parts s p pre rb) in Hp.
  pose proof Hp as (_ & _ & Hok & _). pose proof (zlen_nonneg bytes).
  rewrite (sender_lookup _ _ _ _ Hp).
  destruct (burst_write_spec (burst_fuel bytes) env 0 rb bytes)
    as (env' & off & rb1 & st & -> & Henv' & Hoff & Hle & Hd & Hst & _ & Hq);
    [done|done|lia|done|unfold burst_fuel, zlen; lia|]. cbn [obind].
  destruct st.
  - pose proof (write_all_block_spec polls cx env' off rb1 bytes Henv'
      ltac:(apply Hle) Hoff Hlen) as Hloop.
    destruct (write_all_block _ _ _ _ _ _) as [[[env2 rb2] r]| |]; cbn [obind]; try done.
    destruct Hloop as (off' & Hoff' & Hle' & Hd' & Hq' & Hr).
    exists (slice bytes 0 off'). split_and!.
    + apply (extends_set_ring _ s p pre rb); [done|by eapply ring_le_trans| |].
      * by rewrite Hd', Hd, <- app_assoc, <- slice_split by lia.
      * intros Hem. destruct (Hq Hem) as [Hem' []], (Hq' Hem'). split; congruence.
    + exists (slice bytes off' (zlen bytes)). rewrite <- slice_split by lia.
      by rewrite slice_self.
    + intros Hrok. rewrite (Hr Hrok). apply slice_self.
  - subst off. rewrite slice_self in Hd. exists bytes. split_and!; try done.
    apply (extends_set_ring _ s p pre rb); try done. intros Hem. by apply Hq.
Qed.

(** [flush] hands over a new empty ring. *)
Lemma flush_effect s p :
  sender_wf s p ->
  exists s' p' r, flush s p = Ret (s', p', r) /\ extends True s p s' p' [] /\
    (r = Ok tt /\ c_rx (mpsc_view (chan p)) = true \/
     r = Err (connection_closed Ch) /\ c_rx (mpsc_view (chan p)) = false).
Proof.
  intros (pre & rb & Hp). fold (sender_parts s p pre rb) in Hp. unfold flush.
  assert (set_ring p (ring_buf s) rb = p) as Hset.
  { destruct Hp as (Hr & Hi & _). unfold set_ring. rewrite Hr, Hi, insert_last, <- Hr.
    by destruct p. }
  destruct (extends_switch True s p pre rb rb [] (rb_new RING_BUFFER_SIZE) [])
    as (s' & p' & r & data & E & Hext & Hr); try done.
  - destruct Hp as (_ & _ & ? & _). by split_and!.
  - by rewrite app_nil_r.
  - by rewrite rb_new_view.
  - by apply ring_ok_new.
  - rewrite Hset in E. exists s', p', r. split; [done|].
    destruct Hr as [(-> & -> & ?)|(-> & -> & ?)]; (split; [done|]); auto.
Qed.

(** A receiver that drains between two polls lets the loop finish. *)
Definition draining (f : Rb -> Rb) : Prop :=
  consumer_move f /\ forall rb, 0 < v_cap (rb_view rb) -> ring_ok (rb_view rb) ->
    v_cons (rb_view rb) = true -> v_cons (rb_view (f rb)) = true /\
    zlen (v_contents (rb_view (f rb))) < v_cap (rb_view (f rb)).

Lemma write_all_block_completes polls cx env offset rb bytes :
  Forall draining env -> 0 < v_cap (rb_view rb) -> ring_ok (rb_view rb) ->
  v_cons (rb_view rb) = true ->
  0 <= offset <= zlen bytes -> zlen bytes < isize_bound ->
  zlen bytes - offset <= Z.of_nat polls -> (polls <= length env)%nat ->
  exists env' rb', write_all_block polls cx env offset rb bytes = Ret (env', rb', Ok tt).
Proof.
  revert env offset rb. induction polls as [|polls IH];
    intros env offset rb Henv Hcap Hok Hc Hoff Hlen Hp He; cbn [write_all_block];
    destruct (Z.ltb_spec offset (zlen bytes)) as [Hlt|Hge];
    [lia|by eexists _, _| |by eexists _, _].
  destruct env as [|f env]; cbn in He; [lia|]. cbn [interfere].
  apply Forall_cons in Henv as [[Hf Hd] Henv].
  destruct (Hd rb Hcap Hok Hc) as [Hc1 Hroom].
  destruct (consumer_move_le f rb Hf Hok) as [(Hcap1 & _ & Hok1 & _) _].
  rewrite slice_checked_ret by lia. cbn [obind].
  destruct (rb_poll_write_ready (f rb) cx (slice bytes offset (zlen bytes)))
    as (rb2 & n & E & Hn); [done|done|apply zlen_pos_iff; rewrite zlen_slice; lia|].
  rewrite E. apply rb_poll_write_view in E as (m & wk & Hm & Hfit & Hv & ->); [|done].
  rewrite zlen_slice in Hm by lia.
  assert (isize_bound < usize_bound) by done. rewrite usize_add_small by lia.
  apply IH; [done| | | |lia..]; rewrite Hv; [cbn; lia| |done].
  unfold ring_ok; cbn. rewrite zlen_app, zlen_ztake by (rewrite zlen_slice; lia). lia.
Qed.
End lemmas.

(** ** Properties *)

Section properties.
Context {Rb : Type} {Ch : Type -> Type} `{RingBufSpec Rb} `{MpscSpec Ch}.
Implicit Types (p : Pipe Rb Ch) (env : list (Rb -> Rb)).

(** [send_nonblock], whatever the receiver does to the ring meanwhile, takes all
    the bytes (they are appended to the stream, in order, split between the old
    ring and a new one that is large enough), or fails with [WriteZero] because
    the receiver was gone; it never blocks or panics. *)
Theorem send_nonblock_appends env s p bytes :
  sender_wf s p -> Forall consumer_move env -> zlen bytes < isize_bound ->
  exists s' p' r, send_nonblock env s p bytes = Ret (s', p', r) /\ sender_wf s' p' /\
    match r with
    | Ok _ => stream p' = stream p ++ bytes
    | Err e => e = connection_closed Ch /\ c_rx (mpsc_view (chan p)) = false /\
        exists sent, sent `prefix_of` bytes /\ stream p' = stream p ++ sent
    end.
Proof.
  intros Hwf Henv Hlen.
  destruct (send_nonblock_effect env s p bytes Hwf Henv Hlen)
    as (s' & p' & r & data & E & Hext & Hr).
  exists s', p', r. split_and!; [done|by eapply extends_wf|].
  apply extends_stream in Hext.
  destruct Hr as [[-> ->]|(-> & Hpre & Hrx)]; [done|]. by eauto.
Qed.

(** [send_async] never blocks.  [Ok(n)] means that exactly the first [n]
    bytes were appended, with [n > 0] unless there was nothing to send; an error
    means that the receiver is gone and nothing was taken; [Pending] means that
    nothing was taken, the ring was full after the waker had been registered,
    and the waker is still registered unless the receiver is gone, so no wake-up
    is missed. *)
Theorem send_async_correct env s p bytes waker :
  sender_wf s p -> Forall consumer_move env -> zlen bytes < isize_bound ->
  exists s' p' r, send_async env s p bytes waker = Ret (s', p', r) /\ sender_wf s' p' /\
    match r with
    | Ready (Ok n) => stream p' = stream p ++ ztake n bytes /\
        (bytes = [] /\ n = 0 \/ 0 < n <= zlen bytes)
    | Ready (Err e) => e = IoNew Other "connection closed" /\ stream p' = stream p /\
        exists rb, rings p' !! ring_buf s' = Some rb /\ v_cons (rb_view rb) = false
    | Pending => stream p' = stream p /\
        exists rb, rings p' !! ring_buf s' = Some rb /\
          zlen (v_contents (rb_view rb)) = v_cap (rb_view rb) /\
          (v_waker (rb_view rb) = Some waker \/ v_cons (rb_view rb) = false)
    end.
Proof.
  intros Hwf Henv Hlen.
  destruct (send_async_effect env s p bytes waker Hwf Henv Hlen)
    as (s' & p' & r & data & E & Hext & Hr).
  exists s', p', r. split_and!; [done|by eapply extends_wf|].
  apply extends_stream in Hext. rewrite Hext.
  destruct r as [[n|e]|].
  - by destruct Hr as [-> ?].
  - destruct Hr as (-> & -> & ?). by rewrite app_nil_r.
  - destruct Hr as (-> & ?). by rewrite app_nil_r.
Qed.

(** C28: the blocked part of [send_block] makes progress: if before each poll the
    receiver has made some room, the loop returns [Ok] after at most one poll
    per remaining byte. *)
Theorem send_block_unblocks polls cx env offset (rb : Rb) bytes :
  Forall draining env -> 0 < v_cap (rb_view rb) -> ring_ok (rb_view rb) ->
  v_cons (rb_view rb) = true ->
  0 <= offset <= zlen bytes -> zlen bytes < isize_bound ->
  zlen bytes - offset <= Z.of_nat polls -> (polls <= length env)%nat ->
  exists env' rb', write_all_block polls cx env offset rb bytes = Ret (env', rb', Ok tt) /\
    v_pushed (rb_view rb') = v_pushed (rb_view rb) ++ slice bytes offset (zlen bytes).
Proof.
  intros Hd Hcap Hok Hc Hoff Hlen Hp He.
  destruct (write_all_block_completes polls cx env offset rb bytes)
    as (env' & rb' & E); try done.
  exists env', rb'. split; [done|].
  assert (Forall consumer_move env) as Henv by (eapply Forall_impl; [done|]; by intros f []).
  pose proof (write_all_block_spec polls cx env offset rb bytes Henv Hok Hoff Hlen) as Hs.
  rewrite E in Hs. destruct Hs as (off' & _ & _ & Hpu & _ & Hr). by rewrite Hpu, Hr.
Qed.

(** C29: on a closed connection with a full ring [send_block] never returns, for
    a ring buffer that answers [Ok(0)] to a [poll_write] after its consumer was
    dropped (the meaning of a zero write in the [AsyncWrite] contract): the loop
    adds zero to its offset and polls again, however often it is polled. *)
Theorem send_block_spins_when_closed polls cx s p bytes rb :
  sender_wf s p -> rings p !! ring_buf s = Some rb ->
  v_cons (rb_view rb) = false -> zlen (v_contents (rb_view rb)) = v_cap (rb_view rb) ->
  0 < zlen bytes < isize_bound ->
  (forall rb' chunk, v_cons (rb_view rb') = false ->
     rb_poll_write rb' cx chunk = (rb', Ready (Ok 0))) ->
  send_block polls cx [] s p bytes = NoFuel.
Proof.
  intros Hwf Hlk Hc Hfull Hlen Hzero. unfold send_block.
  rewrite (proj2 (Z.eqb_neq _ _)), Hlk by lia.
  destruct Hwf as (pre & rb0 & Hp). fold (sender_parts s p pre rb0) in Hp.
  pose proof (sender_lookup _ _ _ _ Hp) as Hlk'. rewrite Hlk in Hlk'. injection Hlk' as <-.
  pose proof Hp as (_ & _ & Hok & _).
  destruct (burst_write_spec (burst_fuel bytes) [] 0 rb bytes)
    as (env' & off & rb1 & st & -> & _ & Hoff & (Hcap & _ & Hok1 & Hc1) & Hd & Hst & _ & Hq);
    [done|done|lia|lia|unfold burst_fuel, zlen; lia|]. cbn [obind].
  destruct (Hq eq_refl) as [-> [Hpop _]]. unfold v_pushed in Hd.
  rewrite Hpop, <- app_assoc in Hd. apply app_inv_head in Hd.
  assert (off = 0) as ->.
  { apply (f_equal zlen) in Hd. rewrite zlen_app, zlen_slice in Hd by lia.
    unfold ring_ok in Hok1. lia. }
  destruct st; [|lia]. specialize (Hc1 Hc).
  clear -Hc1 Hzero Hlen. assert (write_all_block polls cx [] 0 rb1 bytes = NoFuel) as ->; [|done].
  induction polls as [|polls IH]; cbn [write_all_block];
    rewrite (proj2 (Z.ltb_lt _ _)) by lia; [done|].
  cbn [interfere]. rewrite slice_checked_ret by lia. cbn [obind].
  by rewrite Hzero, usize_add_small.
Qed.

(** [send_nonblock] reports no error on a closed connection as long as the
    newest ring has room: the bytes go into a ring nobody will read. *)
Theorem send_nonblock_closed_ok s p bytes rb :
  sender_wf s p -> rings p !! ring_buf s = Some rb ->
  v_cons (rb_view rb) = false -> c_rx (mpsc_view (chan p)) = false ->
  zlen (v_contents (rb_view rb)) + zlen bytes <= v_cap (rb_view rb) ->
  zlen bytes < isize_bound ->
  exists p', send_nonblock [] s p bytes = Ret (s, p', Ok tt).
Proof.
  intros Hwf Hlk Hc Hrx Hroom Hlen. unfold send_nonblock.
  destruct (Z.eqb_spec (zlen bytes) 0) as [E0|E0]; [by eexists|]. rewrite Hlk.
  destruct Hwf as (pre & rb0 & Hp). fold (sender_parts s p pre rb0) in Hp.
  pose proof (sender_lookup _ _ _ _ Hp) as Hlk'. rewrite Hlk in Hlk'. injection Hlk' as <-.
  pose proof Hp as (_ & _ & Hok & _). pose proof (zlen_nonneg bytes).
  destruct (burst_write_spec (burst_fuel bytes) [] 0 rb bytes)
    as (env' & off & rb1 & st & -> & _ & Hoff & (Hcap & _) & Hd & Hst & _ & Hq);
    [done|done|lia|lia|unfold burst_fuel, zlen; lia|]. cbn [obind].
  destruct st; [|by eexists]. exfalso. destruct Hst as [Hlt Hfull].
  destruct (Hq eq_refl) as [-> [Hpop _]]. unfold v_pushed in Hd.
  rewrite Hpop, <- app_assoc in Hd. apply app_inv_head in Hd.
  apply (f_equal zlen) in Hd. rewrite zlen_app, zlen_slice in Hd by lia. lia.
Qed.
End properties.

(** ** Concrete runs *)

(** A receiver that takes one byte when there is one. *)
Definition pop1 (v : ListRing) : ListRing :=
  rb_advance_read_index v (Z.min 1 (zlen (v_contents v))).

Lemma pop1_move : consumer_move pop1.
Proof.
  intros v Hok. pose proof (zlen_nonneg (v_contents v)).
  exists (Z.min 1 (zlen (v_contents v))). cbn.
  split_and!; try done; try lia.
  destruct (Z.ltb_spec 0 (Z.min 1 (zlen (v_contents v)))); [right; left; lia|by left].
Qed.

Lemma pop1_draining (v : ListRing) :
  0 < v_cap v -> ring_ok v -> v_cons v = true ->
  v_cons (pop1 v) = true /\ zlen (v_contents (pop1 v)) < v_cap (pop1 v).
Proof.
  unfold ring_ok. intros Hcap Hok Hc. pose proof (zlen_nonneg (v_contents v)). cbn.
  split; [done|]. rewrite zlen_zdrop by lia. lia.
Qed.

(** Two rings: an old one, closed, and the newest, of capacity four with three
    bytes in it. *)
Definition demo_pipe : Pipe ListRing chan_view :=
  mkPipe [mkView 4 [x01] [x02] false true None []; mkView 4 [] [x03; x04; x05] true true None []]
    (mkChan [1%nat] true true).

Definition demo_sender : MsgSender := mkSender 1.

Lemma demo_sender_wf : sender_wf demo_sender demo_pipe.
Proof.
  eexists [_], _. split; [reflexivity|].
  split_and!; try done. by apply Forall_singleton.
Qed.

(** Six bytes: the receiver takes one byte during the call, two go into the old
    ring and four into a new one. *)
Example demo_send_nonblock :
  (let* '(s, p, r) := send_nonblock [pop1] demo_sender demo_pipe
     [x06; x07; x08; x09; x0a; x0b] in
   Ret (ring_buf s, r, stream p,
        (fun v => (v_contents v, v_prod v)) <$> rings p, c_queue (chan p)))
  = Ret (2%nat, Ok tt, [x01; x02; x03; x04; x05; x06; x07; x08; x09; x0a; x0b],
         [([x02], false); ([x04; x05; x06; x07], false); ([x08; x09; x0a; x0b], true)],
         [1%nat; 2%nat]).
Proof. vm_compute. reflexivity. Qed.

Lemma send_nonblock_appends_witness :
  exists s' p' r, send_nonblock [pop1] demo_sender demo_pipe [x06; x07; x08] = Ret (s', p', r) /\
    sender_wf s' p' /\
    match r with
    | Ok _ => stream p' = stream demo_pipe ++ [x06; x07; x08]
    | Err e => e = connection_closed chan_view /\ c_rx (mpsc_view (chan demo_pipe)) = false /\
        exists sent, sent `prefix_of` [x06; x07; x08] /\ stream p' = stream demo_pipe ++ sent
    end.
Proof.
  apply (send_nonblock_appends [pop1] demo_sender demo_pipe [x06; x07; x08]).
  - apply demo_sender_wf.
  - apply Forall_singleton, pop1_move.
  - reflexivity.
Defined.

Lemma send_async_correct_witness :
  exists s' p' r, send_async [pop1] demo_sender demo_pipe [x06; x07; x08] (mkWaker 1 2)
      = Ret (s', p', r) /\ sender_wf s' p' /\
    match r with
    | Ready (Ok n) => stream p' = stream demo_pipe ++ ztake n [x06; x07; x08] /\
        ([x06; x07; x08] = [] /\ n = 0 \/ 0 < n <= zlen [x06; x07; x08])
    | Ready (Err e) => e = IoNew Other "connection closed" /\ stream p' = stream demo_pipe /\
        exists rb, rings p' !! ring_buf s' = Some rb /\ v_cons (rb_view rb) = false
    | Pending => stream p' = stream demo_pipe /\
        exists rb, rings p' !! ring_buf s' = Some rb /\
          zlen (v_contents (rb_view rb)) = v_cap (rb_view rb) /\
          (v_waker (rb_view rb) = Some (mkWaker 1 2) \/ v_cons (rb_view rb) = false)
    end.
Proof.
  apply (send_async_correct [pop1] demo_sender demo_pipe [x06; x07; x08] (mkWaker 1 2)).
  - apply demo_sender_wf.
  - apply Forall_singleton, pop1_move.
  - reflexivity.
Defined.

Lemma send_block_unblocks_witness :
  exists env' rb',
    write_all_block 2 (mkWaker 1 2) [pop1; pop1] 1
      (mkView 2 [] [x01; x02] true true None [] : ListRing) [x06; x07; x08] = Ret (env', rb', Ok tt) /\
    v_pushed (rb_view rb') =
      v_pushed (rb_view (mkView 2 [] [x01; x02] true true None [] : ListRing))
        ++ slice [x06; x07; x08] 1 (zlen [x06; x07; x08]).
Proof.
  apply (send_block_unblocks 2 (mkWaker 1 2) [pop1; pop1] 1
    (mkView 2 [] [x01; x02] true true None [] : ListRing)).
  - repeat constructor; apply pop1_move || apply pop1_draining; done.
  - reflexivity.
  - done.
  - reflexivity.
  - split; done.
  - reflexivity.
  - done.
  - cbn. lia.
Defined.

(** A closed connection: the receiver is gone. *)
Definition closed_pipe (contents : list byte) : Pipe ListRing chan_view :=
  mkPipe [mkView 2 [] contents true false None []] (mkChan [] true false).

Lemma send_block_spins_when_closed_witness :
  send_block 1000 (mkWaker 1 2) [] (mkSender 0) (closed_pipe [x01; x02]) [x03] = NoFuel.
Proof.
  apply (send_block_spins_when_closed 1000 (mkWaker 1 2) (mkSender 0)
    (closed_pipe [x01; x02]) [x03] (mkView 2 [] [x01; x02] true false None [] : ListRing)).
  - eexists [], _. split; [reflexivity|]. split_and!; done.
  - reflexivity.
  - reflexivity.
  - reflexivity.
  - split; reflexivity.
  - intros v chunk Hc. cbn in *. unfold lr_poll_write. by rewrite Hc.
Defined.

Lemma send_nonblock_closed_ok_witness :
  exists p', send_nonblock [] (mkSender 0) (closed_pipe [x01]) [x03] = Ret (mkSender 0, p', Ok tt).
Proof.
  apply (send_nonblock_closed_ok (mkSender 0) (closed_pipe [x01]) [x03]
    (mkView 2 [] [x01] true false None [] : ListRing)).
  - eexists [], _. split; [reflexivity|]. split_and!; done.
  - reflexivity.
  - reflexivity.
  - reflexivity.
  - done.
  - reflexivity.
Defined.
