(* ===== verification/SenderCall.v ===== *)
(** * The calls of a sender, one access at a time ([msg_sender.rs])

    [MsgSender] has the methods of the sender as whole functions.  Here the same
    methods are split into their accesses to shared memory, so that the writer
    task can run between any two of them.  The last part of the file shows that
    a call whose accesses are made one after the other is the whole function. *)

From S2P Require Import Prelude RingBuf MsgSender.

(** What a method returns: [send_block], [send_nonblock] and [flush] a
    [Result<()>], [send_async] a [Poll<Result<usize>>]. *)
Inductive SendResult : Type :=
| R_Unit (r : io_result unit)
| R_Async (r : poll (io_result Z)).

(** Who has called [burst_write]. *)
Inductive SendKind : Type :=
| K_Block
| K_Nonblock
| K_Async (waker : Waker) (waker_registered : bool).

(** Where a sender is: between two calls, with the result of the last one; or
    before an access of a call.  [S_Send] has the new ring that no one else knows
    yet; after it was sent, [S_DropOld] has its index.  Dropping a sender drops
    its two fields one after the other. *)
Inductive SenderState (Rb : Type) : Type :=
| S_Idle (s : MsgSender) (last : option SendResult)
| S_Burst (s : MsgSender) (k : SendKind) (bytes : list byte) (offset : Z)
| S_BlockPoll (s : MsgSender) (bytes : list byte) (offset : Z)
| S_Check (s : MsgSender) (bytes : list byte) (waker : Waker) (waker_registered : bool)
| S_Register (s : MsgSender) (bytes : list byte) (waker : Waker)
| S_Send (s : MsgSender) (new_ring : Rb)
| S_DropOld (s : MsgSender) (new_ring : nat)
| S_DropRing (s : MsgSender)
| S_DropTx
| S_Dropped.

Arguments S_Idle {Rb}.
Arguments S_Burst {Rb}.
Arguments S_BlockPoll {Rb}.
Arguments S_Check {Rb}.
Arguments S_Register {Rb}.
Arguments S_Send {Rb}.
Arguments S_DropOld {Rb}.
Arguments S_DropRing {Rb}.
Arguments S_DropTx {Rb}.
Arguments S_Dropped {Rb}.

Section defs.
Context {Rb : Type} {Ch : Type -> Type} `{RingBufOps Rb} `{MpscOps Ch}.
#[local] Abbreviation State := (SenderState Rb).

(** The part of a send before its first access. *)
Definition start_send (k : SendKind) (s : MsgSender) (bytes : list byte) : State :=
  match k with
  | K_Block | K_Nonblock =>
      if zlen bytes =? 0 then S_Idle s (Some (R_Unit (Ok tt))) else S_Burst s k bytes 0
  | K_Async waker _ =>
      if zlen bytes =? 0 then S_Idle s (Some (R_Async (Ready (Ok 0))))
      else S_Check s bytes waker false
  end.

Definition start_flush (s : MsgSender) : State := S_Send s (rb_new RING_BUFFER_SIZE).

(** The [while] of the future of [send_block]. *)
Definition block_loop (s : MsgSender) (bytes : list byte) (offset : Z) : State :=
  if offset <? zlen bytes then S_BlockPoll s bytes offset
  else S_Idle s (Some (R_Unit (Ok tt))).

(** What each method does after [burst_write] has returned. *)
Definition after_burst (k : SendKind) (s : MsgSender) (bytes : list byte) (offset : Z)
    (st : BurstWriteState) : outcome State :=
  match k, st with
  | K_Block, BW_Finished | K_Nonblock, BW_Finished => Ret (S_Idle s (Some (R_Unit (Ok tt))))
  | K_Block, BW_Pending => Ret (block_loop s bytes offset)
  | K_Nonblock, BW_Pending =>
      let new_buf_size := Z.max RING_BUFFER_SIZE (zlen bytes - offset) in
      let* rest := slice_checked bytes offset (zlen bytes) in
      let '(new_ring, _) := rb_push_slice (rb_new new_buf_size) rest in
      Ret (S_Send s new_ring)
  | K_Async waker waker_registered, _ =>
      Ret (if 0 <? offset then S_Idle s (Some (R_Async (Ready (Ok offset))))
           else if waker_registered then S_Idle s (Some (R_Async Pending))
           else S_Register s bytes waker)
  end.

(** An access to the ring of the sender. *)
Definition ring_access (s : MsgSender) (p : Pipe Rb Ch) (f : Rb -> outcome (State * Rb))
  : outcome (State * Pipe Rb Ch) :=
  match rings p !! ring_buf s with
  | None => Panic
  | Some rb => let* '(st, rb) := f rb in Ret (st, set_ring p (ring_buf s) rb)
  end.

(** The next access of a sender. *)
Definition sender_access (cx : Waker) (st : State) (p : Pipe Rb Ch)
  : outcome (State * Pipe Rb Ch) :=
  match st with
  | S_Idle _ _ | S_Dropped => Ret (st, p)
  | S_Burst s k bytes offset =>
      ring_access s p (fun rb =>
        let* chunk := slice_checked bytes offset (zlen bytes) in
        let '(rb, n) := rb_push_slice rb chunk in
        if n =? 0 then let* st := after_burst k s bytes offset BW_Pending in Ret (st, rb)
        else
          let offset := usize_add offset n in
          if offset =? zlen bytes
          then let* st := after_burst k s bytes offset BW_Finished in Ret (st, rb)
          else Ret (S_Burst s k bytes offset, rb))
  | S_BlockPoll s bytes offset =>
      ring_access s p (fun rb =>
        let* chunk := slice_checked bytes offset (zlen bytes) in
        match rb_poll_write rb cx chunk with
        | (rb, Ready (Ok n)) => Ret (block_loop s bytes (usize_add offset n), rb)
        | (rb, Ready (Err e)) => Ret (S_Idle s (Some (R_Unit (Err e))), rb)
        | (rb, Pending) => Ret (S_BlockPoll s bytes offset, rb)
        end)
  | S_Check s bytes waker registered =>
      ring_access s p (fun rb =>
        if rb_prod_is_closed rb
        then Ret (S_Idle s (Some (R_Async (Ready (Err (IoNew Other "connection closed"))))), rb)
        else Ret (S_Burst s (K_Async waker registered) bytes 0, rb))
  | S_Register s bytes waker =>
      ring_access s p (fun rb =>
        Ret (S_Check s bytes waker true, rb_register_waker rb waker))
  | S_Send s new_ring =>
      match mpsc_send (chan p) (length (rings p)) with
      | (c, Err _) => Ret (S_Idle s (Some (R_Unit (Err (connection_closed Ch)))), mkPipe (rings p) c)
      | (c, Ok _) => Ret (S_DropOld s (length (rings p)), mkPipe (rings p ++ [new_ring]) c)
      end
  | S_DropOld s new_ring =>
      ring_access s p (fun rb =>
        Ret (S_Idle (mkSender new_ring) (Some (R_Unit (Ok tt))), rb_drop_prod rb))
  | S_DropRing s => ring_access s p (fun rb => Ret (S_DropTx, rb_drop_prod rb))
  | S_DropTx => Ret (S_Dropped, mkPipe (rings p) (mpsc_drop_tx (chan p)))
  end.

(** [n] accesses with no one else in between. *)
Fixpoint access_run (n : nat) (cx : Waker) (st : State) (p : Pipe Rb Ch)
  : outcome (State * Pipe Rb Ch) :=
  match n with
  | O => Ret (st, p)
  | S n => let* '(st, p) := sender_access cx st p in access_run n cx st p
  end.
End defs.

(** ** A call is the sequence of its accesses *)

Section lemmas.
Context {Rb : Type} {Ch : Type -> Type} `{RingBufSpec Rb} `{MpscSpec Ch}.
Implicit Types (p : Pipe Rb Ch) (st : SenderState Rb).

Lemma access_run_app n m cx st p :
  access_run (n + m) cx st p =
    let* '(st, p) := access_run n cx st p in access_run m cx st p.
Proof.
  revert st p. induction n as [|n IH]; intros st p; [done|]. cbn.
  destruct (sender_access cx st p) as [[st1 p1]| |]; cbn; done.
Qed.

Lemma set_ring_twice p i rb rb' : set_ring (set_ring p i rb) i rb' = set_ring p i rb'.
Proof. unfold set_ring; cbn. by rewrite list_insert_insert_eq. Qed.

Lemma set_ring_lookup p i rb rb' :
  rings p !! i = Some rb -> rings (set_ring p i rb') !! i = Some rb'.
Proof. intros Hlk. cbn. apply list_lookup_insert_eq. by apply lookup_lt_Some in Hlk. Qed.

(** [burst_write] is its accesses. *)
Lemma burst_accesses fuel cx s k bytes off p rb off' rb' env bw :
  rings p !! ring_buf s = Some rb ->
  burst_write fuel [] off rb bytes = Ret (env, off', rb', bw) ->
  env = [] /\ exists n, access_run n cx (S_Burst s k bytes off) p =
    let* sst := after_burst k s bytes off' bw in Ret (sst, set_ring p (ring_buf s) rb').
Proof.
  revert off p rb. induction fuel as [|fuel IH]; intros off p rb Hlk E; [done|].
  cbn [burst_write interfere] in E.
  destruct (slice_checked bytes off (zlen bytes)) as [chunk| |] eqn:Ec; cbn [obind] in E; try done.
  destruct (rb_push_slice rb chunk) as [rb1 m] eqn:Ep.
  assert (forall n, access_run (S n) cx (S_Burst s k bytes off) p =
    let* '(sst, rb1) :=
      (if m =? 0 then let* st := after_burst k s bytes off BW_Pending in Ret (st, rb1)
       else if usize_add off m =? zlen bytes
       then let* st := after_burst k s bytes (usize_add off m) BW_Finished in Ret (st, rb1)
       else Ret (S_Burst s k bytes (usize_add off m), rb1)) in
    access_run n cx sst (set_ring p (ring_buf s) rb1)) as Hrun.
  { intros n. clear IH E. cbn [access_run sender_access]. unfold ring_access.
    rewrite Hlk, Ec. cbn [obind]. rewrite Ep.
    destruct (m =? 0); [|destruct (usize_add off m =? zlen bytes)]; cbn [obind];
      try destruct (after_burst _ _ _ _ _); done. }
  destruct (m =? 0).
  - injection E as <- <- <- <-. split; [done|]. exists 1%nat. rewrite Hrun.
    by destruct (after_burst _ _ _ _ _).
  - destruct (usize_add off m =? zlen bytes).
    + injection E as <- <- <- <-. split; [done|]. exists 1%nat. rewrite Hrun.
      by destruct (after_burst _ _ _ _ _).
    + destruct (IH (usize_add off m) (set_ring p (ring_buf s) rb1) rb1) as [-> (n & Hn)];
        [by eapply set_ring_lookup|done|]. split; [done|]. exists (S n).
      rewrite Hrun. cbn [obind]. by rewrite Hn, set_ring_twice.
Qed.

(** The future of [send_block] is its polls. *)
Lemma block_accesses polls cx s bytes off p rb env rb' r :
  rings p !! ring_buf s = Some rb ->
  write_all_block polls cx [] off rb bytes = Ret (env, rb', r) ->
  exists n, access_run n cx (block_loop s bytes off) p =
    Ret (S_Idle s (Some (R_Unit r)), set_ring p (ring_buf s) rb').
Proof.
  revert off p rb. induction polls as [|polls IH]; intros off p rb Hlk E;
    cbn [write_all_block interfere] in E; unfold block_loop; destruct (off <? zlen bytes) eqn:El;
    try done; try (injection E as <- <- <-; exists O; cbn; unfold set_ring;
      rewrite list_insert_id by done; by destruct p).
  destruct (slice_checked bytes off (zlen bytes)) as [chunk| |] eqn:Ec; cbn [obind] in E; try done.
  destruct (rb_poll_write rb cx chunk) as [rb1 pr] eqn:Ep.
  assert (forall n, access_run (S n) cx (S_BlockPoll s bytes off) p =
    access_run n cx
      match pr with
      | Ready (Ok m) => block_loop s bytes (usize_add off m)
      | Ready (Err e) => S_Idle s (Some (R_Unit (Err e)))
      | Pending => S_BlockPoll s bytes off
      end (set_ring p (ring_buf s) rb1)) as Hrun.
  { intros n. cbn [access_run sender_access]. unfold ring_access.
    rewrite Hlk, Ec. cbn [obind]. rewrite Ep. by destruct pr as [[]|]. }
  destruct pr as [[m|e]|].
  - destruct (IH _ (set_ring p (ring_buf s) rb1) rb1 (set_ring_lookup _ _ _ _ Hlk) E) as [n Hn].
    exists (S n). by rewrite Hrun, Hn, set_ring_twice.
  - injection E as <- <- <-. exists 1%nat. by rewrite Hrun.
  - destruct (IH _ (set_ring p (ring_buf s) rb1) rb1 (set_ring_lookup _ _ _ _ Hlk) E) as [n Hn].
    unfold block_loop in Hn. rewrite El in Hn. exists (S n). by rewrite Hrun, Hn, set_ring_twice.
Qed.

(** The loop of [send_async] is its accesses. *)
Lemma async_accesses fuel cx s bytes waker registered p rb rb' r :
  rings p !! ring_buf s = Some rb -> ring_ok (rb_view rb) -> 0 < zlen bytes < isize_bound ->
  send_async_loop fuel [] 0 registered rb bytes waker = Ret (rb', r) ->
  exists n, access_run n cx (S_Check s bytes waker registered) p =
    Ret (S_Idle s (Some (R_Async r)), set_ring p (ring_buf s) rb').
Proof.
  revert registered p rb. induction fuel as [|fuel IH]; intros registered p rb Hlk Hok Hlen E; [done|].
  cbn [send_async_loop interfere] in E.
  assert (forall n, access_run (S n) cx (S_Check s bytes waker registered) p =
    access_run n cx
      (if rb_prod_is_closed rb
       then S_Idle s (Some (R_Async (Ready (Err (IoNew Other "connection closed")))))
       else S_Burst s (K_Async waker registered) bytes 0) p) as Hrun.
  { intros n. cbn [access_run sender_access]. unfold ring_access. rewrite Hlk.
    destruct (rb_prod_is_closed rb); cbn [obind]; unfold set_ring;
      rewrite list_insert_id by done; by destruct p. }
  destruct (rb_prod_is_closed rb).
  { injection E as <- <-. exists 1%nat. rewrite Hrun. cbn. unfold set_ring.
    rewrite list_insert_id by done. by destruct p. }
  destruct (burst_write_spec (burst_fuel bytes) [] 0 rb bytes)
    as (env & off & rb1 & bw & Eb & _ & Hoff0 & Hle & _);
    [done|done|lia|lia|unfold burst_fuel, zlen; lia|]. rewrite Eb in E. cbn [obind] in E.
  destruct (burst_accesses _ cx s (K_Async waker registered) _ _ _ _ _ _ _ _ Hlk Eb) as [-> [n Hn]].
  cbn [after_burst obind] in Hn.
  destruct (Z.ltb_spec 0 off) as [Hoff|Hoff].
  { injection E as <- <-. exists (S n). by rewrite Hrun, Hn. }
  destruct registered.
  { injection E as <- <-. exists (S n). by rewrite Hrun, Hn. }
  assert (off = 0) as -> by lia. cbn [interfere] in E.
  destruct (IH true (set_ring p (ring_buf s) (rb_register_waker rb1 waker)) _
    (set_ring_lookup _ _ _ _ Hlk)) as [m Hm]; [|done|exact E|].
  { destruct Hle as (_ & _ & Hok1 & _). unfold ring_ok. by rewrite rb_register_waker_view. }
  exists (S n + (1 + m))%nat. rewrite access_run_app, Hrun, Hn. cbn [obind access_run plus sender_access].
  unfold ring_access. rewrite (set_ring_lookup _ _ _ _ Hlk). cbn [obind].
  by rewrite set_ring_twice, Hm, set_ring_twice.
Qed.

(** Handing over a ring is two accesses. *)
Lemma switch_accesses cx s p rb new s' p' r :
  rings p !! ring_buf s = Some rb -> switch_ring s p new = Ret (s', p', r) ->
  exists n, access_run n cx (S_Send s new) p = Ret (S_Idle s' (Some (R_Unit r)), p').
Proof.
  intros Hlk E. unfold switch_ring in E. rewrite Hlk in E.
  destruct (mpsc_send (chan p) (length (rings p))) as [c [[]|]] eqn:Es; injection E as <- <- <-.
  - exists 2%nat. cbn [access_run sender_access obind]. rewrite Es.
    cbn [obind sender_access]. unfold ring_access, set_ring. cbn [rings chan]. pose proof (lookup_lt_Some _ _ _ Hlk).
    rewrite lookup_app_l by done. rewrite Hlk. cbn [obind]. by rewrite insert_app_l.
  - exists 1%nat. cbn [access_run sender_access obind]. by rewrite Es.
Qed.

Lemma nonblock_accesses cx s p rb bytes s' p' r :
  rings p !! ring_buf s = Some rb -> send_nonblock [] s p bytes = Ret (s', p', r) ->
  exists n, access_run n cx (start_send K_Nonblock s bytes) p
    = Ret (S_Idle s' (Some (R_Unit r)), p').
Proof.
  intros Hlk E. unfold send_nonblock in E. cbn [start_send].
  destruct (zlen bytes =? 0); [injection E as <- <- <-; by exists O|]. rewrite Hlk in E.
  destruct (burst_write _ _ _ _ _) as [[[[env off] rb1] bw]| |] eqn:Eb; cbn [obind] in E; try done.
  destruct (burst_accesses _ cx s K_Nonblock _ _ _ _ _ _ _ _ Hlk Eb) as [-> [n Hn]].
  destruct bw; cbn [after_burst obind] in Hn.
  - destruct (slice_checked _ _ _) as [rest| |]; cbn [obind] in E, Hn; try done.
    destruct (rb_push_slice _ rest) as [new m].
    eapply (switch_accesses cx) in E as [k Hk]; [|by eapply set_ring_lookup].
    exists (n + k)%nat. by rewrite access_run_app, Hn.
  - injection E as <- <- <-. by exists n.
Qed.

Lemma send_block_accesses polls cx s p rb bytes s' p' r :
  rings p !! ring_buf s = Some rb -> send_block polls cx [] s p bytes = Ret (s', p', r) ->
  exists n, access_run n cx (start_send K_Block s bytes) p
    = Ret (S_Idle s' (Some (R_Unit r)), p').
Proof.
  intros Hlk E. unfold send_block in E. cbn [start_send].
  destruct (zlen bytes =? 0); [injection E as <- <- <-; by exists O|]. rewrite Hlk in E.
  destruct (burst_write _ _ _ _ _) as [[[[env off] rb1] bw]| |] eqn:Eb; cbn [obind] in E; try done.
  destruct (burst_accesses _ cx s K_Block _ _ _ _ _ _ _ _ Hlk Eb) as [-> [n Hn]].
  destruct bw; cbn [after_burst obind] in Hn; [|injection E as <- <- <-; by exists n].
  destruct (write_all_block _ _ _ _ _ _) as [[[env2 rb2] r2]| |] eqn:Ew; cbn [obind] in E; try done.
  injection E as <- <- <-.
  destruct (block_accesses _ cx s _ _ _ _ _ _ _ (set_ring_lookup p _ _ rb1 Hlk) Ew) as [k Hk].
  exists (n + k)%nat. rewrite access_run_app, Hn. cbn [obind]. by rewrite Hk, set_ring_twice.
Qed.
End lemmas.

(** ** Specification *)

Section spec.
Context {Rb : Type} {Ch : Type -> Type} `{RingBufSpec Rb} `{MpscSpec Ch}.
Implicit Types (p : Pipe Rb Ch) (st : SenderState Rb).

(** A ring whose producer is dropped, and one whose producer is held. *)
Definition ring_closed (rb : Rb) : Prop := ring_ok (rb_view rb) /\ v_prod (rb_view rb) = false.
Definition ring_open (rb : Rb) : Prop := ring_ok (rb_view rb) /\ v_prod (rb_view rb) = true.

(** Between the two accesses that hand over a new ring the sender holds the two
    newest rings. *)
Definition switching (s : MsgSender) (i : nat) p : Prop :=
  exists pre old new, rings p = pre ++ [old; new] /\ ring_buf s = length pre /\
    i = length (pre ++ [old]) /\ ring_open old /\ ring_open new /\
    Forall ring_closed pre /\ c_tx (mpsc_view (chan p)) = true.

(** The rings and the channel as the sender sees them. *)
Definition sender_shape st p : Prop :=
  match st with
  | S_Idle s _ | S_Burst s _ _ _ | S_BlockPoll s _ _ | S_Check s _ _ _ | S_Register s _ _
  | S_Send s _ | S_DropRing s => sender_wf s p
  | S_DropOld s i => switching s i p
  | S_DropTx => Forall ring_closed (rings p) /\ c_tx (mpsc_view (chan p)) = true
  | S_Dropped => Forall ring_closed (rings p) /\ c_tx (mpsc_view (chan p)) = false
  end.

(** The local state of a call. *)
Definition call_ok st : Prop :=
  match st with
  | S_Burst _ _ bytes offset | S_BlockPoll _ bytes offset =>
      0 <= offset < zlen bytes /\ zlen bytes < isize_bound
  | S_Check _ bytes _ _ | S_Register _ bytes _ => 0 < zlen bytes < isize_bound
  | S_Send _ new_ring => ring_open new_ring /\ v_popped (rb_view new_ring) = []
  | _ => True
  end.

Definition sender_ok st p : Prop := sender_shape st p /\ call_ok st.

(** What one access does to the pipe: it appends [d] to a ring whose producer is
    held, or it puts a new ring with [d] at the end, or it touches the sending
    end of the channel. *)
Inductive pipe_grows : Pipe Rb Ch -> Pipe Rb Ch -> list byte -> Prop :=
| grow_ring pre rb post rb1 d c c' :
    v_prod (rb_view rb) = true -> ring_ok (rb_view rb1) -> same_cons (rb_view rb) (rb_view rb1) ->
    v_pushed (rb_view rb1) = v_pushed (rb_view rb) ++ d -> post = [] \/ d = [] ->
    c_queue (mpsc_view c') = c_queue (mpsc_view c) -> c_rx (mpsc_view c') = c_rx (mpsc_view c) ->
    pipe_grows (mkPipe (pre ++ rb :: post) c) (mkPipe (pre ++ rb1 :: post) c') d
| grow_new rs new c c' :
    ring_open new -> v_popped (rb_view new) = [] -> c_rx (mpsc_view c) = true ->
    c_queue (mpsc_view c') = c_queue (mpsc_view c) ++ [length rs] ->
    c_rx (mpsc_view c') = true ->
    pipe_grows (mkPipe rs c) (mkPipe (rs ++ [new]) c') (v_pushed (rb_view new))
| grow_chan rs c c' :
    c_queue (mpsc_view c') = c_queue (mpsc_view c) -> c_rx (mpsc_view c') = c_rx (mpsc_view c) ->
    pipe_grows (mkPipe rs c) (mkPipe rs c') [].

(** What a send promises: [base] is the stream before the call. *)
Definition send_contract (k : SendKind) (bytes base : list byte) (r : SendResult) p : Prop :=
  match k, r with
  | K_Block, R_Unit (Ok _) | K_Nonblock, R_Unit (Ok _) => stream p = base ++ bytes
  | K_Block, R_Unit (Err _) => exists sent, sent `prefix_of` bytes /\ stream p = base ++ sent
  | K_Nonblock, R_Unit (Err e) => e = connection_closed Ch /\ c_rx (mpsc_view (chan p)) = false /\
      exists sent, sent `prefix_of` bytes /\ stream p = base ++ sent
  | K_Async _ _, R_Async (Ready (Ok n)) => stream p = base ++ ztake n bytes /\
      (bytes = [] /\ n = 0 \/ 0 < n <= zlen bytes)
  | K_Async _ _, R_Async (Ready (Err e)) =>
      e = IoNew Other "connection closed" /\ stream p = base
  | K_Async _ _, R_Async Pending => stream p = base
  | _, _ => False
  end.

(** The method a [burst_write] belongs to. *)
Definition method (k : SendKind) : SendKind :=
  match k with K_Async waker _ => K_Async waker false | _ => k end.

(** A send in progress: what it has appended so far. *)
Definition call_inv (k : SendKind) (bytes base : list byte) st p : Prop :=
  match st with
  | S_Idle _ (Some r) => send_contract k bytes base r p
  | S_Burst _ k' bytes' offset =>
      method k' = method k /\ bytes' = bytes /\ stream p = base ++ slice bytes 0 offset
  | S_BlockPoll _ bytes' offset =>
      k = K_Block /\ bytes' = bytes /\ stream p = base ++ slice bytes 0 offset
  | S_Check _ bytes' waker _ | S_Register _ bytes' waker =>
      K_Async waker false = method k /\ bytes' = bytes /\ stream p = base
  | S_Send _ new_ring => k = K_Nonblock /\
      exists offset, 0 <= offset <= zlen bytes /\ stream p = base ++ slice bytes 0 offset /\
        v_pushed (rb_view new_ring) = slice bytes offset (zlen bytes)
  | S_DropOld _ _ => k = K_Nonblock /\ stream p = base ++ bytes
  | _ => False
  end.

(** The calls that do not block, and how many accesses they still make at most. *)
Definition nonblocking st : Prop :=
  match st with S_Burst _ K_Block _ _ | S_BlockPoll _ _ _ => False | _ => True end.

Definition accesses_left st : nat :=
  match st with
  | S_Idle _ _ | S_Dropped | S_BlockPoll _ _ _ => 0
  | S_Burst _ k bytes offset =>
      Z.to_nat (zlen bytes - offset) +
      match k with
      | K_Block => 0
      | K_Nonblock => 3
      | K_Async _ true => 1
      | K_Async _ false => 4 + length bytes
      end
  | S_Check _ bytes _ registered => if registered then 2 + length bytes else 5 + 2 * length bytes
  | S_Register _ bytes _ => 3 + length bytes
  | S_Send _ _ | S_DropRing _ => 2
  | S_DropOld _ _ | S_DropTx => 1
  end.
End spec.

(** *** Every access keeps the invariants *)

Section access_lemmas.
Context {Rb : Type} {Ch : Type -> Type} `{RingBufSpec Rb} `{MpscSpec Ch}.
Implicit Types (p : Pipe Rb Ch) (st : SenderState Rb).

Lemma pipe_grows_stream p p' d : pipe_grows p p' d -> stream p' = stream p ++ d.
Proof.
  intros [pre rb post rb1 d' c c' _ _ _ Hd Hor _ _|rs new c c' _ _ _ _ _|rs c c' _ _].
  - unfold stream; cbn. rewrite !fmap_app, !concat_app. cbn. rewrite Hd, <- !app_assoc. do 2 f_equal.
    destruct Hor as [-> | ->]; cbn; by rewrite ?app_nil_r.
  - by rewrite !stream_snoc.
  - by rewrite app_nil_r.
Qed.

(** What a step of a call has to show. *)
Definition access_good st p st' p' : Prop :=
  sender_ok st' p' /\ (exists d, pipe_grows p p' d) /\
  (forall k bytes base, call_inv k bytes base st p -> call_inv k bytes base st' p') /\
  (nonblocking st -> nonblocking st' /\ (accesses_left st' < accesses_left st \/ accesses_left st' = 0))%nat.

(** An access to the newest ring. *)
Lemma set_ring_grows s p pre rb rb1 d :
  sender_parts s p pre rb -> ring_le (rb_view rb) (rb_view rb1) ->
  same_cons (rb_view rb) (rb_view rb1) -> v_pushed (rb_view rb1) = v_pushed (rb_view rb) ++ d ->
  sender_wf s (set_ring p (ring_buf s) rb1) /\ pipe_grows p (set_ring p (ring_buf s) rb1) d /\
  stream (set_ring p (ring_buf s) rb1) = stream p ++ d.
Proof.
  intros Hp Hle Hs Hd. split_and!.
  - by eapply sender_parts_wf, sender_set_ring.
  - destruct Hp as (Hr & Hi & _ & Hprod & _). destruct p as [rs c]. cbn in Hr, Hi. subst rs.
    unfold set_ring; cbn. rewrite Hi, insert_last. apply grow_ring; try done; [by apply Hle|by left].
  - by eapply stream_set_ring.
Qed.

(** The new ring of [send_nonblock] takes all that is left. *)
Lemma new_ring_takes_rest bytes off (new : Rb) n :
  0 <= off <= zlen bytes ->
  rb_push_slice (rb_new (Z.max RING_BUFFER_SIZE (zlen bytes - off)))
    (slice bytes off (zlen bytes)) = (new, n) ->
  (ring_open new /\ v_popped (rb_view new) = []) /\
  v_pushed (rb_view new) = slice bytes off (zlen bytes).
Proof.
  intros Hoff E. assert (0 <= Z.max RING_BUFFER_SIZE (zlen bytes - off)) as Hcap by lia.
  pose proof (rb_push_slice_view _ _ _ _ (ring_ok_new _ Hcap) E) as [Hn Hv].
  rewrite rb_new_view in Hv, Hn. cbn in Hv, Hn. rewrite zlen_slice, zlen_nil in Hn by lia.
  assert (ztake n (slice bytes off (zlen bytes)) = slice bytes off (zlen bytes)) as Hall
    by (apply ztake_all; rewrite zlen_slice; lia).
  rewrite Hall in Hv. unfold ring_open, ring_ok, v_pushed. rewrite Hv. cbn.
  rewrite zlen_slice by lia. split_and!; done || lia.
Qed.

(** After [burst_write]. *)
Lemma after_burst_good k s bytes off p bw :
  sender_wf s p -> 0 <= off <= zlen bytes -> 0 < zlen bytes < isize_bound ->
  (bw = BW_Finished -> off = zlen bytes) -> (bw = BW_Pending -> off < zlen bytes) ->
  exists st', after_burst k s bytes off bw = Ret st' /\ sender_ok st' p /\
    (forall k' bytes' base, call_inv k' bytes' base (S_Burst s k bytes off) p ->
       call_inv k' bytes' base st' p) /\
    (nonblocking (S_Burst s k bytes off : SenderState Rb) -> nonblocking st' /\
       (accesses_left st' < accesses_left (S_Burst s k bytes off : SenderState Rb))%nat).
Proof.
  intros Hwf Hoff Hlen Hfin Hpend.
  destruct k as [| |waker registered].
  - destruct bw; cbn [after_burst].
    + unfold block_loop. rewrite (proj2 (Z.ltb_lt _ _)) by auto. eexists. split; [done|].
      split; [split; [done|cbn; specialize (Hpend eq_refl); lia]|]. split; [|done].
      intros [] bytes' base (Hm & <- & Hst); try done.
    + rewrite (Hfin eq_refl). eexists. split; [done|]. split; [done|]. split; [|done].
      intros [] bytes' base (Hm & <- & Hst); cbn; try done. by rewrite Hst, slice_self.
  - destruct bw; cbn [after_burst].
    + rewrite slice_checked_ret by lia. cbn [obind].
      destruct (rb_push_slice _ (slice bytes off (zlen bytes))) as [new n] eqn:E.
      apply new_ring_takes_rest in E as [Hnew Hp]; [|done]. eexists. split; [done|].
      split; [done|]. split; [|cbn; split; [done|lia]].
      intros [] bytes' base (Hm & <- & Hst); try done. split; [done|]. by exists off.
    + rewrite (Hfin eq_refl). eexists. split; [done|]. split; [done|]. split; [|cbn; split; [done|lia]].
      intros [] bytes' base (Hm & <- & Hst); cbn; try done. by rewrite Hst, slice_self.
  - cbn [after_burst]. eexists. split; [done|].
    assert (slice bytes 0 off = ztake off bytes) as Hz
      by (unfold slice; rewrite zdrop_0; f_equal; lia).
    destruct (Z.ltb_spec 0 off) as [Hpos|Hzero]; [|assert (off = 0) as -> by lia; destruct registered].
    + split; [done|]. split; [|cbn; split; [done|destruct registered; lia]].
      intros [] bytes' base (Hm & <- & Hst); cbn; try done.
      rewrite Hst, Hz. split; [done|right; lia].
    + split; [done|]. split; [|cbn; split; [done|lia]].
      intros [] bytes' base (Hm & <- & Hst); cbn; try done. by rewrite Hst, Hz, ztake_0, app_nil_r.
    + split; [done|]. split; [|cbn; split; [done|unfold zlen; lia]].
      intros [] bytes' base (Hm & <- & Hst); try done. split_and!; try done.
      by rewrite Hst, Hz, ztake_0, app_nil_r.
Qed.

(** One push of [burst_write]. *)
Lemma burst_good cx s k bytes off p :
  sender_ok (S_Burst s k bytes off) p ->
  exists st' p', sender_access cx (S_Burst s k bytes off) p = Ret (st', p') /\
    access_good (S_Burst s k bytes off) p st' p'.
Proof.
  intros [(pre & rb & Hp) [Hoff Hlen]]. fold (sender_parts s p pre rb) in Hp.
  pose proof Hp as (_ & _ & Hok & _). cbn [sender_access]. unfold ring_access.
  rewrite (sender_lookup _ _ _ _ Hp), slice_checked_ret by lia. cbn [obind].
  destruct (rb_push_slice rb (slice bytes off (zlen bytes))) as [rb1 n] eqn:E.
  apply push_slice_spec in E as (Hn & Hle & Hd & _ & Hs & _); [|done]. rewrite zlen_slice in Hn by lia.
  rewrite ztake_slice in Hd by lia.
  destruct (set_ring_grows s p pre rb rb1 _ Hp Hle Hs Hd) as (Hwf & Hg & Hst).
  assert (forall k' bytes' base, call_inv k' bytes' base (S_Burst s k bytes off) p ->
    call_inv k' bytes' base (S_Burst s k bytes (off + n)) (set_ring p (ring_buf s) rb1)) as Hcall.
  { intros k' bytes' base (Hm & <- & Hb). split_and!; try done.
    rewrite Hst, Hb, <- app_assoc, <- slice_split by lia. done. }
  assert (forall bw, (bw = BW_Finished -> off + n = zlen bytes) -> (bw = BW_Pending -> off + n < zlen bytes) ->
    exists st' p', (let* '(st, rb2) := let* st := after_burst k s bytes (off + n) bw in Ret (st, rb1) in
        Ret (st, set_ring p (ring_buf s) rb2)) = Ret (st', p') /\
      access_good (S_Burst s k bytes off) p st' p') as Hafter.
  { intros bw Hf Hpd.
    destruct (after_burst_good k s bytes (off + n) _ bw Hwf) as (st' & -> & Hok' & Hc & Hnb);
      [lia..|done|done|]. eexists _, _. split; [done|]. split_and!; [done|by eexists|by auto|].
    intros Hnon. destruct (Hnb Hnon) as [? Hlt]. split; [done|]. left.
    eapply Nat.lt_le_trans; [exact Hlt|]. cbn. lia. }
  destruct (Z.eqb_spec n 0) as [Hn0|Hn0].
  - specialize (Hafter BW_Pending ltac:(done) ltac:(lia)). by rewrite Hn0, Z.add_0_r in Hafter.
  - rewrite usize_add_small by (unfold isize_bound, usize_bound in *; lia).
    destruct (Z.eqb_spec (off + n) (zlen bytes)) as [He|He].
    + apply Hafter; [done|done].
    + eexists _, _. split; [done|]. split_and!; [|by eexists|done|].
      * split; [done|]. cbn. lia.
      * intros Hnon. split; [done|]. left. cbn. lia.
Qed.

(** One poll of the future of [send_block]. *)
Lemma block_poll_good cx s bytes off p :
  sender_ok (S_BlockPoll s bytes off) p ->
  exists st' p', sender_access cx (S_BlockPoll s bytes off) p = Ret (st', p') /\
    access_good (S_BlockPoll s bytes off) p st' p'.
Proof.
  intros [(pre & rb & Hp) [Hoff Hlen]]. fold (sender_parts s p pre rb) in Hp.
  pose proof Hp as (_ & _ & Hok & _). cbn [sender_access]. unfold ring_access.
  rewrite (sender_lookup _ _ _ _ Hp), slice_checked_ret by lia. cbn [obind].
  destruct (rb_poll_write rb cx (slice bytes off (zlen bytes))) as [rb1 pr] eqn:E.
  apply rb_poll_write_view in E as (n & wk & Hn & Hfit & Hv & Hpr); [|done].
  rewrite zlen_slice in Hn by lia. rewrite ztake_slice in Hv by lia.
  destruct (set_ring_grows s p pre rb rb1 (slice bytes off (off + n)) Hp)
    as (Hwf & Hg & Hst).
  { rewrite Hv. unfold ring_le, ring_ok; cbn. rewrite zlen_app, zlen_slice by lia.
    split_and!; done || lia. }
  { by rewrite Hv. }
  { rewrite Hv. unfold v_pushed; cbn. by rewrite app_assoc. }
  assert (forall k' bytes' base, call_inv k' bytes' base (S_BlockPoll s bytes off) p ->
    k' = K_Block /\ bytes' = bytes /\
    stream (set_ring p (ring_buf s) rb1) = base ++ slice bytes 0 (off + n)) as Hcall.
  { intros k' bytes' base (-> & <- & Hb). split_and!; try done.
    rewrite Hst, Hb, <- app_assoc, <- slice_split by lia. done. }
  destruct pr as [[m|e]|]; eexists _, _; (split; [done|]);
    (split_and!; [|by eexists| |done]).
  - subst m. rewrite usize_add_small by (unfold isize_bound, usize_bound in *; lia).
    unfold block_loop. destruct (Z.ltb_spec (off + n) (zlen bytes)); (split; [done|cbn; lia || done]).
  - subst m. rewrite usize_add_small by (unfold isize_bound, usize_bound in *; lia).
    intros k' bytes' base Hc. destruct (Hcall _ _ _ Hc) as (-> & -> & Hb).
    unfold block_loop. destruct (Z.ltb_spec (off + n) (zlen bytes)); [done|].
    cbn [call_inv send_contract]. assert (off + n = zlen bytes) as He by lia. by rewrite Hb, He, slice_self.
  - by split.
  - intros k' bytes' base Hc. destruct (Hcall _ _ _ Hc) as (-> & -> & Hb).
    exists (slice bytes 0 (off + n)). split; [|done].
    exists (slice bytes (off + n) (zlen bytes)). rewrite <- slice_split by lia. by rewrite slice_self.
  - by split; [|split].
  - subst n. intros k' bytes' base Hc. destruct (Hcall _ _ _ Hc) as (-> & -> & Hb).
    by rewrite Z.add_0_r in Hb.
Qed.

(** The check for a closed connection and the registration of the waker. *)
Lemma check_good cx s bytes waker registered p :
  sender_ok (S_Check s bytes waker registered) p ->
  exists st' p', sender_access cx (S_Check s bytes waker registered) p = Ret (st', p') /\
    access_good (S_Check s bytes waker registered) p st' p'.
Proof.
  intros [(pre & rb & Hp) Hlen]. cbn in Hlen. fold (sender_parts s p pre rb) in Hp.
  pose proof Hp as (_ & _ & Hok & _). cbn [sender_access]. unfold ring_access.
  rewrite (sender_lookup _ _ _ _ Hp).
  destruct (set_ring_grows s p pre rb rb [] Hp) as (Hwf & Hg & Hst);
    [by split_and!|done|by rewrite app_nil_r|].
  rewrite app_nil_r in Hst.
  destruct (rb_prod_is_closed rb); eexists _, _; (split; [done|]);
    (split_and!; [|by eexists| |]).
  - by split.
  - intros [] bytes' base (Hm & <- & Hb); cbn [call_inv send_contract]; try done. by rewrite Hst.
  - intros _. split; [done|]. left. cbn. destruct registered; lia.
  - split; [done|]. cbn. lia.
  - intros k bytes' base (Hm & <- & Hb). split_and!; try done.
    by rewrite Hst, slice_empty, app_nil_r.
  - intros _. split; [done|]. left. cbn. unfold zlen. destruct registered; lia.
Qed.

Lemma register_good cx s bytes waker p :
  sender_ok (S_Register s bytes waker) p ->
  exists st' p', sender_access cx (S_Register s bytes waker) p = Ret (st', p') /\
    access_good (S_Register s bytes waker) p st' p'.
Proof.
  intros [(pre & rb & Hp) Hlen]. cbn in Hlen. fold (sender_parts s p pre rb) in Hp.
  pose proof Hp as (_ & _ & Hok & _). cbn [sender_access]. unfold ring_access.
  rewrite (sender_lookup _ _ _ _ Hp). pose proof (rb_register_waker_view rb waker) as Hv.
  destruct (set_ring_grows s p pre rb (rb_register_waker rb waker) [] Hp) as (Hwf & Hg & Hst);
    [by rewrite Hv; split_and!|by rewrite Hv|by rewrite Hv, app_nil_r|].
  rewrite app_nil_r in Hst. eexists _, _. split; [done|]. split_and!; [by split|by eexists| |].
  - intros k bytes' base (Hm & <- & Hb). split_and!; try done. congruence.
  - intros _. split; [done|]. left. cbn. lia.
Qed.

(** Handing over the new ring. *)
Lemma send_good cx s new p :
  sender_ok (S_Send s new) p ->
  exists st' p', sender_access cx (S_Send s new) p = Ret (st', p') /\
    access_good (S_Send s new) p st' p'.
Proof.
  intros [(pre & rb & Hp) [Hopen Hnew]]. fold (sender_parts s p pre rb) in Hp.
  pose proof Hp as (Hr & Hi & Hok & Hprod & Hpre & Htx). cbn [sender_access].
  destruct (mpsc_send (chan p) (length (rings p))) as [c r] eqn:E. apply mpsc_send_view in E.
  destruct (c_rx (mpsc_view (chan p))) eqn:Erx; destruct E as [-> Hc]; eexists _, _;
    (split; [done|]); split_and!.
  - split; [|done]. exists pre, rb, new. cbn. rewrite Hr, <- app_assoc, Hc.
    split_and!; try done; by split.
  - eexists. destruct p as [rs c0]. apply grow_new; try done; by rewrite Hc.
  - intros k bytes base (-> & off & Hoff & Hb & Hn). split; [done|].
    rewrite stream_snoc, Hn. change (stream (mkPipe (rings p) c)) with (stream p).
    rewrite Hb, <- app_assoc, <- slice_split by lia. by rewrite slice_self.
  - intros _. split; [done|]. left. cbn. lia.
  - split; [|done]. exists pre, rb. cbn. by rewrite Hc.
  - exists []. destruct p as [rs c0]. apply grow_chan; by rewrite Hc.
  - intros k bytes base (-> & off & Hoff & Hb & Hn). split; [done|].
    cbn [chan]. rewrite Hc. split; [done|]. exists (slice bytes 0 off). split; [|done].
    exists (slice bytes off (zlen bytes)). rewrite <- slice_split by lia. by rewrite slice_self.
  - intros _. split; [done|]. left. cbn. lia.
Qed.

(** Dropping the producer of a ring. *)
Lemma drop_prod_view_good (rb : Rb) :
  ring_ok (rb_view rb) ->
  ring_closed (rb_drop_prod rb) /\ same_cons (rb_view rb) (rb_view (rb_drop_prod rb)) /\
  v_pushed (rb_view (rb_drop_prod rb)) = v_pushed (rb_view rb).
Proof. intros Hok. unfold ring_closed. by rewrite rb_drop_prod_view. Qed.

Lemma drop_old_good cx s i p :
  sender_ok (S_DropOld s i) p ->
  exists st' p', sender_access cx (S_DropOld s i) p = Ret (st', p') /\
    access_good (S_DropOld s i) p st' p'.
Proof.
  intros [(pre & old & new & Hr & Hi & -> & [Hok Hprod] & [Hokn Hprodn] & Hpre & Htx) _].
  destruct p as [rs c]. cbn in Hr, Htx. subst rs. cbn [sender_access]. unfold ring_access, set_ring.
  cbn [rings chan]. rewrite Hi, list_lookup_middle by done. cbn [obind].
  rewrite <- (Nat.add_0_r (length pre)), insert_app_r. cbn [insert list_insert].
  destruct (drop_prod_view_good old Hok) as (Hcl & Hsc & Hpush).
  assert (pipe_grows (mkPipe (pre ++ [old; new]) c) (mkPipe (pre ++ [rb_drop_prod old; new]) c) []) as Hg.
  { apply grow_ring; try done; [by apply Hcl|by rewrite app_nil_r|by right]. }
  eexists _, _. split; [done|]. split_and!; [|by eexists| |].
  - split; [|done]. exists (pre ++ [rb_drop_prod old]), new. cbn. rewrite <- app_assoc.
    rewrite !length_app. split_and!; try done. apply Forall_app. split; [done|].
    by apply Forall_singleton.
  - intros k bytes base [-> Hb]. apply pipe_grows_stream in Hg.
    rewrite app_nil_r in Hg. cbn [call_inv send_contract]. congruence.
  - intros _. split; [done|]. left. cbn. lia.
Qed.

Lemma drop_ring_good cx s p :
  sender_ok (S_DropRing s) p ->
  exists st' p', sender_access cx (S_DropRing s) p = Ret (st', p') /\
    access_good (S_DropRing s) p st' p'.
Proof.
  intros [(pre & rb & Hr & Hi & Hok & Hprod & Hpre & Htx) _].
  destruct p as [rs c]. cbn in Hr, Htx. subst rs. cbn [sender_access]. unfold ring_access, set_ring.
  cbn [rings chan]. rewrite Hi, lookup_last. cbn [obind]. rewrite insert_last.
  destruct (drop_prod_view_good rb Hok) as (Hcl & Hsc & Hpush).
  eexists _, _. split; [done|]. split_and!.
  - split; [|done]. cbn. split; [|done]. apply Forall_app. split; [done|]. by apply Forall_singleton.
  - exists []. apply grow_ring; try done; [by apply Hcl|by rewrite app_nil_r|by right].
  - by intros [] bytes base Hc.
  - intros _. split; [done|]. left. cbn. lia.
Qed.

(** Every access keeps the invariant of the sender and of the call it belongs to,
    does not panic, and brings a call that does not block nearer to its end. *)
Lemma access_inv cx st p :
  sender_ok st p ->
  exists st' p', sender_access cx st p = Ret (st', p') /\ access_good st p st' p'.
Proof.
  assert (pipe_grows p p []) as Hrefl by (destruct p; by apply grow_chan).
  intros Hok. destruct st.
  - eexists _, _. split; [done|]. split_and!; [done|by eexists|done|by auto].
  - by apply burst_good.
  - by apply block_poll_good.
  - by apply check_good.
  - by apply register_good.
  - by apply send_good.
  - by apply drop_old_good.
  - by apply drop_ring_good.
  - destruct Hok as [[Hcl Htx] _]. eexists _, _. split; [done|]. split_and!.
    + split; [|done]. cbn. by rewrite mpsc_drop_tx_view.
    + exists []. destruct p as [rs c]. apply grow_chan; by rewrite mpsc_drop_tx_view.
    + by intros [] bytes base Hc.
    + intros _. split; [done|]. left. cbn. lia.
  - eexists _, _. split; [done|]. split_and!; [done|by eexists|done|by auto].
Qed.

(** A call starts in the invariant. *)
Lemma start_send_good k s last bytes p :
  sender_ok (S_Idle s last) p -> zlen bytes < isize_bound ->
  sender_ok (start_send k s bytes) p /\ call_inv k bytes (stream p) (start_send k s bytes) p /\
  (k <> K_Block -> nonblocking (start_send k s bytes : SenderState Rb) /\
     (accesses_left (start_send k s bytes : SenderState Rb) <= 5 + 2 * length bytes)%nat).
Proof.
  intros [Hwf _] Hlen. pose proof (zlen_nonneg bytes). unfold start_send.
  destruct (Z.eqb_spec (zlen bytes) 0) as [Hz|Hz].
  - apply zlen_zero_iff in Hz as ->.
    destruct k as [| |waker registered]; (split; [by split|]); cbn; rewrite ?app_nil_r;
      (split; [|split; [done|lia]]); try done. split; [done|by left].
  - destruct k as [| |waker registered].
    + split; [split; [done|cbn; lia]|]. split; [|done]. cbn. by rewrite slice_empty, app_nil_r.
    + split; [split; [done|cbn; lia]|]. split; [cbn; by rewrite slice_empty, app_nil_r|].
      intros _. split; [done|]. cbn. unfold zlen. lia.
    + split; [split; [done|cbn; lia]|]. split; [done|]. intros _. split; [done|]. cbn. lia.
Qed.
End access_lemmas.

Section properties.
Context {Rb : Type} {Ch : Type -> Type} `{RingBufSpec Rb} `{MpscSpec Ch}.

(** The methods of the sender are the sequences of their accesses: when no
    one else runs in between, the accesses of a call end in the state, with the
    result and with the shared memory of the whole function, for each of the
    sends, for a manual flush and for the drop of the sender. *)
Theorem calls_are_accesses cx s (p : Pipe Rb Ch) bytes :
  sender_wf s p -> zlen bytes < isize_bound ->
  (forall s' p' r, send_nonblock [] s p bytes = Ret (s', p', r) ->
     exists n, access_run n cx (start_send K_Nonblock s bytes) p
       = Ret (S_Idle s' (Some (R_Unit r)), p')) /\
  (forall polls s' p' r, send_block polls cx [] s p bytes = Ret (s', p', r) ->
     exists n, access_run n cx (start_send K_Block s bytes) p
       = Ret (S_Idle s' (Some (R_Unit r)), p')) /\
  (forall waker s' p' r, send_async [] s p bytes waker = Ret (s', p', r) ->
     exists n, access_run n cx (start_send (K_Async waker false) s bytes) p
       = Ret (S_Idle s' (Some (R_Async r)), p')) /\
  (forall s' p' r, flush s p = Ret (s', p', r) ->
     exists n, access_run n cx (start_flush s) p = Ret (S_Idle s' (Some (R_Unit r)), p')) /\
  (forall p', drop_sender s p = Ret p' ->
     access_run 2 cx (S_DropRing s) p = Ret (S_Dropped, p')).
Proof.
  intros (pre & rb & Hp) Hlen. fold (sender_parts s p pre rb) in Hp.
  pose proof (sender_lookup _ _ _ _ Hp) as Hlk. destruct Hp as (_ & _ & Hok & _).
  split_and!.
  - intros s' p' r E. by eapply nonblock_accesses.
  - intros polls s' p' r E. by eapply send_block_accesses.
  - intros waker s' p' r E. unfold send_async in E. cbn [start_send].
    destruct (Z.eqb_spec (zlen bytes) 0) as [|Hne]; [injection E as <- <- <-; by exists O|].
    rewrite Hlk in E. destruct (send_async_loop _ _ _ _ _ _ _) as [[rb' r']| |] eqn:Ea; try done.
    injection E as <- <- <-. pose proof (zlen_nonneg bytes).
    eapply async_accesses; [done|done|lia|done].
  - intros s' p' r E. by eapply switch_accesses.
  - intros p' E. unfold drop_sender in E. rewrite Hlk in E. injection E as <-.
    cbn [access_run sender_access obind]. unfold ring_access. by rewrite Hlk.
Qed.
End properties.

(** ** Witness *)

(** A send of three bytes on a ring with room for two, so that a new ring is handed
    over. *)
Lemma calls_are_accesses_witness :
  exists s' p' r n,
    send_nonblock [] demo_sender demo_pipe [x06; x07; x08] = Ret (s', p', r) /\
    access_run n (mkWaker 1 2) (start_send K_Nonblock demo_sender [x06; x07; x08]) demo_pipe
      = Ret (S_Idle s' (Some (R_Unit r)), p').
Proof.
  destruct (calls_are_accesses (mkWaker 1 2) demo_sender demo_pipe [x06; x07; x08])
    as (Hn & _); [apply demo_sender_wf|vm_compute; reflexivity|].
  destruct (send_nonblock [] demo_sender demo_pipe [x06; x07; x08]) as [[[s' p'] r]| |] eqn:E;
    [|vm_compute in E; discriminate E..].
  destruct (Hn s' p' r eq_refl) as [n En]. exists s', p', r, n. split; [reflexivity|exact En].
Defined.
