(* ===== verification/Writer.v ===== *)
(** * The writer task ([write.rs])

    [handle_writer] takes the rings of a [MsgRcv] in order and writes their
    bytes to the write half of the socket.  As for the reader, a task is a state
    machine whose states are its await points. *)

From S2P Require Import Prelude AsyncIo Config RingBuf MsgSender.

(** [AsyncWriteExt::shutdown] of tokio, polled once; it writes nothing. *)
Class AsyncShutdown (W : Type) : Type :=
  poll_shutdown : W -> Waker -> W * poll (io_result unit).

Class AsyncShutdownSpec (W : Type) `{AsyncWriteSpec W} `{AsyncShutdown W} : Prop :=
  poll_shutdown_written w cx w' p :
    poll_shutdown w cx = (w', p) -> written w' = written w.

(** The await points: [WN_*] in [handle_writer_no_auto_flush], [WA_*] in
    [handle_writer_auto_flush].  [i] is the ring the task holds the consumer
    of.  A task that is inside [flush] is either about to look at the ring
    ([None]) or waits for the socket to take [left] ([Some left]). *)
Inductive WriterTask : Type :=
| WN_Recv
| WN_Wait (i : nat)
| WN_Flush (i : nat) (left : option (list byte))
| WN_Last (i : nat) (left : option (list byte))
| WA_Recv
| WA_Select (i : nat) (tick_flush : bool)
| WA_FlushFull (i : nat) (left : option (list byte))
| WA_FlushTick (i : nat) (left : option (list byte))
| WA_Last (i : nat) (left : option (list byte))
| W_Shutdown
| W_Done (r : io_result unit)
| W_Aborted.

(** The result of one step of [flush]. *)
Inductive FlushResult : Type :=
| FlushMore (left : option (list byte))
| FlushDone
| FlushErr (e : io_error).

Section defs.
Context {Rb : Type} {Ch : Type -> Type} {W : Type}.
Context `{RingBufOps Rb} `{MpscOps Ch} `{AsyncWrite W} `{AsyncShutdown W}.

(** One iteration of the loop of [flush], or one more poll of its
    [write.write(left)]. *)
Definition flush_step (cx : Waker) (rb : Rb) (w : W) (cur : option (list byte))
  : Rb * W * FlushResult :=
  let left := match cur with Some l => l | None => fst (rb_as_slices rb) end in
  match left with
  | [] => (rb, w, FlushDone)
  | _ =>
      match poll_write w cx left with
      | (w, Ready (Ok count)) => (rb_advance_read_index rb count, w, FlushMore None)
      | (w, Ready (Err e)) => (rb, w, FlushErr e)
      | (w, Pending) => (rb, w, FlushMore (Some left))
      end
  end.

(** The end of the task drops the consumer of the current ring and [recv], and
    with [recv] the consumers of the rings that are still in the channel. *)
Definition drop_receiver (cur : option nat) (p : Pipe Rb Ch) : Pipe Rb Ch :=
  let '(c, queued) := mpsc_drop_rx (chan p) in
  let dropped := match cur with Some i => i :: queued | None => queued end in
  mkPipe (foldl (fun rs i => alter rb_drop_cons i rs) (rings p) dropped) c.

(** [flush(&mut ring, &mut write).await?] on ring [i], inside the await point
    [here], followed by [next]. *)
Definition flush_ring (cx : Waker) (i : nat) (cur : option (list byte))
    (here : option (list byte) -> WriterTask)
    (next : Pipe Rb Ch -> WriterTask * Pipe Rb Ch) (p : Pipe Rb Ch) (w : W)
  : outcome (WriterTask * Pipe Rb Ch * W) :=
  match rings p !! i with
  | None => Panic
  | Some rb =>
      let '(rb, w, r) := flush_step cx rb w cur in
      let p := set_ring p i rb in
      match r with
      | FlushMore cur => Ret (here cur, p, w)
      | FlushErr e => Ret (W_Done (Err e), drop_receiver (Some i) p, w)
      | FlushDone => let '(t, p) := next p in Ret (t, p, w)
      end
  end.

(** The end of the body of [while let Some(mut ring) = ...]: [ring] is dropped. *)
Definition drop_ring (i : nat) (t : WriterTask) (p : Pipe Rb Ch)
  : WriterTask * Pipe Rb Ch :=
  (t, mkPipe (alter rb_drop_cons i (rings p)) (chan p)).

(** [recv.rings.recv().await]. *)
Definition recv_ring (cx : Waker) (here : WriterTask) (got : nat -> WriterTask)
    (p : Pipe Rb Ch) : WriterTask * Pipe Rb Ch :=
  match mpsc_poll_recv (chan p) cx with
  | (c, Ready (Some i)) => (got i, mkPipe (rings p) c)
  | (c, Ready None) => (W_Shutdown, mkPipe (rings p) c)
  | (c, Pending) => (here, mkPipe (rings p) c)
  end.

(** [write.shutdown().await?; Ok(())]. *)
Definition shutdown_step (cx : Waker) (p : Pipe Rb Ch) (w : W)
  : WriterTask * Pipe Rb Ch * W :=
  match poll_shutdown w cx with
  | (w, Ready r) => (W_Done r, drop_receiver None p, w)
  | (w, Pending) => (W_Shutdown, p, w)
  end.

(** [handle_writer_no_auto_flush]. *)
Definition writer_no_auto_flush_step (cx : Waker) (t : WriterTask) (p : Pipe Rb Ch) (w : W)
  : outcome (WriterTask * Pipe Rb Ch * W) :=
  match t with
  | WN_Recv => let '(t, p) := recv_ring cx WN_Recv WN_Wait p in Ret (t, p, w)
  | WN_Wait i =>
      match rings p !! i with
      | None => Panic
      | Some rb =>
          let '(rb, ready) := rb_wait_occupied rb cx MIN_MSG_BUFFER_SIZE in
          let p := set_ring p i rb in
          match ready with
          | Pending => Ret (WN_Wait i, p, w)
          | Ready _ =>
              if rb_cons_is_closed rb then Ret (WN_Last i None, p, w)
              else Ret (WN_Flush i None, p, w)
          end
      end
  | WN_Flush i cur =>
      flush_ring cx i cur (WN_Flush i) (fun p => (WN_Wait i, p)) p w
  | WN_Last i cur =>
      flush_ring cx i cur (WN_Last i) (drop_ring i WN_Recv) p w
  | _ => Ret (t, p, w)
  end.

(** [handle_writer_auto_flush]; [tick] tells whether the flush timer is ready at
    this step.  The [select!] is biased: the timer is looked at only when the
    ring has not reached the threshold. *)
Definition writer_auto_flush_step (cx : Waker) (tick : bool) (t : WriterTask)
    (p : Pipe Rb Ch) (w : W) : outcome (WriterTask * Pipe Rb Ch * W) :=
  match t with
  | WA_Recv =>
      let '(t, p) := recv_ring cx WA_Recv (fun i => WA_Select i true) p in Ret (t, p, w)
  | WA_Select i tick_flush =>
      match rings p !! i with
      | None => Panic
      | Some rb =>
          let threshold :=
            Z.b2z tick_flush * MIN_MSG_BUFFER_SIZE + Z.b2z (negb tick_flush) in
          let '(rb, ready) := rb_wait_occupied rb cx threshold in
          let p := set_ring p i rb in
          match ready with
          | Ready _ =>
              if rb_cons_is_closed rb then Ret (WA_Last i None, p, w)
              else
                let tick_flush := rb_occupied_len rb <? MIN_MSG_BUFFER_SIZE in
                if negb tick_flush then Ret (WA_FlushFull i None, p, w)
                else Ret (WA_Select i tick_flush, p, w)
          | Pending =>
              if tick_flush && tick then Ret (WA_FlushTick i None, p, w)
              else Ret (WA_Select i tick_flush, p, w)
          end
      end
  | WA_FlushFull i cur =>
      flush_ring cx i cur (WA_FlushFull i) (fun p => (WA_Select i false, p)) p w
  | WA_FlushTick i cur =>
      flush_ring cx i cur (WA_FlushTick i) (fun p => (WA_Select i false, p)) p w
  | WA_Last i cur =>
      flush_ring cx i cur (WA_Last i) (drop_ring i WA_Recv) p w
  | _ => Ret (t, p, w)
  end.

(** [handle_writer]: picks the loop; [tokio::time::interval] is only made with a
    non-zero duration. *)
Definition handle_writer (config : ConnConfig) : WriterTask :=
  if is_zero (write_flush_interval config) then WN_Recv else WA_Recv.

Definition writer_step (cx : Waker) (tick : bool) (t : WriterTask)
    (p : Pipe Rb Ch) (w : W) : outcome (WriterTask * Pipe Rb Ch * W) :=
  match t with
  | WN_Recv | WN_Wait _ | WN_Flush _ _ | WN_Last _ _ => writer_no_auto_flush_step cx t p w
  | WA_Recv | WA_Select _ _ | WA_FlushFull _ _ | WA_FlushTick _ _ | WA_Last _ _ =>
      writer_auto_flush_step cx tick t p w
  | W_Shutdown => Ret (shutdown_step cx p w)
  | W_Done _ | W_Aborted => Ret (t, p, w)
  end.

(** A run of the task, one step for every element of [ticks]. *)
Fixpoint writer_run (cx : Waker) (ticks : list bool) (t : WriterTask)
    (p : Pipe Rb Ch) (w : W) : outcome (WriterTask * Pipe Rb Ch * W) :=
  match ticks with
  | [] => Ret (t, p, w)
  | tick :: ticks =>
      let* '(t, p, w) := writer_step cx tick t p w in
      writer_run cx ticks t p w
  end.

(** A socket that takes at least one byte each time and shuts down at once. *)
Definition willing_sock (cx : Waker) : Prop :=
  (forall (w : W) bytes, bytes <> [] ->
     exists w' n, poll_write w cx bytes = (w', Ready (Ok n)) /\ n <> 0) /\
  (forall w : W, exists w', poll_shutdown w cx = (w', Ready (Ok tt))).

(** The ring a task holds. *)
Definition task_ring (t : WriterTask) : option nat :=
  match t with
  | WN_Wait i | WN_Flush i _ | WN_Last i _ | WA_Select i _ | WA_FlushFull i _
  | WA_FlushTick i _ | WA_Last i _ => Some i
  | _ => None
  end.

(** [abort] drops the task where it is suspended; a finished task is not
    changed. *)
Definition writer_abort (t : WriterTask) (p : Pipe Rb Ch) : WriterTask * Pipe Rb Ch :=
  match t with
  | W_Done _ | W_Aborted => (t, p)
  | _ => (W_Aborted, drop_receiver (task_ring t) p)
  end.
End defs.
