(* ===== verification/Duplex.v ===== *)
(** * The sending direction of a connection: sender, rings, writer, socket

    The accesses of the sender's calls and the steps of the writer are interleaved
    freely.  A step of the writer that looks at a ring more than once counts as one:
    the sender only ever adds bytes to a ring and then closes it.  The abstract
    specification is a byte queue: the socket receives a prefix of what the
    sender has put into the pipe, and all of it when the writer ends normally. *)

From S2P Require Import Prelude AsyncIo Config RingBuf MsgSender SenderCall Writer.

(** The sender with the call it is in, the shared pipe, the writer task and
    the write half of the socket. *)
Record Duplex (Rb : Type) (Ch : Type -> Type) (W : Type) : Type := mkDuplex {
  d_sender : SenderState Rb;
  d_pipe : Pipe Rb Ch;
  d_task : WriterTask;
  d_sock : W
}.

Arguments mkDuplex {Rb Ch W}.
Arguments d_sender {Rb Ch W}.
Arguments d_pipe {Rb Ch W}.
Arguments d_task {Rb Ch W}.
Arguments d_sock {Rb Ch W}.

Section defs.
Context {Rb : Type} {Ch : Type -> Type} {W : Type}.
Context `{RingBufSpec Rb} `{MpscSpec Ch} `{AsyncWriteSpec W}.
Context `{!AsyncShutdown W} `{!AsyncShutdownSpec W}.

(** The start of a connection: [make_sender] and [handle_writer]. *)
Definition duplex_start (config : ConnConfig) (w : W) : outcome (Duplex Rb Ch W) :=
  let* '(s, p) := make_sender in
  Ret (mkDuplex (S_Idle s None) p (handle_writer config) w).

(** The next access of the sender, one step of the writer task, or its abortion. *)
Inductive move : Type :=
| M_Access (cx : Waker)
| M_Writer (cx : Waker) (tick : bool)
| M_Abort.

Definition duplex_move (m : move) (d : Duplex Rb Ch W) : outcome (Duplex Rb Ch W) :=
  match m with
  | M_Access cx =>
      let* '(st, p) := sender_access cx (d_sender d) (d_pipe d) in
      Ret (mkDuplex st p (d_task d) (d_sock d))
  | M_Writer cx tick =>
      let* '(t, p, w) := writer_step cx tick (d_task d) (d_pipe d) (d_sock d) in
      Ret (mkDuplex (d_sender d) p t w)
  | M_Abort =>
      let '(t, p) := writer_abort (d_task d) (d_pipe d) in
      Ret (mkDuplex (d_sender d) p t (d_sock d))
  end.

Fixpoint duplex_run (ms : list move) (d : Duplex Rb Ch W) : outcome (Duplex Rb Ch W) :=
  match ms with
  | [] => Ret d
  | m :: ms => let* d := duplex_move m d in duplex_run ms d
  end.

(** The number of accesses of the sender in a list of moves. *)
Fixpoint accesses (ms : list move) : nat :=
  match ms with
  | [] => 0
  | M_Access _ :: ms => S (accesses ms)
  | _ :: ms => accesses ms
  end.

Definition with_sender (d : Duplex Rb Ch W) (st : SenderState Rb) : Duplex Rb Ch W :=
  mkDuplex st (d_pipe d) (d_task d) (d_sock d).

(** A move, or a new call of an idle sender: a send, a flush, or its drop. *)
Inductive duplex_step : Duplex Rb Ch W -> Duplex Rb Ch W -> Prop :=
| step_move m d d' : duplex_move m d = Ret d' -> duplex_step d d'
| step_send d s last k bytes :
    d_sender d = S_Idle s last -> zlen bytes < isize_bound ->
    duplex_step d (with_sender d (start_send k s bytes))
| step_flush d s last :
    d_sender d = S_Idle s last -> duplex_step d (with_sender d (start_flush s))
| step_drop d s last :
    d_sender d = S_Idle s last -> duplex_step d (with_sender d (S_DropRing s)).

(** ** The invariant *)

(** A ring the writer is done with, and one it has not started. *)
Definition finished (rb : Rb) : Prop :=
  ring_ok (rb_view rb) /\ v_contents (rb_view rb) = [] /\ v_prod (rb_view rb) = false.
Definition fresh (rb : Rb) : Prop :=
  ring_ok (rb_view rb) /\ v_popped (rb_view rb) = [].

(** The rings in order: those the writer is done with, the one it holds (if
    any), those it has not started; the last ones are in the channel. *)
Definition layout (p : Pipe Rb Ch) (fin mid fut : list Rb) : Prop :=
  rings p = fin ++ mid ++ fut /\ Forall finished fin /\
  Forall (fun rb => ring_ok (rb_view rb)) mid /\ Forall fresh fut /\
  c_queue (mpsc_view (chan p)) = seq (length fin + length mid) (length fut) /\
  c_rx (mpsc_view (chan p)) = true.

(** What the socket has got so far, ring by ring. *)
Definition popped (p : Pipe Rb Ch) : list byte :=
  concat ((fun rb => v_popped (rb_view rb)) <$> rings p).

(** The slice a suspended [flush] holds is a non-empty prefix of the ring. *)
Definition left_ok (lo : option (list byte)) (rb : Rb) : Prop :=
  match lo with
  | None => True
  | Some l => l <> [] /\ l `prefix_of` v_contents (rb_view rb)
  end.

(** The task and the ring it holds. *)
Definition task_ok (t : WriterTask) (fin mid : list Rb) : Prop :=
  match t with
  | WN_Recv | WA_Recv => mid = []
  | WN_Wait i | WA_Select i _ => i = length fin /\ exists rb, mid = [rb]
  | WN_Flush i lo | WA_FlushFull i lo | WA_FlushTick i lo =>
      i = length fin /\ exists rb, mid = [rb] /\ left_ok lo rb
  | WN_Last i lo | WA_Last i lo =>
      i = length fin /\ exists rb, mid = [rb] /\ left_ok lo rb /\ v_prod (rb_view rb) = false
  | _ => False
  end.

Definition duplex_inv (d : Duplex Rb Ch W) : Prop :=
  sender_ok (d_sender d) (d_pipe d) /\
  match d_task d with
  | W_Done (Ok _) | W_Shutdown =>
      d_sender d = S_Dropped /\ written (d_sock d) = stream (d_pipe d)
  | W_Done (Err _) | W_Aborted => written (d_sock d) `prefix_of` stream (d_pipe d)
  | t => exists fin mid fut, layout (d_pipe d) fin mid fut /\ task_ok t fin mid /\
      written (d_sock d) = popped (d_pipe d)
  end.
End defs.

(** ** Lemmas *)

Section lemmas.
Context {Rb : Type} {Ch : Type -> Type} {W : Type}.
Context `{RingBufSpec Rb} `{MpscSpec Ch} `{AsyncWriteSpec W}.
Context `{!AsyncShutdown W} `{!AsyncShutdownSpec W}.
Implicit Types (p : Pipe Rb Ch) (w : W).

(** What is still on its way to the socket. *)
Definition in_flight p : list byte :=
  concat ((fun rb => v_contents (rb_view rb)) <$> rings p).

Lemma concat_pushed_finished (l : list Rb) :
  Forall finished l ->
  concat ((fun rb => v_pushed (rb_view rb)) <$> l) = concat ((fun rb => v_popped (rb_view rb)) <$> l)
  /\ concat ((fun rb => v_contents (rb_view rb)) <$> l) = [].
Proof.
  induction 1 as [|rb l (_ & Hc & _) _ [IH1 IH2]]; [done|]. cbn.
  rewrite IH1, IH2, Hc. unfold v_pushed. by rewrite Hc, app_nil_r.
Qed.

Lemma concat_pushed_fresh (l : list Rb) :
  Forall fresh l ->
  concat ((fun rb => v_pushed (rb_view rb)) <$> l) = concat ((fun rb => v_contents (rb_view rb)) <$> l)
  /\ concat ((fun rb => v_popped (rb_view rb)) <$> l) = [].
Proof.
  induction 1 as [|rb l [_ Hp] _ [IH1 IH2]]; [done|]. cbn.
  rewrite IH1, IH2, Hp. unfold v_pushed. by rewrite Hp.
Qed.

(** The stream is what the socket has got followed by what is in flight. *)
Lemma layout_stream p fin mid fut :
  layout p fin mid fut -> (length mid <= 1)%nat -> stream p = popped p ++ in_flight p.
Proof.
  intros (Hr & Hfin & _ & Hfut & _) Hmid. unfold stream, popped, in_flight. rewrite Hr.
  rewrite !fmap_app, !concat_app.
  destruct (concat_pushed_finished fin Hfin) as [-> ->].
  destruct (concat_pushed_fresh fut Hfut) as [-> ->].
  destruct mid as [|rb [|]]; cbn in *; [| |lia];
    unfold v_pushed; by rewrite ?app_nil_r, <- ?app_assoc.
Qed.

Lemma task_ok_mid t fin mid : task_ok t fin mid -> (length mid <= 1)%nat.
Proof.
  destruct t; cbn; try done; intros Hm;
    first [ subst; cbn; lia
          | destruct Hm as (_ & rb & ->); cbn; lia
          | destruct Hm as (_ & rb & -> & _); cbn; lia ].
Qed.

(** *** The sender's side *)

(** A longer ring still starts with the slice that a flush holds. *)
Lemma left_ok_grow lo rb rb1 d :
  left_ok lo rb -> same_cons (rb_view rb) (rb_view rb1) ->
  v_pushed (rb_view rb1) = v_pushed (rb_view rb) ++ d -> left_ok lo rb1.
Proof.
  destruct lo as [l|]; cbn; [|done]. intros [Hne Hpre] [Hp _] Hd. split; [done|].
  unfold v_pushed in Hd. rewrite Hp, <- app_assoc in Hd. apply app_inv_head in Hd.
  rewrite Hd. by apply prefix_app_r.
Qed.

(** The held ring may be replaced by one with the same consumer side and more
    bytes. *)
Lemma task_ok_grow t fin rb rb1 d :
  task_ok t fin [rb] -> same_cons (rb_view rb) (rb_view rb1) ->
  v_pushed (rb_view rb1) = v_pushed (rb_view rb) ++ d ->
  (v_prod (rb_view rb) = false -> v_prod (rb_view rb1) = false) ->
  task_ok t fin [rb1].
Proof.
  intros Ht Hs Hd Hp.
  destruct t; cbn in *; try done;
    first [ destruct Ht as (-> & rb0 & [= <-]); by eauto
          | destruct Ht as (-> & rb0 & [= <-] & Hl);
            split; [done|]; exists rb1; destruct_and?; split_and?; eauto using left_ok_grow ].
Qed.

(** Replacing an open ring [rb] by [rb1] (more bytes, same consumer side). *)
Lemma layout_grow p fin mid fut t pre rb post rb1 d c :
  layout p fin mid fut -> task_ok t fin mid ->
  rings p = pre ++ rb :: post -> v_prod (rb_view rb) = true ->
  ring_ok (rb_view rb1) -> same_cons (rb_view rb) (rb_view rb1) ->
  v_pushed (rb_view rb1) = v_pushed (rb_view rb) ++ d ->
  c_queue (mpsc_view c) = c_queue (mpsc_view (chan p)) -> c_rx (mpsc_view c) = true ->
  exists mid' fut', layout (mkPipe (pre ++ rb1 :: post) c) fin mid' fut' /\ task_ok t fin mid' /\
    popped (mkPipe (pre ++ rb1 :: post) c) = popped p.
Proof.
  intros (Hr & Hfin & Hmid & Hfut & Hq & Hrx) Ht Hpre Hprod Hok Hs Hd Hc Hcrx.
  assert (popped (mkPipe (pre ++ rb1 :: post) c) = popped p) as Hpop.
  { unfold popped; cbn. rewrite Hpre, !fmap_app, !concat_app. cbn. by rewrite (proj1 Hs). }
  rewrite Hpre in Hr. symmetry in Hr.
  assert (exists k, pre = fin ++ k /\ mid ++ fut = k ++ rb :: post) as (k & -> & Hk).
  { apply app_eq_inv in Hr as [(k & -> & Hk)|(k & -> & Hk)]; [|by exists k].
    destruct k as [|x k]; cbn in Hk; [exists []; by rewrite !app_nil_r|].
    injection Hk as <- _. apply Forall_app in Hfin as [_ Hfin].
    apply Forall_cons in Hfin as [(_ & _ & Hcl) _]. congruence. }
  pose proof (task_ok_mid _ _ _ Ht) as Hlen.
  destruct mid as [|m [|]]; cbn in Hlen; [|destruct k as [|x k]|lia]; cbn in Hk.
  - subst fut. exists [], (k ++ rb1 :: post). split_and!; try done. unfold layout; cbn.
    rewrite Hc, Hq, !length_app, <- app_assoc. split_and!; try done.
    apply Forall_app in Hfut as [Hk Hfut]. apply Forall_cons in Hfut as [[_ Hf] Hfut].
    apply Forall_app. split; [done|]. apply Forall_cons. split; [|done].
    split; [done|]. by rewrite (proj1 Hs).
  - injection Hk as -> ->. exists [rb1], post. split_and!; try done.
    + unfold layout; cbn. rewrite Hc, app_nil_r. split_and!; try done. by apply Forall_singleton.
    + apply (task_ok_grow t fin rb rb1 d); try done. congruence.
  - injection Hk as -> ->. exists [x], (k ++ rb1 :: post). split_and!; try done. unfold layout; cbn.
    rewrite Hc, Hq, !length_app, <- app_assoc. split_and!; try done.
    apply Forall_app in Hfut as [Hk Hfut]. apply Forall_cons in Hfut as [[_ Hf] Hfut].
    apply Forall_app. split; [done|]. apply Forall_cons. split; [|done].
    split; [done|]. by rewrite (proj1 Hs).
Qed.

(** A new ring at the end of the chain. *)
Lemma layout_snoc p fin mid fut new c :
  layout p fin mid fut -> fresh new ->
  c_queue (mpsc_view c) = c_queue (mpsc_view (chan p)) ++ [length (rings p)] ->
  c_rx (mpsc_view c) = true ->
  layout (mkPipe (rings p ++ [new]) c) fin mid (fut ++ [new]).
Proof.
  intros (Hr & Hfin & Hmid & Hfut & Hq & Hrx) Hnew Hc Hcrx. unfold layout; cbn.
  rewrite Hc, Hr, Hq, <- !app_assoc. cbn. split_and!; try done.
  - apply Forall_app; split; [done|]. by apply Forall_singleton.
  - rewrite !length_app. cbn. rewrite Nat.add_1_r, seq_S. by rewrite Nat.add_assoc.
Qed.

(** Every access of the sender keeps the layout and what the socket has got. *)
Lemma grows_layout p p' d fin mid fut t :
  pipe_grows p p' d -> layout p fin mid fut -> task_ok t fin mid ->
  exists mid' fut', layout p' fin mid' fut' /\ task_ok t fin mid' /\ popped p' = popped p.
Proof.
  intros [pre rb post rb1 d' c c' Hprod Hok Hs Hd _ Hq Hrx|rs new c c' [Hok _] Hnew Hrx Hq Hrx'
    |rs c c' Hq Hrx] Hl Ht.
  - eapply (layout_grow (mkPipe (pre ++ rb :: post) c)); try done. rewrite Hrx. by apply Hl.
  - exists mid, (fut ++ [new]). split_and!; [by eapply (layout_snoc (mkPipe rs c))|done|].
    unfold popped; cbn. rewrite fmap_app, concat_app. cbn. by rewrite Hnew, !app_nil_r.
  - exists mid, fut. split_and!; try done. unfold layout in *; cbn in *.
    by rewrite Hq, Hrx.
Qed.

(** *** The writer's side *)

(** The producer's waker: it was called, or there is nothing new to see for the
    producer. *)
Definition wakes (v v' : ring_view) : Prop :=
  v_cap v' = v_cap v /\
  (v_waker v' = None /\ v_woken v' = v_called v \/
   v_waker v' = v_waker v /\ v_woken v' = v_woken v /\
   v_contents v' = v_contents v /\ v_cons v' = v_cons v).

#[local] Instance wakes_refl : Reflexive wakes.
Proof. intros v. split; [done|]. by right. Qed.

#[local] Instance wakes_trans : Transitive wakes.
Proof.
  intros v1 v2 v3 [Hc1 Hs1] [Hc2 Hs2]. split; [congruence|]. unfold v_called in *.
  destruct Hs1 as [[Hw1 Hn1]|(Hw1 & Hn1 & ? & ?)], Hs2 as [[Hw2 Hn2]|(Hw2 & Hn2 & ? & ?)];
    rewrite ?Hw1, ?Hn1 in Hn2; cbn in Hn2; rewrite ?app_nil_r in Hn2.
  1-3: left; split; congruence.
  right. split_and!; congruence.
Qed.

(** What the writer does to a ring: it touches neither what was pushed nor the
    producer, and it wakes the producer if there is anything for it to do. *)
Definition cons_only (rb rb' : Rb) : Prop :=
  v_prod (rb_view rb') = v_prod (rb_view rb) /\
  v_pushed (rb_view rb') = v_pushed (rb_view rb) /\
  (ring_ok (rb_view rb) -> ring_ok (rb_view rb')) /\
  wakes (rb_view rb) (rb_view rb').

Lemma cons_only_view (rb rb' : Rb) : rb_view rb' = rb_view rb -> cons_only rb rb'.
Proof. unfold cons_only. by intros ->. Qed.

Lemma cons_only_drop (rb : Rb) : cons_only rb (rb_drop_cons rb).
Proof.
  unfold cons_only, v_pushed, ring_ok, wakes. rewrite rb_drop_cons_view. cbn.
  split_and!; try done. by left.
Qed.

#[local] Instance cons_only_refl : Reflexive cons_only.
Proof. intros rb. by apply cons_only_view. Qed.

#[local] Instance cons_only_trans : Transitive cons_only.
Proof.
  intros r1 r2 r3 (? & ? & ? & ?) (? & ? & ? & ?). split_and!; [congruence..|auto|by etrans].
Qed.

Lemma closed_cons_only (l l' : list Rb) :
  Forall ring_closed l -> Forall2 cons_only l l' -> Forall ring_closed l'.
Proof.
  intros Hl Hf2. induction Hf2 as [|r r' l l' (Hp & _ & Hok & _) _ IH]; [done|].
  apply Forall_cons in Hl as [[? ?] ?]. apply Forall_cons; split; [|by apply IH].
  split; [auto|congruence].
Qed.

Lemma open_cons_only (rb rb' : Rb) : ring_open rb -> cons_only rb rb' -> ring_open rb'.
Proof. intros [? ?] (? & _ & ? & _). split; [auto|congruence]. Qed.

(** The writer does not touch the sender's side. *)
Lemma sender_ok_cons_only so p p' :
  sender_ok so p -> Forall2 cons_only (rings p) (rings p') ->
  c_tx (mpsc_view (chan p')) = c_tx (mpsc_view (chan p)) -> sender_ok so p'.
Proof.
  intros [Hs Hcall] Hf2 Htx. split; [|done].
  assert (forall s, sender_wf s p -> sender_wf s p') as Hwf.
  { intros s (pre & rb & Hr & Hi & Hok & Hp & Hpre & Hc). rewrite Hr in Hf2.
    apply Forall2_app_inv_l in Hf2 as (pre' & l' & Hf2 & Hf3 & Hr').
    apply Forall2_cons_inv_l in Hf3 as (rb' & l'' & Hco & Hnil & ->).
    apply Forall2_nil_inv_l in Hnil as ->. apply Forall2_length in Hf2 as Hlen.
    destruct (open_cons_only rb rb' (conj Hok Hp) Hco).
    exists pre', rb'. rewrite Hi. split_and!; try done; [by eapply closed_cons_only|congruence]. }
  destruct so; cbn [sender_shape] in *; auto.
  - destruct Hs as (pre & old & new & Hr & Hi & -> & Ho & Hn & Hpre & Hc). rewrite Hr in Hf2.
    apply Forall2_app_inv_l in Hf2 as (pre' & l' & Hf2 & Hf3 & Hr').
    apply Forall2_cons_inv_l in Hf3 as (old' & l1 & Hco & Hf3 & ->).
    apply Forall2_cons_inv_l in Hf3 as (new' & l2 & Hcn & Hnil & ->).
    apply Forall2_nil_inv_l in Hnil as ->. apply Forall2_length in Hf2 as Hlen.
    destruct (open_cons_only _ _ Ho Hco), (open_cons_only _ _ Hn Hcn).
    exists pre', old', new'. rewrite Hi, !length_app, Hlen.
    split_and!; try done; [by eapply closed_cons_only|congruence].
  - destruct Hs as [Hs Hc]. split; [by eapply closed_cons_only|congruence].
  - destruct Hs as [Hs Hc]. split; [by eapply closed_cons_only|congruence].
Qed.

(** The channel is closed only after the sender was dropped. *)
Lemma sender_ok_gone so p :
  sender_ok so p -> c_tx (mpsc_view (chan p)) = false -> so = S_Dropped.
Proof.
  intros [Hs _] Htx. destruct so; cbn [sender_shape] in Hs; try done.
  all: try (destruct Hs as (? & ? & _ & _ & _ & _ & _ & Hc); congruence).
  - destruct Hs as (? & ? & ? & _ & _ & _ & _ & _ & _ & Hc). congruence.
  - destruct Hs. congruence.
Qed.

Lemma stream_cons_only p p' :
  Forall2 cons_only (rings p) (rings p') -> stream p' = stream p.
Proof.
  intros Hf2. unfold stream. f_equal. induction Hf2 as [|r r' l l' (_ & Hp & _) _ IH]; [done|].
  cbn. by rewrite Hp, IH.
Qed.

Lemma cons_only_alter_drop (l : list Rb) i :
  Forall2 cons_only l (alter rb_drop_cons i l).
Proof.
  revert i. induction l as [|r l IH]; intros i; [by destruct i|].
  destruct i as [|i]; cbn; constructor; try done. apply cons_only_drop.
Qed.

(** Dropping the receiver only closes rings for the sender. *)
Lemma drop_receiver_spec cur p :
  Forall2 cons_only (rings p) (rings (drop_receiver cur p)) /\
  c_tx (mpsc_view (chan (drop_receiver cur p))) = c_tx (mpsc_view (chan p)).
Proof.
  unfold drop_receiver. destruct (mpsc_drop_rx (chan p)) as [c queued] eqn:E.
  apply mpsc_drop_rx_view in E as [_ Hc]. cbn. rewrite Hc. split; [|done].
  generalize (match cur with Some i => i :: queued | None => queued end) as l. intros l.
  assert (forall rs rs', Forall2 cons_only rs rs' ->
    Forall2 cons_only rs (foldl (fun rs i => alter rb_drop_cons i rs) rs' l)) as Hf.
  { induction l as [|i l IH]; intros rs rs' Hf2; [done|]. cbn. apply IH.
    etrans; [done|]. apply cons_only_alter_drop. }
  apply Hf. reflexivity.
Qed.

(** One step of [flush]: what leaves the ring is what enters the socket. *)
Lemma flush_step_spec cx (rb : Rb) w cur rb' w' r :
  ring_ok (rb_view rb) -> left_ok cur rb -> flush_step cx rb w cur = (rb', w', r) ->
  exists n, 0 <= n <= zlen (v_contents (rb_view rb)) /\
    written w' = written w ++ ztake n (v_contents (rb_view rb)) /\
    v_popped (rb_view rb') = v_popped (rb_view rb) ++ ztake n (v_contents (rb_view rb)) /\
    v_contents (rb_view rb') = zdrop n (v_contents (rb_view rb)) /\
    cons_only rb rb' /\
    match r with
    | FlushDone => rb' = rb /\ v_contents (rb_view rb) = []
    | FlushMore cur' => left_ok cur' rb' /\ exists bytes, bytes <> [] /\
        poll_write w cx bytes
          = (w', match cur' with None => Ready (Ok n) | Some _ => Pending end)
    | FlushErr e => exists bytes, bytes <> [] /\ poll_write w cx bytes = (w', Ready (Err e))
    end.
Proof.
  intros Hok Hl. unfold flush_step.
  destruct (rb_as_slices rb) as [l1 l2] eqn:Es. apply rb_as_slices_view in Es as [Hs Hs0].
  cbn [fst]. pose proof (zlen_nonneg (v_contents (rb_view rb))).
  set (lf := match cur with Some l => l | None => l1 end).
  assert (lf `prefix_of` v_contents (rb_view rb) /\
          (lf = [] -> v_contents (rb_view rb) = [])) as [Hpre Hnil].
  { destruct cur as [l|]; cbn in *; [by destruct Hl|].
    split; [by exists l2|]. intros Hn. unfold lf in Hn. subst l1. by rewrite <- Hs, Hs0. }
  assert (forall w2 (P : Prop), written w2 = written w -> P ->
    0 <= 0 <= zlen (v_contents (rb_view rb)) /\
    written w2 = written w ++ ztake 0 (v_contents (rb_view rb)) /\
    v_popped (rb_view rb) = v_popped (rb_view rb) ++ ztake 0 (v_contents (rb_view rb)) /\
    v_contents (rb_view rb) = zdrop 0 (v_contents (rb_view rb)) /\ cons_only rb rb /\ P) as Hstay.
  { intros w2 P Hw HP. rewrite ztake_0, zdrop_0, !app_nil_r. by split_and!. }
  clearbody lf. destruct lf as [|x lf'].
  { intros [= <- <- <-]. exists 0. apply Hstay; [done|]. split; [done|by apply Hnil]. }
  destruct (poll_write w cx (x :: lf')) as [w1 [[n|e]|]] eqn:Ew; intros [= <- <- <-].
  - pose proof Ew as Ew'. apply poll_write_ok in Ew as [Hn Hw]. destruct Hpre as [rest Hrest].
    assert (zlen (v_contents (rb_view rb)) = zlen (x :: lf') + zlen rest) as Hz
      by (rewrite Hrest; apply zlen_app).
    pose proof (zlen_nonneg rest).
    destruct (rb_advance_view rb n) as (wk & wn & Hv & Hwk); [lia|].
    exists n. unfold cons_only, wakes, v_pushed, ring_ok in *. rewrite Hv; cbn.
    rewrite <- app_assoc, ztake_zdrop, zlen_zdrop by lia.
    split_and!; try done; try lia; [by rewrite Hrest, ztake_app_le by lia| |by exists (x :: lf')].
    destruct Hwk as [[-> ->]|(-> & -> & ->)]; [by left|right]. by rewrite zdrop_0.
  - exists 0. apply Hstay; [by eapply poll_write_err|]. by exists (x :: lf').
  - exists 0. apply Hstay; [by eapply poll_write_pending|]. split; [done|].
    by exists (x :: lf').
Qed.
Lemma layout_lookup p fin rb fut :
  layout p fin [rb] fut -> rings p !! length fin = Some rb.
Proof. intros (-> & _). by apply list_lookup_middle. Qed.

(** The writer replaces the ring it holds. *)
Lemma layout_set_held p fin rb fut rb' data :
  layout p fin [rb] fut -> cons_only rb rb' ->
  v_popped (rb_view rb') = v_popped (rb_view rb) ++ data ->
  layout (set_ring p (length fin) rb') fin [rb'] fut /\
  Forall2 cons_only (rings p) (rings (set_ring p (length fin) rb')) /\
  popped (set_ring p (length fin) rb') = popped p ++ data.
Proof.
  intros (Hr & Hfin & Hmid & Hfut & Hq & Hrx) Hc Hp.
  assert (rings (set_ring p (length fin) rb') = fin ++ [rb'] ++ fut) as Hr'.
  { unfold set_ring; cbn. rewrite Hr, <- (Nat.add_0_r (length fin)).
    by rewrite insert_app_r. }
  split_and!.
  - unfold layout. rewrite Hr'. split_and!; try done.
    rewrite Forall_singleton in Hmid. apply Forall_singleton.
    destruct Hc as (_ & _ & Hok & _). by apply Hok.
  - rewrite Hr, Hr'. apply Forall2_app; [reflexivity|].
    apply Forall2_cons; split; [done|reflexivity].
  - unfold popped. rewrite Hr, Hr', !fmap_app, !concat_app. cbn.
    destruct (concat_pushed_fresh fut Hfut) as [_ ->]. rewrite Hp, !app_nil_r.
    by rewrite app_assoc.
Qed.

(** A running task whose invariant holds has sent a prefix of the stream. *)
Lemma running_prefix p fin mid fut w :
  layout p fin mid fut -> (length mid <= 1)%nat -> written w = popped p ->
  written w `prefix_of` stream p.
Proof.
  intros Hl Hm Hw. rewrite (layout_stream _ _ _ _ Hl Hm), Hw. by apply prefix_app_r.
Qed.

(** Stopping the task, by an error or an abort. *)
Lemma stopped_inv so p cur w t :
  sender_ok so p -> written w `prefix_of` stream p ->
  (exists e, t = W_Done (Err e)) \/ t = W_Aborted ->
  duplex_inv (mkDuplex so (drop_receiver cur p) t w).
Proof.
  intros Hs Hw Ht. destruct (drop_receiver_spec cur p) as [Hf Htx].
  split; cbn; [by eapply sender_ok_cons_only|]. rewrite (stream_cons_only _ _ Hf).
  by destruct Ht as [[e ->]| ->].
Qed.

(** One step of [flush] inside a loop, given what holds at the await point and
    after the flush. *)
Lemma flush_ring_inv cx so p w fin rb fut cur here next :
  sender_ok so p -> layout p fin [rb] fut -> left_ok cur rb -> written w = popped p ->
  (forall cur' rb' p' w', layout p' fin [rb'] fut -> left_ok cur' rb' -> cons_only rb rb' ->
     sender_ok so p' -> written w' = popped p' -> duplex_inv (mkDuplex so p' (here cur') w')) ->
  (forall w' t' p', v_contents (rb_view rb) = [] -> written w' = popped p ->
     next p = (t', p') -> duplex_inv (mkDuplex so p' t' w')) ->
  exists t' p' w', flush_ring cx (length fin) cur here next p w = Ret (t', p', w') /\
    duplex_inv (mkDuplex so p' t' w').
Proof.
  intros Hs Hl Hcur Hw Hhere Hnext. unfold flush_ring. rewrite (layout_lookup _ _ _ _ Hl).
  destruct (flush_step cx rb w cur) as [[rb' w'] r] eqn:E.
  apply flush_step_spec in E as (n & Hn & Hw' & Hp & Hc & Hco & Hr); [| |done].
  2: { destruct Hl as (_ & _ & Hmid & _). by rewrite Forall_singleton in Hmid. }
  destruct (layout_set_held p fin rb fut rb' _ Hl Hco Hp) as (Hl' & Hf & Hpop).
  assert (written w' = popped (set_ring p (length fin) rb')) as Hwp by congruence.
  assert (sender_ok so (set_ring p (length fin) rb')) as Hs'
    by (by apply (sender_ok_cons_only so p)).
  destruct r as [cur'| |e].
  - destruct Hr as [Hr _]. eexists _, _, _. split; [done|]. by apply (Hhere cur' rb').
  - destruct Hr as [-> Hnil].
    assert (set_ring p (length fin) rb = p) as Hid.
    { unfold set_ring. rewrite list_insert_id by (by apply layout_lookup in Hl). by destruct p. }
    rewrite Hid in *. destruct (next p) as [t' p'] eqn:En. eexists _, _, _. split; [done|].
    by apply Hnext.
  - eexists _, _, _. split; [done|]. apply stopped_inv; [done| |by eauto].
    by eapply running_prefix.
Qed.

(** After the last flush of a closed ring the task goes back to [recv]. *)
Lemma drop_ring_inv so p w fin rb fut t :
  sender_ok so p -> layout p fin [rb] fut -> written w = popped p ->
  v_contents (rb_view rb) = [] -> v_prod (rb_view rb) = false ->
  t = WN_Recv \/ t = WA_Recv ->
  forall t' p', drop_ring (length fin) t p = (t', p') -> duplex_inv (mkDuplex so p' t' w).
Proof.
  intros Hs Hl Hw Hnil Hprod Ht t' p' [= <- <-].
  pose proof (rb_drop_cons_view rb) as Hv. pose proof (cons_only_drop rb) as Hco.
  destruct (layout_set_held p fin rb fut (rb_drop_cons rb) [] Hl Hco)
    as (Hl' & Hf & Hpop); [by rewrite Hv, app_nil_r|].
  assert (mkPipe (alter rb_drop_cons (length fin) (rings p)) (chan p)
    = set_ring p (length fin) (rb_drop_cons rb)) as ->.
  { unfold set_ring. f_equal. by apply alter_as_insert, layout_lookup with fut. }
  assert (sender_ok so (set_ring p (length fin) (rb_drop_cons rb))) as Hs'
    by (by apply (sender_ok_cons_only so p)).
  destruct Hl' as (Hr & Hfin & Hmid & Hfut & Hq & Hrx). rewrite Forall_singleton in Hmid.
  split; [done|]. rewrite app_nil_r in Hpop.
  assert (exists fin' mid' fut', layout (set_ring p (length fin) (rb_drop_cons rb)) fin' mid' fut'
    /\ mid' = [] /\ written w = popped (set_ring p (length fin) (rb_drop_cons rb))) as Hex.
  { exists (fin ++ [rb_drop_cons rb]), [], fut. unfold layout.
    rewrite Hr, length_app, Nat.add_0_r, <- app_assoc. split_and!; try done; [|congruence].
    apply Forall_app; split; [done|]. apply Forall_singleton. split; [done|]. by rewrite Hv. }
  by destruct Ht as [-> | ->].
Qed.
(** [recv]: the next ring in order; the end only when the sender is gone and
    every ring is empty. *)
Lemma recv_ring_inv cx so p w fin fut here got :
  sender_ok so p -> layout p fin [] fut -> written w = popped p ->
  here = WN_Recv \/ here = WA_Recv ->
  (forall rb, task_ok (got (length fin)) fin [rb]) ->
  (forall i, task_ring (got i) = Some i) ->
  forall t' p', recv_ring cx here got p = (t', p') -> duplex_inv (mkDuplex so p' t' w).
Proof.
  intros Hs Hl Hw Hhere Hgot Htr t' p'. unfold recv_ring.
  destruct (mpsc_poll_recv (chan p) cx) as [c pr] eqn:E.
  apply mpsc_poll_recv_view in E. pose proof Hl as (Hr & Hfin & _ & Hfut & Hq & Hrx).
  rewrite Hq in E. cbn in Hr, Hq. rewrite Nat.add_0_r in Hq, E.
  assert (forall b, c_tx (mpsc_view c) = c_tx (mpsc_view (chan p)) ->
    b = sender_ok so (mkPipe (rings p) c) -> b) as Hs'.
  { intros b Htx ->. apply (sender_ok_cons_only so p); [done|reflexivity|done]. }
  destruct fut as [|rb fut]; cbn [length seq] in E.
  - destruct E as [-> Hc]. specialize (Hs' _ ltac:(by rewrite Hc) eq_refl).
    assert (layout (mkPipe (rings p) c) fin [] []) as Hl'.
    { unfold layout in *. cbn in *. rewrite Hc. naive_solver. }
    destruct (c_tx (mpsc_view (chan p))) eqn:Etx; intros [= <- <-].
    + split; [done|].
      assert (exists fin' mid' fut', layout (mkPipe (rings p) c) fin' mid' fut' /\ mid' = []
        /\ written w = popped (mkPipe (rings p) c)) as Hex by (by exists fin, [], []).
      by destruct Hhere as [-> | ->].
    + split; [done|]. cbn. split.
      * by apply (sender_ok_gone so p).
      * change (written w = stream (mkPipe (rings p) c)).
        rewrite (layout_stream _ _ _ _ Hl') by (cbn; lia). rewrite Hw.
        unfold in_flight, popped. cbn. rewrite Hr, app_nil_r.
        destruct (concat_pushed_finished fin Hfin) as [_ ->]. by rewrite app_nil_r.
  - destruct E as [-> Hc]. specialize (Hs' _ ltac:(by rewrite Hc) eq_refl).
    intros [= <- <-]. split; [done|]. apply Forall_cons in Hfut as [[Hok Hfr] Hfut].
    assert (exists fin' mid' fut', layout (mkPipe (rings p) c) fin' mid' fut' /\
      task_ok (got (length fin)) fin' mid' /\ written w = popped (mkPipe (rings p) c)) as Hex.
    { exists fin, [rb], fut. split_and!; try done. unfold layout. cbn. rewrite Hc. cbn.
      split_and!; try done; [by apply Forall_singleton|]. by rewrite Nat.add_1_r. }
    specialize (Htr (length fin)). cbn. by destruct (got (length fin)).
Qed.

(** Waiting on the held ring does not change it. *)
Lemma wait_occupied_inv cx so p w fin rb fut n rb' ready :
  sender_ok so p -> layout p fin [rb] fut -> written w = popped p ->
  rb_wait_occupied rb cx n = (rb', ready) ->
  rb_view rb' = rb_view rb /\ sender_ok so (set_ring p (length fin) rb') /\
  layout (set_ring p (length fin) rb') fin [rb'] fut /\
  written w = popped (set_ring p (length fin) rb').
Proof.
  intros Hs Hl Hw E. apply rb_wait_occupied_view in E as [Hv _].
  pose proof (cons_only_view rb rb' Hv) as Hco.
  destruct (layout_set_held p fin rb fut rb' [] Hl Hco) as (Hl' & Hf & Hpop);
    [by rewrite Hv, app_nil_r|].
  split_and!; try done; [by apply (sender_ok_cons_only so p)|].
  by rewrite Hpop, app_nil_r.
Qed.

(** The invariant of a running task, from its pieces. *)
Lemma running_inv so p t w fin mid fut :
  sender_ok so p -> layout p fin mid fut -> task_ok t fin mid -> written w = popped p ->
  duplex_inv (mkDuplex so p t w).
Proof.
  intros Hs Hl Ht Hw. split; [done|]. cbn.
  assert (exists fin mid fut, layout p fin mid fut /\ task_ok t fin mid /\
    written w = popped p) as Hex by (by exists fin, mid, fut).
  by destruct t.
Qed.

(** A flush in the middle of a loop, whose task is [mk] of the slice and goes on
    with [t1]. *)
Lemma flush_loop_inv cx so p w fin rb fut cur mk t1 :
  sender_ok so p -> layout p fin [rb] fut -> left_ok cur rb -> written w = popped p ->
  (forall cur' rb', left_ok cur' rb' -> task_ok (mk cur') fin [rb']) ->
  task_ok t1 fin [rb] ->
  exists t' p' w', flush_ring cx (length fin) cur mk (fun p => (t1, p)) p w = Ret (t', p', w') /\
    duplex_inv (mkDuplex so p' t' w').
Proof.
  intros Hs Hl Hc Hw Hmk Ht1. apply (flush_ring_inv cx so p w fin rb fut cur); try done.
  - intros. eapply running_inv; try done. by apply Hmk.
  - intros w' t' p' _ Hw' [= <- <-]. by eapply running_inv.
Qed.

(** The flush of a closed ring before the next one is taken. *)
Lemma flush_last_inv cx so p w fin rb fut cur mk t1 :
  sender_ok so p -> layout p fin [rb] fut -> left_ok cur rb -> v_prod (rb_view rb) = false ->
  written w = popped p -> t1 = WN_Recv \/ t1 = WA_Recv ->
  (forall cur' rb', left_ok cur' rb' -> v_prod (rb_view rb') = false ->
     task_ok (mk cur') fin [rb']) ->
  exists t' p' w',
    flush_ring cx (length fin) cur mk (drop_ring (length fin) t1) p w = Ret (t', p', w') /\
    duplex_inv (mkDuplex so p' t' w').
Proof.
  intros Hs Hl Hc Hp Hw Ht1 Hmk. apply (flush_ring_inv cx so p w fin rb fut cur); try done.
  - intros cur' rb' p' w' Hl' Hc' (Hp' & _) Hs' Hw'.
    eapply running_inv; try done. apply Hmk; [done|congruence].
  - intros w' t' p' Hnil Hw' E. by eapply (drop_ring_inv so p w' fin rb fut t1).
Qed.

(** Waiting on the held ring, in either loop. *)
Lemma wait_step_inv cx tick so p w t i :
  t = WN_Wait i \/ (exists tick_flush, t = WA_Select i tick_flush) ->
  duplex_inv (mkDuplex so p t w) ->
  exists t' p' w', writer_step cx tick t p w = Ret (t', p', w') /\
    duplex_inv (mkDuplex so p' t' w').
Proof.
  intros Hwait [Hs Ht]. cbn in Hs, Ht.
  assert (forall fin fut rb' p', sender_ok so p' -> layout p' fin [rb'] fut -> written w = popped p' ->
    forall t', task_ok t' fin [rb'] -> duplex_inv (mkDuplex so p' t' w)) as Hrun
    by (intros; by eapply running_inv).
  destruct Hwait as [->|[tick_flush ->]];
    destruct Ht as (fin & ? & fut & Hl & (-> & rb & ->) & Hw);
    cbn [writer_step writer_no_auto_flush_step writer_auto_flush_step];
    rewrite (layout_lookup _ _ _ _ Hl);
    destruct (rb_wait_occupied rb cx _) as [rb' ready] eqn:E;
    destruct (wait_occupied_inv cx so p w fin rb fut _ rb' ready Hs Hl Hw E)
      as (Hv & Hs' & Hl' & Hw');
    specialize (Hrun fin fut rb' _ Hs' Hl' Hw').
  - destruct ready; [destruct (rb_cons_is_closed rb') eqn:Ec|]; eexists _, _, _; (split; [done|]);
      apply Hrun; (split; [done|]); exists rb'; split_and?; try done.
    rewrite rb_cons_is_closed_view in Ec. by apply negb_true_iff in Ec.
  - destruct ready; [destruct (rb_cons_is_closed rb') eqn:Ec;
      [|destruct (negb (rb_occupied_len rb' <? MIN_MSG_BUFFER_SIZE))]|destruct (tick_flush && tick)];
      eexists _, _, _; (split; [done|]);
      apply Hrun; (split; [done|]); exists rb'; split_and?; try done.
    rewrite rb_cons_is_closed_view in Ec. by apply negb_true_iff in Ec.
Qed.

(** The shutdown of the socket at the end. *)
Lemma shutdown_step_inv cx so p w :
  duplex_inv (mkDuplex so p W_Shutdown w) ->
  exists t' p' w', shutdown_step cx p w = (t', p', w') /\ duplex_inv (mkDuplex so p' t' w').
Proof.
  intros [Hs [Hso Hw]]. cbn in Hs, Hso, Hw. subst so. unfold shutdown_step.
  destruct (poll_shutdown w cx) as [w' pr] eqn:E. apply poll_shutdown_written in E.
  destruct pr as [[[]|e]|]; eexists _, _, _; (split; [done|]).
  - destruct (drop_receiver_spec None p) as [Hf Htx].
    split; cbn; [by eapply (sender_ok_cons_only S_Dropped)|]. split; [done|].
    rewrite (stream_cons_only _ _ Hf). congruence.
  - apply stopped_inv; [done| |by eauto]. by rewrite E, Hw.
  - split; [done|]. cbn. split; [done|]. congruence.
Qed.

(** Every step of the writer keeps the invariant and does not panic. *)
Lemma writer_step_inv cx tick so p t w :
  duplex_inv (mkDuplex so p t w) ->
  exists t' p' w', writer_step cx tick t p w = Ret (t', p', w') /\
    duplex_inv (mkDuplex so p' t' w').
Proof.
  intros Hinv. pose proof Hinv as [Hs Ht]. cbn in Hs, Ht.
  destruct t as [|i|i left|i left| |i tick_flush|i left|i left|i left| |r|];
    try (by eexists _, _, _); try (apply (wait_step_inv cx tick so p w _ i); by eauto);
    cbn [writer_step writer_no_auto_flush_step writer_auto_flush_step].
  1, 4: destruct Ht as (fin & ? & fut & Hl & -> & Hw);
    destruct (recv_ring _ _ _ p) as [t' p'] eqn:E; eexists _, _, _; (split; [done|]);
    (eapply (recv_ring_inv cx so p w fin fut); [| | | | | |exact E]); try done; try (by auto);
    intros rb; by split; [|exists rb].
  1, 3, 4: destruct Ht as (fin & ? & fut & Hl & (-> & rb & -> & Hc) & Hw);
    eapply flush_loop_inv; eauto; cbn; eauto.
  1, 2: destruct Ht as (fin & ? & fut & Hl & (-> & rb & -> & Hc & Hp) & Hw);
    eapply flush_last_inv; eauto; cbn; eauto 10.
  destruct (shutdown_step_inv cx so p w Hinv) as (t' & p' & w' & -> & Hinv'). by eexists _, _, _.
Qed.
(** *** The whole system *)

(** An access of a sender that is not gone yet. *)
Lemma grows_inv so so' p p' d t w :
  pipe_grows p p' d -> so <> S_Dropped -> sender_ok so' p' ->
  duplex_inv (mkDuplex so p t w) -> duplex_inv (mkDuplex so' p' t w).
Proof.
  intros Hg Hne Hs' [_ Ht]. pose proof (pipe_grows_stream _ _ _ Hg) as Hst.
  assert (written w `prefix_of` stream p -> written w `prefix_of` stream p') as Hpre.
  { intros Hp. rewrite Hst. by apply prefix_app_r. }
  assert (forall fin mid fut, layout p fin mid fut -> task_ok t fin mid -> written w = popped p ->
    duplex_inv (mkDuplex so' p' t w)) as Hrun.
  { intros fin mid fut Hl Htk Hw.
    destruct (grows_layout _ _ _ _ _ _ _ Hg Hl Htk) as (mid' & fut' & Hl' & Ht' & Hp).
    eapply running_inv; try done. congruence. }
  cbn in Ht. destruct t as [| | | | | | | | | |[[]|e]|]; cbn in Ht.
  all: try (destruct Ht as (fin & mid & fut & Hl & Htk & Hw); by apply (Hrun fin mid fut)).
  all: try by destruct Ht.
  all: split; [done|]; cbn; auto.
Qed.

Lemma abort_inv so p t w t' p' :
  writer_abort t p = (t', p') -> duplex_inv (mkDuplex so p t w) ->
  duplex_inv (mkDuplex so p' t' w).
Proof.
  intros E [Hs Ht]. cbn in Hs, Ht.
  assert (forall fin mid fut, layout p fin mid fut -> task_ok t fin mid -> written w = popped p ->
    duplex_inv (mkDuplex so (drop_receiver (task_ring t) p) W_Aborted w)) as Hrun.
  { intros fin mid fut Hl Htk Hw. apply stopped_inv; [done| |by right].
    eapply running_prefix; try done. by eapply task_ok_mid. }
  destruct t as [| | | | | | | | | |r|]; cbn in Ht, E; injection E as <- <-.
  all: try (destruct Ht as (fin & mid & fut & Hl & Htk & Hw); by apply (Hrun fin mid fut)).
  - destruct Ht as [_ Hw]. apply stopped_inv; [done| |by right]. by rewrite Hw.
  - by split.
  - by split.
Qed.

(** Every move keeps the invariant and does not panic. *)
Lemma duplex_move_inv m d :
  duplex_inv d -> exists d', duplex_move m d = Ret d' /\ duplex_inv d'.
Proof.
  destruct d as [so p t w]. intros Hinv. pose proof Hinv as [Hs _].
  destruct m as [cx|cx tick|]; cbn [duplex_move d_sender d_pipe d_task d_sock] in *.
  - destruct (access_inv cx so p Hs) as (st' & p' & E & Hs' & (d & Hg) & _).
    rewrite E. eexists. split; [done|].
    assert (so = S_Dropped \/ so <> S_Dropped) as [->|Hne] by (destruct so; auto).
    + by injection E as <- <-.
    + by eapply grows_inv.
  - destruct (writer_step_inv cx tick so p t w Hinv) as (t1 & p1 & w1 & -> & Hinv').
    by eexists.
  - destruct (writer_abort t p) as [t' p'] eqn:E. eexists. split; [done|]. by eapply abort_inv.
Qed.

(** A call that starts leaves the pipe alone. *)
Lemma with_sender_inv d s last st :
  duplex_inv d -> d_sender d = S_Idle s last -> sender_ok st (d_pipe d) ->
  duplex_inv (with_sender d st).
Proof.
  destruct d as [so p t w]. cbn. intros [Hs Ht] -> Hs'. split; [done|]. cbn in *.
  destruct t as [| | | | | | | | | |[[]|e]|]; done || by destruct Ht.
Qed.

(** Every step of the system keeps the invariant. *)
Lemma duplex_step_inv d d' : duplex_step d d' -> duplex_inv d -> duplex_inv d'.
Proof.
  intros Hstep Hinv. pose proof Hinv as [Hs _].
  destruct Hstep as [m d d' E|d s last k bytes E Hlen|d s last E|d s last E].
  - destruct (duplex_move_inv m d Hinv) as (d1 & E1 & Hinv'). congruence.
  - rewrite E in Hs. eapply with_sender_inv; [done..|]. by eapply start_send_good.
  - rewrite E in Hs. eapply with_sender_inv; [done..|]. destruct Hs as [Hs _]. split; [done|].
    cbn. unfold ring_open. rewrite rb_new_view. split; [|done]. split; [|done].
    pose proof (ring_ok_new (Rb := Rb) RING_BUFFER_SIZE) as Hok. rewrite rb_new_view in Hok.
    by apply Hok.
  - rewrite E in Hs. eapply with_sender_inv; [done..|]. by destruct Hs.
Qed.

(** [make_sender] does not panic and a connection starts in the invariant. *)
Lemma duplex_start_inv config w :
  written w = [] -> exists d, @duplex_start Rb Ch W _ _ config w = Ret d /\ duplex_inv d /\
    stream (d_pipe d) = [].
Proof.
  intros Hw. unfold duplex_start, make_sender.
  destruct (mpsc_send mpsc_new 0%nat) as [c r] eqn:E. apply mpsc_send_view in E.
  rewrite mpsc_new_view in E. cbn in E. destruct E as [-> Hc].
  eexists. split; [done|].
  assert (sender_wf (mkSender 0) (mkPipe [rb_new RING_BUFFER_SIZE] c : Pipe Rb Ch)) as Hs.
  { exists [], (rb_new RING_BUFFER_SIZE). split_and!; try done.
    - by apply ring_ok_new.
    - by rewrite rb_new_view.
    - cbn. by rewrite Hc. }
  split.
  - eapply (running_inv (S_Idle (mkSender 0) None) _ _ _ [] [] [rb_new RING_BUFFER_SIZE]); try done.
    + unfold layout; cbn. rewrite Hc. split_and!; try done. apply Forall_singleton.
      split; [by apply ring_ok_new|by rewrite rb_new_view].
    + unfold handle_writer. by destruct (is_zero _).
    + rewrite Hw. unfold popped; cbn. by rewrite rb_new_view.
  - unfold stream; cbn. by rewrite rb_new_view.
Qed.

Lemma reachable_inv d d' : rtc duplex_step d d' -> duplex_inv d -> duplex_inv d'.
Proof. induction 1; eauto using duplex_step_inv. Qed.

(** In every invariant state the socket has a prefix of the stream. *)
Lemma duplex_inv_prefix (d : Duplex Rb Ch W) :
  duplex_inv d -> written (d_sock d) `prefix_of` stream (d_pipe d).
Proof.
  destruct d as [so p t w]. intros [_ Ht]. cbn in Ht |- *.
  assert (forall fin mid fut, layout p fin mid fut -> task_ok t fin mid -> written w = popped p ->
    written w `prefix_of` stream p) as Hrun.
  { intros fin mid fut Hl Htk Hw. eapply running_prefix; try done. by eapply task_ok_mid. }
  destruct t as [| | | | | | | | | |[[]|e]|]; cbn in Ht.
  all: try (destruct Ht as (fin & mid & fut & Hl & Htk & Hw); by apply (Hrun fin mid fut)).
  all: try done.
  all: destruct Ht as [_ Ht]; by rewrite Ht.
Qed.
(** *** Termination once the sender is gone *)

(** The steps that are left: the phase of the task, the rings that are still in
    the channel, and the bytes in flight. *)
Definition weight (t : WriterTask) : nat :=
  match t with
  | WN_Flush _ _ | WA_FlushFull _ _ | WA_FlushTick _ _ => 6
  | WN_Wait _ | WA_Select _ _ => 5
  | WN_Last _ _ | WA_Last _ _ => 4
  | WN_Recv | WA_Recv => 3
  | W_Shutdown => 2
  | W_Done _ | W_Aborted => 0
  end.

Definition steps_left t p : nat :=
  weight t + 8 * length (c_queue (mpsc_view (chan p))) + length (in_flight p).

(** The task still runs or has ended with [Ok]. *)
Definition no_failure (t : WriterTask) : Prop :=
  match t with W_Done (Err _) | W_Aborted => False | _ => True end.

Lemma in_flight_held p fin rb fut rb' :
  layout p fin [rb] fut ->
  (length (in_flight (set_ring p (length fin) rb')) + length (v_contents (rb_view rb)) =
   length (in_flight p) + length (v_contents (rb_view rb')))%nat.
Proof.
  intros (Hr & _). unfold in_flight, set_ring; cbn.
  rewrite Hr, <- (Nat.add_0_r (length fin)), insert_app_r. cbn.
  rewrite !fmap_app, !concat_app, !length_app. cbn. rewrite !length_app. lia.
Qed.

(** One step of [flush] with a willing socket: done, or some bytes less. *)
Lemma flush_step_willing cx (rb : Rb) w cur rb' w' r :
  @willing_sock W _ _ cx -> ring_ok (rb_view rb) -> left_ok cur rb ->
  flush_step cx rb w cur = (rb', w', r) ->
  (r = FlushDone /\ rb' = rb /\ v_contents (rb_view rb) = []) \/
  (r = FlushMore None /\
   (length (v_contents (rb_view rb')) < length (v_contents (rb_view rb)))%nat).
Proof.
  intros [Hwill _] Hok Hcur E.
  pose proof (flush_step_spec cx rb w cur rb' w' r Hok Hcur E)
    as (n & Hn & _ & _ & Hc & _ & Hr).
  destruct r as [cur'| |e].
  - destruct Hr as (_ & bytes & Hne & Ew). destruct (Hwill w bytes Hne) as (w1 & m & Ew1 & Hm).
    rewrite Ew in Ew1. destruct cur'; [done|]. injection Ew1 as <- ->. right. split; [done|].
    apply (f_equal zlen) in Hc. rewrite zlen_zdrop in Hc by lia. unfold zlen in *. lia.
  - left. by destruct Hr.
  - destruct Hr as (bytes & Hne & Ew). destruct (Hwill w bytes Hne) as (w1 & m & Ew1 & _). congruence.
Qed.

Lemma flush_ring_willing cx p w fin rb fut cur mk next :
  @willing_sock W _ _ cx -> layout p fin [rb] fut -> left_ok cur rb ->
  exists w',
    (v_contents (rb_view rb) = [] /\
     flush_ring cx (length fin) cur mk next p w = Ret (next p, w')) \/
    (exists p', flush_ring cx (length fin) cur mk next p w = Ret (mk None, p', w') /\
     chan p' = chan p /\ (length (in_flight p') < length (in_flight p))%nat).
Proof.
  intros Hwill Hl Hcur. unfold flush_ring. rewrite (layout_lookup _ _ _ _ Hl).
  assert (ring_ok (rb_view rb)) as Hok.
  { destruct Hl as (_ & _ & Hmid & _). by rewrite Forall_singleton in Hmid. }
  destruct (flush_step cx rb w cur) as [[rb' w'] r] eqn:E. exists w'.
  destruct (flush_step_willing cx rb w cur rb' w' r Hwill Hok Hcur E)
    as [(-> & -> & Hnil)|(-> & Hlt)].
  - left. split; [done|].
    assert (set_ring p (length fin) rb = p) as ->; [|by destruct (next p)].
    unfold set_ring. rewrite list_insert_id by (by apply layout_lookup in Hl). by destruct p.
  - right. eexists. split; [done|]. split; [done|].
    pose proof (in_flight_held p fin rb fut rb' Hl) as Hlen. lia.
Qed.

(** A closed held ring is seen as closed. *)
Lemma wait_closed cx (rb : Rb) n rb' ready :
  v_prod (rb_view rb) = false -> rb_wait_occupied rb cx n = (rb', ready) ->
  ready = Ready tt /\ rb_cons_is_closed rb' = true /\
  v_contents (rb_view rb') = v_contents (rb_view rb).
Proof.
  intros Hp E. apply rb_wait_occupied_view in E as [Hv Hr].
  rewrite rb_cons_is_closed_view, Hv, Hp. split_and!; try done. apply Hr. by right.
Qed.

(** [recv] with a ring in the channel or after the sender is gone. *)
Lemma recv_ring_left cx p fin fut here got :
  (c_queue (mpsc_view (chan p)) = [] -> c_tx (mpsc_view (chan p)) = false) ->
  layout p fin [] fut ->
  weight here = 3%nat -> (forall i, weight (got i) = 5%nat) -> (forall i, no_failure (got i)) ->
  forall t' p', recv_ring cx here got p = (t', p') ->
  (steps_left t' p' < steps_left here p)%nat /\ no_failure t'.
Proof.
  intros Htx (_ & _ & _ & _ & Hq & _) Hh Hg Hn t' p'. unfold recv_ring, steps_left.
  destruct (mpsc_poll_recv (chan p) cx) as [c pr] eqn:E. apply mpsc_poll_recv_view in E.
  rewrite Hh. destruct (c_queue (mpsc_view (chan p))) as [|i q] eqn:Eq.
  - rewrite (Htx eq_refl) in E. destruct E as [-> Hc]. intros [= <- <-]. cbn. rewrite Hc, Eq. cbn.
    split; [|done]. unfold in_flight; cbn. lia.
  - destruct E as [-> Hc]. intros [= <- <-]. cbn. rewrite Hc, Hg. cbn.
    split; [|done]. unfold in_flight; cbn. lia.
Qed.

(** Waiting on a closed ring goes to the last flush. *)
Lemma wait_left p fin rb fut rb' t t' :
  layout p fin [rb] fut -> v_contents (rb_view rb') = v_contents (rb_view rb) ->
  (weight t' < weight t)%nat ->
  (steps_left t' (set_ring p (length fin) rb') < steps_left t p)%nat.
Proof.
  intros Hl Hc Hw. pose proof (in_flight_held p fin rb fut rb' Hl) as Hlen.
  rewrite Hc in Hlen. unfold steps_left. cbn [chan set_ring]. lia.
Qed.

(** A flush step of a loop. *)
Lemma flush_left cx p w fin rb fut cur mk next t' p' w' n :
  @willing_sock W _ _ cx -> layout p fin [rb] fut -> left_ok cur rb ->
  (forall cur', weight (mk cur') = n) -> no_failure (mk None) ->
  (weight (fst (next p)) < n)%nat -> no_failure (fst (next p)) ->
  chan (snd (next p)) = chan p -> in_flight (snd (next p)) = in_flight p ->
  flush_ring cx (length fin) cur mk next p w = Ret (t', p', w') ->
  (steps_left t' p' < steps_left (mk cur) p)%nat /\ no_failure t'.
Proof.
  intros Hwill Hl Hc Hmk Hnf Hlt Hnn Hch Hfl E. unfold steps_left.
  destruct (flush_ring_willing cx p w fin rb fut cur mk next Hwill Hl Hc)
    as (w1 & [[_ E1]|(p1 & E1 & Hc1 & Hlt1)]).
  - rewrite E1 in E. destruct (next p) as [t1 p1]. cbn in *. injection E as <- <- <-.
    rewrite Hch, Hfl, Hmk. split; [lia|done].
  - rewrite E1 in E. injection E as <- <- <-. rewrite Hc1, !Hmk. split; [lia|done].
Qed.

Lemma contents_drop_cons i (rs : list Rb) :
  (fun rb => v_contents (rb_view rb)) <$> alter rb_drop_cons i rs =
  (fun rb => v_contents (rb_view rb)) <$> rs.
Proof.
  revert i. induction rs as [|r l IH]; intros [|i]; cbn; try done.
  - f_equal. by rewrite rb_drop_cons_view.
  - f_equal. apply IH.
Qed.

Lemma in_flight_drop_ring i t p : in_flight (snd (drop_ring i t p)) = in_flight p.
Proof. unfold in_flight, drop_ring; cbn. by rewrite contents_drop_cons. Qed.

Lemma in_flight_drop_receiver cur p : in_flight (drop_receiver cur p) = in_flight p.
Proof.
  unfold in_flight, drop_receiver. destruct (mpsc_drop_rx (chan p)) as [c queued]. cbn. f_equal.
  generalize (match cur with Some i => i :: queued | None => queued end) as l. intros l.
  generalize (rings p) as rs. induction l as [|i l IH]; intros rs; cbn; [done|].
  by rewrite IH, contents_drop_cons.
Qed.

Lemma queue_drop_receiver cur p : c_queue (mpsc_view (chan (drop_receiver cur p))) = [].
Proof.
  unfold drop_receiver. destruct (mpsc_drop_rx (chan p)) as [c queued] eqn:E. cbn.
  apply mpsc_drop_rx_view in E as [_ ->]. done.
Qed.

(** With a willing socket every step of an unfinished task makes progress if the
    ring it holds is closed, or, when it holds none, if there is a next one or the
    sender is gone. *)
Lemma writer_step_progress cx tick so p t w t' p' w' :
  @willing_sock W _ _ cx -> duplex_inv (mkDuplex so p t w) -> no_failure t ->
  (forall i rb, task_ring t = Some i -> rings p !! i = Some rb -> v_prod (rb_view rb) = false) ->
  (task_ring t = None -> c_queue (mpsc_view (chan p)) = [] -> c_tx (mpsc_view (chan p)) = false) ->
  writer_step cx tick t p w = Ret (t', p', w') ->
  (steps_left t' p' < steps_left t p \/ t = W_Done (Ok tt))%nat /\ no_failure t'.
Proof.
  intros Hwill [Hs Ht] Hnf Hheld Hgone E. cbn in Hs, Ht.
  assert (forall P Q : Prop, P /\ Q -> (P \/ t = W_Done (Ok tt)) /\ Q) as Hor
    by (intros P Q [HP HQ]; by split; [left|]).
  destruct t; cbn [writer_step writer_no_auto_flush_step writer_auto_flush_step] in E.
  - destruct Ht as (fin & ? & fut & Hl & -> & Hw).
    destruct (recv_ring cx WN_Recv WN_Wait p) as [t1 p1] eqn:E1. injection E as <- <- <-.
    apply Hor. apply (recv_ring_left cx p fin fut WN_Recv WN_Wait); auto.
  - destruct Ht as (fin & ? & fut & Hl & (-> & rb & ->) & Hw).
    rewrite (layout_lookup _ _ _ _ Hl) in E.
    destruct (rb_wait_occupied rb cx _) as [rb' ready] eqn:E1.
    apply wait_closed in E1 as (-> & Hc & Hco); [|exact (Hheld _ rb eq_refl (layout_lookup _ _ _ _ Hl))].
    rewrite Hc in E. injection E as <- <- <-. apply Hor. split; [|done].
    by apply (wait_left p fin rb fut rb' (WN_Wait _) (WN_Last _ None)); [..|cbn; lia].
  - destruct Ht as (fin & ? & fut & Hl & (-> & rb & -> & Hc) & Hw).
    apply Hor. by apply (flush_left cx p w fin rb fut left _ _ t' p' w' 6) in E; [|cbn; try done; lia..].
  - destruct Ht as (fin & ? & fut & Hl & (-> & rb & -> & Hc & Hp) & Hw).
    apply Hor. apply (flush_left cx p w fin rb fut left _ _ t' p' w' 4) in E;
      cbn; try done; [lia|apply (in_flight_drop_ring _ WN_Recv)].
  - destruct Ht as (fin & ? & fut & Hl & -> & Hw).
    destruct (recv_ring cx WA_Recv _ p) as [t1 p1] eqn:E1. injection E as <- <- <-.
    apply Hor. apply (recv_ring_left cx p fin fut WA_Recv (fun i => WA_Select i true)); auto.
  - destruct Ht as (fin & ? & fut & Hl & (-> & rb & ->) & Hw).
    rewrite (layout_lookup _ _ _ _ Hl) in E.
    destruct (rb_wait_occupied rb cx _) as [rb' ready] eqn:E1.
    apply wait_closed in E1 as (-> & Hc & Hco); [|exact (Hheld _ rb eq_refl (layout_lookup _ _ _ _ Hl))].
    rewrite Hc in E. injection E as <- <- <-. apply Hor. split; [|done].
    by apply (wait_left p fin rb fut rb' (WA_Select _ _) (WA_Last _ None)); [..|cbn; lia].
  - destruct Ht as (fin & ? & fut & Hl & (-> & rb & -> & Hc) & Hw).
    apply Hor. by apply (flush_left cx p w fin rb fut left _ _ t' p' w' 6) in E; [|cbn; try done; lia..].
  - destruct Ht as (fin & ? & fut & Hl & (-> & rb & -> & Hc) & Hw).
    apply Hor. by apply (flush_left cx p w fin rb fut left _ _ t' p' w' 6) in E; [|cbn; try done; lia..].
  - destruct Ht as (fin & ? & fut & Hl & (-> & rb & -> & Hc & Hp) & Hw).
    apply Hor. apply (flush_left cx p w fin rb fut left _ _ t' p' w' 4) in E;
      cbn; try done; [lia|apply (in_flight_drop_ring _ WA_Recv)].
  - destruct Hwill as [_ Hsh]. unfold shutdown_step in E. destruct (Hsh w) as [w1 E1].
    rewrite E1 in E. injection E as <- <- <-. apply Hor. split; [|done].
    unfold steps_left. cbn [weight].
    rewrite in_flight_drop_receiver, queue_drop_receiver. cbn [length]. lia.
  - destruct r as [[]|]; [|done]. injection E as <- <- <-. by split; [right|].
  - done.
Qed.

(** With the sender gone that is always so. *)
Lemma writer_step_left cx tick p t w t' p' w' :
  @willing_sock W _ _ cx -> duplex_inv (mkDuplex S_Dropped p t w) -> no_failure t ->
  writer_step cx tick t p w = Ret (t', p', w') ->
  (steps_left t' p' < steps_left t p \/ t = W_Done (Ok tt))%nat /\ no_failure t'.
Proof.
  intros Hwill Hinv Hnf. pose proof Hinv as [[[Hcl Htx] _] _].
  apply (writer_step_progress cx tick S_Dropped); try done.
  intros i rb _ Hlk. by destruct (Forall_lookup_1 _ _ _ _ Hcl Hlk) as [_ ?].
Qed.

(** *** The stream belongs to the sender *)

Lemma held_ring_cons_only p i rb rb' :
  rings p !! i = Some rb -> cons_only rb rb' -> Forall2 cons_only (rings p) (rings (set_ring p i rb')).
Proof.
  intros Hlk Hco. cbn. apply Forall2_lookup. intros j. destruct (decide (i = j)) as [<-|Hne].
  - rewrite list_lookup_insert_eq by (by eapply lookup_lt_Some). rewrite Hlk. by constructor.
  - rewrite list_lookup_insert_ne by done. by destruct (rings p !! j); constructor.
Qed.

Lemma flush_ring_cons_only cx p w fin rb fut cur here next t' p' w' :
  layout p fin [rb] fut -> left_ok cur rb ->
  (forall p, Forall2 cons_only (rings p) (rings (snd (next p)))) ->
  flush_ring cx (length fin) cur here next p w = Ret (t', p', w') ->
  Forall2 cons_only (rings p) (rings p').
Proof.
  intros Hl Hc Hn. unfold flush_ring. rewrite (layout_lookup _ _ _ _ Hl).
  assert (ring_ok (rb_view rb)) as Hok.
  { destruct Hl as (_ & _ & Hmid & _). by rewrite Forall_singleton in Hmid. }
  destruct (flush_step cx rb w cur) as [[rb' w1] r] eqn:E.
  pose proof (flush_step_spec cx rb w cur rb' w1 r Hok Hc E) as (n & _ & _ & _ & _ & Hco & _).
  pose proof (held_ring_cons_only p (length fin) rb rb' (layout_lookup _ _ _ _ Hl) Hco) as Hst.
  destruct r as [cur'| |e].
  - intros [= _ <- _]. done.
  - specialize (Hn (set_ring p (length fin) rb')). destruct (next _) as [t1 p1].
    intros [= _ <- _]. by etrans.
  - intros [= _ <- _]. etrans; [exact Hst|]. apply drop_receiver_spec.
Qed.

Lemma recv_ring_rings cx here got p : rings (snd (recv_ring cx here got p)) = rings p.
Proof. unfold recv_ring. by destruct (mpsc_poll_recv (chan p) cx) as [c [[i|]|]]. Qed.

Lemma wait_occupied_cons_only cx p i rb n rb' ready :
  rings p !! i = Some rb -> rb_wait_occupied rb cx n = (rb', ready) ->
  Forall2 cons_only (rings p) (rings (set_ring p i rb')).
Proof.
  intros Hlk E. apply rb_wait_occupied_view in E as [Hv _].
  apply (held_ring_cons_only p i rb rb' Hlk). by apply cons_only_view.
Qed.

(** The writer changes the rings only as a consumer may. *)
Lemma writer_step_cons_only cx tick so p t w t' p' w' :
  duplex_inv (mkDuplex so p t w) -> writer_step cx tick t p w = Ret (t', p', w') ->
  Forall2 cons_only (rings p) (rings p').
Proof.
  intros [Hs Ht] E. cbn in Hs, Ht.
  destruct t; cbn [writer_step writer_no_auto_flush_step writer_auto_flush_step] in E.
  all: try (destruct Ht as (fin & ? & fut & Hl & (-> & rb & -> & Hc) & Hw); try destruct Hc as [Hc ?];
    by eapply flush_ring_cons_only; [eassumption..| |exact E]; intros; try apply cons_only_alter_drop).
  - pose proof (recv_ring_rings cx WN_Recv WN_Wait p) as Hr. destruct (recv_ring _ _ _ _).
    injection E as <- <- <-. cbn in Hr. by rewrite Hr.
  - destruct (rings p !! i) as [rb|] eqn:Hlk; [|done].
    destruct (rb_wait_occupied rb cx _) as [rb' ready] eqn:E1.
    apply (wait_occupied_cons_only _ _ _ _ _ _ _ Hlk) in E1.
    destruct ready; [destruct (rb_cons_is_closed rb')|]; by injection E as <- <- <-.
  - pose proof (recv_ring_rings cx WA_Recv (fun i => WA_Select i true) p) as Hr.
    destruct (recv_ring _ _ _ _). injection E as <- <- <-. cbn in Hr. by rewrite Hr.
  - destruct (rings p !! i) as [rb|] eqn:Hlk; [|done].
    destruct (rb_wait_occupied rb cx _) as [rb' ready] eqn:E1.
    apply (wait_occupied_cons_only _ _ _ _ _ _ _ Hlk) in E1. cbn zeta in E.
    destruct ready; [destruct (rb_cons_is_closed rb'); [|destruct (negb _)]|destruct (_ && _)];
      by injection E as <- <- <-.
  - unfold shutdown_step in E. destruct (poll_shutdown w cx) as [w1 [r|]]; injection E as <- <- <-;
      [|done]. apply drop_receiver_spec.
  - by injection E as <- <- <-.
  - by injection E as <- <- <-.
Qed.

Lemma writer_step_stream cx tick so p t w t' p' w' :
  duplex_inv (mkDuplex so p t w) -> writer_step cx tick t p w = Ret (t', p', w') ->
  stream p' = stream p.
Proof. intros Hinv E. by eapply stream_cons_only, writer_step_cons_only. Qed.

Lemma writer_abort_cons_only t p t' p' :
  writer_abort t p = (t', p') -> Forall2 cons_only (rings p) (rings p').
Proof.
  intros E. destruct t; injection E as <- <-; try reflexivity; apply drop_receiver_spec.
Qed.

(** *** A call of the sender among the steps of the writer *)

Lemma call_inv_mono k bytes base (st : SenderState Rb) p p' :
  stream p' = stream p ->
  (c_rx (mpsc_view (chan p)) = false -> c_rx (mpsc_view (chan p')) = false) ->
  call_inv k bytes base st p -> call_inv k bytes base st p'.
Proof.
  intros Hst Hrx. unfold call_inv, send_contract. rewrite Hst.
  destruct st as [s [[[]|[[]|]]|]| | | | | | | | |]; destruct k; try done.
  intros (? & ? & ?). auto.
Qed.

(** A writer whose channel is closed for the sender has stopped. *)
Lemma stopped_rx so p t w :
  duplex_inv (mkDuplex so p t w) -> so <> S_Dropped -> c_rx (mpsc_view (chan p)) = false ->
  (exists r, t = W_Done r) \/ t = W_Aborted.
Proof.
  intros [_ Ht] Hne Hrx. cbn in Ht. destruct t; eauto; try by destruct Ht.
  all: destruct Ht as (fin & mid & fut & (_ & _ & _ & _ & _ & Hrx') & _); congruence.
Qed.

(** The contract of a call is kept by every move. *)
Lemma duplex_move_call m d d' k bytes base :
  duplex_inv d -> duplex_move m d = Ret d' ->
  call_inv k bytes base (d_sender d) (d_pipe d) -> call_inv k bytes base (d_sender d') (d_pipe d').
Proof.
  destruct d as [so p t w]. intros Hinv E Hc. cbn [d_sender d_pipe] in Hc.
  assert (so <> S_Dropped) as Hne by (by intros ->).
  pose proof (stopped_rx so p t w Hinv Hne) as Hrx.
  destruct m as [cx|cx tick|]; cbn [duplex_move d_sender d_pipe d_task d_sock] in E.
  - destruct Hinv as [Hs _].
    destruct (access_inv cx so p Hs) as (st' & p' & E1 & _ & _ & Hcall & _).
    rewrite E1 in E. injection E as <-. cbn. auto.
  - destruct (writer_step cx tick t p w) as [[[t' p'] w']| |] eqn:E1; [|done..].
    injection E as <-. cbn. apply (call_inv_mono k bytes base so p); [|intros Hf|done].
    + by eapply writer_step_stream.
    + destruct (Hrx Hf) as [[r ->]| ->]; by injection E1 as <- <- <-.
  - destruct (writer_abort t p) as [t' p'] eqn:E1. injection E as <-. cbn.
    assert (forall cur, call_inv k bytes base so (drop_receiver cur p)) as Hdrop.
    { intros cur. apply (call_inv_mono k bytes base so p); [|intros _|done].
      - apply stream_cons_only, drop_receiver_spec.
      - unfold drop_receiver. destruct (mpsc_drop_rx (chan p)) as [c queued] eqn:E2. cbn.
        by apply mpsc_drop_rx_view in E2 as [_ ->]. }
    destruct t; injection E1 as <- <-; done || apply Hdrop.
Qed.

(** A move brings a call that does not block nearer to its end if it is an access
    of it, and does not touch it otherwise. *)
Lemma duplex_move_left m d d' :
  duplex_inv d -> duplex_move m d = Ret d' -> nonblocking (d_sender d) ->
  nonblocking (d_sender d') /\
  (accesses_left (d_sender d') + accesses [m] <= accesses_left (d_sender d) \/
   accesses_left (d_sender d') = 0)%nat.
Proof.
  destruct d as [so p t w]. intros [Hs _] E Hnb. cbn [d_sender d_pipe] in Hs, Hnb.
  destruct m as [cx|cx tick|]; cbn [duplex_move d_sender d_pipe d_task d_sock] in E.
  - destruct (access_inv cx so p Hs) as (st' & p' & E1 & _ & _ & _ & Hl).
    rewrite E1 in E. injection E as <-. cbn. destruct (Hl Hnb) as [? Hlt]. split; [done|]. lia.
  - destruct (writer_step cx tick t p w) as [[[t' p'] w']| |]; [|done..].
    injection E as <-. cbn. split; [done|]. lia.
  - destruct (writer_abort t p) as [t' p']. injection E as <-. cbn. split; [done|]. lia.
Qed.

(** A run keeps the contract, and brings a call that does not block to its end. *)
Lemma duplex_run_call ms d k bytes base :
  duplex_inv d -> call_inv k bytes base (d_sender d) (d_pipe d) ->
  exists d', duplex_run ms d = Ret d' /\
    call_inv k bytes base (d_sender d') (d_pipe d') /\
    (nonblocking (d_sender d) -> nonblocking (d_sender d') /\
       (accesses_left (d_sender d') + accesses ms <= accesses_left (d_sender d) \/
        accesses_left (d_sender d') = 0))%nat.
Proof.
  revert d. induction ms as [|m ms IH]; intros d Hinv Hc.
  - exists d. split_and!; try done. intros Hnb. split; [done|]. cbn. lia.
  - destruct (duplex_move_inv m d Hinv) as (d1 & E & Hinv1). cbn [duplex_run]. rewrite E. cbn [obind].
    destruct (IH d1 Hinv1) as (d' & E' & Hc' & Hl); [by apply (duplex_move_call m d d1)|].
    exists d'. split_and!; try done. intros Hnb.
    destruct (duplex_move_left m d d1 Hinv E Hnb) as [Hnb1 Hl1].
    destruct (Hl Hnb1) as [Hnb' Hl']. split; [done|]. destruct m; cbn in *; lia.
Qed.

(** A call that does not block and has no access left has returned. *)
Lemma call_returned k bytes base (st : SenderState Rb) p :
  call_inv k bytes base st p -> nonblocking st -> accesses_left st = 0%nat ->
  exists s r, st = S_Idle s (Some r).
Proof.
  destruct st as [s [r|]|s k' bytes' off| |s b wk []| | | | | |]; cbn; try done; eauto.
  destruct k' as [| |wk []]; try done; lia.
Qed.

Lemma writer_run_done cx ticks r p w :
  writer_run cx ticks (W_Done r) p w = Ret (W_Done r, p, w).
Proof. by induction ticks. Qed.

(** A run of the writer alone, as long as the measure says, ends. *)
Lemma writer_run_ends cx ticks p t w :
  @willing_sock W _ _ cx -> duplex_inv (mkDuplex S_Dropped p t w) -> no_failure t ->
  (steps_left t p <= length ticks)%nat ->
  exists p' w', writer_run cx ticks t p w = Ret (W_Done (Ok tt), p', w') /\
    written w' = stream p.
Proof.
  revert p t w. induction ticks as [|tick ticks IH]; intros p t w Hwill Hinv Hnf Hle.
  - exists p, w. destruct Hinv as [_ Hinv].
    destruct t as [| | | | | | | | | |[[]|]|]; cbn in Hle, Hnf, Hinv; try lia; try done.
    by split; [|apply Hinv].
  - destruct (writer_step_inv cx tick S_Dropped p t w Hinv) as (t' & p' & w' & E & Hinv').
    pose proof (writer_step_stream _ _ _ _ _ _ _ _ _ Hinv E) as Hst.
    destruct (writer_step_left _ _ _ _ _ _ _ _ Hwill Hinv Hnf E) as [Hlt Hnf'].
    destruct Hlt as [Hlt| ->].
    + cbn [writer_run]. rewrite E, <- Hst. apply IH; try done. cbn in Hle. lia.
    + exists p, w. rewrite writer_run_done. by split; [|apply Hinv].
Qed.
(** *** The flush timer *)

(** A whole flush inside the loop of [handle_writer_auto_flush], with a willing
    socket. *)
Lemma flush_run cx i mk m rb p w cur :
  (forall cur p w, writer_step cx true (mk cur) p w =
     flush_ring cx i cur mk (fun p => (WA_Select i false, p)) p w) ->
  @willing_sock W _ _ cx -> (length (v_contents (rb_view rb)) <= m)%nat ->
  rings p !! i = Some rb -> ring_ok (rb_view rb) -> left_ok cur rb ->
  exists n p' w', (n <= S m)%nat /\
    writer_run cx (replicate n true) (mk cur) p w = Ret (WA_Select i false, p', w') /\
    written w' = written w ++ v_contents (rb_view rb).
Proof.
  intros Hstep Hwill. revert rb p w cur.
  induction m as [|m IH]; intros rb p w cur Hm Hlk Hok Hc.
  all: destruct (flush_step cx rb w cur) as [[rb' w'] r] eqn:E.
  all: destruct (flush_step_willing cx rb w cur rb' w' r Hwill Hok Hc E)
    as [(-> & -> & Hnil)|(-> & Hlt)].
  1, 3: exists 1%nat, (set_ring p i rb), w'; cbn [replicate writer_run];
    rewrite Hstep; unfold flush_ring; rewrite Hlk, E, Hnil, app_nil_r;
    (split; [lia|]); (split; [done|]);
    apply flush_step_spec in E as (n & _ & -> & _); try done;
    rewrite Hnil; unfold ztake; by rewrite take_nil, app_nil_r.
  - lia.
  - pose proof (flush_step_spec cx rb w cur rb' w' _ Hok Hc E)
      as (n & Hn & Hw & _ & Hco & Hcons & Hr).
    destruct (IH rb' (set_ring p i rb') w' None) as (k & p' & w2 & Hk & Erun & Hw2).
    + lia.
    + cbn. apply list_lookup_insert_eq. by eapply lookup_lt_Some.
    + destruct Hcons as (_ & _ & Hok' & _). auto.
    + done.
    + exists (S k), p', w2. split; [lia|]. cbn [replicate writer_run].
      rewrite Hstep. unfold flush_ring. rewrite Hlk, E. split; [done|].
      rewrite Hw2, Hw, Hco, <- app_assoc. by rewrite ztake_zdrop.
Qed.

Lemma writer_run_app cx l1 l2 t p w :
  writer_run cx (l1 ++ l2) t p w =
  match writer_run cx l1 t p w with
  | Ret (t', p', w') => writer_run cx l2 t' p' w'
  | Panic => Panic
  | NoFuel => NoFuel
  end.
Proof.
  revert t p w. induction l1 as [|tick l1 IH]; intros t p w; cbn; [done|].
  destruct (writer_step cx tick t p w) as [[[t1 p1] w1]| |]; cbn; [apply IH|done..].
Qed.

(** With the timer ready an open ring that is not empty is flushed from the
    first or the second [select!] on. *)
Lemma select_true_to_flush cx (rb : Rb) p w i :
  rings p !! i = Some rb -> v_prod (rb_view rb) = true ->
  exists mk p1 rb1,
    (forall cur p w, writer_step cx true (mk cur) p w =
       flush_ring cx i cur mk (fun p => (WA_Select i false, p)) p w) /\
    writer_step cx true (WA_Select i true) p w = Ret (mk None, p1, w) /\
    rings p1 !! i = Some rb1 /\ rb_view rb1 = rb_view rb.
Proof.
  intros Hlk Hp. cbn [writer_step writer_auto_flush_step]. rewrite Hlk. cbn zeta.
  destruct (rb_wait_occupied rb cx _) as [rb' ready] eqn:E.
  apply rb_wait_occupied_view in E as [Hv Hr].
  assert (rings (set_ring p i rb') !! i = Some rb') as Hlk'
    by (apply list_lookup_insert_eq; by eapply lookup_lt_Some).
  destruct ready as [[]|].
  - rewrite rb_cons_is_closed_view, Hv, Hp. cbn [negb].
    destruct (proj1 Hr eq_refl) as [Hle|]; [|congruence].
    rewrite rb_occupied_len_view, Hv. cbn in Hle. rewrite (proj2 (Z.ltb_ge _ _)) by lia.
    by exists (WA_FlushFull i), (set_ring p i rb'), rb'.
  - by exists (WA_FlushTick i), (set_ring p i rb'), rb'.
Qed.

Lemma select_to_flush cx (rb : Rb) p w i tick_flush :
  rings p !! i = Some rb -> v_prod (rb_view rb) = true -> v_contents (rb_view rb) <> [] ->
  exists n mk p1 rb1, (n <= 2)%nat /\
    (forall cur p w, writer_step cx true (mk cur) p w =
       flush_ring cx i cur mk (fun p => (WA_Select i false, p)) p w) /\
    writer_run cx (replicate n true) (WA_Select i tick_flush) p w = Ret (mk None, p1, w) /\
    rings p1 !! i = Some rb1 /\ rb_view rb1 = rb_view rb.
Proof.
  intros Hlk Hp Hne. destruct tick_flush.
  - destruct (select_true_to_flush cx rb p w i Hlk Hp) as (mk & p1 & rb1 & Hmk & E & Hl1 & Hv1).
    exists 1%nat, mk, p1, rb1. cbn [replicate writer_run]. rewrite E. split_and!; [lia|done..].
  - destruct (rb_wait_occupied rb cx 1) as [rb' ready] eqn:E.
    apply rb_wait_occupied_view in E as Hr. destruct Hr as [Hv [_ Hr]].
    assert (ready = Ready tt) as ->
      by (apply Hr; left; apply zlen_pos_iff in Hne; lia).
    assert (rings (set_ring p i rb') !! i = Some rb') as Hlk'
      by (apply list_lookup_insert_eq; by eapply lookup_lt_Some).
    pose proof (eq_trans (f_equal v_prod Hv) Hp) as Hp'.
    destruct (select_true_to_flush cx rb' (set_ring p i rb') w i Hlk' Hp')
      as (mk & p1 & rb1 & Hmk & E1 & Hl1 & Hv1).
    assert (writer_step cx true (WA_Select i false) p w =
      if rb_occupied_len rb' <? MIN_MSG_BUFFER_SIZE
      then Ret (WA_Select i true, set_ring p i rb', w)
      else Ret (WA_FlushFull i None, set_ring p i rb', w)) as Estep.
    { cbn [writer_step writer_auto_flush_step]. rewrite Hlk.
      change (Z.b2z false * MIN_MSG_BUFFER_SIZE + Z.b2z (negb false)) with 1. cbn zeta.
      rewrite E.
      rewrite rb_cons_is_closed_view, Hv, Hp. cbn. by destruct (_ <? _). }
    destruct (rb_occupied_len rb' <? MIN_MSG_BUFFER_SIZE).
    + exists 2%nat, mk, p1, rb1. cbn [replicate writer_run]. rewrite Estep.
      cbn [obind]. rewrite E1. split_and!; try done. congruence.
    + exists 1%nat, (WA_FlushFull i), (set_ring p i rb'), rb'. cbn [replicate writer_run].
      rewrite Estep. split_and!; [lia|done..].
Qed.
End lemmas.

(** ** Properties *)

Section properties.
Context {Rb : Type} {Ch : Type -> Type} {W : Type}.
Context `{RingBufSpec Rb} `{MpscSpec Ch} `{AsyncWriteSpec W}.
Context `{!AsyncShutdown W} `{!AsyncShutdownSpec W}.

(** C2: integrity of the sending direction.  From the start of a connection and
    after any interleaving of the single accesses of the sender (in non-blocking,
    asynchronous and blocking sends, manual flushes and its drop) with the steps of
    the writer (with any timer and socket behaviour) and an abort: what the socket
    has received is a prefix of what the sender has put into the pipe; and if the
    writer task has ended with [Ok], the sender was dropped and the socket has
    received all of it. *)
Theorem stream_integrity config (w : W) d :
  written w = [] ->
  exists d0, @duplex_start Rb Ch W _ _ config w = Ret d0 /\
    (rtc duplex_step d0 d ->
     written (d_sock d) `prefix_of` stream (d_pipe d) /\
     (d_task d = W_Done (Ok tt) ->
      d_sender d = S_Dropped /\ written (d_sock d) = stream (d_pipe d))).
Proof.
  intros Hw. destruct (duplex_start_inv config w Hw) as (d0 & E & Hinv & _).
  exists d0. split; [done|]. intros Hsteps.
  pose proof (reachable_inv _ _ Hsteps Hinv) as Hd.
  split; [by apply duplex_inv_prefix|]. intros Ht. destruct Hd as [_ Hd].
  by rewrite Ht in Hd.
Qed.

(** C3: a send in the midst of a running writer.  Take a sender between two calls
    in any state reachable from the start of the connection, let it make a send
    and let its accesses be interleaved in any way with the steps and the abortion
    of the writer: nothing panics; a send that does not block has returned after
    at most [5 + 2 * n] accesses of its own for [n] bytes, whatever the writer
    does; and when a send has returned, its result says what it has appended: all
    bytes for [Ok] of [send_block] and [send_nonblock], a prefix with an error,
    which for [send_nonblock] means that the writer is gone, and for [send_async]
    exactly the reported number of bytes, at least one unless there were none. *)
Theorem send_call_exact config (w : W) d0 d s last k bytes ms :
  written w = [] -> @duplex_start Rb Ch W _ _ config w = Ret d0 -> rtc duplex_step d0 d ->
  d_sender d = S_Idle s last -> zlen bytes < isize_bound ->
  exists d', duplex_run ms (with_sender d (start_send k s bytes)) = Ret d' /\
    (k <> K_Block -> (5 + 2 * length bytes <= accesses ms)%nat ->
     exists s' r, d_sender d' = S_Idle s' (Some r)) /\
    (forall s' r, d_sender d' = S_Idle s' (Some r) ->
     send_contract k bytes (stream (d_pipe d)) r (d_pipe d')).
Proof.
  intros Hw E Hsteps Hs Hlen. destruct (duplex_start_inv config w Hw) as (d1 & E1 & Hinv & _).
  rewrite E in E1. injection E1 as <-. apply (reachable_inv _ _ Hsteps) in Hinv.
  pose proof Hinv as [Hsok _]. rewrite Hs in Hsok.
  destruct (start_send_good k s last bytes (d_pipe d) Hsok Hlen) as (Hok & Hcall & Hnb).
  pose proof (with_sender_inv d s last _ Hinv Hs Hok) as Hinv'.
  destruct (duplex_run_call ms _ k bytes (stream (d_pipe d)) Hinv' Hcall) as (d' & Er & Hc & Hl).
  exists d'. split_and!; [done| |].
  - intros Hk Hms. destruct (Hnb Hk) as [Hn Hle]. destruct (Hl Hn) as [Hn' Hl'].
    cbn [d_sender with_sender] in Hl'. eapply call_returned; [done..|lia].
  - intros s' r Hr. by rewrite Hr in Hc.
Qed.

(** C10: the writer drains the pipe.  Take any state that is reachable from the
    start of a connection and in which the sender was dropped while the writer
    had not failed: with a socket that keeps taking bytes the writer ends with
    [Ok] within [steps_left] steps, whatever the flush timer does, and the socket
    has then received everything that was ever sent. *)
Theorem writer_drains cx config (w : W) d0 p t w1 ticks :
  written w = [] -> @duplex_start Rb Ch W _ _ config w = Ret d0 ->
  rtc duplex_step d0 (mkDuplex S_Dropped p t w1) -> no_failure t ->
  @willing_sock W _ _ cx -> (steps_left t p <= length ticks)%nat ->
  exists p' w', writer_run cx ticks t p w1 = Ret (W_Done (Ok tt), p', w') /\
    written w' = stream p.
Proof.
  intros Hw E Hsteps Hnf Hwill Hle.
  destruct (duplex_start_inv config w Hw) as (d1 & E1 & Hinv & _).
  rewrite E in E1. injection E1 as <-.
  apply writer_run_ends; try done. by apply (reachable_inv _ _ Hsteps).
Qed.

(** C23: the flush timer bounds the delay of small messages.  When the writer of
    a connection with a write flush interval waits on an open ring that holds any
    bytes, however few, then with the timer ready and a socket that takes bytes it
    sends all of them within three steps more than there are bytes, and waits
    again. *)
Theorem auto_flush_sends cx (rb : Rb) (p : Pipe Rb Ch) (w : W) i tick_flush :
  @willing_sock W _ _ cx -> rings p !! i = Some rb -> ring_ok (rb_view rb) ->
  v_prod (rb_view rb) = true -> v_contents (rb_view rb) <> [] ->
  exists n p' w', (n <= 3 + length (v_contents (rb_view rb)))%nat /\
    writer_run cx (replicate n true) (WA_Select i tick_flush) p w
      = Ret (WA_Select i false, p', w') /\
    written w' = written w ++ v_contents (rb_view rb).
Proof.
  intros Hwill Hlk Hok Hp Hne.
  destruct (select_to_flush cx rb p w i tick_flush Hlk Hp Hne)
    as (k & mk & p1 & rb1 & Hk & Hmk & Hrun & Hlk1 & Hv1).
  destruct (flush_run cx i mk (length (v_contents (rb_view rb))) rb1 p1 w None)
    as (n & p' & w' & Hn & Hrun' & Hw'); try (rewrite ?Hv1; done).
  exists (k + n)%nat, p', w'. split; [lia|]. rewrite replicate_add, writer_run_app, Hrun.
  rewrite <- Hv1. by split.
Qed.
End properties.

(** ** Witnesses *)

#[export] Instance ByteWriter_shutdown : AsyncShutdown ByteWriter := fun w _ => (w, Ready (Ok tt)).

#[export] Instance ByteWriter_shutdown_spec : AsyncShutdownSpec ByteWriter.
Proof. intros w cx w' p E. by injection E as <- _. Qed.

Lemma ByteWriter_willing cx : @willing_sock ByteWriter _ _ cx.
Proof.
  split; [|by eexists]. intros w bytes Hne. eexists _, _. split; [done|].
  apply zlen_pos_iff in Hne. lia.
Qed.

(** A connection with a write flush interval, on which two bytes were sent
    before the sender was dropped. *)
Definition demo_config : ConnConfig := mkConnConfig (from_millis 1) (from_millis 1) 0.
Definition demo_waker : Waker := mkWaker 1 2.
Definition demo_started : Duplex ListRing chan_view ByteWriter :=
  mkDuplex (S_Idle (mkSender 0) None)
    (mkPipe [rb_new RING_BUFFER_SIZE] (mkChan [0%nat] true true)) WA_Recv (mkByteWriter []).

(** A run of the steps of [demo_started]: a send and the drop of the sender. *)
Definition demo_sent : Duplex ListRing chan_view ByteWriter :=
  mkDuplex (S_Idle (mkSender 0) (Some (R_Unit (Ok tt))))
    (mkPipe [mkView RING_BUFFER_SIZE [] [x01; x02] true true None []] (mkChan [0%nat] true true))
    WA_Recv (mkByteWriter []).
Definition demo_dropped : Duplex ListRing chan_view ByteWriter :=
  mkDuplex S_Dropped
    (mkPipe [mkView RING_BUFFER_SIZE [] [x01; x02] false true None []] (mkChan [0%nat] false true))
    WA_Recv (mkByteWriter []).

Lemma demo_sends : rtc duplex_step demo_started demo_sent.
Proof.
  eapply rtc_l; [by apply (step_send _ (mkSender 0) None K_Nonblock [x01; x02]); vm_compute|].
  eapply rtc_l; [apply (step_move (M_Access demo_waker)); vm_compute; reflexivity|].
  reflexivity.
Qed.

Lemma demo_reaches : rtc duplex_step demo_started demo_dropped.
Proof.
  etrans; [apply demo_sends|].
  eapply rtc_l; [by eapply step_drop|].
  eapply rtc_l; [apply (step_move (M_Access demo_waker)); vm_compute; reflexivity|].
  eapply rtc_l; [apply (step_move (M_Access demo_waker)); vm_compute; reflexivity|].
  reflexivity.
Qed.

Lemma stream_integrity_witness :
  exists d0, @duplex_start ListRing chan_view ByteWriter _ _ demo_config (mkByteWriter []) = Ret d0 /\
    (rtc duplex_step d0 demo_dropped ->
     written (d_sock demo_dropped) `prefix_of` stream (d_pipe demo_dropped) /\
     (d_task demo_dropped = W_Done (Ok tt) ->
      d_sender demo_dropped = S_Dropped /\
      written (d_sock demo_dropped) = stream (d_pipe demo_dropped))).
Proof.
  exact (stream_integrity demo_config (mkByteWriter []) demo_dropped eq_refl).
Defined.

(** A second send, with steps of the writer between its accesses. *)
Definition demo_moves : list move :=
  concat (replicate 7 [M_Writer demo_waker true; M_Access demo_waker]).

Lemma send_call_exact_witness :
  exists d', duplex_run demo_moves (with_sender demo_sent (start_send K_Nonblock (mkSender 0) [x03]))
      = Ret d' /\
    (K_Nonblock <> K_Block -> (5 + 2 * length [x03] <= accesses demo_moves)%nat ->
     exists s' r, d_sender d' = S_Idle s' (Some r)) /\
    (forall s' r, d_sender d' = S_Idle s' (Some r) ->
     send_contract K_Nonblock [x03] (stream (d_pipe demo_sent)) r (d_pipe d')).
Proof.
  apply (send_call_exact demo_config (mkByteWriter []) demo_started demo_sent (mkSender 0)
    (Some (R_Unit (Ok tt))) K_Nonblock [x03] demo_moves).
  - reflexivity.
  - reflexivity.
  - exact demo_sends.
  - reflexivity.
  - vm_compute. reflexivity.
Defined.

Lemma writer_drains_witness :
  exists p' w', writer_run demo_waker (replicate 20 true) WA_Recv (d_pipe demo_dropped)
      (mkByteWriter []) = Ret (W_Done (Ok tt), p', w') /\
    written w' = stream (d_pipe demo_dropped).
Proof.
  apply (writer_drains demo_waker demo_config (mkByteWriter []) demo_started
    (d_pipe demo_dropped) WA_Recv (mkByteWriter []) (replicate 20 true)).
  - reflexivity.
  - reflexivity.
  - exact demo_reaches.
  - exact I.
  - apply ByteWriter_willing.
  - vm_compute. lia.
Defined.

Lemma auto_flush_sends_witness :
  exists n p' w', (n <= 3 + length [x01; x02])%nat /\
    writer_run demo_waker (replicate n true) (WA_Select 0 false)
      (mkPipe [mkView 10 [] [x01; x02] true true None [] : ListRing] (mkChan [] true true : chan_view nat))
      (mkByteWriter []) = Ret (WA_Select 0 false, p', w') /\
    written w' = [] ++ [x01; x02].
Proof.
  refine (auto_flush_sends demo_waker (mkView 10 [] [x01; x02] true true None [] : ListRing)
    (mkPipe [mkView 10 [] [x01; x02] true true None [] : ListRing] (mkChan [] true true : chan_view nat))
    (mkByteWriter []) 0 false _ _ _ _ _).
  - apply ByteWriter_willing.
  - reflexivity.
  - vm_compute. congruence.
  - reflexivity.
  - done.
Defined.
