(* ===== verification/Wakeup.v ===== *)
(** * Back pressure: who wakes a sender that waits ([msg_sender.rs], [write.rs])

    [send_async] returns [Pending] when the ring is full, after it has registered
    the waker of its caller and looked at the ring once more.  This file follows
    that waker through any interleaving with the writer task: it is never lost, and
    a writer whose socket takes bytes calls it. *)

From S2P Require Import Prelude AsyncIo Config RingBuf MsgSender SenderCall Writer Duplex.

(** How far a call of [send_async] has got with its waker: nothing yet; it is
    registered; the consumer was there afterwards; and the ring was full. *)
Inductive wait_stage : Type :=
| NotYet
| Registered
| Checked
| Waiting.

(** What is known of the ring while the waker was not called. *)
Definition stage_ok (g : wait_stage) (waker : Waker) (v : ring_view) : Prop :=
  match g with
  | NotYet => True
  | Registered => v_waker v = Some waker
  | Checked => v_waker v = Some waker /\ v_cons v = true
  | Waiting => v_waker v = Some waker /\ v_cons v = true /\ zlen (v_contents v) = v_cap v
  end.

(** The task has ended or was aborted. *)
Definition stopped (t : WriterTask) : Prop :=
  match t with W_Done _ | W_Aborted => True | _ => False end.

Section defs.
Context {Rb : Type} {Ch : Type -> Type} {W : Type}.
Context `{RingBufSpec Rb} `{MpscSpec Ch} `{AsyncWriteSpec W}.
Context `{!AsyncShutdown W} `{!AsyncShutdownSpec W}.

(** The rings whose producers a sender holds. *)
Definition held (st : SenderState Rb) : list nat :=
  match st with
  | S_Idle s _ | S_Burst s _ _ _ | S_BlockPoll s _ _ | S_Check s _ _ _ | S_Register s _ _
  | S_Send s _ | S_DropRing s => [ring_buf s]
  | S_DropOld s i => [ring_buf s; i]
  | S_DropTx | S_Dropped => []
  end.

(** A new ring is not small. *)
Definition new_ring_ok (st : SenderState Rb) : Prop :=
  match st with S_Send _ new => RING_BUFFER_SIZE <= v_cap (rb_view new) | _ => True end.

(** The rings of the sender are not small, and a writer that has stopped has
    dropped their consumers and the receiving end of the channel. *)
Definition held_inv (d : Duplex Rb Ch W) : Prop :=
  (forall i rb, i ∈ held (d_sender d) -> rings (d_pipe d) !! i = Some rb ->
     RING_BUFFER_SIZE <= v_cap (rb_view rb) /\
     (stopped (d_task d) ->
      v_cons (rb_view rb) = false /\ c_rx (mpsc_view (chan (d_pipe d))) = false)) /\
  new_ring_ok (d_sender d).

(** The waker was called at least once after the first [n] calls on its ring. *)
Definition called_since (n : nat) (waker : Waker) (v : ring_view) : Prop :=
  waker ∈ drop n (v_woken v).

(** The ring of the sender: its waker was called, or it has got as far as [g]. *)
Definition waits_for (n : nat) (waker : Waker) (g : wait_stage) (s : MsgSender)
    (p : Pipe Rb Ch) : Prop :=
  exists rb, rings p !! ring_buf s = Some rb /\ (n <= length (v_woken (rb_view rb)))%nat /\
    (called_since n waker (rb_view rb) \/ stage_ok g waker (rb_view rb)).

(** A call of [send_async] with this waker, access by access. *)
Definition wake_inv (n : nat) (waker : Waker) (st : SenderState Rb) (p : Pipe Rb Ch) : Prop :=
  match st with
  | S_Check s _ wk registered =>
      wk = waker /\ waits_for n waker (if registered then Registered else NotYet) s p
  | S_Register s _ wk => wk = waker /\ waits_for n waker NotYet s p
  | S_Burst s (K_Async wk registered) _ offset =>
      wk = waker /\
      waits_for n waker (if registered && (offset =? 0) then Checked else NotYet) s p
  | S_Idle s (Some (R_Async Pending)) => waits_for n waker Waiting s p
  | S_Idle _ (Some (R_Async (Ready _))) => True
  | _ => False
  end.
End defs.

Section lemmas.
Context {Rb : Type} {Ch : Type -> Type} {W : Type}.
Context `{RingBufSpec Rb} `{MpscSpec Ch} `{AsyncWriteSpec W}.
Context `{!AsyncShutdown W} `{!AsyncShutdownSpec W}.
Implicit Types (p : Pipe Rb Ch) (st : SenderState Rb) (w : W) (d : Duplex Rb Ch W).

(** *** The rings of the sender *)

Lemma held_open st p i rb :
  sender_ok st p -> i ∈ held st -> rings p !! i = Some rb -> v_prod (rb_view rb) = true.
Proof.
  intros [Hs _] Hi Hlk. destruct st; cbn [sender_shape held] in *; try by apply not_elem_of_nil in Hi.
  all: try (destruct Hs as (pre & rb0 & Hr & Hb & _ & Hp & _); apply list_elem_of_singleton in Hi;
    rewrite Hi, Hb, Hr, lookup_last in Hlk; by injection Hlk as <-).
  destruct Hs as (pre & old & new & Hr & Hb & -> & [_ Ho] & [_ Hn] & _). rewrite Hr in Hlk.
  apply elem_of_cons in Hi as [-> | Hi%list_elem_of_singleton].
  - rewrite Hb, list_lookup_middle in Hlk by done. by injection Hlk as <-.
  - rewrite Hi in Hlk. change [old; new] with ([old] ++ [new]) in Hlk.
    rewrite app_assoc, lookup_last in Hlk. by injection Hlk as <-.
Qed.

(** A ring that is still open is not behind the writer. *)
Lemma open_not_finished p fin mid fut i rb :
  layout p fin mid fut -> rings p !! i = Some rb -> v_prod (rb_view rb) = true ->
  (length fin <= i)%nat.
Proof.
  intros (Hr & Hfin & _) Hlk Hp. rewrite Hr in Hlk.
  destruct (decide (i < length fin)%nat) as [Hlt|]; [|lia].
  rewrite lookup_app_l in Hlk by done.
  destruct (Forall_lookup_1 _ _ _ _ Hfin Hlk) as (_ & _ & Hf). congruence.
Qed.

(** *** A writer that stops drops every consumer it could still use *)

Definition closed_at (rs : list Rb) (j : nat) : Prop :=
  forall rb, rs !! j = Some rb -> v_cons (rb_view rb) = false.

Lemma drop_cons_closes i (rs : list Rb) j :
  i = j \/ closed_at rs j -> closed_at (alter rb_drop_cons i rs) j.
Proof.
  intros Hj rb Hlk. destruct (decide (i = j)) as [->|Hne].
  - rewrite list_lookup_alter_eq in Hlk. destruct (rs !! j); [|done]. injection Hlk as <-.
    by rewrite rb_drop_cons_view.
  - rewrite list_lookup_alter_ne in Hlk by done. destruct Hj; [done|auto].
Qed.

Lemma foldl_drop_cons_closes l (rs : list Rb) j :
  j ∈ l \/ closed_at rs j -> closed_at (foldl (fun rs i => alter rb_drop_cons i rs) rs l) j.
Proof.
  revert rs. induction l as [|i l IH]; intros rs Hj; cbn.
  - destruct Hj as [Hj|]; [by apply not_elem_of_nil in Hj|done].
  - apply IH. destruct Hj as [[->|Hj]%elem_of_cons|Hj]; [right|by left|right];
      apply drop_cons_closes; auto.
Qed.

(** The rings from the held one on are closed for the sender. *)
Lemma drop_receiver_closes p t fin mid fut j :
  layout p fin mid fut -> task_ok t fin mid -> (length fin <= j)%nat ->
  closed_at (rings (drop_receiver (task_ring t) p)) j /\
    c_rx (mpsc_view (chan (drop_receiver (task_ring t) p))) = false.
Proof.
  intros (Hr & _ & _ & _ & Hq & _) Ht Hj. unfold drop_receiver.
  destruct (mpsc_drop_rx (chan p)) as [c queued] eqn:E.
  apply mpsc_drop_rx_view in E as [-> Hc]. cbn [rings chan]. rewrite Hc. split; [|done].
  destruct (decide (j < length (rings p))%nat) as [Hlt|Hge].
  - apply foldl_drop_cons_closes. left. rewrite Hr, !length_app in Hlt. rewrite Hq.
    destruct t; cbn in Ht |- *; try done;
      first [ subst mid | destruct Ht as (-> & rb & ->) | destruct Ht as (-> & rb & -> & _) ];
      cbn in *; rewrite ?elem_of_cons, elem_of_seq; lia.
  - intros rb Hlk. apply lookup_lt_Some in Hlk. exfalso. apply Hge.
    assert (forall l (rs : list Rb),
      length (foldl (fun rs i => alter rb_drop_cons i rs) rs l) = length rs) as Hlen.
    { induction l as [|i l IH]; intros rs; [done|]. cbn. by rewrite IH, length_alter. }
    by rewrite Hlen in Hlk.
Qed.

(** The last step of a writer that had not stopped. *)
Lemma flush_ring_stop cx p w fin rb fut cur mk next t' p' w' :
  layout p fin [rb] fut -> left_ok cur rb ->
  (forall cur', ~ stopped (mk cur')) -> (forall p, ~ stopped (fst (next p))) ->
  flush_ring cx (length fin) cur mk next p w = Ret (t', p', w') -> stopped t' ->
  exists rb1, p' = drop_receiver (Some (length fin)) (set_ring p (length fin) rb1) /\
    layout (set_ring p (length fin) rb1) fin [rb1] fut /\ cons_only rb rb1.
Proof.
  intros Hl Hc Hmk Hnext. unfold flush_ring. rewrite (layout_lookup _ _ _ _ Hl).
  assert (ring_ok (rb_view rb)) as Hok.
  { destruct Hl as (_ & _ & Hmid & _). by rewrite Forall_singleton in Hmid. }
  destruct (flush_step cx rb w cur) as [[rb1 w1] r] eqn:E.
  pose proof (flush_step_spec cx rb w cur rb1 w1 r Hok Hc E) as (n & _ & _ & Hp & _ & Hco & _).
  destruct (layout_set_held p fin rb fut rb1 _ Hl Hco Hp) as (Hl' & _).
  specialize (Hnext (set_ring p (length fin) rb1)).
  destruct r as [cur'| |e]; [intros [= <- _ _] Hst; by apply Hmk in Hst
    |destruct (next _); intros [= <- _ _] Hst; by apply Hnext in Hst|].
  intros [= _ <- _] _. by exists rb1.
Qed.

Lemma writer_step_stop cx tick so p t w t' p' w' j rb :
  duplex_inv (mkDuplex so p t w) -> so <> S_Dropped -> ~ stopped t ->
  rings p !! j = Some rb -> v_prod (rb_view rb) = true ->
  writer_step cx tick t p w = Ret (t', p', w') -> stopped t' ->
  closed_at (rings p') j /\ c_rx (mpsc_view (chan p')) = false.
Proof.
  intros [Hs Ht] Hne Hnst Hlk Hprod E Hst. cbn in Hs, Ht.
  assert (forall fin rb0 fut, layout p fin [rb0] fut -> (length fin <= j)%nat) as Hj
    by (intros; by eapply open_not_finished).
  destruct t; cbn [writer_step writer_no_auto_flush_step writer_auto_flush_step] in E;
    try (by destruct Hnst); try by destruct Ht.
  all: try (destruct Ht as (fin & ? & fut & Hl & (-> & rb0 & -> & Hc) & Hw); try destruct Hc as [Hc ?];
    specialize (Hj _ _ _ Hl);
    eapply flush_ring_stop in E as (rb1 & -> & Hl1 & _); try done;
    exact (drop_receiver_closes _ (WN_Wait (length fin)) _ _ _ j Hl1
      (conj eq_refl (ex_intro _ rb1 eq_refl)) Hj)).
  - destruct (recv_ring cx WN_Recv WN_Wait p) as [t1 p1] eqn:E1. injection E as <- <- <-.
    unfold recv_ring in E1. destruct (mpsc_poll_recv (chan p) cx) as [c [[i|]|]]; by injection E1 as <- _.
  - destruct (rings p !! i); [|done]. destruct (rb_wait_occupied _ _ _) as [rb' []];
      [destruct (rb_cons_is_closed rb')|]; by injection E as <- _ _.
  - destruct (recv_ring cx WA_Recv _ p) as [t1 p1] eqn:E1. injection E as <- <- <-.
    unfold recv_ring in E1. destruct (mpsc_poll_recv (chan p) cx) as [c [[i|]|]]; by injection E1 as <- _.
  - destruct (rings p !! i); [|done]. cbn zeta in E. destruct (rb_wait_occupied _ _ _) as [rb' []];
      [destruct (rb_cons_is_closed rb'); [|destruct (negb _)]|destruct (_ && _)]; by injection E as <- _ _.
Qed.

Lemma writer_abort_stop so p t w t' p' j rb :
  duplex_inv (mkDuplex so p t w) -> so <> S_Dropped -> ~ stopped t ->
  rings p !! j = Some rb -> v_prod (rb_view rb) = true ->
  writer_abort t p = (t', p') -> closed_at (rings p') j /\ c_rx (mpsc_view (chan p')) = false.
Proof.
  intros [Hs Ht] Hne Hnst Hlk Hprod E. cbn in Hs, Ht.
  assert (forall fin mid fut, layout p fin mid fut -> task_ok t fin mid ->
    closed_at (rings (drop_receiver (task_ring t) p)) j /\
    c_rx (mpsc_view (chan (drop_receiver (task_ring t) p))) = false) as Hrun.
  { intros fin mid fut Hl Htk. eapply drop_receiver_closes; try done. by eapply open_not_finished. }
  destruct t; try (by destruct Hnst); try (by destruct Ht); injection E as <- <-;
    destruct Ht as (fin & mid & fut & Hl & Htk & _); by apply (Hrun fin mid fut).
Qed.
(** *** The invariant of the rings *)

Lemma after_burst_held k s bytes off bw st' :
  0 <= off <= zlen bytes -> after_burst k s bytes off bw = Ret st' ->
  held st' = [ring_buf s] /\ new_ring_ok st'.
Proof.
  intros Hoff. destruct k as [| |wk reg]; [destruct bw..|]; cbn [after_burst].
  - intros [= <-]. unfold block_loop. by destruct (off <? zlen bytes).
  - by intros [= <-].
  - rewrite slice_checked_ret by lia. cbn [obind].
    destruct (rb_push_slice _ _) as [new m] eqn:E. intros [= <-]. split; [done|].
    apply rb_push_slice_view in E as [_ Hv]; [|apply ring_ok_new; lia].
    cbn. rewrite Hv, rb_new_view. cbn. lia.
  - by intros [= <-].
  - intros [= <-]. destruct (0 <? off); [done|]. by destruct reg.
Qed.

(** An access to the ring of the sender does not change its capacity nor its
    consumer. *)
Lemma ring_access_held cx st p st' p' s :
  sender_ok st p -> sender_access cx st p = Ret (st', p') ->
  match st with
  | S_Burst s0 _ _ _ | S_BlockPoll s0 _ _ | S_Check s0 _ _ _ | S_Register s0 _ _ => s0 = s
  | _ => False
  end ->
  exists rb rb1, rings p !! ring_buf s = Some rb /\ p' = set_ring p (ring_buf s) rb1 /\
    held st' = [ring_buf s] /\
    v_cap (rb_view rb1) = v_cap (rb_view rb) /\ v_cons (rb_view rb1) = v_cons (rb_view rb) /\
    new_ring_ok st'.
Proof.
  intros Hok E Hst. pose proof Hok as [Hs Hcall].
  destruct st as [|s0 k bytes off|s0 bytes off|s0 bytes waker reg|s0 bytes waker| | | | |];
    try done; subst s0; cbn [sender_shape] in Hs; destruct Hs as (pre & rb & Hp);
    fold (sender_parts s p pre rb) in Hp; pose proof Hp as (_ & _ & Hrok & _);
    pose proof (sender_lookup _ _ _ _ Hp) as Hlk;
    cbn [sender_access] in E; unfold ring_access in E; rewrite Hlk in E; exists rb.
  - destruct Hcall as [Hoff Hlen]. rewrite slice_checked_ret in E by lia. cbn [obind] in E.
    destruct (rb_push_slice rb _) as [rb1 n] eqn:E1.
    pose proof (push_slice_spec _ _ _ _ Hrok E1) as (Hn & _). rewrite zlen_slice in Hn by lia.
    apply rb_push_slice_view in E1 as [_ Hv]; [|done]. exists rb1. rewrite Hv.
    rewrite usize_add_small in E by (unfold isize_bound, usize_bound in *; lia).
    destruct (n =? 0); [|destruct (off + n =? zlen bytes)].
    1, 2: destruct (after_burst _ _ _ _ _) as [st1| |] eqn:E2; try done; injection E as <- <-;
      by apply after_burst_held in E2 as [? ?]; [|lia].
    by injection E as <- <-.
  - destruct Hcall as [Hoff Hlen]. rewrite slice_checked_ret in E by lia. cbn [obind] in E.
    destruct (rb_poll_write rb cx _) as [rb1 pr] eqn:E1.
    apply rb_poll_write_view in E1 as (n & wk & _ & _ & Hv & _); [|done]. exists rb1. rewrite Hv.
    destruct pr as [[m|e]|]; injection E as <- <-; try done.
    unfold block_loop. by destruct (_ <? _).
  - exists rb. destruct (rb_prod_is_closed rb); injection E as <- <-; done.
  - injection E as <- <-. exists (rb_register_waker rb waker). by rewrite rb_register_waker_view.
Qed.
Lemma access_held cx st p st' p' t w :
  sender_ok st p -> sender_access cx st p = Ret (st', p') ->
  held_inv (mkDuplex st p t w) -> held_inv (mkDuplex st' p' t w).
Proof.
  intros Hok E [Hh Hnew]. cbn in Hh, Hnew.
  assert (forall s, match st with
    | S_Burst s0 _ _ _ | S_BlockPoll s0 _ _ | S_Check s0 _ _ _ | S_Register s0 _ _ => s0 = s
    | _ => False end -> held_inv (mkDuplex st' p' t w)) as Hring.
  { intros s Hs. destruct (ring_access_held _ _ _ _ _ s Hok E Hs)
      as (rb & rb1 & Hlk & -> & Hh' & Hcap & Hcons & Hn).
    assert (held st = [ring_buf s]) as Hst by (clear E; destruct st; try done; by subst).
    split; [|done]. cbn. rewrite Hh'. intros i rb' ->%list_elem_of_singleton Hi.
    rewrite list_lookup_insert_eq in Hi by (by eapply lookup_lt_Some). injection Hi as <-.
    rewrite Hcap, Hcons. apply (Hh (ring_buf s)); [rewrite Hst; by apply list_elem_of_singleton|done]. }
  destruct st as [s last|s k bytes off|s bytes off|s bytes waker reg|s bytes waker|s new|s i|s| |];
    try by apply (Hring s).
  - injection E as <- <-. by split.
  - cbn [sender_access] in E. destruct (mpsc_send _ _) as [c r] eqn:Es. apply mpsc_send_view in Es.
    destruct Hok as [(pre & rb0 & Hp) _]. apply sender_lookup in Hp as Hlk0.
    destruct (c_rx (mpsc_view (chan p))) eqn:Erx; destruct Es as [-> Hc]; injection E as <- <-.
    + split; [|done]. cbn. intros i rb Hi Hlk.
      destruct (Hh (ring_buf s) rb0) as [Hcap Hst]; [by left|done|].
      assert (~ stopped t) as Hns by (intros Hx; by destruct (Hst Hx)). split; [|done].
      destruct (decide (i < length (rings p))%nat) as [Hlt|Hge].
      * rewrite lookup_app_l in Hlk by done. eapply Hh; [|done].
        apply elem_of_cons in Hi as [->|Hi%list_elem_of_singleton]; [by left|lia].
      * rewrite lookup_app_r in Hlk by lia. by apply list_lookup_singleton_Some in Hlk as [_ <-].
    + split; [|done]. cbn. intros i rb Hi Hlk. rewrite Hc, Erx. by apply (Hh i rb).
  - cbn [sender_access] in E. unfold ring_access in E.
    destruct (rings p !! ring_buf s) as [rb0|] eqn:Hlk0; [|done]. injection E as <- <-.
    split; [|done]. cbn. intros j rb ->%list_elem_of_singleton Hlk.
    destruct (decide (ring_buf s = i)) as [<-|Hne].
    + rewrite list_lookup_insert_eq in Hlk by (by eapply lookup_lt_Some). injection Hlk as <-.
      rewrite rb_drop_prod_view. apply (Hh (ring_buf s)); [by left|done].
    + rewrite list_lookup_insert_ne in Hlk by done. apply (Hh i); [right; by left|done].
  - cbn [sender_access] in E. unfold ring_access in E.
    destruct (rings p !! ring_buf s) as [rb0|] eqn:Hlk0; [|done]. injection E as <- <-.
    split; [|done]. by intros j rb ?%not_elem_of_nil.
  - injection E as <- <-. split; [|done]. by intros j rb ?%not_elem_of_nil.
  - injection E as <- <-. by split.
Qed.

(** What the writer does to a ring the sender holds. *)
Lemma consumer_held st p t w p' t' w' :
  Forall2 cons_only (rings p) (rings p') -> (stopped t -> t' = t /\ p' = p) ->
  (forall i rb, ~ stopped t -> stopped t' -> i ∈ held st -> rings p !! i = Some rb ->
     closed_at (rings p') i /\ c_rx (mpsc_view (chan p')) = false) ->
  held_inv (mkDuplex st p t w) -> held_inv (mkDuplex st p' t' w').
Proof.
  intros Hf2 Hsame Hstop [Hh Hnew]. cbn in Hh, Hnew.
  assert (stopped t \/ ~ stopped t) as [Hst|Hst] by (destruct t; cbn; auto).
  { destruct (Hsame Hst) as [-> ->]. by split. }
  split; [|done]. cbn. intros i rb' Hi Hlk'.
  destruct (Forall2_lookup_r _ _ _ _ _ Hf2 Hlk') as (rb & Hlk & _ & _ & _ & Hcap & _).
  rewrite Hcap. split; [by eapply Hh|]. intros Hst'.
  destruct (Hstop i rb Hst Hst' Hi Hlk) as [Hcl Hrx]. split; [by apply Hcl|done].
Qed.

Lemma duplex_move_held m d d' :
  duplex_inv d -> duplex_move m d = Ret d' -> held_inv d -> held_inv d'.
Proof.
  destruct d as [so p t w]. intros Hinv E Hh. pose proof Hinv as [Hs _].
  cbn [d_sender d_pipe] in Hs.
  assert (forall i, i ∈ held so -> so <> S_Dropped) as Hne
    by (intros i Hi ->; by apply not_elem_of_nil in Hi).
  destruct m as [cx|cx tick|]; cbn [duplex_move d_sender d_pipe d_task d_sock] in E.
  - destruct (sender_access cx so p) as [[st' p']| |] eqn:E1; try done. injection E as <-.
    by eapply access_held.
  - destruct (writer_step cx tick t p w) as [[[t' p'] w']| |] eqn:E1; try done. injection E as <-.
    pose proof (writer_step_cons_only _ _ _ _ _ _ _ _ _ Hinv E1) as Hf2.
    apply (consumer_held so p t w); try done.
    + intros Hst. destruct t; try done; by injection E1 as <- <- _.
    + intros i rb Hns Hst Hi Hlk. eapply writer_step_stop; eauto using held_open.
  - destruct (writer_abort t p) as [t' p'] eqn:E1. injection E as <-.
    apply (consumer_held so p t w); try done; [by eapply writer_abort_cons_only| |].
    + intros Hst. destruct t; try done; by injection E1 as <- <-.
    + intros i rb Hns Hst Hi Hlk. eapply writer_abort_stop; eauto using held_open.
Qed.

(** A new call of an idle sender. *)
Lemma with_sender_held d s last st :
  d_sender d = S_Idle s last -> held st = [ring_buf s] -> new_ring_ok st ->
  held_inv d -> held_inv (with_sender d st).
Proof.
  destruct d as [so p t w]. cbn. intros -> Hst Hn [Hh _]. split; [|done]. cbn in *. by rewrite Hst.
Qed.

Lemma start_send_held k s bytes :
  held (start_send k s bytes : SenderState Rb) = [ring_buf s] /\
  new_ring_ok (start_send k s bytes : SenderState Rb).
Proof. destruct k; cbn; by destruct (zlen bytes =? 0). Qed.

Lemma duplex_step_held d d' : duplex_step d d' -> duplex_inv d -> held_inv d -> held_inv d'.
Proof.
  intros Hstep Hinv Hh.
  destruct Hstep as [m d d' E|d s last k bytes E Hlen|d s last E|d s last E].
  - by eapply duplex_move_held.
  - destruct (start_send_held k s bytes). by eapply with_sender_held.
  - eapply with_sender_held; try done. cbn. rewrite rb_new_view. done.
  - by eapply with_sender_held.
Qed.

Lemma reachable_held d d' :
  rtc duplex_step d d' -> duplex_inv d -> held_inv d -> held_inv d'.
Proof.
  induction 1 as [d|d1 d2 d3 Hstep _ IH]; [done|]. intros Hinv Hh.
  apply IH; [by eapply duplex_step_inv|by eapply duplex_step_held].
Qed.

Lemma duplex_start_held config w d :
  @duplex_start Rb Ch W _ _ config w = Ret d -> held_inv d.
Proof.
  unfold duplex_start, make_sender. destruct (mpsc_send mpsc_new 0%nat) as [c [[]|]]; [|done].
  intros [= <-]. split; [|done]. cbn. intros i rb ->%list_elem_of_singleton [= <-].
  rewrite rb_new_view. split; [done|]. unfold handle_writer. by destruct (is_zero _).
Qed.

(** *** The waker *)

Lemma called_since_app n waker v v' l :
  v_woken v' = v_woken v ++ l -> called_since n waker v -> called_since n waker v'.
Proof.
  unfold called_since. intros -> Hin. rewrite skipn_app. apply elem_of_app. by left.
Qed.

Lemma called_since_last n waker v v' :
  (n <= length (v_woken v))%nat -> v_woken v' = v_called v -> v_waker v = Some waker ->
  called_since n waker v'.
Proof.
  unfold called_since, v_called. intros Hn -> ->. rewrite skipn_app.
  replace (n - length (v_woken v))%nat with 0%nat by lia. apply elem_of_app. right. by left.
Qed.

(** The consumer loses no waker: it calls it, or leaves the ring as it is. *)
Lemma waits_for_cons n waker g s p p' :
  Forall2 cons_only (rings p) (rings p') -> waits_for n waker g s p -> waits_for n waker g s p'.
Proof.
  intros Hf2 (rb & Hlk & Hn & Hg).
  destruct (Forall2_lookup_l _ _ _ _ _ Hf2 Hlk) as (rb' & Hlk' & _ & _ & _ & Hcap & Hw).
  exists rb'. split; [done|].
  destruct Hw as [[Hw Hwn]|(Hw & Hwn & Hc & Hcons)].
  - unfold v_called in Hwn. split; [rewrite Hwn, length_app; lia|].
    destruct Hg as [Hg|Hg]; [left; by eapply called_since_app|].
    destruct g; [by right|..]; left; (eapply called_since_last; [done|exact Hwn|]);
      by first [apply Hg | destruct Hg].
  - unfold called_since in *. rewrite Hwn. split; [done|]. destruct Hg as [Hg|Hg]; [by left|right].
    destruct g; cbn in *; rewrite ?Hw, ?Hc, ?Hcons, ?Hcap; done.
Qed.

(** An access to the ring that leaves the called wakers alone. *)
Lemma waits_for_set n waker g g' s p rb rb1 :
  rings p !! ring_buf s = Some rb -> waits_for n waker g s p ->
  v_woken (rb_view rb1) = v_woken (rb_view rb) ->
  (stage_ok g waker (rb_view rb) -> stage_ok g' waker (rb_view rb1)) ->
  waits_for n waker g' s (set_ring p (ring_buf s) rb1).
Proof.
  intros Hlk (rb0 & Hlk0 & Hn & Hg) Hw Hst. rewrite Hlk in Hlk0. injection Hlk0 as <-.
  exists rb1. split; [by eapply set_ring_lookup|]. unfold called_since in *. rewrite Hw.
  split; [done|]. destruct Hg; auto.
Qed.

(** Every access of the call keeps track of the waker. *)
Lemma access_wake n waker cx st p st' p' :
  sender_ok st p -> sender_access cx st p = Ret (st', p') ->
  wake_inv n waker st p -> wake_inv n waker st' p'.
Proof.
  intros [Hs Hcall] E Hw.
  destruct st as [s last|s k bytes off|s bytes off|s bytes wk reg|s bytes wk|s new|s i|s| |]; try done.
  - by injection E as <- <-.
  - destruct k as [| |wk reg]; try done. destruct Hw as [-> Hw]. destruct Hcall as [Hoff Hlen].
    destruct Hs as (pre & rb & Hp). fold (sender_parts s p pre rb) in Hp.
    pose proof Hp as (_ & _ & Hok & _). apply sender_lookup in Hp as Hlk.
    cbn [sender_access] in E. unfold ring_access in E.
    rewrite Hlk, slice_checked_ret in E by lia. cbn [obind] in E.
    destruct (rb_push_slice rb _) as [rb1 m] eqn:E1.
    pose proof (push_slice_spec _ _ _ _ Hok E1) as (Hm & _ & _ & _ & _ & _ & Hfull).
    rewrite zlen_slice in Hm, Hfull by lia.
    apply rb_push_slice_view in E1 as [_ Hv]; [|done].
    rewrite usize_add_small in E by (unfold isize_bound, usize_bound in *; lia).
    destruct (Z.eqb_spec m 0) as [Hm0|Hm0].
    + cbn in E. injection E as <- <-. destruct (Z.ltb_spec 0 off) as [|Hz]; [done|].
      assert (off = 0) as -> by lia. rewrite Z.eqb_refl, andb_true_r in Hw. destruct reg.
      * apply (waits_for_set n waker Checked _ s p rb rb1); try done; [by rewrite Hv|].
        intros [Hwk Hc]. cbn. rewrite Hfull by lia. by rewrite Hv.
      * split; [done|]. apply (waits_for_set n waker NotYet _ s p rb rb1); try done. by rewrite Hv.
    + assert (waits_for n waker NotYet s (set_ring p (ring_buf s) rb1)) as Hw1
        by (eapply waits_for_set; [done|exact Hw|by rewrite Hv|done]).
      destruct (off + m =? zlen bytes).
      * cbn in E. injection E as <- <-. by rewrite (proj2 (Z.ltb_lt 0 (off + m))) by lia.
      * injection E as <- <-. split; [done|]. rewrite (proj2 (Z.eqb_neq (off + m) 0)) by lia.
        by rewrite andb_false_r.
  - destruct Hw as [-> Hw]. cbn [sender_access] in E. unfold ring_access in E.
    destruct (rings p !! ring_buf s) as [rb|] eqn:Hlk; [|done].
    destruct (rb_prod_is_closed rb) eqn:Ec; injection E as <- <-; [done|]. split; [done|].
    rewrite Z.eqb_refl, andb_true_r. rewrite rb_prod_is_closed_view in Ec.
    apply negb_false_iff in Ec. destruct reg; by eapply waits_for_set.
  - destruct Hw as [-> Hw]. cbn [sender_access] in E. unfold ring_access in E.
    destruct (rings p !! ring_buf s) as [rb|] eqn:Hlk; [|done]. injection E as <- <-.
    split; [done|]. eapply waits_for_set; [done|exact Hw|by rewrite rb_register_waker_view|].
    intros _. cbn. by rewrite rb_register_waker_view.
Qed.

(** And so does every step of the writer. *)
Lemma wake_inv_cons n waker st p p' :
  Forall2 cons_only (rings p) (rings p') -> wake_inv n waker st p -> wake_inv n waker st p'.
Proof.
  intros Hf2. destruct st as [s [[|[]]|]|s [] bytes off| | | | | | | |]; cbn; try done;
    try (intros [? Hw]; split; [done|]; revert Hw); by apply waits_for_cons.
Qed.

Lemma duplex_move_wake n waker m d d' :
  duplex_inv d -> duplex_move m d = Ret d' ->
  wake_inv n waker (d_sender d) (d_pipe d) -> wake_inv n waker (d_sender d') (d_pipe d').
Proof.
  destruct d as [so p t w]. intros Hinv E Hw. pose proof Hinv as [Hs _].
  destruct m as [cx|cx tick|]; cbn [duplex_move d_sender d_pipe d_task d_sock] in *.
  - destruct (sender_access cx so p) as [[st' p']| |] eqn:E1; try done. injection E as <-.
    by eapply access_wake.
  - destruct (writer_step cx tick t p w) as [[[t' p'] w']| |] eqn:E1; try done. injection E as <-.
    eapply wake_inv_cons, Hw. by eapply writer_step_cons_only.
  - destruct (writer_abort t p) as [t' p'] eqn:E1. injection E as <-.
    eapply wake_inv_cons, Hw. by eapply writer_abort_cons_only.
Qed.

Lemma duplex_run_wake n waker ms d d' :
  duplex_inv d -> held_inv d -> wake_inv n waker (d_sender d) (d_pipe d) ->
  duplex_run ms d = Ret d' ->
  duplex_inv d' /\ held_inv d' /\ wake_inv n waker (d_sender d') (d_pipe d').
Proof.
  revert d. induction ms as [|m ms IH]; intros d Hinv Hh Hw E; [by injection E as <-|].
  cbn in E. destruct (duplex_move m d) as [d1| |] eqn:E1; try done.
  destruct (duplex_move_inv m d Hinv) as (d2 & E2 & Hinv'). rewrite E1 in E2. injection E2 as <-.
  apply (IH d1); [done|by apply (duplex_move_held m d)|by apply (duplex_move_wake _ _ m d)|done].
Qed.

Lemma start_send_wake waker s last bytes p rb :
  sender_ok (S_Idle s last) p -> rings p !! ring_buf s = Some rb ->
  wake_inv (length (v_woken (rb_view rb))) waker
    (start_send (K_Async waker false) s bytes : SenderState Rb) p.
Proof.
  intros _ Hlk. cbn. destruct (zlen bytes =? 0); [done|]. split; [done|]. exists rb.
  split_and!; try done. by right.
Qed.

(** *** A writer with a willing socket calls the waker *)

(** The steps until the waker of the sender [s] is called at the latest: until the
    writer holds its ring, and then at most two. *)
Definition wake_left (s : MsgSender) (t : WriterTask) p : nat :=
  if decide (task_ring t = Some (ring_buf s))
  then match t with WN_Wait _ | WA_Select _ _ => 2 | _ => 1 end
  else steps_left t p.

Lemma wake_left_le s t p : (wake_left s t p <= steps_left t p)%nat.
Proof.
  unfold wake_left, steps_left. destruct (decide _) as [E|]; [|done].
  destruct t; try done; cbn [weight]; lia.
Qed.

Lemma wake_left_pos s t p : ~ stopped t -> (0 < wake_left s t p)%nat.
Proof.
  intros Hns. unfold wake_left, steps_left. destruct (decide _) as [E|].
  - destruct t; lia.
  - destruct t; try (by destruct Hns); cbn [weight]; lia.
Qed.

(** The writer that holds the full ring of a sender. *)
Lemma held_full_step cx tick s last p t w t' p' w' rb :
  @willing_sock W _ _ cx -> duplex_inv (mkDuplex (S_Idle s last) p t w) ->
  rings p !! ring_buf s = Some rb -> v_prod (rb_view rb) = true ->
  RING_BUFFER_SIZE <= v_cap (rb_view rb) -> zlen (v_contents (rb_view rb)) = v_cap (rb_view rb) ->
  task_ring t = Some (ring_buf s) -> writer_step cx tick t p w = Ret (t', p', w') ->
  (wake_left s t' p' < wake_left s t p)%nat \/
  exists rb', rings p' !! ring_buf s = Some rb' /\
    (length (v_contents (rb_view rb')) < length (v_contents (rb_view rb)))%nat.
Proof.
  intros Hwill [_ Ht] Hlk Hprod Hcap Hfull Htr E. cbn in Ht.
  assert (v_contents (rb_view rb) <> []) as Hne.
  { intros Hnil. rewrite Hnil, zlen_nil in Hfull. unfold RING_BUFFER_SIZE in Hcap. lia. }
  assert (forall cx n rb' ready, n <= RING_BUFFER_SIZE -> rb_wait_occupied rb cx n = (rb', ready) ->
    rb_view rb' = rb_view rb /\ ready = Ready tt /\ rb_cons_is_closed rb' = false) as Hwait.
  { intros cx0 n rb' ready Hn Ew. apply rb_wait_occupied_view in Ew as [Hv Hr].
    rewrite rb_cons_is_closed_view, Hv, Hprod. split_and!; try done. apply Hr. left. lia. }
  assert (forall cur fin rb0 fut mk next, layout p fin [rb0] fut -> left_ok cur rb0 ->
    ring_buf s = length fin -> flush_ring cx (ring_buf s) cur mk next p w = Ret (t', p', w') ->
    exists rb', rings p' !! ring_buf s = Some rb' /\
      (length (v_contents (rb_view rb')) < length (v_contents (rb_view rb)))%nat) as Hflush.
  { intros cur fin rb0 fut mk next Hl Hc Hi Ef. unfold flush_ring in Ef. rewrite Hlk in Ef.
    rewrite Hi, (layout_lookup _ _ _ _ Hl) in Hlk. injection Hlk as ->.
    destruct (flush_step cx rb w cur) as [[rb1 w1] r] eqn:E1.
    apply flush_step_willing in E1 as [(_ & _ & Hnil)|(-> & Hlt)]; try done.
    - injection Ef as _ <- _. exists rb1. split; [|done]. rewrite Hi.
      apply (set_ring_lookup _ _ rb). by apply layout_lookup in Hl.
    - destruct Hl as (_ & _ & Hmid & _). by rewrite Forall_singleton in Hmid. }
  unfold wake_left. rewrite (decide_True _ _ Htr).
  destruct t; cbn in Htr; try done; injection Htr as ->;
    cbn [writer_step writer_no_auto_flush_step writer_auto_flush_step] in E.
  all: try (right; destruct Ht as (fin & ? & fut & Hl & (Hi & rb0 & -> & Hc) & _);
    try destruct Hc as [Hc _]; by eapply Hflush).
  - left. rewrite Hlk in E. destruct (rb_wait_occupied rb cx _) as [rb' ready] eqn:Ew.
    apply Hwait in Ew as (_ & -> & Hcl); [|done]. rewrite Hcl in E. injection E as <- _ _. cbn.
    rewrite decide_True by done. lia.
  - left. rewrite Hlk in E. cbn zeta in E.
    destruct (rb_wait_occupied rb cx _) as [rb' ready] eqn:Ew.
    apply Hwait in Ew as (Hv & -> & Hcl); [|by destruct tick_flush]. rewrite Hcl in E.
    rewrite rb_occupied_len_view, Hv, Hfull, (proj2 (Z.ltb_ge _ _)) in E
      by (unfold RING_BUFFER_SIZE, MIN_MSG_BUFFER_SIZE in *; lia).
    injection E as <- _ _. cbn. rewrite decide_True by done. lia.
Qed.

(** A writer that does not hold the ring of the sender yet. *)
Lemma not_held_step cx tick s last p t w t' p' w' :
  @willing_sock W _ _ cx -> duplex_inv (mkDuplex (S_Idle s last) p t w) -> ~ stopped t ->
  task_ring t <> Some (ring_buf s) -> writer_step cx tick t p w = Ret (t', p', w') ->
  (wake_left s t' p' < wake_left s t p)%nat.
Proof.
  intros Hwill Hinv Hns Htr E. eapply Nat.le_lt_trans; [apply wake_left_le|].
  unfold wake_left. rewrite (decide_False _ _ Htr).
  pose proof Hinv as [[(pre & rb & Hr & Hi & Hok & Hprod & Hpre & Htx) _] Ht]. cbn in Hr, Ht.
  destruct (writer_step_progress cx tick (S_Idle s last) p t w t' p' w') as [[Hlt| ->] _];
    try done.
  - destruct t; cbn in *; try done; by destruct Hns.
  - intros i rb0 Hti Hlk. rewrite Hr in Hlk. apply lookup_app_Some in Hlk as [Hlk|[Hge Hlk]].
    + by destruct (Forall_lookup_1 _ _ _ _ Hpre Hlk).
    + apply list_lookup_singleton_Some in Hlk as [Hz _]. exfalso. apply Htr.
      rewrite Hti, Hi. f_equal. lia.
  - intros Hnone Hq. exfalso.
    assert (exists fin mid fut, layout p fin mid fut /\ task_ok t fin mid) as (fin & mid & fut & Hl & Hk).
    { destruct t; try (by destruct Hns); try (by destruct Ht);
        destruct Ht as (fin & mid & fut & Hl & Hk & _); by exists fin, mid, fut. }
    assert (mid = []) as -> by (destruct t; cbn in *; done).
    pose proof (open_not_finished p fin [] fut (length pre) rb Hl) as Hle.
    destruct Hl as (Hr' & _ & _ & _ & Hqq & _). rewrite Hq in Hqq.
    destruct fut as [|r fut]; [|done]. cbn in Hr'. rewrite app_nil_r in Hr'.
    specialize (Hle ltac:(rewrite Hr; apply lookup_last) Hprod).
    rewrite <- Hr', Hr, length_app in Hle. cbn in Hle. lia.
Qed.

(** One step of the writer while the waker waits. *)
Lemma waiting_step cx tick n waker s last p t w t' p' w' rb rb' :
  @willing_sock W _ _ cx -> duplex_inv (mkDuplex (S_Idle s last) p t w) ->
  held_inv (mkDuplex (S_Idle s last) p t w) -> ~ stopped t ->
  writer_step cx tick t p w = Ret (t', p', w') ->
  rings p !! ring_buf s = Some rb -> (n <= length (v_woken (rb_view rb)))%nat ->
  stage_ok Waiting waker (rb_view rb) -> rings p' !! ring_buf s = Some rb' ->
  called_since n waker (rb_view rb') \/ (wake_left s t' p' < wake_left s t p)%nat.
Proof.
  intros Hwill Hinv Hh Hns E Hlk Hn (Hwk & Hc & Hfull) Hlk'.
  pose proof (writer_step_cons_only _ _ _ _ _ _ _ _ _ Hinv E) as Hf2.
  destruct (Forall2_lookup_l _ _ _ _ _ Hf2 Hlk) as (rb2 & Hlk2 & _ & _ & _ & _ & Hw).
  rewrite Hlk' in Hlk2. injection Hlk2 as <-.
  destruct Hw as [[_ Hw]|(_ & _ & Hcon & _)]; [left; by eapply called_since_last|right].
  destruct (decide (task_ring t = Some (ring_buf s))) as [Htr|Htr]; [|by eapply not_held_step].
  destruct Hh as [Hh _]. destruct (Hh (ring_buf s) rb) as [Hcap _]; [by left|done|].
  assert (v_prod (rb_view rb) = true) as Hprod
    by (eapply held_open; [apply Hinv|by left|done]).
  destruct (held_full_step cx tick s last p t w t' p' w' rb) as [?|(rb2 & Hlk2 & Hlt)]; try done.
  rewrite Hlk' in Hlk2. injection Hlk2 as <-. rewrite Hcon in Hlt. lia.
Qed.

Lemma writer_run_wakes cx n waker s last ticks p t w :
  @willing_sock W _ _ cx -> duplex_inv (mkDuplex (S_Idle s last) p t w) ->
  held_inv (mkDuplex (S_Idle s last) p t w) ->
  (exists rb, rings p !! ring_buf s = Some rb /\ (n <= length (v_woken (rb_view rb)))%nat /\
     (called_since n waker (rb_view rb) \/
      stage_ok Waiting waker (rb_view rb) /\ (wake_left s t p <= length ticks)%nat)) ->
  exists t' p' w' rb', writer_run cx ticks t p w = Ret (t', p', w') /\
    rings p' !! ring_buf s = Some rb' /\ called_since n waker (rb_view rb').
Proof.
  intros Hwill. revert t p w. induction ticks as [|tick ticks IH];
    intros t p w Hinv Hh (rb & Hlk & Hn & Hg);
    assert (v_cons (rb_view rb) = true -> ~ stopped t) as Hns
      by (intros Hc Hst; destruct Hh as [Hh _]; cbn in Hh;
          destruct (Hh (ring_buf s) rb) as [_ Hx]; [by left|done|]; destruct (Hx Hst); congruence).
  - cbn. eexists _, _, _, rb. split; [done|]. split; [done|].
    destruct Hg as [Hg|[(_ & Hc & _) Hle]]; [done|]. pose proof (wake_left_pos s t p (Hns Hc)). cbn in Hle. lia.
  - destruct (writer_step_inv cx tick _ p t w Hinv) as (t' & p' & w' & E & Hinv').
    pose proof (writer_step_cons_only _ _ _ _ _ _ _ _ _ Hinv E) as Hf2.
    cbn [writer_run]. rewrite E. cbn [obind]. apply IH; [done| |].
    { apply (duplex_move_held (M_Writer cx tick) (mkDuplex (S_Idle s last) p t w)); try done.
      cbn. by rewrite E. }
    destruct Hg as [Hg|[Hg Hle]].
    + destruct (waits_for_cons n waker NotYet s p p' Hf2) as (rb' & Hlk' & Hn' & _);
        [exists rb; split_and!; auto|].
      exists rb'. split_and!; try done. left.
      destruct (Forall2_lookup_l _ _ _ _ _ Hf2 Hlk) as (rb2 & Hlk2 & _ & _ & _ & _ & Hw).
      rewrite Hlk' in Hlk2. injection Hlk2 as <-.
      destruct Hw as [[_ Hw]|(_ & Hw & _)]; [by eapply called_since_app|].
      unfold called_since in *. by rewrite Hw.
    + destruct (waits_for_cons n waker Waiting s p p' Hf2) as (rb' & Hlk' & Hn' & Hg');
        [exists rb; split_and!; auto|].
      exists rb'. split_and!; try done. destruct Hg' as [Hg'|Hg']; [by left|].
      destruct (waiting_step cx tick n waker s last p t w t' p' w' rb rb') as [?|Hlt];
        try done; [by apply Hns, Hg|by left|].
      right. split; [done|]. cbn in Hle. lia.
Qed.

(** The state after a call of [send_async] on a reachable connection. *)
Lemma pending_state config (w : W) d0 d s last waker bytes rb0 ms d' s' :
  written w = [] -> @duplex_start Rb Ch W _ _ config w = Ret d0 -> rtc duplex_step d0 d ->
  d_sender d = S_Idle s last -> zlen bytes < isize_bound ->
  rings (d_pipe d) !! ring_buf s = Some rb0 ->
  duplex_run ms (with_sender d (start_send (K_Async waker false) s bytes)) = Ret d' ->
  d_sender d' = S_Idle s' (Some (R_Async Pending)) ->
  duplex_inv d' /\ held_inv d' /\
  waits_for (length (v_woken (rb_view rb0))) waker Waiting s' (d_pipe d').
Proof.
  intros Hw E Hsteps Hs Hlen Hlk Er Hp.
  destruct (duplex_start_inv config w Hw) as (d1 & E1 & Hinv & _).
  rewrite E in E1. injection E1 as <-. apply duplex_start_held in E as Hh.
  pose proof (reachable_held _ _ Hsteps Hinv Hh) as Hh1. apply (reachable_inv _ _ Hsteps) in Hinv.
  pose proof Hinv as [Hsok _]. rewrite Hs in Hsok.
  destruct (start_send_good (K_Async waker false) s last bytes (d_pipe d) Hsok Hlen) as (Hok & _).
  destruct (start_send_held (K_Async waker false) s bytes) as [Hhe Hnr].
  eapply duplex_run_wake in Er as (Hinv' & Hh' & Hwake).
  - rewrite Hp in Hwake. by split_and!.
  - by eapply with_sender_inv.
  - by eapply with_sender_held.
  - by eapply start_send_wake.
Qed.
End lemmas.

(** ** Properties *)

Section properties.
Context {Rb : Type} {Ch : Type -> Type} {W : Type}.
Context `{RingBufSpec Rb} `{MpscSpec Ch} `{AsyncWriteSpec W}.
Context `{!AsyncShutdown W} `{!AsyncShutdownSpec W}.

(** C4: no wake-up is lost.  In any reachable state of a connection let the sender
    call [send_async] with a waker, interleave its accesses in any way with the
    steps and the abortion of the writer, and let the call return [Pending]: from
    then on until the next call of the sender, whatever the writer does, the waker
    was called during or after the call, or it is still registered, and then the
    ring is full, its consumer is there and the writer task has not ended, so that
    there is nothing to wake up for. *)
Theorem no_lost_wakeup config (w : W) d0 d s last waker bytes rb0 ms d' s' :
  written w = [] -> @duplex_start Rb Ch W _ _ config w = Ret d0 -> rtc duplex_step d0 d ->
  d_sender d = S_Idle s last -> zlen bytes < isize_bound ->
  rings (d_pipe d) !! ring_buf s = Some rb0 ->
  duplex_run ms (with_sender d (start_send (K_Async waker false) s bytes)) = Ret d' ->
  d_sender d' = S_Idle s' (Some (R_Async Pending)) ->
  exists rb, rings (d_pipe d') !! ring_buf s' = Some rb /\
    (called_since (length (v_woken (rb_view rb0))) waker (rb_view rb) \/
     v_waker (rb_view rb) = Some waker /\ zlen (v_contents (rb_view rb)) = v_cap (rb_view rb) /\
     v_cons (rb_view rb) = true /\ ~ stopped (d_task d')).
Proof.
  intros Hw E Hsteps Hs Hlen Hlk Er Hp.
  destruct (pending_state config w d0 d s last waker bytes rb0 ms d' s')
    as (_ & [Hh _] & rb & Hlk' & _ & Hg); try done.
  exists rb. split; [done|]. destruct Hg as [Hg|(Hwk & Hc & Hf)]; [by left|right].
  split_and!; try done. intros Hst. rewrite Hp in Hh.
  destruct (Hh (ring_buf s') rb) as [_ Hx]; [by left|done|]. destruct (Hx Hst). congruence.
Qed.

(** C11: back pressure ends.  After a call of [send_async] has returned [Pending],
    with any interleaving up to here, a writer whose socket takes bytes calls the
    waker within [steps_left] steps, whatever its flush timer does: a full ring is
    flushed without waiting for the timer. *)
Theorem pending_send_is_woken cx config (w : W) d0 d s last waker bytes rb0 ms d' s' ticks :
  written w = [] -> @duplex_start Rb Ch W _ _ config w = Ret d0 -> rtc duplex_step d0 d ->
  d_sender d = S_Idle s last -> zlen bytes < isize_bound ->
  rings (d_pipe d) !! ring_buf s = Some rb0 ->
  duplex_run ms (with_sender d (start_send (K_Async waker false) s bytes)) = Ret d' ->
  d_sender d' = S_Idle s' (Some (R_Async Pending)) ->
  @willing_sock W _ _ cx -> (steps_left (d_task d') (d_pipe d') <= length ticks)%nat ->
  exists t p w1 rb, writer_run cx ticks (d_task d') (d_pipe d') (d_sock d') = Ret (t, p, w1) /\
    rings p !! ring_buf s' = Some rb /\
    called_since (length (v_woken (rb_view rb0))) waker (rb_view rb).
Proof.
  intros Hw E Hsteps Hs Hlen Hlk Er Hp Hwill Hle.
  destruct (pending_state config w d0 d s last waker bytes rb0 ms d' s')
    as (Hinv & Hh & rb & Hlk' & Hn & Hg); try done.
  destruct d' as [so p t w1]. cbn in *. subst so.
  apply (writer_run_wakes cx _ waker s' _ ticks p t w1 Hwill Hinv Hh).
  exists rb. split_and!; try done. destruct Hg as [Hg|Hg]; [by left|right]. split; [done|].
  pose proof (wake_left_le s' t p). lia.
Qed.
End properties.

(** ** Witnesses *)

(** A ring that a non-blocking send has filled to the last byte; then an
    asynchronous send of one more byte.  The bytes are any list of that length. *)
Definition full_view (full : list byte) (waker : option Waker) : ring_view :=
  mkView RING_BUFFER_SIZE [] full true true waker [].
Definition demo_pipe_full (full : list byte) (waker : option Waker) : Pipe ListRing chan_view :=
  mkPipe [full_view full waker] (mkChan [0%nat] true true).
Definition demo_full (full : list byte) : Duplex ListRing chan_view ByteWriter :=
  mkDuplex (S_Idle (mkSender 0) (Some (R_Unit (Ok tt)))) (demo_pipe_full full None)
    WA_Recv (mkByteWriter []).
Definition demo_pending (full : list byte) : Duplex ListRing chan_view ByteWriter :=
  mkDuplex (S_Idle (mkSender 0) (Some (R_Async Pending)))
    (demo_pipe_full full (Some (mkWaker 5 6))) WA_Recv (mkByteWriter []).

Lemma push_into_new full :
  zlen full = RING_BUFFER_SIZE ->
  lr_push (rb_new RING_BUFFER_SIZE : ListRing) full = (full_view full None, RING_BUFFER_SIZE).
Proof.
  intros Hz. unfold lr_push, lr_set_contents. cbn [rb_new ListRing_ops v_contents v_cap].
  rewrite Hz, (zlen_nil (A := byte)), Z.sub_0_r, Z.min_id. unfold full_view. do 2 f_equal.
  cbn [app]. apply ztake_all. lia.
Qed.

Lemma push_into_full full waker bytes :
  zlen full = RING_BUFFER_SIZE -> lr_push (full_view full waker) bytes = (full_view full waker, 0).
Proof.
  intros Hz. unfold lr_push, lr_set_contents, full_view. cbn. rewrite Hz, Z.sub_diag.
  rewrite Z.min_r by apply zlen_nonneg. by rewrite ztake_0, app_nil_r.
Qed.

(** One push of [burst_write] into a single ring. *)
Lemma burst_one_ring (k : SendKind) bytes (v : ListRing) (c : chan_view nat) :
  sender_access demo_waker (S_Burst (mkSender 0) k bytes 0) (mkPipe [v] c) =
    let '(v1, n) := lr_push v bytes in
    let* st :=
      if n =? 0 then after_burst k (mkSender 0) bytes 0 BW_Pending
      else if usize_add 0 n =? zlen bytes
      then after_burst k (mkSender 0) bytes (usize_add 0 n) BW_Finished
      else Ret (S_Burst (mkSender 0) k bytes (usize_add 0 n)) in
    Ret (st, mkPipe [v1] c).
Proof.
  cbn [sender_access]. unfold ring_access. cbn [rings ring_buf lookup list_lookup].
  pose proof (zlen_nonneg bytes). rewrite slice_checked_ret, slice_self by lia. cbn [obind].
  change (@rb_push_slice ListRing _) with lr_push. destruct (lr_push v bytes) as [v1 n].
  destruct (n =? 0); [by destruct (after_burst _ _ _ _ _)|].
  destruct (_ =? _); [by destruct (after_burst _ _ _ _ _)|done].
Qed.

Lemma demo_fills full :
  zlen full = RING_BUFFER_SIZE -> rtc duplex_step demo_started (demo_full full).
Proof.
  intros Hz.
  assert (@start_send ListRing K_Nonblock (mkSender 0) full
    = S_Burst (mkSender 0) K_Nonblock full 0) as Hst by (unfold start_send; by rewrite Hz).
  eapply rtc_l; [by apply (step_send _ (mkSender 0) None K_Nonblock full); [|rewrite Hz]|].
  rewrite Hst. eapply rtc_l; [|reflexivity]. apply (step_move (M_Access demo_waker)).
  cbn [duplex_move with_sender demo_started d_sender d_pipe d_task d_sock].
  rewrite burst_one_ring, (push_into_new full Hz), Hz. reflexivity.
Qed.

Lemma demo_waits full :
  zlen full = RING_BUFFER_SIZE ->
  duplex_run (replicate 5 (M_Access demo_waker))
    (with_sender (demo_full full) (start_send (K_Async (mkWaker 5 6) false) (mkSender 0) [x01]))
  = Ret (demo_pending full).
Proof.
  intros Hz.
  assert (forall waker reg,
    sender_access demo_waker (S_Burst (mkSender 0) (K_Async (mkWaker 5 6) reg) [x01] 0)
      (demo_pipe_full full waker)
    = Ret (if reg then S_Idle (mkSender 0) (Some (R_Async Pending))
           else S_Register (mkSender 0) [x01] (mkWaker 5 6), demo_pipe_full full waker)) as Hburst.
  { intros waker reg. unfold demo_pipe_full. rewrite burst_one_ring, (push_into_full full waker _ Hz).
    by destruct reg. }
  assert (forall waker reg,
    sender_access demo_waker (S_Check (mkSender 0) [x01] (mkWaker 5 6) reg) (demo_pipe_full full waker)
    = Ret (S_Burst (mkSender 0) (K_Async (mkWaker 5 6) reg) [x01] 0, demo_pipe_full full waker))
    as Hcheck by done.
  assert (sender_access demo_waker (S_Register (mkSender 0) [x01] (mkWaker 5 6)) (demo_pipe_full full None)
    = Ret (S_Check (mkSender 0) [x01] (mkWaker 5 6) true, demo_pipe_full full (Some (mkWaker 5 6))))
    as Hreg by done.
  cbn [replicate duplex_run duplex_move with_sender demo_full start_send d_sender d_pipe d_task d_sock].
  change (zlen [x01] =? 0) with false. cbn iota.
  rewrite Hcheck. cbn [obind d_sender d_pipe d_task d_sock].
  rewrite Hburst. cbn [obind d_sender d_pipe d_task d_sock].
  rewrite Hreg. cbn [obind d_sender d_pipe d_task d_sock].
  rewrite Hcheck. cbn [obind d_sender d_pipe d_task d_sock].
  by rewrite Hburst.
Qed.

Definition full_ring : list byte := replicate (Z.to_nat RING_BUFFER_SIZE) x07.

Lemma full_ring_full : zlen full_ring = RING_BUFFER_SIZE.
Proof. unfold zlen, full_ring. rewrite length_replicate. by apply Z2Nat.id. Qed.

Lemma no_lost_wakeup_witness :
  exists rb, rings (d_pipe (demo_pending full_ring)) !! ring_buf (mkSender 0) = Some rb /\
    (called_since (length (v_woken (rb_view (full_view full_ring None : ListRing)))) (mkWaker 5 6) (rb_view rb) \/
     v_waker (rb_view rb) = Some (mkWaker 5 6) /\
     zlen (v_contents (rb_view rb)) = v_cap (rb_view rb) /\
     v_cons (rb_view rb) = true /\ ~ stopped (d_task (demo_pending full_ring))).
Proof.
  apply (no_lost_wakeup demo_config (mkByteWriter []) demo_started (demo_full full_ring) (mkSender 0)
    (Some (R_Unit (Ok tt))) (mkWaker 5 6) [x01]
    (full_view full_ring None : ListRing)
    (replicate 5 (M_Access demo_waker)) (demo_pending full_ring) (mkSender 0)).
  - reflexivity.
  - reflexivity.
  - exact (demo_fills full_ring full_ring_full).
  - reflexivity.
  - vm_compute. reflexivity.
  - reflexivity.
  - exact (demo_waits full_ring full_ring_full).
  - reflexivity.
Defined.

Lemma pending_send_is_woken_witness :
  exists t p w1 rb,
    writer_run demo_waker (replicate (11 + length full_ring) true) WA_Recv
      (d_pipe (demo_pending full_ring)) (mkByteWriter []) = Ret (t, p, w1) /\
    rings p !! ring_buf (mkSender 0) = Some rb /\
    called_since (length (v_woken (rb_view (full_view full_ring None : ListRing)))) (mkWaker 5 6) (rb_view rb).
Proof.
  apply (pending_send_is_woken demo_waker demo_config (mkByteWriter []) demo_started (demo_full full_ring)
    (mkSender 0) (Some (R_Unit (Ok tt))) (mkWaker 5 6) [x01]
    (full_view full_ring None : ListRing)
    (replicate 5 (M_Access demo_waker)) (demo_pending full_ring) (mkSender 0)
    (replicate (11 + length full_ring) true)).
  - reflexivity.
  - reflexivity.
  - exact (demo_fills full_ring full_ring_full).
  - reflexivity.
  - vm_compute. reflexivity.
  - reflexivity.
  - exact (demo_waits full_ring full_ring_full).
  - reflexivity.
  - apply ByteWriter_willing.
  - rewrite length_replicate. cbn. rewrite app_nil_r. lia.
Defined.
