(* ===== verification/Oneshot.v ===== *)
(** * One-shot channels of tokio and the maps of dashmap

    [conn.rs], [conn_handle.rs] and [lib.rs] signal through
    [tokio::sync::oneshot] channels and keep the receivers of some of them in
    [DashMap]s.  Neither crate is part of this repository: as for the ring
    buffers, their operations are classes over an abstract state, and what they
    document is stated through a view of that state. *)

From S2P Require Import Prelude.

(** ** One-shot channels *)

Class OneshotOps (Os : Type -> Type) : Type := {
  os_new : forall {A}, Os A;
  (** [Sender::send] consumes the sender; the error gives the value back. *)
  os_send : forall {A}, Os A -> A -> Os A * result unit A;
  (** One poll of the receiver; an error when the sender is gone. *)
  os_poll_recv : forall {A}, Os A -> Waker -> Os A * poll (result A unit);
  (** One poll of [Sender::closed]. *)
  os_poll_closed : forall {A}, Os A -> poll unit;
  os_drop_tx : forall {A}, Os A -> Os A;
  os_drop_rx : forall {A}, Os A -> Os A
}.

(** The value that was sent and not yet received, and the ends that are held. *)
Record oneshot_view (A : Type) : Type := mkOneshot {
  o_value : option A;
  o_tx : bool;
  o_rx : bool
}.

Arguments mkOneshot {A}.
Arguments o_value {A}.
Arguments o_tx {A}.
Arguments o_rx {A}.

Class OneshotSpec (Os : Type -> Type) `{OneshotOps Os} : Type := {
  os_view : forall {A}, Os A -> oneshot_view A;
  os_new_view A : os_view (@os_new Os _ A) = mkOneshot None true true;
  (** [send] succeeds exactly when the receiver is there. *)
  os_send_view A (c : Os A) a c' r :
    os_send c a = (c', r) ->
    if o_rx (os_view c)
    then r = Ok tt /\ os_view c' = mkOneshot (Some a) false true
    else r = Err a /\ os_view c' = mkOneshot (o_value (os_view c)) false false;
  os_poll_recv_view A (c : Os A) cx c' p :
    os_poll_recv c cx = (c', p) ->
    match o_value (os_view c) with
    | Some a => p = Ready (Ok a) /\ os_view c' = mkOneshot None (o_tx (os_view c)) (o_rx (os_view c))
    | None => p = (if o_tx (os_view c) then Pending else Ready (Err tt)) /\ os_view c' = os_view c
    end;
  (** [closed] is ready exactly when the receiver is gone. *)
  os_poll_closed_view A (c : Os A) :
    os_poll_closed c = if o_rx (os_view c) then Pending else Ready tt;
  os_drop_tx_view A (c : Os A) :
    os_view (os_drop_tx c) = mkOneshot (o_value (os_view c)) false (o_rx (os_view c));
  os_drop_rx_view A (c : Os A) :
    os_view (os_drop_rx c) = mkOneshot None (o_tx (os_view c)) false
}.

(** A channel as its own view. *)
#[export] Instance ViewOneshot_ops : OneshotOps oneshot_view := {|
  os_new A := mkOneshot None true true;
  os_send A c a :=
    if o_rx c then (mkOneshot (Some a) false true, Ok tt)
    else (mkOneshot (o_value c) false false, Err a);
  os_poll_recv A c _ :=
    match o_value c with
    | Some a => (mkOneshot None (o_tx c) (o_rx c), Ready (Ok a))
    | None => (c, if o_tx c then Pending else Ready (Err tt))
    end;
  os_poll_closed A c := if o_rx c then Pending else Ready tt;
  os_drop_tx A c := mkOneshot (o_value c) false (o_rx c);
  os_drop_rx A c := mkOneshot None (o_tx c) false
|}.

#[export] Instance ViewOneshot_spec : OneshotSpec oneshot_view.
Proof.
  refine {| os_view := fun A c => c |}; intros; cbn in *; try done.
  - destruct (o_rx c); by simplify_eq.
  - destruct (o_value c); by simplify_eq.
Defined.

(** ** Concurrent maps *)

(** [insert] and [remove] give the old value back; [clear] drops all values,
    which are listed here. *)
Class DashMapOps (K V Dm : Type) : Type := {
  dm_new : Dm;
  dm_insert : Dm -> K -> V -> Dm * option V;
  dm_remove : Dm -> K -> Dm * option V;
  dm_clear : Dm -> Dm * list V
}.

Class DashMapSpec (K V Dm : Type) `{Countable K} `{!DashMapOps K V Dm} : Type := {
  dm_view : Dm -> gmap K V;
  dm_new_view : dm_view dm_new = ∅;
  dm_insert_view m k v m' old :
    dm_insert m k v = (m', old) -> old = dm_view m !! k /\ dm_view m' = <[k := v]> (dm_view m);
  dm_remove_view m k m' old :
    dm_remove m k = (m', old) -> old = dm_view m !! k /\ dm_view m' = delete k (dm_view m);
  dm_clear_view m m' dropped :
    dm_clear m = (m', dropped) ->
    dm_view m' = ∅ /\ forall v, v ∈ dropped <-> exists k, dm_view m !! k = Some v
}.

#[export] Instance gmap_dashmap_ops `{Countable K} {V} : DashMapOps K V (gmap K V) := {|
  dm_new := ∅;
  dm_insert m k v := (<[k := v]> m, m !! k);
  dm_remove m k := (delete k m, m !! k);
  dm_clear m := (∅, (map_to_list m).*2)
|}.

#[export] Instance gmap_dashmap_spec `{Countable K} {V} : DashMapSpec K V (gmap K V).
Proof.
  refine {| dm_view := fun m => m |}; cbn; intros; simplify_eq; try done.
  split; [done|]. intros v. rewrite list_elem_of_fmap. split.
  - intros ([k v'] & -> & Hin). exists k. by apply elem_of_map_to_list.
  - intros [k Hk]. exists (k, v). split; [done|]. by apply elem_of_map_to_list.
Defined.
