(* ===== verification/Conn.v ===== *)
(** * Connections as the user sees them ([conn.rs]) and the shared
    [ConnectionState] ([lib.rs])

    The manager keeps, for every listener and every started connection, the
    receiving end of a one-shot channel: dropping it is the signal to stop.  The
    channels are shared between the maps and the tasks that hold the sending
    ends, so they live in a store and the maps hold indices into it. *)

From S2P Require Import Prelude Config Oneshot.

(** [std::net::SocketAddr]. *)
Inductive SocketAddr : Type :=
| AddrV4 (ip port : Z)
| AddrV6 (ip port flowinfo scope_id : Z).

#[export] Instance SocketAddr_eq_decision : EqDecision SocketAddr.
Proof. solve_decision. Defined.

#[export] Instance SocketAddr_countable : Countable SocketAddr.
Proof.
  refine (inj_countable'
    (fun a => match a with
              | AddrV4 i p => inl (i, p)
              | AddrV6 i p f s => inr (i, p, f, s)
              end)
    (fun x => match x with
              | inl (i, p) => AddrV4 i p
              | inr (i, p, f, s) => AddrV6 i p f s
              end) _).
  by intros [].
Defined.

(** ** [ConnectionState] *)

Record ConnectionState (Os : Type -> Type) (Dl Dc : Type) : Type := mkCS {
  stops : list (Os unit);
  listeners : Dl;
  connections : Dc
}.

Arguments mkCS {Os Dl Dc}.
Arguments stops {Os Dl Dc}.
Arguments listeners {Os Dl Dc}.
Arguments connections {Os Dl Dc}.

(** ** [Conn] *)

(** [ConnInner] owns the sending end of the configuration channel. *)
Inductive ConnInner : Type := conn_config_setter.

Record Conn : Type := mkConn {
  consumed : bool;
  inner : option ConnInner;
  local_addr : SocketAddr;
  peer_addr : SocketAddr
}.

Definition already_consumed : io_error :=
  IoNew Other "calling `start_connection` after connection consumed".
Definition setter_send_failed : io_error :=
  IoNew Other "callback config setter send failed".

Section defs.
Context {Os : Type -> Type} {Dl Dc : Type}.
Context `{OneshotOps Os} `{!DashMapOps SocketAddr nat Dl}
  `{!DashMapOps (SocketAddr * SocketAddr) nat Dc}.
Implicit Types cs : ConnectionState Os Dl Dc.

(** [ConnectionState::new]. *)
Definition connection_state_new : ConnectionState Os Dl Dc := mkCS [] dm_new dm_new.

(** [oneshot::channel::<()>()]: the new channel is the last one of the store. *)
Definition new_stop cs : ConnectionState Os Dl Dc * nat :=
  (mkCS (stops cs ++ [os_new]) (listeners cs) (connections cs), length (stops cs)).

(** Dropping some receivers. *)
Definition drop_stoppers (ids : list nat) (l : list (Os unit)) : list (Os unit) :=
  foldl (fun l i => alter os_drop_rx i l) l ids.

(** [connections.insert((local, peer), stopper)]: an old stopper is dropped. *)
Definition insert_connection cs (k : SocketAddr * SocketAddr) (i : nat) : ConnectionState Os Dl Dc :=
  let '(m, old) := dm_insert (connections cs) k i in
  mkCS (drop_stoppers (option_list old) (stops cs)) (listeners cs) m.

(** [drop(connections.remove(&(local, peer)))]. *)
Definition remove_connection cs (k : SocketAddr * SocketAddr) : ConnectionState Os Dl Dc :=
  let '(m, old) := dm_remove (connections cs) k in
  mkCS (drop_stoppers (option_list old) (stops cs)) (listeners cs) m.

(** [listeners.insert(addr, cancel)]. *)
Definition insert_listener cs (k : SocketAddr) (i : nat) : ConnectionState Os Dl Dc :=
  let '(m, old) := dm_insert (listeners cs) k i in
  mkCS (drop_stoppers (option_list old) (stops cs)) m (connections cs).

(** [listeners.remove(&addr)]; the flag tells whether there was one. *)
Definition remove_listener cs (k : SocketAddr) : ConnectionState Os Dl Dc * bool :=
  let '(m, old) := dm_remove (listeners cs) k in
  (mkCS (drop_stoppers (option_list old) (stops cs)) m (connections cs),
   match old with Some _ => true | None => false end).

(** [listeners.clear()] and [connections.clear()]. *)
Definition clear_listeners cs : ConnectionState Os Dl Dc :=
  let '(m, dropped) := dm_clear (listeners cs) in
  mkCS (drop_stoppers dropped (stops cs)) m (connections cs).
Definition clear_connections cs : ConnectionState Os Dl Dc :=
  let '(m, dropped) := dm_clear (connections cs) in
  mkCS (drop_stoppers dropped (stops cs)) (listeners cs) m.

(** [ConnectionState::stop_all]. *)
Definition stop_all cs : ConnectionState Os Dl Dc := clear_connections (clear_listeners cs).

(** One poll of [closed()] on the sending end of channel [i]. *)
Definition stop_closed cs (i : nat) : poll unit :=
  match stops cs !! i with Some c => os_poll_closed c | None => Pending end.

(** The configuration channel of a connection carries the message callback [M]
    and the configuration. *)
Context {M : Type}.
Implicit Types conf : Os (M * ConnConfig).

(** [Conn::new]. *)
Definition conn_new (local peer : SocketAddr) : Conn :=
  mkConn false (Some conn_config_setter) local peer.

(** [consumed.compare_exchange(false, true, ..)]: the new flag and whether the
    exchange took place. *)
Definition compare_exchange (b : bool) : bool * bool := (true, negb b).

(** [Conn::start_connection]. *)
Definition start_connection (c : Conn) conf (on_msg : M) (config : ConnConfig)
  : outcome (Conn * Os (M * ConnConfig) * io_result unit) :=
  let '(flag, won) := compare_exchange (consumed c) in
  let c := mkConn flag (inner c) (local_addr c) (peer_addr c) in
  if won then
    match inner c with
    | None => Panic
    | Some conn_config_setter =>
        let c := mkConn (consumed c) None (local_addr c) (peer_addr c) in
        match os_send conf (on_msg, config) with
        | (conf, Err _) => Ret (c, conf, Err setter_send_failed)
        | (conf, Ok _) => Ret (c, conf, Ok tt)
        end
    end
  else Ret (c, conf, Err already_consumed).

(** [Conn::close]. *)
Definition close (c : Conn) conf cs
  : outcome (Conn * Os (M * ConnConfig) * ConnectionState Os Dl Dc * io_result unit) :=
  let '(flag, won) := compare_exchange (consumed c) in
  let c := mkConn flag (inner c) (local_addr c) (peer_addr c) in
  let* '(c, conf) :=
    (if won then
       match inner c with
       | None => Panic
       | Some conn_config_setter =>
           Ret (mkConn (consumed c) None (local_addr c) (peer_addr c), os_drop_tx conf)
       end
     else Ret (c, conf)) in
  Ret (c, conf, remove_connection cs (local_addr c, peer_addr c), Ok tt).

(** Dropping a [Conn] drops the setter if it still has it. *)
Definition drop_conn (c : Conn) conf : Os (M * ConnConfig) :=
  match inner c with Some conn_config_setter => os_drop_tx conf | None => conf end.

(** The calls a user makes on a [Conn], and a sequence of them. *)
Inductive conn_call : Type :=
| Call_start (on_msg : M) (config : ConnConfig)
| Call_close.

Definition conn_do (call : conn_call) (c : Conn) conf cs
  : outcome (Conn * Os (M * ConnConfig) * ConnectionState Os Dl Dc * io_result unit) :=
  match call with
  | Call_start on_msg config =>
      let* '(c, conf, r) := start_connection c conf on_msg config in
      Ret (c, conf, cs, r)
  | Call_close => close c conf cs
  end.

Fixpoint conn_calls (calls : list conn_call) (c : Conn) conf cs
  : outcome (Conn * Os (M * ConnConfig) * ConnectionState Os Dl Dc * list (io_result unit)) :=
  match calls with
  | [] => Ret (c, conf, cs, [])
  | call :: calls =>
      let* '(c, conf, cs, r) := conn_do call c conf cs in
      let* '(c, conf, cs, rs) := conn_calls calls c conf cs in
      Ret (c, conf, cs, r :: rs)
  end.

(** ** Specification *)

(** The setter is there exactly until the connection was consumed. *)
Definition conn_wf (c : Conn) : Prop :=
  inner c = if consumed c then None else Some conn_config_setter.

(** What the calls of a user return: a start succeeds only as the first call
    and only if the connection task still waits for it; a close always does. *)
Definition expected_result (first rx : bool) (call : conn_call) : io_result unit :=
  match call with
  | Call_close => Ok tt
  | Call_start _ _ =>
      if first then if rx then Ok tt else Err setter_send_failed else Err already_consumed
  end.

Context `{!OneshotSpec Os} `{!DashMapSpec SocketAddr nat Dl}
  `{!DashMapSpec (SocketAddr * SocketAddr) nat Dc}.

(** Channel [i] has not been told to stop. *)
Definition stop_open cs (i : nat) : Prop :=
  exists c, stops cs !! i = Some c /\ o_rx (os_view c) = true.

(** The receiver of channel [i] is in one of the maps. *)
Definition listening cs (k : SocketAddr) (i : nat) : Prop := dm_view (listeners cs) !! k = Some i.
Definition connected cs (k : SocketAddr * SocketAddr) (i : nat) : Prop :=
  dm_view (connections cs) !! k = Some i.

(** Every receiver that is in a map is there, and in one place only. *)
Definition cs_wf cs : Prop :=
  (forall k i, listening cs k i -> stop_open cs i) /\
  (forall k i, connected cs k i -> stop_open cs i) /\
  (forall k k' i, listening cs k i -> listening cs k' i -> k = k') /\
  (forall k k' i, connected cs k i -> connected cs k' i -> k = k') /\
  (forall k k' i, listening cs k i -> connected cs k' i -> False).
End defs.

Arguments conn_call M : clear implicits.

(** ** Lemmas *)

Section lemmas.
Context {Os : Type -> Type} {Dl Dc M : Type}.
Context `{OneshotSpec Os} `{!DashMapOps SocketAddr nat Dl}
  `{!DashMapOps (SocketAddr * SocketAddr) nat Dc}
  `{!DashMapSpec SocketAddr nat Dl} `{!DashMapSpec (SocketAddr * SocketAddr) nat Dc}.
Implicit Types (cs : ConnectionState Os Dl Dc) (conf : Os (M * ConnConfig)).

(** *** Dropping receivers *)

Lemma drop_stoppers_other ids (l : list (Os unit)) i :
  i ∉ ids -> drop_stoppers ids l !! i = l !! i.
Proof.
  unfold drop_stoppers. revert l. induction ids as [|j ids IH]; intros l Hi; cbn; [done|].
  apply not_elem_of_cons in Hi as [Hij Hi]. rewrite IH by done.
  by apply list_lookup_alter_ne.
Qed.

Lemma drop_stoppers_length ids (l : list (Os unit)) : length (drop_stoppers ids l) = length l.
Proof.
  unfold drop_stoppers. revert l. induction ids as [|j ids IH]; intros l; cbn; [done|].
  by rewrite IH, length_alter.
Qed.

(** A closed channel stays closed. *)
Lemma drop_stoppers_closed ids (l : list (Os unit)) i c :
  l !! i = Some c -> o_rx (os_view c) = false ->
  exists c', drop_stoppers ids l !! i = Some c' /\ o_rx (os_view c') = false.
Proof.
  unfold drop_stoppers. revert l c. induction ids as [|j ids IH]; intros l c Hlk Hc; cbn.
  - by exists c.
  - destruct (decide (j = i)) as [->|Hne].
    + apply (IH _ (os_drop_rx c)); [by rewrite list_lookup_alter_eq, Hlk|by rewrite os_drop_rx_view].
    + apply (IH _ c); [by rewrite list_lookup_alter_ne|done].
Qed.

Lemma drop_stoppers_dropped ids (l : list (Os unit)) i c :
  i ∈ ids -> l !! i = Some c ->
  exists c', drop_stoppers ids l !! i = Some c' /\ o_rx (os_view c') = false.
Proof.
  unfold drop_stoppers. intros Hin. revert l c.
  induction Hin as [i ids|i j ids Hin IH]; intros l c Hlk; cbn.
  - apply (drop_stoppers_closed ids _ _ (os_drop_rx c));
      [by rewrite list_lookup_alter_eq, Hlk|by rewrite os_drop_rx_view].
  - destruct (decide (j = i)) as [->|Hne].
    + apply (IH _ (os_drop_rx c)). by rewrite list_lookup_alter_eq, Hlk.
    + apply (IH _ c). by rewrite list_lookup_alter_ne.
Qed.

Lemma drop_stoppers_open ids cs (ml : Dl) (mc : Dc) i :
  stop_open (mkCS (drop_stoppers ids (stops cs)) ml mc) i <-> stop_open cs i /\ i ∉ ids.
Proof.
  unfold stop_open; cbn. split.
  - intros (c & Hlk & Hrx). destruct (decide (i ∈ ids)) as [Hin|Hin].
    + destruct (stops cs !! i) as [c0|] eqn:E.
      * destruct (drop_stoppers_dropped ids _ i c0 Hin E) as (c' & Hlk' & Hc'). congruence.
      * apply lookup_ge_None in E. apply lookup_lt_Some in Hlk.
        rewrite drop_stoppers_length in Hlk. lia.
    + rewrite drop_stoppers_other in Hlk by done. by split; [exists c|].
  - intros [(c & Hlk & Hrx) Hin]. exists c. by rewrite drop_stoppers_other.
Qed.

Lemma elem_of_option_list {A} (o : option A) x : x ∈ option_list o <-> o = Some x.
Proof. destruct o; cbn; rewrite ?list_elem_of_singleton; set_solver. Qed.

(** The channel that was told to stop is seen as closed by its task. *)
Lemma stop_closed_ready cs i :
  (i < length (stops cs))%nat -> stop_closed cs i = Ready tt <-> ~ stop_open cs i.
Proof.
  intros Hi. apply lookup_lt_is_Some in Hi as [c Hc]. unfold stop_closed, stop_open. rewrite Hc.
  rewrite os_poll_closed_view. destruct (o_rx (os_view c)) eqn:E; split; try done.
  - intros []. by exists c.
  - intros _ (c' & [= <-] & Hc'). congruence.
Qed.

(** *** What each operation does to the maps and to the channels *)

Lemma connection_state_new_wf : cs_wf (connection_state_new : ConnectionState Os Dl Dc).
Proof.
  unfold cs_wf, listening, connected, connection_state_new; cbn. rewrite !dm_new_view.
  split_and!; intros *; by rewrite lookup_empty.
Qed.

Lemma remove_connection_spec cs k :
  dm_view (listeners (remove_connection cs k)) = dm_view (listeners cs) /\
  dm_view (connections (remove_connection cs k)) = delete k (dm_view (connections cs)) /\
  length (stops (remove_connection cs k)) = length (stops cs) /\
  forall i, stop_open (remove_connection cs k) i <-> stop_open cs i /\ ~ connected cs k i.
Proof.
  unfold remove_connection. destruct (dm_remove (connections cs) k) as [m old] eqn:E.
  apply dm_remove_view in E as [-> Hm]. cbn. split_and!; try done.
  - apply drop_stoppers_length.
  - intros i. rewrite drop_stoppers_open, elem_of_option_list. done.
Qed.

Lemma insert_connection_spec cs k j :
  dm_view (listeners (insert_connection cs k j)) = dm_view (listeners cs) /\
  dm_view (connections (insert_connection cs k j)) = <[k := j]> (dm_view (connections cs)) /\
  length (stops (insert_connection cs k j)) = length (stops cs) /\
  forall i, stop_open (insert_connection cs k j) i <-> stop_open cs i /\ ~ connected cs k i.
Proof.
  unfold insert_connection. destruct (dm_insert (connections cs) k j) as [m old] eqn:E.
  apply dm_insert_view in E as [-> Hm]. cbn. split_and!; try done.
  - apply drop_stoppers_length.
  - intros i. rewrite drop_stoppers_open, elem_of_option_list. done.
Qed.

Lemma remove_listener_spec cs k cs' b :
  remove_listener cs k = (cs', b) ->
  dm_view (connections cs') = dm_view (connections cs) /\
  dm_view (listeners cs') = delete k (dm_view (listeners cs)) /\
  length (stops cs') = length (stops cs) /\
  (forall i, stop_open cs' i <-> stop_open cs i /\ ~ listening cs k i) /\
  (b = true <-> exists i, listening cs k i).
Proof.
  unfold remove_listener. destruct (dm_remove (listeners cs) k) as [m old] eqn:E.
  intros [= <- <-]. apply dm_remove_view in E as [-> Hm]. cbn. split_and!; try done.
  - apply drop_stoppers_length.
  - intros i. rewrite drop_stoppers_open, elem_of_option_list. done.
  - unfold listening. destruct (dm_view (listeners cs) !! k); split; try done; [by eexists|].
    by intros [].
Qed.

Lemma insert_listener_spec cs k j :
  dm_view (connections (insert_listener cs k j)) = dm_view (connections cs) /\
  dm_view (listeners (insert_listener cs k j)) = <[k := j]> (dm_view (listeners cs)) /\
  length (stops (insert_listener cs k j)) = length (stops cs) /\
  forall i, stop_open (insert_listener cs k j) i <-> stop_open cs i /\ ~ listening cs k i.
Proof.
  unfold insert_listener. destruct (dm_insert (listeners cs) k j) as [m old] eqn:E.
  apply dm_insert_view in E as [-> Hm]. cbn. split_and!; try done.
  - apply drop_stoppers_length.
  - intros i. rewrite drop_stoppers_open, elem_of_option_list. done.
Qed.

Lemma clear_listeners_spec cs :
  dm_view (connections (clear_listeners cs)) = dm_view (connections cs) /\
  dm_view (listeners (clear_listeners cs)) = ∅ /\
  length (stops (clear_listeners cs)) = length (stops cs) /\
  forall i, stop_open (clear_listeners cs) i <-> stop_open cs i /\ ~ (exists k, listening cs k i).
Proof.
  unfold clear_listeners. destruct (dm_clear (listeners cs)) as [m d] eqn:E.
  apply dm_clear_view in E as [Hm Hd]. cbn. split_and!; try done.
  - apply drop_stoppers_length.
  - intros i. rewrite drop_stoppers_open, Hd. done.
Qed.

Lemma clear_connections_spec cs :
  dm_view (listeners (clear_connections cs)) = dm_view (listeners cs) /\
  dm_view (connections (clear_connections cs)) = ∅ /\
  length (stops (clear_connections cs)) = length (stops cs) /\
  forall i, stop_open (clear_connections cs) i <-> stop_open cs i /\ ~ (exists k, connected cs k i).
Proof.
  unfold clear_connections. destruct (dm_clear (connections cs)) as [m d] eqn:E.
  apply dm_clear_view in E as [Hm Hd]. cbn. split_and!; try done.
  - apply drop_stoppers_length.
  - intros i. rewrite drop_stoppers_open, Hd. done.
Qed.

Lemma stop_all_spec cs :
  dm_view (connections (stop_all cs)) = ∅ /\ dm_view (listeners (stop_all cs)) = ∅ /\
  length (stops (stop_all cs)) = length (stops cs) /\
  forall i, stop_open (stop_all cs) i <->
    stop_open cs i /\ ~ (exists k, listening cs k i) /\ ~ (exists k, connected cs k i).
Proof.
  unfold stop_all.
  destruct (clear_listeners_spec cs) as (Hc1 & Hl1 & Hs1 & Ho1).
  destruct (clear_connections_spec (clear_listeners cs)) as (Hl2 & Hc2 & Hs2 & Ho2).
  rewrite Hc2, Hl2, Hl1, Hs2, Hs1. split_and!; try done. intros i. rewrite Ho2, Ho1.
  unfold connected. rewrite Hc1. tauto.
Qed.

Lemma new_stop_spec cs cs' j :
  new_stop cs = (cs', j) ->
  j = length (stops cs) /\ length (stops cs') = S (length (stops cs)) /\
  dm_view (connections cs') = dm_view (connections cs) /\
  dm_view (listeners cs') = dm_view (listeners cs) /\
  forall i, stop_open cs' i <-> stop_open cs i \/ i = j.
Proof.
  unfold new_stop. intros [= <- <-]. cbn. rewrite length_app, Nat.add_comm. split_and!; try done.
  intros i. unfold stop_open; cbn. split.
  - intros (c & Hlk & Hc). apply lookup_app_Some in Hlk as [Hlk|[Hle Hlk]]; [by left; exists c|].
    right. apply list_lookup_singleton_Some in Hlk as [? _]. lia.
  - intros [(c & Hlk & Hc)| ->].
    + exists c. by rewrite (lookup_app_l_Some _ _ _ _ Hlk).
    + exists os_new. rewrite os_new_view, lookup_app_r, Nat.sub_diag by done. done.
Qed.

(** *** The invariant *)

Lemma new_stop_wf cs cs' j : new_stop cs = (cs', j) -> cs_wf cs -> cs_wf cs'.
Proof.
  intros E (H1 & H2 & H3 & H4 & H5). apply new_stop_spec in E as (_ & _ & Hc & Hl & Ho).
  unfold cs_wf, listening, connected. rewrite Hc, Hl. split_and!; try done.
  all: intros k i Hk; apply Ho; left; eauto.
Qed.

(** A channel that is not in the maps. *)
Definition unregistered cs (i : nat) : Prop :=
  (forall k, ~ listening cs k i) /\ (forall k, ~ connected cs k i).

Lemma new_stop_unregistered cs cs' j :
  new_stop cs = (cs', j) -> cs_wf cs -> stop_open cs' j /\ unregistered cs' j.
Proof.
  intros E (H1 & H2 & _). apply new_stop_spec in E as (-> & _ & Hc & Hl & Ho).
  split; [apply Ho; by right|]. unfold unregistered, listening, connected. rewrite Hc, Hl.
  split; intros k Hk; [apply H1 in Hk|apply H2 in Hk];
    destruct Hk as (c & Hlk & _); apply lookup_lt_Some in Hlk; lia.
Qed.

Lemma insert_connection_wf cs k j :
  cs_wf cs -> stop_open cs j -> unregistered cs j -> cs_wf (insert_connection cs k j).
Proof.
  intros (H1 & H2 & H3 & H4 & H5) Hj [Hu1 Hu2].
  destruct (insert_connection_spec cs k j) as (Hl & Hc & _ & Ho).
  unfold cs_wf, listening, connected in *. rewrite Hl, Hc. setoid_rewrite Ho.
  setoid_rewrite lookup_insert_Some. naive_solver.
Qed.

Lemma insert_listener_wf cs k j :
  cs_wf cs -> stop_open cs j -> unregistered cs j -> cs_wf (insert_listener cs k j).
Proof.
  intros (H1 & H2 & H3 & H4 & H5) Hj [Hu1 Hu2].
  destruct (insert_listener_spec cs k j) as (Hc & Hl & _ & Ho).
  unfold cs_wf, listening, connected in *. rewrite Hl, Hc. setoid_rewrite Ho.
  setoid_rewrite lookup_insert_Some. naive_solver.
Qed.

Lemma remove_connection_wf cs k : cs_wf cs -> cs_wf (remove_connection cs k).
Proof.
  intros (H1 & H2 & H3 & H4 & H5).
  destruct (remove_connection_spec cs k) as (Hl & Hc & _ & Ho).
  unfold cs_wf, listening, connected in *. rewrite Hl, Hc. setoid_rewrite Ho.
  setoid_rewrite lookup_delete_Some. naive_solver.
Qed.

Lemma remove_listener_wf cs k cs' b : remove_listener cs k = (cs', b) -> cs_wf cs -> cs_wf cs'.
Proof.
  intros E (H1 & H2 & H3 & H4 & H5).
  apply remove_listener_spec in E as (Hc & Hl & _ & Ho & _).
  unfold cs_wf, listening, connected in *. rewrite Hl, Hc. setoid_rewrite Ho.
  setoid_rewrite lookup_delete_Some. naive_solver.
Qed.

Lemma clear_listeners_wf cs : cs_wf cs -> cs_wf (clear_listeners cs).
Proof.
  intros (H1 & H2 & H3 & H4 & H5). destruct (clear_listeners_spec cs) as (Hc & Hl & _ & Ho).
  unfold cs_wf, listening, connected in *. rewrite Hl, Hc. setoid_rewrite Ho.
  setoid_rewrite lookup_empty. naive_solver.
Qed.

Lemma clear_connections_wf cs : cs_wf cs -> cs_wf (clear_connections cs).
Proof.
  intros (H1 & H2 & H3 & H4 & H5). destruct (clear_connections_spec cs) as (Hl & Hc & _ & Ho).
  unfold cs_wf, listening, connected in *. rewrite Hl, Hc. setoid_rewrite Ho.
  setoid_rewrite lookup_empty. naive_solver.
Qed.

Lemma stop_all_wf cs : cs_wf cs -> cs_wf (stop_all cs).
Proof. intros Hwf. by apply clear_connections_wf, clear_listeners_wf. Qed.

Lemma close_spec c conf cs :
  conn_wf c ->
  close c conf cs =
    Ret (mkConn true None (local_addr c) (peer_addr c),
         (if consumed c then conf else os_drop_tx conf),
         remove_connection cs (local_addr c, peer_addr c), Ok tt).
Proof.
  unfold conn_wf, close. intros Hwf. destruct c as [[] inn lo pe]; cbn in *; by rewrite Hwf.
Qed.

(** A call on a connection that was consumed already changes no channel of it. *)
Lemma conn_calls_consumed (calls : list (conn_call M)) local peer conf cs :
  exists cs', conn_calls calls (mkConn true None local peer) conf cs =
    Ret (mkConn true None local peer, conf, cs', expected_result false true <$> calls).
Proof.
  revert cs. induction calls as [|[on_msg config|] calls IH]; intros cs; cbn.
  - by exists cs.
  - destruct (IH cs) as [cs' E]. exists cs'. by rewrite E.
  - destruct (IH (remove_connection cs (local, peer))) as [cs' E]. exists cs'. by rewrite E.
Qed.
End lemmas.

(** ** Properties *)

Section properties.
Context {Os : Type -> Type} {Dl Dc M : Type}.
Context `{OneshotSpec Os} `{!DashMapOps SocketAddr nat Dl}
  `{!DashMapOps (SocketAddr * SocketAddr) nat Dc}
  `{!DashMapSpec SocketAddr nat Dl} `{!DashMapSpec (SocketAddr * SocketAddr) nat Dc}.

(** C18: a connection is consumed once.  Whatever calls of [start_connection] and
    [close] a user makes on a new [Conn], in any order and number, none of them
    panics; every [close] returns [Ok], also after a start or a close; a
    [start_connection] succeeds exactly when it is the first of all calls and the
    connection task still waits for it, fails with [setter_send_failed] when it is
    the first but nobody waits, and with [already_consumed] after any other call. *)
Theorem start_connection_once (calls : list (conn_call M)) local peer
    (conf : Os (M * ConnConfig)) (cs : ConnectionState Os Dl Dc) :
  exists c conf' cs', conn_calls calls (conn_new local peer) conf cs =
    Ret (c, conf', cs',
         imap (fun k call => expected_result (k =? 0)%nat (o_rx (os_view conf)) call) calls).
Proof.
  destruct calls as [|call calls]; [by eexists _, _, _|]. cbn [conn_calls imap].
  assert (exists conf' cs', conn_do call (conn_new local peer) conf cs =
    Ret (mkConn true None local peer, conf', cs',
         expected_result true (o_rx (os_view conf)) call)) as (conf' & cs' & E).
  { destruct call as [on_msg config|]; cycle 1.
    { by eexists _, _. }
    cbn. destruct (os_send conf (on_msg, config)) as [conf' r] eqn:E.
    apply os_send_view in E. exists conf', cs.
    by destruct (o_rx (os_view conf)), E as [-> _]. }
  rewrite E. cbn [obind].
  destruct (conn_calls_consumed calls local peer conf' cs') as [cs2 E2]. rewrite E2.
  eexists _, _, _. cbn. do 2 f_equal. f_equal. clear.
  change (expected_result false true <$> calls =
    imap (fun _ => expected_result false (o_rx (os_view conf))) calls).
  induction calls as [|[] calls IH]; [done|cbn; by rewrite IH..].
Qed.

(** [close] and the shared state.  It does not panic; whatever entry the map holds
    for the two addresses of the [Conn] leaves it, the task that holds the sending
    end of that channel sees it closed, no other channel is touched, and the
    invariant of the shared state is kept.  If the [Conn] was not consumed yet, the
    task that waits for the configuration gets an error. *)
Theorem close_stops_connection (c : Conn) (conf : Os (M * ConnConfig))
    (cs : ConnectionState Os Dl Dc) :
  conn_wf c -> cs_wf cs ->
  exists c' conf' cs', close c conf cs = Ret (c', conf', cs', Ok tt) /\
    conn_wf c' /\ cs_wf cs' /\
    (forall i, connected cs (local_addr c, peer_addr c) i ->
       stop_closed cs' i = Ready tt /\
       forall j, j <> i -> stop_open cs' j <-> stop_open cs j) /\
    (forall k i, connected cs' k i <-> connected cs k i /\ k <> (local_addr c, peer_addr c)) /\
    (forall cx, consumed c = false -> o_value (os_view conf) = None ->
       snd (os_poll_recv conf' cx) = Ready (Err tt)).
Proof.
  intros Hc Hwf. rewrite close_spec by done. eexists _, _, _. split; [done|].
  split; [done|]. split; [by apply remove_connection_wf|].
  destruct (remove_connection_spec cs (local_addr c, peer_addr c)) as (_ & Hm & Hlen & Ho).
  split_and!.
  - intros i Hi. split.
    + apply stop_closed_ready; [|rewrite Ho; tauto].
      destruct Hwf as (_ & Hwf & _). destruct (Hwf _ _ Hi) as (ch & Hlk & _).
      rewrite Hlen. by eapply lookup_lt_Some.
    + intros j Hj. rewrite Ho. unfold connected in *. rewrite Hi. naive_solver.
  - intros k i. unfold connected. rewrite Hm, lookup_delete_Some. naive_solver.
  - intros cx Hcon Hv. rewrite Hcon. destruct (os_poll_recv (os_drop_tx conf) cx) as [conf' r] eqn:E.
    apply os_poll_recv_view in E. rewrite os_drop_tx_view in E. cbn in E. rewrite Hv in E.
    cbn. by destruct E as [-> _].
Qed.

(** [stop_all] tells every listener and every connection to stop: both maps
    are empty afterwards, each channel whose receiver was in one of them is
    closed, and no other channel is. *)
Theorem stop_all_stops_all (cs : ConnectionState Os Dl Dc) :
  cs_wf cs ->
  cs_wf (stop_all cs) /\
  (forall k i, ~ listening (stop_all cs) k i) /\ (forall k i, ~ connected (stop_all cs) k i) /\
  (forall i, (exists k, listening cs k i) \/ (exists k, connected cs k i) ->
     stop_closed (stop_all cs) i = Ready tt) /\
  (forall i, unregistered cs i -> stop_open (stop_all cs) i <-> stop_open cs i).
Proof.
  intros Hwf. split; [by apply stop_all_wf|].
  destruct (stop_all_spec cs) as (Hc & Hl & Hlen & Ho). split_and!.
  - intros k i. unfold listening. by rewrite Hl, lookup_empty.
  - intros k i. unfold connected. by rewrite Hc, lookup_empty.
  - intros i Hi. apply stop_closed_ready; [|rewrite Ho; tauto]. rewrite Hlen.
    destruct Hwf as (H1 & H2 & _).
    destruct Hi as [[k Hk]|[k Hk]]; [apply H1 in Hk|apply H2 in Hk];
      destruct Hk as (ch & Hlk & _); by eapply lookup_lt_Some.
  - intros i [Hu1 Hu2]. rewrite Ho. naive_solver.
Qed.
End properties.

(** ** Witnesses *)

Definition demo_local : SocketAddr := AddrV4 2130706433 8080.
Definition demo_peer : SocketAddr := AddrV4 2130706433 40000.

Definition DemoCS : Type :=
  ConnectionState oneshot_view (gmap SocketAddr nat) (gmap (SocketAddr * SocketAddr) nat).

(** One listener (channel 0) and one started connection (channel 1). *)
Definition demo_cs : DemoCS :=
  mkCS [mkOneshot None true true; mkOneshot None true true]
    {[demo_local := 0%nat]} {[(demo_local, demo_peer) := 1%nat]}.

Lemma demo_cs_wf : cs_wf demo_cs.
Proof.
  unfold cs_wf, listening, connected, demo_cs, dm_view, gmap_dashmap_spec.
  cbn [listeners connections].
  split_and!; intros *; rewrite !lookup_singleton_Some.
  1, 2: intros [_ <-]; by eexists.
  all: naive_solver.
Qed.

Lemma close_stops_connection_witness :
  exists c' conf' cs',
    close (mkConn true None demo_local demo_peer) (os_new : oneshot_view (unit * ConnConfig)) demo_cs
      = Ret (c', conf', cs', Ok tt) /\ stop_closed cs' 1 = Ready tt.
Proof.
  destruct (close_stops_connection (mkConn true None demo_local demo_peer)
    (os_new : oneshot_view (unit * ConnConfig)) demo_cs eq_refl demo_cs_wf)
    as (c' & conf' & cs' & E & _ & _ & Hi & _).
  exists c', conf', cs'. split; [exact E|]. apply Hi. reflexivity.
Defined.

Lemma stop_all_stops_all_witness :
  stop_closed (stop_all demo_cs) 0 = Ready tt /\ stop_closed (stop_all demo_cs) 1 = Ready tt.
Proof.
  destruct (stop_all_stops_all demo_cs demo_cs_wf) as (_ & _ & _ & Hi & _).
  split; apply Hi; [left; by exists demo_local|right; by exists (demo_local, demo_peer)].
Defined.
