(* ===== verification/ConnHandle.v ===== *)
(** * The task of one connection ([conn_handle.rs])

    [handle_connection] spawns a task that calls [OnConnect], waits for the user
    to start the connection, spawns the reader and the writer and joins them.
    The task is a state machine; between two of its steps the user may use the
    [Conn] it was given, other tasks may use the shared [ConnectionState], and
    the reader and the writer run. *)

From S2P Require Import Prelude Config Oneshot Conn.

(** The states of the callback [on_conn] ([ConnState] of [lib.rs]); the sender
    and the [Conn] of [OnConnect] are in the state of the connection. *)
Inductive ConnState : Type :=
| OnConnect (local peer : SocketAddr)
| OnRemoteClose (local peer : SocketAddr)
| OnConnectionClose (local peer : SocketAddr)
| OnListenError (addr : SocketAddr) (error : io_error)
| OnConnectError (addr : SocketAddr) (error : io_error).

(** ** Tasks of the tokio runtime *)

Inductive JoinError : Type :=
| Cancelled
| Panicked.

Definition task_output : Type := result (io_result unit) JoinError.

(** A spawned task [J] with what it shares with other threads: a step [E] of the
    task or of another thread, the output of the task once it has
    finished, and [AbortHandle::abort]. *)
Class TaskOps (E J : Type) : Type := {
  tk_step : E -> J -> J;
  tk_output : J -> option task_output;
  tk_abort : J -> J
}.

(** [tk_stopping] tells that a task has finished or was told to abort.  A
    finished task keeps its output; a task that was told to abort may still run
    for a while, or finish before it takes notice. *)
Class TaskSpec (E J : Type) `{TaskOps E J} : Type := {
  tk_stopping : J -> bool;
  tk_step_output e j o : tk_output j = Some o -> tk_output (tk_step e j) = Some o;
  tk_abort_output j o : tk_output j = Some o -> tk_output (tk_abort j) = Some o;
  tk_output_stopping j o : tk_output j = Some o -> tk_stopping j = true;
  tk_abort_stopping j : tk_stopping (tk_abort j) = true;
  tk_step_stopping e j : tk_stopping j = true -> tk_stopping (tk_step e j) = true
}.

(** [JoinHandle]: polling one again after it gave its output panics. *)
Record JoinHandle (J : Type) : Type := mkJoinHandle {
  jh_task : J;
  jh_taken : bool
}.

Arguments mkJoinHandle {J}.
Arguments jh_task {J}.
Arguments jh_taken {J}.

Definition jh_poll {E J} `{TaskOps E J} (h : JoinHandle J)
  : outcome (JoinHandle J * poll task_output) :=
  if jh_taken h then Panic
  else match tk_output (jh_task h) with
       | Some o => Ret (mkJoinHandle (jh_task h) true, Ready o)
       | None => Ret (h, Pending)
       end.

Definition jh_map {J} (f : J -> J) (h : JoinHandle J) : JoinHandle J :=
  mkJoinHandle (f (jh_task h)) (jh_taken h).

(** ** The connection *)

(** The await points of the task; as other threads may run at the same time, no
    step of it makes more than one access to shared state.  [CT_Dropped]: the
    runtime was shut down before the task had ended. *)
Inductive ConnTask (M : Type) : Type :=
| CT_Spawned
| CT_Callback
| CT_WaitStart
| CT_Start (on_msg : M) (config : ConnConfig)
| CT_Join (stop : nat) (writer_stopped reader_stopped : bool)
| CT_Remove
| CT_Close
| CT_Done
| CT_Dropped.

Arguments CT_Spawned {M}.
Arguments CT_Callback {M}.
Arguments CT_WaitStart {M}.
Arguments CT_Start {M}.
Arguments CT_Join {M}.
Arguments CT_Remove {M}.
Arguments CT_Close {M}.
Arguments CT_Done {M}.
Arguments CT_Dropped {M}.

(** [l_socket] is the stream and the [MsgRcv] that the task owns until it starts
    the reader and the writer; [l_conn] the [Conn] while the user has it. *)
Record ConnLocal (Os : Type -> Type) (S M Jw Jr : Type) : Type := mkLocal {
  l_local : SocketAddr;
  l_peer : SocketAddr;
  l_socket : option S;
  l_conf : Os (M * ConnConfig)%type;
  l_conn : option Conn;
  l_task : ConnTask M;
  l_writer : option (JoinHandle Jw);
  l_reader : option (JoinHandle Jr)
}.

Arguments mkLocal {Os S M Jw Jr}.
Arguments l_local {Os S M Jw Jr}.
Arguments l_peer {Os S M Jw Jr}.
Arguments l_socket {Os S M Jw Jr}.
Arguments l_conf {Os S M Jw Jr}.
Arguments l_conn {Os S M Jw Jr}.
Arguments l_task {Os S M Jw Jr}.
Arguments l_writer {Os S M Jw Jr}.
Arguments l_reader {Os S M Jw Jr}.

(** [stream.into_split()] and [handle.spawn] of the two futures. *)
Class SpawnOps (S M Jw Jr : Type) : Type := {
  spawn_writer : S -> ConnConfig -> Jw;
  spawn_reader : S -> M -> ConnConfig -> Jr
}.

(** The branches of the [select!] of [join_reader_writer].  It is not biased:
    the branches are polled in order from a random one on. *)
Inductive JoinBranch : Type :=
| B_Stop
| B_Writer
| B_Reader.

Definition branch_order (start : nat) : list JoinBranch :=
  match (start mod 3)%nat with
  | 0%nat => [B_Stop; B_Writer; B_Reader]
  | 1%nat => [B_Writer; B_Reader; B_Stop]
  | _ => [B_Reader; B_Stop; B_Writer]
  end.

(** The result of one [select!]: wait, go around the loop with new flags, or
    leave it. *)
Inductive JoinResult : Type :=
| J_Pending
| J_Continue (writer_stopped reader_stopped : bool)
| J_Break.

Section defs.
Context {Os : Type -> Type} {Dl Dc S M Ew Jw Er Jr : Type}.
Context `{OneshotOps Os} `{!DashMapOps SocketAddr nat Dl}
  `{!DashMapOps (SocketAddr * SocketAddr) nat Dc}
  `{!TaskOps Ew Jw} `{!TaskOps Er Jr} `{!SpawnOps S M Jw Jr}.
#[local] Abbreviation CS := (ConnectionState Os Dl Dc).
#[local] Abbreviation Local := (ConnLocal Os S M Jw Jr).
Implicit Types (cs : CS) (l : Local).

(** [handle_connection]: a new configuration channel and a new task. *)
Definition handle_connection (local peer : SocketAddr) (socket : S) : Local :=
  mkLocal local peer (Some socket) os_new None CT_Spawned None None.

Definition set_task l (t : ConnTask M) : Local :=
  mkLocal (l_local l) (l_peer l) (l_socket l) (l_conf l) (l_conn l) t (l_writer l) (l_reader l).

Definition set_handles l (w : option (JoinHandle Jw)) (r : option (JoinHandle Jr)) : Local :=
  mkLocal (l_local l) (l_peer l) (l_socket l) (l_conf l) (l_conn l) (l_task l) w r.

(** [writer_abort.abort()] and [reader_abort.abort()]. *)
Definition abort_writer l : Local :=
  set_handles l (jh_map tk_abort <$> l_writer l) (l_reader l).
Definition abort_reader l : Local :=
  set_handles l (l_writer l) (jh_map tk_abort <$> l_reader l).

(** One pass over the branches of the [select!] of [join_reader_writer], with the
    body of the branch that is ready. *)
Fixpoint join_select (branches : list JoinBranch) cs (stop : nat)
    (writer_stopped reader_stopped : bool) l
  : outcome (Local * list ConnState * JoinResult) :=
  match branches with
  | [] => Ret (l, [], J_Pending)
  | B_Stop :: rest =>
      match stop_closed cs stop with
      | Ready _ => Ret (abort_reader (abort_writer l), [], J_Break)
      | Pending => join_select rest cs stop writer_stopped reader_stopped l
      end
  | B_Writer :: rest =>
      if writer_stopped then join_select rest cs stop writer_stopped reader_stopped l
      else
        match l_writer l with
        | None => Panic
        | Some h =>
            let* '(h, w) := jh_poll h in
            let l := set_handles l (Some h) (l_reader l) in
            match w with
            | Pending => join_select rest cs stop writer_stopped reader_stopped l
            | Ready (Ok (Ok _)) =>
                if reader_stopped then Ret (l, [], J_Break)
                else Ret (l, [], J_Continue true reader_stopped)
            | Ready (Ok (Err _)) => Ret (abort_reader l, [], J_Break)
            | Ready (Err _) => Ret (abort_reader l, [], J_Break)
            end
        end
  | B_Reader :: rest =>
      if reader_stopped then join_select rest cs stop writer_stopped reader_stopped l
      else
        match l_reader l with
        | None => Panic
        | Some h =>
            let* '(h, r) := jh_poll h in
            let l := set_handles l (l_writer l) (Some h) in
            match r with
            | Pending => join_select rest cs stop writer_stopped reader_stopped l
            | Ready (Ok (Ok _)) =>
                let ev := [OnRemoteClose (l_local l) (l_peer l)] in
                if writer_stopped then Ret (l, ev, J_Break)
                else Ret (l, ev, J_Continue writer_stopped true)
            | Ready (Ok (Err _)) => Ret (abort_writer l, [], J_Break)
            | Ready (Err _) => Ret (abort_writer l, [], J_Break)
            end
        end
  end.

(** The end of [wait_for_start]: its receiver is dropped.  When the connection
    was not started the stream and the [MsgRcv] go with the rest of the task. *)
Definition end_wait l (t : ConnTask M) : Local :=
  mkLocal (l_local l) (l_peer l) (l_socket l) (os_drop_rx (l_conf l)) (l_conn l) t
    (l_writer l) (l_reader l).

(** The end of [join_reader_writer] drops the sending end [stop]. *)
Definition drop_stop cs (stop : nat) : CS :=
  mkCS (alter os_drop_tx stop (stops cs)) (listeners cs) (connections cs).

(** One step of the task.  [start] is the random start of a [select!], [ret]
    what the callback returns when it is called with [OnConnect]. *)
Definition conn_task_step (cx : Waker) (start : nat) (ret : result unit string) cs l
  : outcome (CS * Local * list ConnState) :=
  match l_task l with
  | CT_Spawned =>
      let conn := conn_new (l_local l) (l_peer l) in
      let l := mkLocal (l_local l) (l_peer l) (l_socket l) (l_conf l) (Some conn) CT_Callback
                 (l_writer l) (l_reader l) in
      Ret (cs, l, [OnConnect (l_local l) (l_peer l)])
  | CT_Callback =>
      match ret with
      | Ok _ => Ret (cs, set_task l CT_WaitStart, [])
      | Err _ => Ret (cs, end_wait l CT_Close, [])
      end
  | CT_WaitStart =>
      let '(conf, r) := os_poll_recv (l_conf l) cx in
      let l := mkLocal (l_local l) (l_peer l) (l_socket l) conf (l_conn l) (l_task l)
                 (l_writer l) (l_reader l) in
      match r with
      | Pending => Ret (cs, l, [])
      | Ready (Ok (on_msg, config)) => Ret (cs, end_wait l (CT_Start on_msg config), [])
      | Ready (Err _) => Ret (cs, end_wait l CT_Close, [])
      end
  | CT_Start on_msg config =>
      match l_socket l with
      | None => Panic
      | Some socket =>
          let '(cs, stop) := new_stop cs in
          let writer := spawn_writer socket config in
          let reader := spawn_reader socket on_msg config in
          let cs := insert_connection cs (l_local l, l_peer l) stop in
          Ret (cs, mkLocal (l_local l) (l_peer l) None (l_conf l) (l_conn l)
                     (CT_Join stop false false)
                     (Some (mkJoinHandle writer false)) (Some (mkJoinHandle reader false)), [])
      end
  | CT_Join stop writer_stopped reader_stopped =>
      let* '(l, ev, r) :=
        join_select (branch_order start) cs stop writer_stopped reader_stopped l in
      match r with
      | J_Pending => Ret (cs, l, ev)
      | J_Continue w r => Ret (cs, set_task l (CT_Join stop w r), ev)
      | J_Break =>
          Ret (drop_stop cs stop, set_task l CT_Remove, ev)
      end
  | CT_Remove =>
      Ret (remove_connection cs (l_local l, l_peer l), set_task l CT_Close, [])
  | CT_Close =>
      let l := mkLocal (l_local l) (l_peer l) None (l_conf l) (l_conn l) CT_Done
                 (l_writer l) (l_reader l) in
      Ret (cs, l, [OnConnectionClose (l_local l) (l_peer l)])
  | CT_Done | CT_Dropped => Ret (cs, l, [])
  end.

(** The shutdown of the runtime drops a task where it is suspended, with its stream
    and its ends of the channels; a [Conn] that was not handed out yet goes too.
    The reader and the writer are tasks of their own. *)
Definition drop_conn_task cs l : CS * Local :=
  match l_task l with
  | CT_Done | CT_Dropped => (cs, l)
  | t =>
      let cs := match t with CT_Join stop _ _ => drop_stop cs stop | _ => cs end in
      let conf := match t with CT_Spawned => os_drop_tx (l_conf l) | _ => l_conf l end in
      (cs, mkLocal (l_local l) (l_peer l) None (os_drop_rx conf) (l_conn l) CT_Dropped
             (l_writer l) (l_reader l))
  end.

Inductive ConnPart : Type :=
| P_Task
| P_Writer
| P_Reader.

Definition runtime_drops (part : ConnPart) cs l : CS * Local :=
  match part with
  | P_Task => drop_conn_task cs l
  | P_Writer => (cs, abort_writer l)
  | P_Reader => (cs, abort_reader l)
  end.

(** What the user does with the [Conn] of a connection. *)
Inductive user_action : Type :=
| U_Call (call : conn_call M)
| U_Drop.

Definition conn_user (u : user_action) cs l : outcome (CS * Local) :=
  match l_conn l with
  | None => Ret (cs, l)
  | Some c =>
      match u with
      | U_Call call =>
          let* '(c, conf, cs, _) := conn_do call c (l_conf l) cs in
          Ret (cs, mkLocal (l_local l) (l_peer l) (l_socket l) conf (Some c) (l_task l)
                     (l_writer l) (l_reader l))
      | U_Drop =>
          Ret (cs, mkLocal (l_local l) (l_peer l) (l_socket l) (drop_conn c (l_conf l)) None
                     (l_task l) (l_writer l) (l_reader l))
      end
  end.

(** A step of the writer or of the reader. *)
Definition writer_runs (e : Ew) l : Local :=
  set_handles l (jh_map (tk_step e) <$> l_writer l) (l_reader l).
Definition reader_runs (e : Er) l : Local :=
  set_handles l (l_writer l) (jh_map (tk_step e) <$> l_reader l).

(** A run of the task alone, one step for every element of [starts]. *)
Fixpoint conn_task_run (cx : Waker) (ret : result unit string) (starts : list nat) cs l
  : outcome (CS * Local * list ConnState) :=
  match starts with
  | [] => Ret (cs, l, [])
  | start :: starts =>
      let* '(cs, l, ev) := conn_task_step cx start ret cs l in
      let* '(cs, l, evs) := conn_task_run cx ret starts cs l in
      Ret (cs, l, ev ++ evs)
  end.
End defs.

Arguments user_action M : clear implicits.

(** ** Specification *)

Section spec.
Context {Os : Type -> Type} {Dl Dc S M Ew Jw Er Jr : Type}.
Context `{OneshotSpec Os} `{!DashMapOps SocketAddr nat Dl}
  `{!DashMapOps (SocketAddr * SocketAddr) nat Dc}
  `{!DashMapSpec SocketAddr nat Dl} `{!DashMapSpec (SocketAddr * SocketAddr) nat Dc}
  `{TaskSpec Ew Jw} `{TaskSpec Er Jr} `{!SpawnOps S M Jw Jr}.
#[local] Abbreviation CS := (ConnectionState Os Dl Dc).
#[local] Abbreviation Local := (ConnLocal Os S M Jw Jr).
Implicit Types (cs : CS) (l : Local) (evs : list ConnState).

Definition ended_ok : task_output := Ok (Ok tt).

(** A task that ended, as its [JoinHandle] shows it. *)
Definition output_of {E J} `{TaskOps E J} (h : option (JoinHandle J)) : option task_output :=
  h ← h; tk_output (jh_task h).
Definition stopping_of {E J} `{TaskSpec E J} (h : option (JoinHandle J)) : Prop :=
  exists h', h = Some h' /\ tk_stopping (jh_task h') = true.

(** The effect of a [select!] of [join_reader_writer]: any one of the branches
    that are ready, or nothing when none is. *)
Inductive selected cs (stop : nat) (ws rs : bool) l : Local -> list ConnState -> JoinResult -> Prop :=
| sel_none :
    stop_closed cs stop = Pending ->
    (ws = true \/ output_of (l_writer l) = None) ->
    (rs = true \/ output_of (l_reader l) = None) ->
    selected cs stop ws rs l l [] J_Pending
| sel_stop :
    stop_closed cs stop = Ready tt ->
    selected cs stop ws rs l (abort_reader (abort_writer l)) [] J_Break
| sel_writer_ok h :
    ws = false -> l_writer l = Some h -> tk_output (jh_task h) = Some ended_ok ->
    selected cs stop ws rs l (set_handles l (Some (mkJoinHandle (jh_task h) true)) (l_reader l)) []
      (if rs then J_Break else J_Continue true rs)
| sel_writer_err h o :
    ws = false -> l_writer l = Some h -> tk_output (jh_task h) = Some o -> o <> ended_ok ->
    selected cs stop ws rs l
      (abort_reader (set_handles l (Some (mkJoinHandle (jh_task h) true)) (l_reader l))) [] J_Break
| sel_reader_ok h :
    rs = false -> l_reader l = Some h -> tk_output (jh_task h) = Some ended_ok ->
    selected cs stop ws rs l (set_handles l (l_writer l) (Some (mkJoinHandle (jh_task h) true)))
      [OnRemoteClose (l_local l) (l_peer l)]
      (if ws then J_Break else J_Continue ws true)
| sel_reader_err h o :
    rs = false -> l_reader l = Some h -> tk_output (jh_task h) = Some o -> o <> ended_ok ->
    selected cs stop ws rs l
      (abort_writer (set_handles l (l_writer l) (Some (mkJoinHandle (jh_task h) true)))) [] J_Break.

(** A handle in the loop: it was polled to the end exactly if its flag is set,
    and then the task had ended with [Ok]. *)
Definition joining {E J} `{TaskOps E J} (h : option (JoinHandle J)) (stopped : bool) : Prop :=
  exists h', h = Some h' /\ jh_taken h' = stopped /\
    (stopped = true -> tk_output (jh_task h') = Some ended_ok).

(** The callbacks that were made for a connection, in order. *)
Definition events_ok l evs : Prop :=
  let c := OnConnect (l_local l) (l_peer l) in
  let r := OnRemoteClose (l_local l) (l_peer l) in
  let x := OnConnectionClose (l_local l) (l_peer l) in
  match l_task l with
  | CT_Spawned => evs = []
  | CT_Callback | CT_WaitStart | CT_Start _ _ => evs = [c]
  | CT_Join _ _ rs => evs = if rs then [c; r] else [c]
  | CT_Remove | CT_Close =>
      evs = [c] \/ evs = [c; r] /\ output_of (l_reader l) = Some ended_ok
  | CT_Done =>
      evs = [c; x] \/ evs = [c; r; x] /\ output_of (l_reader l) = Some ended_ok
  | CT_Dropped =>
      (evs = [] \/ evs = [c]) \/ evs = [c; r] /\ output_of (l_reader l) = Some ended_ok
  end.

(** The reader and the writer: not there before the start, stopping at the end;
    in between the connection is in the map or was told to stop. *)
Definition handles_ok cs l : Prop :=
  match l_task l with
  | CT_Spawned | CT_Callback | CT_WaitStart | CT_Start _ _ =>
      l_writer l = None /\ l_reader l = None /\ is_Some (l_socket l)
  | CT_Join stop ws rs =>
      (stop < length (stops cs))%nat /\
      (stop_open cs stop -> connected cs (l_local l, l_peer l) stop) /\
      joining (l_writer l) ws /\ joining (l_reader l) rs /\ (ws && rs) = false
  | CT_Remove => stopping_of (l_writer l) /\ stopping_of (l_reader l)
  | CT_Close | CT_Done =>
      (l_writer l = None /\ l_reader l = None) \/
      (stopping_of (l_writer l) /\ stopping_of (l_reader l))
  | CT_Dropped => True
  end.

(** The [Conn] and the configuration channel: the task waits on it until the
    connection starts, the setter is in the [Conn] or gone. *)
Definition conf_ok l : Prop :=
  o_rx (os_view (l_conf l)) =
    match l_task l with CT_Spawned | CT_Callback | CT_WaitStart => true | _ => false end /\
  match l_conn l with
  | Some c => conn_wf c /\ local_addr c = l_local l /\ peer_addr c = l_peer l /\
      o_tx (os_view (l_conf l)) = negb (Conn.consumed c) /\
      (Conn.consumed c = false -> o_value (os_view (l_conf l)) = None) /\
      l_task l <> CT_Spawned
  | None => l_task l = CT_Spawned /\ os_view (l_conf l) = mkOneshot None true true \/
      l_task l <> CT_Spawned /\ o_tx (os_view (l_conf l)) = false
  end.

Definition conn_inv cs l evs : Prop := events_ok l evs /\ handles_ok cs l /\ conf_ok l.
End spec.

(** ** Lemmas *)

Section lemmas.
Context {Os : Type -> Type} {Dl Dc S M Ew Jw Er Jr : Type}.
Context `{OneshotSpec Os} `{!DashMapOps SocketAddr nat Dl}
  `{!DashMapOps (SocketAddr * SocketAddr) nat Dc}
  `{!DashMapSpec SocketAddr nat Dl} `{!DashMapSpec (SocketAddr * SocketAddr) nat Dc}
  `{TaskSpec Ew Jw} `{TaskSpec Er Jr} `{!SpawnOps S M Jw Jr}.
#[local] Abbreviation CS := (ConnectionState Os Dl Dc).
#[local] Abbreviation Local := (ConnLocal Os S M Jw Jr).
Implicit Types (cs : CS) (l : Local) (evs : list ConnState).

Lemma set_handles_id l : set_handles l (l_writer l) (l_reader l) = l.
Proof. by destruct l. Qed.

(** A branch that is not ready. *)
Definition not_ready cs (stop : nat) (ws rs : bool) l (b : JoinBranch) : Prop :=
  match b with
  | B_Stop => stop_closed cs stop = Pending
  | B_Writer => ws = true \/ output_of (l_writer l) = None
  | B_Reader => rs = true \/ output_of (l_reader l) = None
  end.

(** The first branch is skipped or gives one of the allowed effects. *)
Lemma join_select_first cs stop ws rs l b rest :
  joining (l_writer l) ws -> joining (l_reader l) rs ->
  (join_select (b :: rest) cs stop ws rs l = join_select rest cs stop ws rs l /\
   not_ready cs stop ws rs l b) \/
  exists l' ev r, join_select (b :: rest) cs stop ws rs l = Ret (l', ev, r) /\
    selected cs stop ws rs l l' ev r.
Proof.
  intros (hw & Hw & Htw & _) (hr & Hr & Htr & _).
  assert (set_handles l (Some hw) (l_reader l) = l) as Hlw by (rewrite <- Hw; by destruct l).
  assert (set_handles l (l_writer l) (Some hr) = l) as Hlr by (rewrite <- Hr; by destruct l).
  unfold not_ready. destruct b; cbn [join_select].
  - destruct (stop_closed cs stop) as [[]|] eqn:E; [right|by left].
    eexists _, _, _. split; [done|]. by apply sel_stop.
  - destruct ws; [by left; split; [|left]|]. rewrite Hw. unfold jh_poll. rewrite Htw.
    destruct (tk_output (jh_task hw)) as [o|] eqn:E; cbn [obind];
      [right|left; split; [by rewrite Hlw|right; cbn; done]].
    destruct o as [[[]|e]|e]; [destruct rs|..]; eexists _, _, _; (split; [done|]).
    + by apply (sel_writer_ok cs stop false true l hw).
    + by apply (sel_writer_ok cs stop false false l hw).
    + by eapply sel_writer_err.
    + by eapply sel_writer_err.
  - destruct rs; [by left; split; [|left]|]. rewrite Hr. unfold jh_poll. rewrite Htr.
    destruct (tk_output (jh_task hr)) as [o|] eqn:E; cbn [obind];
      [right|left; split; [by rewrite Hlr|right; cbn; done]].
    destruct o as [[[]|e]|e]; [destruct ws|..]; eexists _, _, _; (split; [done|]).
    + by apply (sel_reader_ok cs stop true false l hr).
    + by apply (sel_reader_ok cs stop false false l hr).
    + by eapply sel_reader_err.
    + by eapply sel_reader_err.
Qed.

Lemma branch_order_perm start : Permutation (branch_order start) [B_Stop; B_Writer; B_Reader].
Proof.
  unfold branch_order. destruct (start mod 3)%nat as [|[|]]; [done|..].
  - apply (Permutation_app_comm [B_Writer; B_Reader] [B_Stop]).
  - apply (Permutation_app_comm [B_Reader] [B_Stop; B_Writer]).
Qed.

(** Every order of the branches gives one of the allowed effects. *)
Lemma join_select_selected cs start stop ws rs l :
  joining (l_writer l) ws -> joining (l_reader l) rs ->
  exists l' ev r, join_select (branch_order start) cs stop ws rs l = Ret (l', ev, r) /\
    selected cs stop ws rs l l' ev r.
Proof.
  intros Hw Hr.
  assert (forall bs, (forall b, b ∈ bs \/ not_ready cs stop ws rs l b) ->
    exists l' ev r, join_select bs cs stop ws rs l = Ret (l', ev, r) /\
      selected cs stop ws rs l l' ev r) as Hgen.
  { induction bs as [|b bs IH]; intros Hall.
    - eexists _, _, _. split; [done|].
      assert (forall b, not_ready cs stop ws rs l b) as Hn
        by (intros b; by destruct (Hall b) as [Hin%elem_of_nil|]).
      apply sel_none; [apply (Hn B_Stop)|apply (Hn B_Writer)|apply (Hn B_Reader)].
    - destruct (join_select_first cs stop ws rs l b bs Hw Hr) as [[-> Hb]|]; [|done].
      apply IH. intros b'. destruct (Hall b') as [Hin|]; [|by right].
      apply elem_of_cons in Hin as [->|]; [by right|by left]. }
  apply Hgen. intros b. left. rewrite branch_order_perm. destruct b; set_solver.
Qed.

(** *** What keeps the shared state well-formed *)

Lemma drop_stop_open cs stop i : stop_open (drop_stop cs stop) i <-> stop_open cs i.
Proof.
  unfold stop_open, drop_stop; cbn. destruct (decide (stop = i)) as [->|Hne].
  - rewrite list_lookup_alter_eq. destruct (stops cs !! i) as [c|]; cbn; [|done].
    split; intros (c' & [= <-] & Hc); eexists; (split; [done|]);
      rewrite ?os_drop_tx_view in *; done.
  - by rewrite list_lookup_alter_ne.
Qed.

Lemma drop_stop_wf cs stop : cs_wf cs -> cs_wf (drop_stop cs stop).
Proof.
  unfold cs_wf. setoid_rewrite drop_stop_open. done.
Qed.

(** How the shared state changes: channels are added and closed but not opened
    again, and what leaves a map was told to stop. *)
Definition cs_step cs cs' : Prop :=
  (length (stops cs) <= length (stops cs'))%nat /\
  forall i, (i < length (stops cs))%nat -> stop_open cs' i ->
    stop_open cs i /\
    (forall k, connected cs k i -> connected cs' k i) /\
    (forall k, listening cs k i -> listening cs' k i).

#[global] Instance cs_step_refl : Reflexive cs_step.
Proof. intros cs. by split. Qed.

#[global] Instance cs_step_trans : Transitive cs_step.
Proof.
  intros c1 c2 c3 [A1 A2] [B1 B2]. split; [lia|]. intros i Hi Ho3.
  destruct (B2 i) as (Ho2 & Bc & Bl); [lia|done|]. destruct (A2 i Hi Ho2) as (Ho1 & Ac & Al).
  split_and!; auto.
Qed.

Lemma cs_step_new_stop cs cs' stop : new_stop cs = (cs', stop) -> cs_step cs cs'.
Proof.
  intros E. pose proof (new_stop_spec _ _ _ E) as (-> & Hlen & Hc & Hl & Ho).
  unfold cs_step, connected, listening. rewrite Hc, Hl, Hlen. split; [lia|].
  intros i Hi Hi'. apply Ho in Hi' as [?| ->]; [done|lia].
Qed.

Lemma cs_step_insert_connection cs k j : cs_step cs (insert_connection cs k j).
Proof.
  destruct (insert_connection_spec cs k j) as (Hl & Hc & Hlen & Ho).
  unfold cs_step, listening, connected in *. rewrite Hlen, Hl, Hc. split; [lia|].
  intros i _ [Hi Hn]%Ho. split_and!; try done. intros k' Hk. apply lookup_insert_Some.
  right. split; [|done]. by intros ->.
Qed.

Lemma cs_step_insert_listener cs k j : cs_step cs (insert_listener cs k j).
Proof.
  destruct (insert_listener_spec cs k j) as (Hc & Hl & Hlen & Ho).
  unfold cs_step, listening, connected in *. rewrite Hlen, Hl, Hc. split; [lia|].
  intros i _ [Hi Hn]%Ho. split_and!; try done. intros k' Hk. apply lookup_insert_Some.
  right. split; [|done]. by intros ->.
Qed.

Lemma cs_step_remove cs k : cs_step cs (remove_connection cs k).
Proof.
  destruct (remove_connection_spec cs k) as (Hl & Hc & Hlen & Ho).
  unfold cs_step, listening, connected in *. rewrite Hlen, Hl, Hc. split; [lia|].
  intros i _ [Hi Hn]%Ho. split_and!; try done. intros k' Hk. apply lookup_delete_Some.
  split; [|done]. by intros ->.
Qed.

Lemma cs_step_remove_listener cs k cs' b : remove_listener cs k = (cs', b) -> cs_step cs cs'.
Proof.
  intros E. pose proof (remove_listener_spec _ _ _ _ E) as (Hc & Hl & Hlen & Ho & _).
  unfold cs_step, listening, connected in *. rewrite Hlen, Hl, Hc. split; [lia|].
  intros i _ [Hi Hn]%Ho. split_and!; try done. intros k' Hk. apply lookup_delete_Some.
  split; [|done]. by intros ->.
Qed.

Lemma cs_step_clear_listeners cs : cs_step cs (clear_listeners cs).
Proof.
  destruct (clear_listeners_spec cs) as (Hc & Hl & Hlen & Ho).
  unfold cs_step, listening, connected in *. rewrite Hlen, Hl, Hc. split; [lia|].
  intros i _ [Hi Hn]%Ho. split_and!; try done. intros k' Hk. destruct Hn. by exists k'.
Qed.

Lemma cs_step_clear_connections cs : cs_step cs (clear_connections cs).
Proof.
  destruct (clear_connections_spec cs) as (Hl & Hc & Hlen & Ho).
  unfold cs_step, listening, connected in *. rewrite Hlen, Hl, Hc. split; [lia|].
  intros i _ [Hi Hn]%Ho. split_and!; try done. intros k' Hk. destruct Hn. by exists k'.
Qed.

Lemma cs_step_drop_stop cs i : cs_step cs (drop_stop cs i).
Proof.
  split; [cbn; by rewrite length_alter|]. intros j _ Hj. by apply drop_stop_open in Hj.
Qed.

(** The start of a connection or of a listener: a new channel goes into a map. *)
Lemma cs_step_start cs cs' stop k :
  new_stop cs = (cs', stop) ->
  cs_step cs (insert_connection cs' k stop) /\
  (cs_wf cs -> cs_wf (insert_connection cs' k stop)) /\
  (stop < length (stops (insert_connection cs' k stop)))%nat /\
  connected (insert_connection cs' k stop) k stop.
Proof.
  intros E. pose proof (new_stop_spec _ _ _ E) as (-> & Hlen & _).
  pose proof (insert_connection_spec cs' k (length (stops cs))) as (_ & Hc & Hlen' & _).
  unfold connected. rewrite Hlen', Hc, lookup_insert_eq. split_and!; [| |lia|done].
  - etrans; [by eapply cs_step_new_stop|apply cs_step_insert_connection].
  - intros Hwf. destruct (new_stop_unregistered _ _ _ E Hwf) as [Ho Hu].
    apply insert_connection_wf; try done. by eapply new_stop_wf.
Qed.

Lemma cs_step_listen cs cs' stop k :
  new_stop cs = (cs', stop) ->
  cs_step cs (insert_listener cs' k stop) /\
  (cs_wf cs -> cs_wf (insert_listener cs' k stop)) /\
  (stop < length (stops (insert_listener cs' k stop)))%nat /\
  listening (insert_listener cs' k stop) k stop.
Proof.
  intros E. pose proof (new_stop_spec _ _ _ E) as (-> & Hlen & _).
  pose proof (insert_listener_spec cs' k (length (stops cs))) as (_ & Hl & Hlen' & _).
  unfold listening. rewrite Hlen', Hl, lookup_insert_eq. split_and!; [| |lia|done].
  - etrans; [by eapply cs_step_new_stop|apply cs_step_insert_listener].
  - intros Hwf. destruct (new_stop_unregistered _ _ _ E Hwf) as [Ho Hu].
    apply insert_listener_wf; try done. by eapply new_stop_wf.
Qed.

(** *** The invariant *)

Lemma handles_ok_mono cs cs' l : cs_step cs cs' -> handles_ok cs l -> handles_ok cs' l.
Proof.
  unfold handles_ok. intros [Hle Hst]. destruct (l_task l); try done.
  intros (Hlt & Hreg & ?). split_and!; try tauto; [lia|]. intros Ho.
  destruct (Hst _ Hlt Ho) as (Ho1 & Hc & _). auto.
Qed.

Lemma conn_inv_mono cs cs' l evs : cs_step cs cs' -> conn_inv cs l evs -> conn_inv cs' l evs.
Proof. intros Hle (He & Hh & Hc). split_and!; try done. by eapply handles_ok_mono. Qed.

Lemma handle_connection_inv cs local peer (socket : S) :
  conn_inv cs (handle_connection local peer socket : Local) [].
Proof.
  split_and!; [done|split_and!; try done; by eexists|].
  unfold conf_ok; cbn. rewrite os_new_view. split; [done|]. by left.
Qed.

Lemma joining_stopping {E J} `{TaskSpec E J} (h : option (JoinHandle J)) :
  joining h true -> stopping_of h.
Proof.
  intros (h' & -> & _ & Hs). exists h'. split; [done|]. eapply tk_output_stopping. by apply Hs.
Qed.

Lemma abort_stopping {E J} `{TaskSpec E J} (h : option (JoinHandle J)) b :
  joining h b -> stopping_of (jh_map tk_abort <$> h).
Proof.
  intros (h' & -> & _). eexists. split; [done|]. cbn. apply tk_abort_stopping.
Qed.

Lemma abort_output {E J} `{TaskSpec E J} (h : option (JoinHandle J)) o :
  output_of h = Some o -> output_of (jh_map tk_abort <$> h) = Some o.
Proof. destruct h as [h|]; cbn; [|done]. by apply tk_abort_output. Qed.

Lemma output_stopping {E J} `{TaskSpec E J} (j : J) b o :
  tk_output j = Some o -> stopping_of (Some (mkJoinHandle j b)).
Proof. intros Ho. eexists. split; [done|]. cbn. by eapply tk_output_stopping. Qed.

Lemma joining_output {E J} `{TaskSpec E J} (h : option (JoinHandle J)) :
  joining h true -> output_of h = Some ended_ok.
Proof. intros (h' & -> & _ & Ho). cbn. by apply Ho. Qed.

(** The handles after one [select!]. *)
Lemma selected_handles cs stop ws rs l l' ev r :
  joining (l_writer l) ws -> joining (l_reader l) rs -> (ws && rs) = false ->
  selected cs stop ws rs l l' ev r ->
  l_local l' = l_local l /\ l_peer l' = l_peer l /\ l_conf l' = l_conf l /\
  l_conn l' = l_conn l /\ l_socket l' = l_socket l /\ l_task l' = l_task l /\
  match r with
  | J_Pending => l' = l /\ ev = []
  | J_Continue ws' rs' =>
      joining (l_writer l') ws' /\ joining (l_reader l') rs' /\ (ws' && rs') = false /\
      (ws' = true /\ ws = false /\ rs' = rs /\ ev = [] \/
       ws' = ws /\ rs = false /\ rs' = true /\ ev = [OnRemoteClose (l_local l) (l_peer l)])
  | J_Break =>
      stopping_of (l_writer l') /\ stopping_of (l_reader l') /\
      (rs = true -> output_of (l_reader l') = Some ended_ok) /\
      (ev = [] \/ ev = [OnRemoteClose (l_local l) (l_peer l)] /\ rs = false /\
         output_of (l_reader l') = Some ended_ok)
  end.
Proof.
  intros Hw Hr Hwr Hsel.
  destruct Hsel as [Hs Hnw Hnr|Hs|h -> Hh Ho|h o -> Hh Ho Hne|h -> Hh Ho|h o -> Hh Ho Hne].
  - done.
  - split_and!; try done; cbn.
    + by eapply abort_stopping.
    + by eapply abort_stopping.
    + intros ->. by apply abort_output, joining_output.
    + by left.
  - destruct rs; split_and!; try done; cbn.
    + by eapply output_stopping.
    + by apply joining_stopping.
    + intros _. by apply joining_output.
    + by left.
    + by eexists.
    + by left.
  - split_and!; try done; cbn.
    + by eapply output_stopping.
    + by eapply abort_stopping.
    + intros ->. by apply abort_output, joining_output.
    + by left.
  - destruct ws; split_and!; try done; cbn.
    + by apply joining_stopping.
    + by eapply output_stopping.
    + by right.
    + by eexists.
    + by right.
  - split_and!; try done; cbn.
    + by eapply abort_stopping.
    + by eapply output_stopping.
    + by left.
Qed.

(** The configuration channel when the task moves on without touching it. *)
Lemma conf_ok_move l l' :
  l_conf l' = l_conf l -> l_conn l' = l_conn l -> l_local l' = l_local l -> l_peer l' = l_peer l ->
  match l_task l with CT_Spawned | CT_Callback | CT_WaitStart => false | _ => true end = true ->
  match l_task l' with CT_Spawned | CT_Callback | CT_WaitStart => false | _ => true end = true ->
  conf_ok l -> conf_ok l'.
Proof.
  unfold conf_ok. intros -> -> -> -> Ht Ht' [Hrx Hc]. split.
  - rewrite Hrx. by destruct (l_task l), (l_task l').
  - destruct (l_conn l); [|destruct Hc as [[E _]|[_ Htx]]; [by rewrite E in Ht|right]].
    + destruct Hc as (? & ? & ? & ? & ? & _). split_and!; try done. by destruct (l_task l').
    + split; [|done]. by destruct (l_task l').
Qed.

(** ... and when [wait_for_start] ends, with [conf] as the last poll left it. *)
Lemma conf_ok_end_wait l conf t :
  (l_task l = CT_Callback \/ l_task l = CT_WaitStart) ->
  o_tx (os_view conf) = o_tx (os_view (l_conf l)) ->
  match t with CT_Spawned | CT_Callback | CT_WaitStart => false | _ => true end = true ->
  conf_ok l ->
  conf_ok (end_wait (mkLocal (l_local l) (l_peer l) (l_socket l) conf (l_conn l) (l_task l)
                       (l_writer l) (l_reader l)) t).
Proof.
  unfold conf_ok. intros Hl Htx Ht [Hrx Hc]. cbn. rewrite os_drop_rx_view. cbn.
  split; [by destruct t|]. destruct (l_conn l) as [c|].
  - destruct Hc as (? & ? & ? & Hc & _). split_and!; try done; [congruence|by destruct t].
  - right. split; [by destruct t|]. rewrite Htx. destruct Hc as [[E _]|[_ ?]]; [|done].
    destruct Hl; congruence.
Qed.

(** A join step keeps the invariant. *)
Lemma join_step_inv cs start stop ws rs l evs :
  l_task l = CT_Join stop ws rs -> conn_inv cs l evs ->
  exists l' ev r, join_select (branch_order start) cs stop ws rs l = Ret (l', ev, r) /\
    l_local l' = l_local l /\ l_peer l' = l_peer l /\
    match r with
    | J_Pending => conn_inv cs l' (evs ++ ev)
    | J_Continue ws' rs' => conn_inv cs (set_task l' (CT_Join stop ws' rs')) (evs ++ ev)
    | J_Break => conn_inv cs (set_task l' CT_Remove) (evs ++ ev)
    end.
Proof.
  intros Ht Hinv. pose proof Hinv as (He & Hh & Hc). unfold events_ok, handles_ok in He, Hh.
  rewrite Ht in He, Hh. destruct Hh as (Hstop & Hreg & Hw & Hr & Hwr).
  destruct (join_select_selected cs start stop ws rs l Hw Hr) as (l' & ev & r & E & Hsel).
  exists l', ev, r. split; [done|].
  destruct (selected_handles _ _ _ _ _ _ _ _ Hw Hr Hwr Hsel)
    as (Hlo & Hpe & Hcf & Hcn & Hso & Hta & Hcase). split_and!; try done.
  destruct r as [|ws' rs'|].
  - destruct Hcase as [-> ->]. by rewrite app_nil_r.
  - destruct Hcase as (Hw' & Hr' & Hwr' & Hev). split_and!; cbn.
    + unfold events_ok; cbn. rewrite Hlo, Hpe, He.
      destruct Hev as [(_ & _ & -> & ->)|(-> & -> & -> & ->)]; [by rewrite app_nil_r|done].
    + unfold handles_ok; cbn. by rewrite Hlo, Hpe.
    + apply (conf_ok_move l); try done. by rewrite Ht.
  - destruct Hcase as (Hw' & Hr' & Hro & Hev). split_and!; cbn.
    + unfold events_ok; cbn. rewrite Hlo, Hpe, He.
      destruct Hev as [->|(-> & -> & Ho)]; [|by right].
      rewrite app_nil_r. destruct rs; [right; split; [done|by apply Hro]|by left].
    + done.
    + apply (conf_ok_move l); try done. by rewrite Ht.
Qed.

(** What a step of the task has to show. *)
Definition step_good cx start ret cs l evs : Prop :=
  exists cs' l' ev, conn_task_step cx start ret cs l = Ret (cs', l', ev) /\
    conn_inv cs' l' (evs ++ ev) /\ cs_step cs cs' /\ (cs_wf cs -> cs_wf cs') /\
    l_local l' = l_local l /\ l_peer l' = l_peer l.

(** The steps of [wait_for_start]. *)
Lemma wait_for_start_inv cx start ret cs l evs :
  conn_inv cs l evs -> l_task l = CT_Spawned \/ l_task l = CT_Callback \/ l_task l = CT_WaitStart ->
  step_good cx start ret cs l evs.
Proof.
  intros (He & Hh & Hc) Ht. unfold step_good, conn_task_step, events_ok, handles_ok in *.
  destruct Ht as [Ht|[Ht|Ht]]; rewrite Ht in *.
  - eexists _, _, _. split; [done|]. unfold conn_inv. split_and!; try done; cbn.
    + unfold events_ok; cbn. by rewrite He.
    + unfold conf_ok in *. rewrite Ht in Hc. destruct Hc as [Hrx Hc]. cbn.
      destruct (l_conn l); [by destruct Hc as (_ & _ & _ & _ & _ & ?)|].
      destruct Hc as [[_ Hv]|[? _]]; [|done]. rewrite Hv. done.
  - destruct ret as [[]|e]; eexists _, _, _; (split; [done|]); rewrite app_nil_r;
      unfold conn_inv; split_and!; try done.
    + destruct Hc as [Hrx Hc]. rewrite Ht in Hrx. split; [done|]. cbn.
      destruct (l_conn l); [destruct Hc as (? & ? & ? & ? & ? & ?); by split_and!|].
      right. destruct Hc as [[E _]|[_ ?]]; [congruence|done].
    + by left.
    + left. by destruct Hh as (? & ? & _).
    + assert (l = mkLocal (l_local l) (l_peer l) (l_socket l) (l_conf l) (l_conn l) (l_task l)
        (l_writer l) (l_reader l)) as -> by (by destruct l).
      apply conf_ok_end_wait; try done. by left.
  - destruct (os_poll_recv (l_conf l) cx) as [conf r] eqn:E. apply os_poll_recv_view in E.
    assert (o_tx (os_view conf) = o_tx (os_view (l_conf l))) as Htx
      by (destruct (o_value _); destruct E as [_ ->]; done).
    destruct r as [[[on_msg config]|[]]|]; eexists _, _, _; (split; [done|]); rewrite app_nil_r;
      unfold conn_inv; split_and!; try done.
    + apply conf_ok_end_wait; try done. by right.
    + by left.
    + left. by destruct Hh as (? & ? & _).
    + apply conf_ok_end_wait; try done. by right.
    + unfold conf_ok in *; cbn. rewrite Ht in Hc.
      destruct (o_value (os_view (l_conf l))) eqn:Ev; [by destruct E|]. destruct E as [_ ->].
      by rewrite Ev.
Qed.

(** Every step of the task keeps the invariant, and none of them panics. *)
Lemma conn_task_step_inv cx start ret cs l evs :
  conn_inv cs l evs -> step_good cx start ret cs l evs.
Proof.
  intros Hinv. destruct (l_task l) as [| | |on_msg config|stop ws rs| | | |] eqn:Ht;
    [apply wait_for_start_inv; by auto..| | | | | |].
  all: pose proof Hinv as (He & Hh & Hc); unfold step_good, conn_task_step, events_ok, handles_ok in *;
    rewrite Ht in *.
  - destruct Hh as (_ & _ & [socket Hso]). rewrite Hso.
    destruct (new_stop cs) as [cs' stop] eqn:E.
    destruct (cs_step_start cs cs' stop (l_local l, l_peer l) E) as (Hst & Hwf & Hlt & Hreg).
    eexists _, _, _. split; [done|]. rewrite app_nil_r. unfold conn_inv. split_and!; try done; try apply Hst.
    + split; [done|]. split_and!; try done; by eexists.
    + apply (conf_ok_move l); try done. by rewrite Ht.
  - destruct (join_step_inv cs start stop ws rs l evs Ht Hinv)
      as (l' & ev & r & E & Hlo & Hpe & Hcase). rewrite E. cbn [obind].
    destruct r as [|ws' rs'|]; eexists _, _, _; (split; [done|]); split_and!; try done.
    all: try apply cs_step_drop_stop; try apply drop_stop_wf.
  - eexists _, _, _. split; [done|]. rewrite app_nil_r. unfold conn_inv.
    split_and!; try done; try apply cs_step_remove; try apply remove_connection_wf.
    + by right.
    + apply (conf_ok_move l); try done. by rewrite Ht.
  - eexists _, _, _. split; [done|]. unfold conn_inv. split_and!; try done; cbn.
    + unfold events_ok; cbn. destruct He as [->|[-> ?]]; [by left|by right].
    + apply (conf_ok_move l); try done. by rewrite Ht.
  - eexists _, _, _. split; [done|]. by rewrite app_nil_r.
  - eexists _, _, _. split; [done|]. by rewrite app_nil_r.
Qed.

(** So do the actions of the user ... *)
Lemma conn_user_inv u cs l evs :
  conn_inv cs l evs ->
  exists cs' l', conn_user u cs l = Ret (cs', l') /\ conn_inv cs' l' evs /\ cs_step cs cs' /\
    (cs_wf cs -> cs_wf cs') /\
    l_local l' = l_local l /\ l_peer l' = l_peer l /\ l_task l' = l_task l.
Proof.
  intros Hinv. pose proof Hinv as (He & Hh & Hrx & Hc). unfold conn_user.
  destruct (l_conn l) as [c|] eqn:Ecn; [|by eexists _, _].
  destruct Hc as (Hwf & Hlo & Hpe & Htx & Hv & Hsp).
  destruct u as [[on_msg config|]|].
  - unfold conn_do, start_connection, conn_wf in *. destruct c as [[] inn lo pe]; cbn in *.
    + subst inn. eexists _, _. split; [done|]. split_and!; try done.
    + subst inn. destruct (os_send (l_conf l) (on_msg, config)) as [conf r] eqn:E.
      apply os_send_view in E.
      assert (o_tx (os_view conf) = false /\ o_rx (os_view conf) = o_rx (os_view (l_conf l)))
        as [Htx' Hrx'] by (destruct (o_rx (os_view (l_conf l))); by destruct E as [_ ->]).
      assert (conn_inv cs (mkLocal (l_local l) (l_peer l) (l_socket l) conf
        (Some (mkConn true None lo pe)) (l_task l) (l_writer l) (l_reader l)) evs) as Hinv'.
      { unfold conn_inv. split_and!; try done. split; cbn; [congruence|done]. }
      destruct r; eexists _, _; (split; [done|]); by split_and!.
  - cbn [conn_do]. rewrite (close_spec c) by done. cbn [obind].
    pose proof (cs_step_remove cs (local_addr c, peer_addr c)) as Hstep.
    eexists _, _. split; [done|]. split_and!; try done; try apply remove_connection_wf.
    unfold conn_inv. split_and!; try done; [by apply (handles_ok_mono cs)|].
    unfold conf_ok; cbn. destruct (Conn.consumed c) eqn:Ec; [by split_and!|].
    rewrite os_drop_tx_view. by split_and!.
  - eexists _, _. split; [done|]. split_and!; try done.
    unfold conn_inv. split_and!; try done. unfold conf_ok, drop_conn; cbn. rewrite Hwf.
    destruct (Conn.consumed c) eqn:Ec; [by split; [|right]|].
    rewrite os_drop_tx_view. by split; [|right].
Qed.

Lemma joining_map {E J} `{TaskSpec E J} (h : option (JoinHandle J)) b (f : J -> J) :
  (forall j o, tk_output j = Some o -> tk_output (f j) = Some o) ->
  joining h b -> joining (jh_map f <$> h) b.
Proof.
  intros Hf (h' & -> & Ht & Ho). eexists. split; [done|]. split; [done|].
  intros Hb. cbn. by apply Hf, Ho.
Qed.

Lemma stopping_map {E J} `{TaskSpec E J} (h : option (JoinHandle J)) (f : J -> J) :
  (forall j, tk_stopping j = true -> tk_stopping (f j) = true) ->
  stopping_of h -> stopping_of (jh_map f <$> h).
Proof. intros Hf (h' & -> & Hs). eexists. split; [done|]. cbn. auto. Qed.

Lemma output_map {E J} `{TaskSpec E J} (h : option (JoinHandle J)) (f : J -> J) o :
  (forall j o, tk_output j = Some o -> tk_output (f j) = Some o) ->
  output_of h = Some o -> output_of (jh_map f <$> h) = Some o.
Proof. intros Hf. destruct h as [h|]; cbn; [|done]. apply Hf. Qed.

(** What steps and aborts of a task have in common. *)
Definition task_map {E J} `{TaskSpec E J} (f : J -> J) : Prop :=
  (forall j o, tk_output j = Some o -> tk_output (f j) = Some o) /\
  (forall j, tk_stopping j = true -> tk_stopping (f j) = true).

Lemma task_map_step {E J} `{TaskSpec E J} (e : E) : task_map (E := E) (tk_step (J := J) e).
Proof. split; [apply tk_step_output|apply tk_step_stopping]. Qed.

Lemma task_map_abort {E J} `{TaskSpec E J} : task_map (E := E) (J := J) tk_abort.
Proof. split; [apply tk_abort_output|intros; apply tk_abort_stopping]. Qed.

Lemma map_writer_inv (f : Jw -> Jw) cs l evs :
  task_map f -> conn_inv cs l evs ->
  conn_inv cs (set_handles l (jh_map f <$> l_writer l) (l_reader l)) evs.
Proof.
  intros [Hfo Hfs] (He & Hh & Hc). split_and!; [done| |done].
  unfold handles_ok in *. cbn. destruct (l_task l); try done; try by destruct Hh as (-> & -> & ?).
  - destruct Hh as (? & ? & Hw & ? & ?). split_and!; try done. by apply joining_map.
  - destruct Hh. split; [by apply stopping_map|done].
  - destruct Hh as [[-> ->]|[? ?]]; [by left|right; split; [by apply stopping_map|done]].
  - destruct Hh as [[-> ->]|[? ?]]; [by left|right; split; [by apply stopping_map|done]].
Qed.

Lemma map_reader_inv (f : Jr -> Jr) cs l evs :
  task_map f -> conn_inv cs l evs ->
  conn_inv cs (set_handles l (l_writer l) (jh_map f <$> l_reader l)) evs.
Proof.
  intros [Hfo Hfs] (He & Hh & Hc). split_and!; [| |done].
  - unfold events_ok in *. cbn. destruct (l_task l); try done.
    all: destruct He as [He|[-> Ho]]; [by left|right; split; [done|by apply output_map]].
  - unfold handles_ok in *. cbn. destruct (l_task l); try done; try by destruct Hh as (-> & -> & ?).
    + destruct Hh as (? & ? & ? & Hr & ?). split_and!; try done. by apply joining_map.
    + destruct Hh. split; [done|by apply stopping_map].
    + destruct Hh as [[-> ->]|[? ?]]; [by left|right; split; [done|by apply stopping_map]].
    + destruct Hh as [[-> ->]|[? ?]]; [by left|right; split; [done|by apply stopping_map]].
Qed.

(** ... and the steps of the reader and the writer ... *)
Lemma writer_runs_inv e cs l evs : conn_inv cs l evs -> conn_inv cs (writer_runs e l) evs.
Proof. apply map_writer_inv, task_map_step. Qed.

Lemma reader_runs_inv e cs l evs : conn_inv cs l evs -> conn_inv cs (reader_runs e l) evs.
Proof. apply map_reader_inv, task_map_step. Qed.

(** ... and the shutdown of the runtime. *)
Lemma drop_conn_task_inv cs l evs cs' l' :
  conn_inv cs l evs -> drop_conn_task cs l = (cs', l') ->
  conn_inv cs' l' evs /\ cs_step cs cs' /\ (cs_wf cs -> cs_wf cs').
Proof.
  intros Hinv E. pose proof Hinv as (He & Hh & [Hrx Hc]). unfold drop_conn_task in E.
  assert (forall conf : Os (M * ConnConfig), o_tx (os_view conf) = (match l_task l with CT_Spawned => false | _ => true end
      && o_tx (os_view (l_conf l))) ->
    conf_ok (mkLocal (l_local l) (l_peer l) None (os_drop_rx conf) (l_conn l) CT_Dropped
      (l_writer l) (l_reader l) : Local)) as Hconf.
  { intros conf Htx. unfold conf_ok. cbn. rewrite os_drop_rx_view. split; [done|]. cbn. rewrite Htx.
    destruct (l_conn l) as [c|].
    - destruct Hc as (? & ? & ? & Ho & ? & Hne). split_and!; try done.
      rewrite <- Ho. by destruct (l_task l).
    - right. split; [done|]. destruct Hc as [[-> _]|[_ ->]]; [done|by destruct (l_task l)]. }
  unfold events_ok, handles_ok in *.
  destruct (l_task l) as [| | |on_msg config|stop ws rs| | | |] eqn:Ht;
    injection E as <- <-; (split; [|split; try done; try apply cs_step_drop_stop; try apply drop_stop_wf]);
    try done; unfold conn_inv, events_ok, handles_ok; cbn; split_and!; try done;
    try (apply Hconf; by rewrite ?os_drop_tx_view); auto.
  - destruct Hh as (_ & _ & _ & Hr & _). subst evs. destruct rs; [|by auto].
    right. split; [done|]. by apply joining_output.
  - destruct He as [->|?]; auto.
  - destruct He as [->|?]; auto.
Qed.

Lemma runtime_drops_inv part cs l evs cs' l' :
  conn_inv cs l evs -> runtime_drops part cs l = (cs', l') ->
  conn_inv cs' l' evs /\ cs_step cs cs' /\ (cs_wf cs -> cs_wf cs').
Proof.
  intros Hinv. destruct part; cbn; [by apply drop_conn_task_inv|..]; intros [= <- <-];
    (split; [|done]); [apply map_writer_inv|apply map_reader_inv]; done || apply task_map_abort.
Qed.

(** *** The end of a connection *)

(** Something has happened that ends the loop: the stop signal, an error or an
    abort of one of the tasks, or the end of both. *)
Definition must_stop cs (stop : nat) l : Prop :=
  stop_closed cs stop = Ready tt \/
  (exists o, output_of (l_writer l) = Some o /\ o <> ended_ok) \/
  (exists o, output_of (l_reader l) = Some o /\ o <> ended_ok) \/
  (is_Some (output_of (l_writer l)) /\ is_Some (output_of (l_reader l))).

(** A [select!] of a loop that must stop leaves it, or takes note of the one task
    that ended normally. *)
Lemma selected_must_stop cs stop ws rs l l' ev r :
  joining (l_writer l) ws -> joining (l_reader l) rs -> (ws && rs) = false ->
  must_stop cs stop l -> selected cs stop ws rs l l' ev r ->
  match r with
  | J_Pending => False
  | J_Continue ws' rs' => must_stop cs stop l' /\ ws = false /\ rs = false /\ (ws' || rs') = true
  | J_Break => True
  end.
Proof.
  intros Hw Hr Hwr Hm Hsel.
  destruct Hsel as [Hs Hnw Hnr|Hs|h -> Hh Ho|h o -> Hh Ho Hne|h -> Hh Ho|h o -> Hh Ho Hne];
    try done.
  - assert (forall b, ws = b -> b = true -> output_of (l_writer l) = Some ended_ok) as Hwo
      by (intros b <- Hb; rewrite Hb in Hw; by apply joining_output).
    assert (forall b, rs = b -> b = true -> output_of (l_reader l) = Some ended_ok) as Hro
      by (intros b <- Hb; rewrite Hb in Hr; by apply joining_output).
    destruct Hm as [Hm|[(o & Ho & Hne)|[(o & Ho & Hne)|[[o1 Ho1] [o2 Ho2]]]]].
    + congruence.
    + destruct Hnw as [Hnw|Hnw]; [rewrite (Hwo ws eq_refl Hnw) in Ho|]; congruence.
    + destruct Hnr as [Hnr|Hnr]; [rewrite (Hro rs eq_refl Hnr) in Ho|]; congruence.
    + destruct Hnw as [->|Hnw]; [|congruence]. destruct Hnr as [->|Hnr]; [done|congruence].
  - destruct rs; [done|]. split_and!; try done. unfold must_stop in *. rewrite Hh in Hm. done.
  - destruct ws; [done|]. split_and!; try done. unfold must_stop in *. rewrite Hh in Hm. done.
Qed.

(** The connection is on its way to the end, however the [select!]s go: [ret] is
    what the callback returns, if it has not returned yet. *)
Definition ending (ret : result unit string) cs l : Prop :=
  match l_task l with
  | CT_Callback => exists e, ret = Err e
  | CT_WaitStart => o_tx (os_view (l_conf l)) = false /\ o_value (os_view (l_conf l)) = None
  | CT_Join stop _ _ => must_stop cs stop l
  | CT_Remove | CT_Close | CT_Done => True
  | _ => False
  end.

(** The steps it takes. *)
Definition end_cost l : nat :=
  match l_task l with
  | CT_Join _ ws rs => if ws || rs then 3 else 4
  | CT_Callback => 3
  | CT_WaitStart | CT_Remove => 2
  | CT_Close => 1
  | _ => 0
  end.

(** The entry of the connection leaves the map when the loop has ended. *)
Definition entry_gone cs l : Prop :=
  match l_task l with
  | CT_Join _ _ _ | CT_Remove => True
  | CT_Close | CT_Done => forall i, ~ connected cs (l_local l, l_peer l) i
  | _ => False
  end.

Lemma ending_step cx start ret cs l evs cs' l' ev :
  conn_inv cs l evs -> ending ret cs l ->
  conn_task_step cx start ret cs l = Ret (cs', l', ev) ->
  ending ret cs' l' /\ (l_task l = CT_Done \/ (end_cost l' < end_cost l)%nat) /\
  (entry_gone cs l -> entry_gone cs' l').
Proof.
  intros Hinv Hend E. pose proof Hinv as (He & Hh & _). unfold conn_task_step in E.
  unfold ending, end_cost, entry_gone, handles_ok in *.
  destruct (l_task l) as [| | |on_msg config|stop ws rs| | | |] eqn:Ht; try done.
  - destruct Hend as [e ->]. injection E as <- <- <-. cbn. split_and!; try done. right. lia.
  - destruct Hend as [Htx Hv]. destruct (os_poll_recv (l_conf l) cx) as [conf r] eqn:E1.
    apply os_poll_recv_view in E1. rewrite Hv, Htx in E1. destruct E1 as [-> _].
    injection E as <- <- <-. cbn. split_and!; try done. right. lia.
  - destruct Hh as (Hstop & Hreg & Hw & Hr & Hwr).
    destruct (join_select_selected cs start stop ws rs l Hw Hr) as (l1 & ev1 & r & E1 & Hsel).
    rewrite E1 in E. cbn [obind] in E.
    pose proof (selected_must_stop _ _ _ _ _ _ _ _ Hw Hr Hwr Hend Hsel) as Hm.
    destruct r as [|ws' rs'|]; [done|..]; injection E as <- <- <-; cbn.
    + destruct Hm as (Hm & -> & -> & ->). split_and!; try done. right. cbn. lia.
    + split_and!; try done. right. destruct (ws || rs); lia.
  - injection E as <- <- <-. cbn. split_and!; [done|right; lia|]. intros _ i.
    unfold connected.
    destruct (remove_connection_spec cs (l_local l, l_peer l)) as (_ & -> & _).
    by rewrite lookup_delete_eq.
  - injection E as <- <- <-. cbn. split_and!; try done. right. lia.
  - injection E as <- <- <-. rewrite Ht. split_and!; try done. by left.
Qed.

Lemma conn_task_run_ends cx ret starts cs l evs :
  conn_inv cs l evs -> ending ret cs l -> (end_cost l <= length starts)%nat ->
  exists cs' l' ev, conn_task_run cx ret starts cs l = Ret (cs', l', ev) /\
    conn_inv cs' l' (evs ++ ev) /\ l_task l' = CT_Done /\
    l_local l' = l_local l /\ l_peer l' = l_peer l /\
    (entry_gone cs l -> entry_gone cs' l').
Proof.
  revert cs l evs. induction starts as [|start starts IH]; intros cs l evs Hinv Hend Hle.
  - exists cs, l, []. rewrite app_nil_r. split_and!; try done.
    unfold end_cost, ending in *. destruct (l_task l) as [| | | |? ws rs| | | |]; try done;
      cbn in Hle; try lia. destruct (ws || rs); lia.
  - destruct (conn_task_step_inv cx start ret cs l evs Hinv)
      as (cs1 & l1 & ev1 & E & Hinv1 & _ & _ & Hlo & Hpe).
    destruct (ending_step _ _ _ _ _ _ _ _ _ Hinv Hend E) as (Hend1 & Hlt & Hg).
    assert ((end_cost l1 <= length starts)%nat) as Hle1.
    { cbn in Hle. destruct Hlt as [Hd|]; [|lia]. unfold conn_task_step in E. rewrite Hd in E.
      injection E as <- <- <-. unfold end_cost. rewrite Hd. lia. }
    destruct (IH cs1 l1 (evs ++ ev1) Hinv1 Hend1 Hle1)
      as (cs2 & l2 & ev2 & E2 & Hinv2 & Hd2 & Hlo2 & Hpe2 & Hg2).
    exists cs2, l2, (ev1 ++ ev2). cbn [conn_task_run]. rewrite E. cbn [obind]. rewrite E2.
    rewrite app_assoc. split_and!; try done; try congruence. auto.
Qed.
End lemmas.

(** ** Properties *)

Section properties.
Context {Os : Type -> Type} {Dl Dc S M Ew Jw Er Jr : Type}.
Context `{OneshotSpec Os} `{!DashMapOps SocketAddr nat Dl}
  `{!DashMapOps (SocketAddr * SocketAddr) nat Dc}
  `{!DashMapSpec SocketAddr nat Dl} `{!DashMapSpec (SocketAddr * SocketAddr) nat Dc}
  `{TaskSpec Ew Jw} `{TaskSpec Er Jr} `{!SpawnOps S M Jw Jr}.
#[local] Abbreviation CS := (ConnectionState Os Dl Dc).
#[local] Abbreviation Local := (ConnLocal Os S M Jw Jr).

(** A connection that has to end does end.  If the callback has returned an
    error, or the [Conn] was closed or dropped before the start, or the stop
    signal was given, or the reader or the writer has failed, or both have ended,
    then within four steps of its task, whatever branches the [select!]s pick,
    the task is done: [OnConnectionClose] was called, as the last callback and
    once; the reader and the writer have ended or were told to abort; and the
    entry of a started connection is no longer in the map. *)
Theorem connection_ends cx ret starts (cs : CS) (l : Local) evs :
  conn_inv cs l evs -> ending ret cs l -> (4 <= length starts)%nat ->
  exists cs' l' ev, conn_task_run cx ret starts cs l = Ret (cs', l', ev) /\
    l_task l' = CT_Done /\
    (let c := OnConnect (l_local l) (l_peer l) in
     let r := OnRemoteClose (l_local l) (l_peer l) in
     let x := OnConnectionClose (l_local l) (l_peer l) in
     evs ++ ev = [c; x] \/ evs ++ ev = [c; r; x]) /\
    (forall hw, l_writer l' = Some hw -> tk_stopping (jh_task hw) = true) /\
    (forall hr, l_reader l' = Some hr -> tk_stopping (jh_task hr) = true) /\
    (forall stop ws rs, l_task l = CT_Join stop ws rs ->
       forall i, ~ connected cs' (l_local l, l_peer l) i).
Proof.
  intros Hinv Hend Hlen.
  assert ((end_cost l <= length starts)%nat) as Hle.
  { unfold end_cost. destruct (l_task l) as [| | | |? [] []| | | |]; cbn; lia. }
  destruct (conn_task_run_ends cx ret starts cs l evs Hinv Hend Hle)
    as (cs' & l' & ev & E & (He & Hh & _) & Hd & Hlo & Hpe & Hg).
  exists cs', l', ev. unfold events_ok, handles_ok in He, Hh. rewrite Hd, ?Hlo, ?Hpe in *.
  split_and!; try done.
  - destruct He as [?|[? _]]; [by left|by right].
  - intros hw Hw. destruct Hh as [[? _]|[(h & Hh & Hs) _]]; congruence.
  - intros hr Hr. destruct Hh as [[_ ?]|[_ (h & Hh & Hs)]]; congruence.
  - intros stop ws rs Ht. unfold entry_gone in Hg. rewrite Ht, Hd, Hlo, Hpe in Hg. by apply Hg.
Qed.

(** C30: a close between the start and the registration of a connection is lost.
    The user of a waiting connection starts it; as long as the task has not put its
    stopper into the map, [close] returns [Ok] and changes nothing: closed before
    each of the next two steps of the task, the connection runs all the same, is in
    the map and was not told to stop, although the [OnConnect] callback has returned
    long ago. *)
Theorem close_before_registration_is_lost cx start1 start2 ret (cs : CS) (l : Local) s on_msg config :
  cs_wf cs -> l_task l = CT_WaitStart -> l_socket l = Some s ->
  l_conn l = Some (conn_new (l_local l) (l_peer l)) ->
  o_value (os_view (l_conf l)) = None -> o_rx (os_view (l_conf l)) = true ->
  exists cs1 l1 cs2 l2 cs3 l3 cs4 l4 cs5 l5 stop,
    conn_user (U_Call (Call_start on_msg config)) cs l = Ret (cs1, l1) /\
    conn_user (U_Call Call_close) cs1 l1 = Ret (cs2, l2) /\
    conn_task_step cx start1 ret cs2 l2 = Ret (cs3, l3, []) /\
    conn_user (U_Call Call_close) cs3 l3 = Ret (cs4, l4) /\
    conn_task_step cx start2 ret cs4 l4 = Ret (cs5, l5, []) /\
    l_task l5 = CT_Join stop false false /\ stop_closed cs5 stop = Pending /\
    connected cs5 (l_local l, l_peer l) stop.
Proof.
  intros Hwf Ht Hs Hc Hv Hrx. destruct l as [lo pe so conf cn tk wr rd]. cbn in *. subst.
  destruct (os_send conf (on_msg, config)) as [conf1 r] eqn:Es. pose proof Es as Hv1.
  apply os_send_view in Hv1. rewrite Hrx in Hv1. destruct Hv1 as [-> Hv1].
  destruct (os_poll_recv conf1 cx) as [conf2 pr] eqn:Epr. pose proof Epr as Hpr.
  apply os_poll_recv_view in Hpr. rewrite Hv1 in Hpr. cbn in Hpr. destruct Hpr as [-> _].
  set (cs4 := remove_connection (remove_connection cs (lo, pe)) (lo, pe)).
  assert (cs_wf cs4) as Hwf4 by (by apply remove_connection_wf, remove_connection_wf).
  destruct (new_stop cs4) as [cs5 stop] eqn:En.
  destruct (new_stop_unregistered cs4 cs5 stop En Hwf4) as [Ho [_ Hu]].
  destruct (insert_connection_spec cs5 (lo, pe) stop) as (_ & Hm & _ & Hopen).
  set (l1 := mkLocal lo pe (Some s) conf1 (Some (mkConn true None lo pe)) CT_WaitStart wr rd).
  set (l3 := mkLocal lo pe (Some s) (os_drop_rx conf2) (Some (mkConn true None lo pe))
    (CT_Start on_msg config) wr rd).
  exists cs, l1, (remove_connection cs (lo, pe)), l1, (remove_connection cs (lo, pe)), l3, cs4, l3.
  eexists (insert_connection cs5 (lo, pe) stop), _, stop. split_and!.
  - unfold conn_user, conn_do, start_connection; cbn. by rewrite Es.
  - done.
  - unfold conn_task_step, l1; cbn. by rewrite Epr.
  - done.
  - unfold conn_task_step, l3; cbn [l_task l_socket]. by rewrite En.
  - done.
  - assert (stop_open (insert_connection cs5 (lo, pe) stop) stop) as (c & Hlk & Hc)
      by (apply Hopen; split; [done|apply Hu]).
    unfold stop_closed. rewrite Hlk, os_poll_closed_view. by rewrite Hc.
  - unfold connected. rewrite Hm. apply lookup_insert_eq.
Qed.

(** C20: a connection is not ended without a reason.  A step of the task that
    leaves the loop of [join_reader_writer] finds the stop signal given, the
    reader or the writer failed, or both of them ended; until then it neither
    aborts a task nor stops waiting for one that runs. *)
Theorem join_breaks_only_for_cause cx start ret (cs : CS) (l : Local) evs stop ws rs cs' l' ev :
  conn_inv cs l evs -> l_task l = CT_Join stop ws rs ->
  conn_task_step cx start ret cs l = Ret (cs', l', ev) ->
  must_stop cs stop l \/
  (exists ws' rs', l_task l' = CT_Join stop ws' rs') /\
  (jh_task <$> l_writer l') = (jh_task <$> l_writer l) /\
  (jh_task <$> l_reader l') = (jh_task <$> l_reader l).
Proof.
  intros (_ & Hh & _) Ht E. unfold handles_ok in Hh. rewrite Ht in Hh.
  destruct Hh as (_ & _ & Hw & Hr & Hwr). unfold conn_task_step in E. rewrite Ht in E.
  destruct (join_select_selected cs start stop ws rs l Hw Hr) as (l1 & ev1 & r & E1 & Hsel).
  rewrite E1 in E. cbn [obind] in E. unfold must_stop.
  destruct Hsel as [Hs Hnw Hnr|Hs|h -> Hh Ho|h o -> Hh Ho Hne|h -> Hh Ho|h o -> Hh Ho Hne].
  - injection E as <- <- <-. right. by split; [eexists _, _|].
  - by left; left.
  - destruct rs.
    + left. do 3 right. split; [|by rewrite (joining_output _ Hr)]. rewrite Hh. cbn. by rewrite Ho.
    + injection E as <- <- <-. right. split; [by eexists _, _|]. cbn. by rewrite Hh.
  - left. right. left. exists o. by rewrite Hh.
  - destruct ws.
    + left. do 3 right. split; [by rewrite (joining_output _ Hw)|]. rewrite Hh. cbn. by rewrite Ho.
    + injection E as <- <- <-. right. split; [by eexists _, _|]. cbn. by rewrite Hh.
  - left. do 2 right. left. exists o. by rewrite Hh.
Qed.

(** A connection that ends removes what the map holds for its pair of addresses,
    which is not its own stopper if the operating system has given the same pair
    to a newer connection that has started in the meantime: that one is told to
    stop, although nobody asked for it. *)
Lemma remove_hits_newer cx start ret (cs : CS) (old newer : Local) stop ws rs :
  cs_wf cs -> l_task old = CT_Remove -> l_task newer = CT_Join stop ws rs ->
  l_local newer = l_local old -> l_peer newer = l_peer old ->
  connected cs (l_local newer, l_peer newer) stop ->
  exists cs' old', conn_task_step cx start ret cs old = Ret (cs', old', []) /\
    stop_closed cs stop = Pending /\ stop_closed cs' stop = Ready tt.
Proof.
  intros (_ & Hwf & _) Ht _ Hlo Hpe Hc. unfold conn_task_step. rewrite Ht.
  eexists _, _. split; [done|].
  destruct (Hwf _ _ Hc) as (ch & Hlk & Hrx). split.
  - unfold stop_closed. by rewrite Hlk, os_poll_closed_view, Hrx.
  - destruct (remove_connection_spec cs (l_local old, l_peer old)) as (_ & _ & Hlen & Ho).
    unfold connected in *. rewrite Hlo, Hpe in Hc.
    apply stop_closed_ready; [rewrite Hlen; by eapply lookup_lt_Some|rewrite Ho; naive_solver].
Qed.
End properties.

(** ** Witnesses *)

(** A task that ends when its environment says how, and an abort of which takes
    effect at its next step. *)
Record ScriptTask : Type := mkScriptTask {
  st_output : option task_output;
  st_aborted : bool
}.

#[export] Instance ScriptTask_ops : TaskOps (option task_output) ScriptTask := {|
  tk_step e j :=
    match st_output j with
    | Some _ => j
    | None => mkScriptTask (if st_aborted j then Some (Err Cancelled) else e) (st_aborted j)
    end;
  tk_output := st_output;
  tk_abort j := mkScriptTask (st_output j) true
|}.

#[export] Instance ScriptTask_spec : TaskSpec (option task_output) ScriptTask.
Proof.
  refine {| tk_stopping j := (st_aborted j || match st_output j with Some _ => true | None => false end) |}.
  - intros e j o E. cbn in *. by rewrite E.
  - done.
  - intros j o E. cbn in *. rewrite E. by destruct (st_aborted j).
  - done.
  - intros e j Hs. cbn in *. destruct (st_output j) eqn:E; cbn; [by rewrite E|].
    by destruct (st_aborted j).
Defined.

#[export] Instance ScriptTask_spawn : SpawnOps unit unit ScriptTask ScriptTask := {|
  spawn_writer _ _ := mkScriptTask None false;
  spawn_reader _ _ _ := mkScriptTask None false
|}.

(** A started connection whose reader has failed while the writer runs. *)
Definition demo_failed : ConnLocal oneshot_view unit unit ScriptTask ScriptTask :=
  mkLocal demo_local demo_peer None (mkOneshot None false false)
    (Some (mkConn true None demo_local demo_peer)) (CT_Join 1 false false)
    (Some (mkJoinHandle (mkScriptTask None false) false))
    (Some (mkJoinHandle (mkScriptTask (Some (Ok (Err (IoNew Other "reset")))) false) false)).

Lemma demo_failed_inv : conn_inv demo_cs demo_failed [OnConnect demo_local demo_peer].
Proof.
  split; [reflexivity|]. split.
  - split; [cbn; lia|]. split_and!; try done; by eexists.
  - by split.
Qed.

Lemma connection_ends_witness :
  exists cs' l' ev,
    conn_task_run (mkWaker 1 2) (Ok tt) [0; 1; 2; 0]%nat demo_cs demo_failed = Ret (cs', l', ev) /\
    l_task l' = CT_Done.
Proof.
  destruct (connection_ends (mkWaker 1 2) (Ok tt) [0; 1; 2; 0]%nat demo_cs demo_failed
    [OnConnect demo_local demo_peer] demo_failed_inv) as (cs' & l' & ev & E & Hd & _).
  - right. right. left. by eexists.
  - cbn. lia.
  - by exists cs', l', ev.
Defined.

(** A connection whose writer has ended normally while the reader runs. *)
Definition demo_half_closed : ConnLocal oneshot_view unit unit ScriptTask ScriptTask :=
  mkLocal demo_local demo_peer None (mkOneshot None false false)
    (Some (mkConn true None demo_local demo_peer)) (CT_Join 1 false false)
    (Some (mkJoinHandle (mkScriptTask (Some (Ok (Ok tt))) false) false))
    (Some (mkJoinHandle (mkScriptTask None false) false)).

Lemma join_breaks_only_for_cause_witness :
  exists cs' l' ev,
    conn_task_step (mkWaker 1 2) 1 (Ok tt) demo_cs demo_half_closed = Ret (cs', l', ev) /\
    (must_stop demo_cs 1 demo_half_closed \/
     (exists ws' rs', l_task l' = CT_Join 1 ws' rs') /\
     (jh_task <$> l_writer l') = (jh_task <$> l_writer demo_half_closed) /\
     (jh_task <$> l_reader l') = (jh_task <$> l_reader demo_half_closed)).
Proof.
  eexists _, _, _. split; [reflexivity|].
  apply (join_breaks_only_for_cause (mkWaker 1 2) 1 (Ok tt) demo_cs demo_half_closed
    [OnConnect demo_local demo_peer] 1 false false demo_cs _ []).
  - split; [reflexivity|]. split; [|by split].
    split; [cbn; lia|]. split_and!; try done; by eexists.
  - reflexivity.
  - reflexivity.
Defined.

(** A connection whose task waits for the start. *)
Definition demo_waiting : ConnLocal oneshot_view unit unit ScriptTask ScriptTask :=
  mkLocal demo_local demo_peer (Some tt) (mkOneshot None true true)
    (Some (conn_new demo_local demo_peer)) CT_WaitStart None None.

Lemma close_before_registration_is_lost_witness :
  exists cs1 l1 cs2 l2 cs3 l3 cs4 l4 cs5 l5 stop,
    conn_user (U_Call (Call_start tt (mkConnConfig 0 0 0))) demo_cs demo_waiting = Ret (cs1, l1) /\
    conn_user (U_Call Call_close) cs1 l1 = Ret (cs2, l2) /\
    conn_task_step (mkWaker 1 2) 0 (Ok tt) cs2 l2 = Ret (cs3, l3, []) /\
    conn_user (U_Call Call_close) cs3 l3 = Ret (cs4, l4) /\
    conn_task_step (mkWaker 1 2) 0 (Ok tt) cs4 l4 = Ret (cs5, l5, []) /\
    l_task l5 = CT_Join stop false false /\ stop_closed cs5 stop = Pending /\
    connected cs5 (demo_local, demo_peer) stop.
Proof.
  apply (close_before_registration_is_lost (mkWaker 1 2) 0 0 (Ok tt) demo_cs demo_waiting tt tt
    (mkConnConfig 0 0 0)); try reflexivity. apply demo_cs_wf.
Defined.
