(* ===== verification/Manager.v ===== *)
(** * The socket manager ([lib.rs], [utils.rs])

    A [SocketManager] sends commands to a main loop, which runs in a thread of
    its own; the loop spawns tasks that connect or listen, and these spawn the
    tasks of connections.  The whole system is one state; an [input] tells which
    of its parts makes the next step and what the operating system, the user's
    callbacks and the scheduler answer, so that a list of inputs is an
    interleaving. *)

From S2P Require Import Prelude Config RingBuf Oneshot Conn ConnHandle.

(** ** [utils.rs] *)

Definition MAX_WORKER_THREADS : Z := 256.

(** The two runtimes of tokio that are built. *)
Inductive RuntimeKind : Type :=
| CurrentThread
| MultiThread (worker_threads : Z).

#[export] Instance RuntimeKind_eq_decision : EqDecision RuntimeKind.
Proof. solve_decision. Defined.

(** [start_runtime]; [available_parallelism] may fail, and so may [build]. *)
Definition start_runtime (available_parallelism : io_result Z)
    (build : RuntimeKind -> io_result RuntimeKind) (n_threads : Z) : io_result RuntimeKind :=
  let n_thread := Z.min n_threads MAX_WORKER_THREADS in
  if n_thread =? 0 then
    let n_cpu := match available_parallelism with Ok n => n | Err _ => 1 end in
    build (MultiThread n_cpu)
  else if n_thread =? 1 then build CurrentThread
  else build (MultiThread n_thread).

(** [TcpStream::local_addr] and [TcpStream::peer_addr]. *)
Class TcpStreamOps (S : Type) : Type := {
  stream_local_addr : S -> io_result SocketAddr;
  stream_peer_addr : S -> io_result SocketAddr
}.

Definition get_address_from_stream {S} `{TcpStreamOps S} (stream : S)
  : io_result (SocketAddr * SocketAddr) :=
  match stream_local_addr stream with
  | Err e => Err e
  | Ok local =>
      match stream_peer_addr stream with
      | Err e => Err e
      | Ok peer => Ok (local, peer)
      end
  end.

(** ** [lib.rs] *)

Inductive Command : Type :=
| C_Listen (addr : SocketAddr)
| C_Connect (addr : SocketAddr) (delay : Duration)
| C_CancelListen (addr : SocketAddr)
| C_Abort.

(** The tasks that connect and listen, by their await points.  [cancel] is the
    channel of the listener.  In [accept_connections] a [select!] whose accept
    branch did not match its pattern [Ok(..)] goes on with that branch disabled
    ([deaf]).  A connecting task ends with a connection, whose index is kept
    here, or with an error. *)
Inductive MgrTask : Type :=
| MT_Sleep (addr : SocketAddr) (delay : Duration)
| MT_Connect (addr : SocketAddr)
| MT_Connected (addr : SocketAddr) (conn : nat)
| MT_ConnectFailed (addr : SocketAddr)
| MT_Bind (addr : SocketAddr)
| MT_Accept (addr : SocketAddr) (cancel : nat) (deaf : bool)
| MT_ListenFailed (addr : SocketAddr)
| MT_Cancelled (addr : SocketAddr).

(** The main loop runs; it is inside [stop_all], between the two maps; it has
    returned and its thread is in [runtime.shutdown_timeout]; that has returned, and
    the thread has ended. *)
Inductive MainState : Type :=
| Main_Running
| Main_Stopping
| Main_ShutDown
| Main_Ended.

(** Who has called the callback. *)
Inductive Source : Type :=
| From_task (k : nat)
| From_conn (k : nat).

#[export] Instance Source_eq_decision : EqDecision Source.
Proof. solve_decision. Defined.

Record Manager (Os Ch : Type -> Type) (Dl Dc S M Jw Jr : Type) : Type := mkManager {
  m_runtime : RuntimeKind;
  m_cmds : Ch Command;
  m_main : MainState;
  m_cs : ConnectionState Os Dl Dc;
  m_tasks : list MgrTask;
  m_conns : list (ConnLocal Os S M Jw Jr);
  m_events : list (Source * ConnState)
}.

Arguments mkManager {Os Ch Dl Dc S M Jw Jr}.
Arguments m_runtime {Os Ch Dl Dc S M Jw Jr}.
Arguments m_cmds {Os Ch Dl Dc S M Jw Jr}.
Arguments m_main {Os Ch Dl Dc S M Jw Jr}.
Arguments m_cs {Os Ch Dl Dc S M Jw Jr}.
Arguments m_tasks {Os Ch Dl Dc S M Jw Jr}.
Arguments m_conns {Os Ch Dl Dc S M Jw Jr}.
Arguments m_events {Os Ch Dl Dc S M Jw Jr}.

(** What a task waits for: the timer of [sleep], [TcpStream::connect] or
    [TcpListener::accept], [TcpListener::bind]. *)
Inductive answer (S : Type) : Type :=
| A_Timer
| A_Stream (stream : io_result S)
| A_Bind (r : io_result unit)
| A_Nothing.

Arguments A_Timer {S}.
Arguments A_Stream {S}.
Arguments A_Bind {S}.
Arguments A_Nothing {S}.

Inductive input (S M Ew Er : Type) : Type :=
| I_Command (c : Command)
| I_Main
| I_Task (k : nat) (a : answer S)
| I_Conn (k start : nat) (ret : result unit string)
| I_User (k : nat) (u : user_action M)
| I_Writer (k : nat) (e : Ew)
| I_Reader (k : nat) (e : Er)
| I_Drop (k : nat) (part : ConnPart)
| I_End.

Arguments I_Command {S M Ew Er}.
Arguments I_Main {S M Ew Er}.
Arguments I_Task {S M Ew Er}.
Arguments I_Conn {S M Ew Er}.
Arguments I_User {S M Ew Er}.
Arguments I_Writer {S M Ew Er}.
Arguments I_Reader {S M Ew Er}.
Arguments I_Drop {S M Ew Er}.
Arguments I_End {S M Ew Er}.

Definition manager_stopped : io_error := IoNew Other "socket manager has stopped".

(** The part of [SocketManager] that [join] uses. *)
Record SocketManager : Type := mkSocketManager {
  has_joined : bool;
  join_handle : option unit
}.

Section defs.
Context {Os Ch : Type -> Type} {Dl Dc S M Ew Jw Er Jr : Type}.
Context `{OneshotOps Os} `{MpscOps Ch} `{!DashMapOps SocketAddr nat Dl}
  `{!DashMapOps (SocketAddr * SocketAddr) nat Dc}
  `{!TaskOps Ew Jw} `{!TaskOps Er Jr} `{!SpawnOps S M Jw Jr} `{!TcpStreamOps S}.
#[local] Abbreviation CS := (ConnectionState Os Dl Dc).
#[local] Abbreviation Local := (ConnLocal Os S M Jw Jr).
#[local] Abbreviation Mgr := (Manager Os Ch Dl Dc S M Jw Jr).
Implicit Types (cs : CS) (l : Local) (m : Mgr).

(** *** The methods of [SocketManager] *)

(** [SocketManager::init], with the runtime that was started. *)
Definition manager_new (rt : RuntimeKind) : Mgr :=
  mkManager rt mpsc_new Main_Running connection_state_new [] [] [].

Definition socket_manager_new : SocketManager := mkSocketManager false (Some tt).

(** [listen_on_addr], [connect_to_addr], [cancel_listen_on_addr]. *)
Definition send_command (cmds : Ch Command) (c : Command) : Ch Command * io_result unit :=
  match mpsc_send cmds c with
  | (cmds, Ok _) => (cmds, Ok tt)
  | (cmds, Err _) => (cmds, Err manager_stopped)
  end.

(** [join]; [thread] is what the background thread has returned, if it has
    ended.  [None] means that the call blocks. *)
Definition join (thread : option (result unit string)) (sm : SocketManager)
  : outcome (SocketManager * option (io_result unit)) :=
  let '(flag, won) := compare_exchange (has_joined sm) in
  if won then
    match join_handle sm with
    | None => Panic
    | Some _ =>
        let sm := mkSocketManager flag None in
        match thread with
        | None => Ret (sm, None)
        | Some (Ok _) => Ret (sm, Some (Ok tt))
        | Some (Err e) =>
            Ret (sm, Some (Err (IoNew Other ("socket manager join returned error: " +:+ e))))
        end
    end
  else Ret (mkSocketManager flag (join_handle sm), Some (Ok tt)).

(** [abort]. *)
Definition abort (wait : bool) (thread : option (result unit string)) (cmds : Ch Command)
    (sm : SocketManager) : outcome (Ch Command * SocketManager * option (io_result unit)) :=
  let '(cmds, _) := mpsc_send cmds C_Abort in
  if wait then
    let* '(sm, r) := join thread sm in
    Ret (cmds, sm, r)
  else Ret (cmds, sm, Some (Ok tt)).

(** [Drop for SocketManager]: [abort(true)], whose result is ignored, and then the
    fields are dropped; [false] while the call blocks. *)
Definition drop_socket_manager (thread : option (result unit string)) (cmds : Ch Command)
    (sm : SocketManager) : outcome (Ch Command * bool) :=
  let* '(cmds, sm, r) := abort true thread cmds sm in
  match r with
  | None => Ret (cmds, false)
  | Some _ => Ret (mpsc_drop_tx cmds, true)
  end.

(** *** The main loop *)

(** The spawned tasks of [connect_to_addr] and [listen_on_addr]. *)
Definition connect_to_addr (addr : SocketAddr) (delay : Duration) : MgrTask :=
  if is_zero delay then MT_Connect addr else MT_Sleep addr delay.
Definition listen_on_addr (addr : SocketAddr) : MgrTask := MT_Bind addr.

(** The end of [main] drops [cmd_recv]. *)
Definition main_ends (cmds : Ch Command) m cs : Mgr :=
  let '(cmds, _) := mpsc_drop_rx cmds in
  mkManager (m_runtime m) cmds Main_ShutDown cs (m_tasks m) (m_conns m) (m_events m).

(** [stop_all] has cleared the listeners and is about to clear the connections. *)
Definition main_stops (cmds : Ch Command) m : Mgr :=
  mkManager (m_runtime m) cmds Main_Stopping (clear_listeners (m_cs m)) (m_tasks m) (m_conns m)
    (m_events m).

Definition set_tasks m (cmds : Ch Command) cs (tasks : list MgrTask) : Mgr :=
  mkManager (m_runtime m) cmds (m_main m) cs tasks (m_conns m) (m_events m).

(** One iteration of [main]. *)
Definition main_step (cx : Waker) m : Mgr :=
  let '(cmds, r) := mpsc_poll_recv (m_cmds m) cx in
  match r with
  | Pending => set_tasks m cmds (m_cs m) (m_tasks m)
  | Ready None => main_ends cmds m (m_cs m)
  | Ready (Some cmd) =>
      match cmd with
      | C_Listen addr => set_tasks m cmds (m_cs m) (m_tasks m ++ [listen_on_addr addr])
      | C_Connect addr delay =>
          set_tasks m cmds (m_cs m) (m_tasks m ++ [connect_to_addr addr delay])
      | C_CancelListen addr =>
          let '(cs, _) := remove_listener (m_cs m) addr in set_tasks m cmds cs (m_tasks m)
      | C_Abort => main_stops cmds m
      end
  end.

(** *** The tasks of the manager *)

(** What a step of a task leaves: the shared state, the task, a connection it
    has spawned and the callbacks it has made.  [n] is the number of connections
    there are. *)
Definition task_effect : Type := CS * MgrTask * list Local * list ConnState.

(** The poll of [canceled.closed()] in [accept_connections]. *)
Definition poll_cancel cs (addr : SocketAddr) (cancel : nat) (deaf : bool) : task_effect :=
  match stop_closed cs cancel with
  | Ready _ => (drop_stop cs cancel, MT_Cancelled addr, [], [])
  | Pending => (cs, MT_Accept addr cancel deaf, [], [])
  end.

(** One [select!] of [accept_connections]; it is biased, accepting comes first. *)
Definition accept_connections cs (addr : SocketAddr) (cancel : nat) (deaf : bool)
    (accept : option (io_result S)) : task_effect :=
  if deaf then poll_cancel cs addr cancel true
  else
    match accept with
    | Some (Ok stream) =>
        match get_address_from_stream stream with
        | Err _ => (cs, MT_Accept addr cancel false, [], [])
        | Ok (local, peer) =>
            (cs, MT_Accept addr cancel false, [handle_connection local peer stream], [])
        end
    | Some (Err _) => poll_cancel cs addr cancel true
    | None => poll_cancel cs addr cancel false
    end.

Definition task_step (n : nat) cs (t : MgrTask) (a : answer S) : task_effect :=
  match t with
  | MT_Sleep addr _ =>
      match a with
      | A_Timer => (cs, MT_Connect addr, [], [])
      | _ => (cs, t, [], [])
      end
  | MT_Connect addr =>
      match a with
      | A_Stream r =>
          let connect_result :=
            match r with
            | Err e => Err e
            | Ok stream =>
                match get_address_from_stream stream with
                | Err e => Err e
                | Ok (local, peer) => Ok (stream, local, peer)
                end
            end in
          match connect_result with
          | Ok (stream, local, peer) =>
              (cs, MT_Connected addr n, [handle_connection local peer stream], [])
          | Err error => (cs, MT_ConnectFailed addr, [], [OnConnectError addr error])
          end
      | _ => (cs, t, [], [])
      end
  | MT_Bind addr =>
      match a with
      | A_Bind (Ok _) =>
          let '(cs, cancel) := new_stop cs in
          (insert_listener cs addr cancel, MT_Accept addr cancel false, [], [])
      | A_Bind (Err e) => (cs, MT_ListenFailed addr, [], [OnListenError addr e])
      | _ => (cs, t, [], [])
      end
  | MT_Accept addr cancel deaf =>
      accept_connections cs addr cancel deaf
        (match a with A_Stream r => Some r | _ => None end)
  | MT_Connected _ _ | MT_ConnectFailed _ | MT_ListenFailed _ | MT_Cancelled _ => (cs, t, [], [])
  end.

(** *** The whole system

    How tokio schedules is not part of the model: any task may run next, at any time,
    also while the runtime is shut down and after it (a task that does not run any
    more is one that the inputs do not name).  From the end of the main loop on the
    runtime may drop tasks; [I_Drop] names the parts of connections, for which it
    makes a difference.  [shutdown_timeout] may return before or after that
    ([I_End]). *)

Definition log (src : Source) (ev : list ConnState) : list (Source * ConnState) :=
  (fun e => (src, e)) <$> ev.

Definition set_conn m cs (k : nat) l (ev : list ConnState) : Mgr :=
  mkManager (m_runtime m) (m_cmds m) (m_main m) cs (m_tasks m) (<[k := l]> (m_conns m))
    (m_events m ++ log (From_conn k) ev).

Definition manager_step (cx : Waker) (i : input S M Ew Er) m : outcome Mgr :=
  match i with
  | I_Command c =>
      let '(cmds, _) := mpsc_send (m_cmds m) c in
      Ret (mkManager (m_runtime m) cmds (m_main m) (m_cs m) (m_tasks m) (m_conns m) (m_events m))
  | I_Main =>
      match m_main m with
      | Main_Running => Ret (main_step cx m)
      | Main_Stopping => Ret (main_ends (m_cmds m) m (clear_connections (m_cs m)))
      | _ => Ret m
      end
  | I_Task k a =>
      match m_tasks m !! k with
      | Some t =>
          let '(cs, t, new, ev) := task_step (length (m_conns m)) (m_cs m) t a in
          Ret (mkManager (m_runtime m) (m_cmds m) (m_main m) cs (<[k := t]> (m_tasks m))
                 (m_conns m ++ new) (m_events m ++ log (From_task k) ev))
      | None => Ret m
      end
  | I_Conn k start ret =>
      match m_conns m !! k with
      | Some l =>
          let* '(cs, l, ev) := conn_task_step cx start ret (m_cs m) l in
          Ret (set_conn m cs k l ev)
      | None => Ret m
      end
  | I_User k u =>
      match m_conns m !! k with
      | Some l => let* '(cs, l) := conn_user u (m_cs m) l in Ret (set_conn m cs k l [])
      | None => Ret m
      end
  | I_Writer k e =>
      match m_conns m !! k with
      | Some l => Ret (set_conn m (m_cs m) k (writer_runs e l) [])
      | None => Ret m
      end
  | I_Reader k e =>
      match m_conns m !! k with
      | Some l => Ret (set_conn m (m_cs m) k (reader_runs e l) [])
      | None => Ret m
      end
  | I_Drop k part =>
      match m_main m, m_conns m !! k with
      | (Main_ShutDown | Main_Ended), Some l =>
          let '(cs, l) := runtime_drops part (m_cs m) l in Ret (set_conn m cs k l [])
      | _, _ => Ret m
      end
  | I_End =>
      match m_main m with
      | Main_ShutDown =>
          Ret (mkManager (m_runtime m) (m_cmds m) Main_Ended (m_cs m) (m_tasks m) (m_conns m)
                 (m_events m))
      | _ => Ret m
      end
  end.

Fixpoint manager_run (cx : Waker) (inputs : list (input S M Ew Er)) m : outcome Mgr :=
  match inputs with
  | [] => Ret m
  | i :: inputs => let* m := manager_step cx i m in manager_run cx inputs m
  end.
End defs.

(** ** Specification *)

(** The callbacks that one source has made, in order. *)
Definition events_of (src : Source) (evs : list (Source * ConnState)) : list ConnState :=
  snd <$> filter (fun p => p.1 = src) evs.

Section spec.
Context {Os Ch : Type -> Type} {Dl Dc S M Ew Jw Er Jr : Type}.
Context `{OneshotSpec Os} `{MpscSpec Ch} `{!DashMapOps SocketAddr nat Dl}
  `{!DashMapOps (SocketAddr * SocketAddr) nat Dc}
  `{!DashMapSpec SocketAddr nat Dl} `{!DashMapSpec (SocketAddr * SocketAddr) nat Dc}
  `{TaskSpec Ew Jw} `{TaskSpec Er Jr} `{!SpawnOps S M Jw Jr} `{!TcpStreamOps S}.
#[local] Abbreviation CS := (ConnectionState Os Dl Dc).
#[local] Abbreviation Mgr := (Manager Os Ch Dl Dc S M Jw Jr).

(** A task and the callbacks it has made; [n] is the number of connections.  A
    listener is in the map or was told to stop. *)
Definition task_inv (cs : CS) (n : nat) (t : MgrTask) (evs : list ConnState) : Prop :=
  match t with
  | MT_Sleep _ _ | MT_Connect _ | MT_Bind _ | MT_Cancelled _ => evs = []
  | MT_Accept addr cancel _ =>
      evs = [] /\ (cancel < length (stops cs))%nat /\
      (stop_open cs cancel -> listening cs addr cancel)
  | MT_Connected _ k => evs = [] /\ (k < n)%nat
  | MT_ConnectFailed addr => exists e, evs = [OnConnectError addr e]
  | MT_ListenFailed addr => exists e, evs = [OnListenError addr e]
  end.

Definition manager_inv (m : Mgr) : Prop :=
  cs_wf (m_cs m) /\
  (forall k, match m_conns m !! k with
             | Some l => conn_inv (m_cs m) l (events_of (From_conn k) (m_events m))
             | None => events_of (From_conn k) (m_events m) = []
             end) /\
  (forall k, match m_tasks m !! k with
             | Some t => task_inv (m_cs m) (length (m_conns m)) t
                           (events_of (From_task k) (m_events m))
             | None => events_of (From_task k) (m_events m) = []
             end).
End spec.

(** ** Lemmas *)

Lemma events_of_log src src' evs ev :
  events_of src (evs ++ log src' ev) = events_of src evs ++ (if decide (src' = src) then ev else []).
Proof.
  unfold events_of, log. rewrite filter_app, fmap_app. f_equal.
  induction ev as [|e ev IH]; [by destruct (decide _)|]. rewrite fmap_cons, filter_cons.
  cbn [fst]. destruct (decide (src' = src)) as [->|]; [|done]. by rewrite fmap_cons, IH.
Qed.

(** The words of the protocol. *)
Lemma protocol_words {A} (c r x : A) evs :
  c <> r -> c <> x -> r <> x ->
  evs = [] \/ evs = [c] \/ evs = [c; r] \/ evs = [c; x] \/ evs = [c; r; x] ->
  (evs `prefix_of` [c; x] \/ evs `prefix_of` [c; r; x]) /\
  (x ∈ evs <-> evs = [c; x] \/ evs = [c; r; x]) /\
  (r ∈ evs <-> evs = [c; r] \/ evs = [c; r; x]).
Proof.
  intros Hcr Hcx Hrx Hevs. split.
  - destruct Hevs as [->|[->|[->|[->| ->]]]];
      [by left; exists [c; x]|by left; exists [x]|by right; exists [x]|by left|by right].
  - rewrite !list_elem_of_In. destruct Hevs as [->|[->|[->|[->| ->]]]]; cbn; naive_solver.
Qed.

Section lemmas.
Context {Os Ch : Type -> Type} {Dl Dc S M Ew Jw Er Jr : Type}.
Context `{OneshotSpec Os} `{MpscSpec Ch} `{!DashMapOps SocketAddr nat Dl}
  `{!DashMapOps (SocketAddr * SocketAddr) nat Dc}
  `{!DashMapSpec SocketAddr nat Dl} `{!DashMapSpec (SocketAddr * SocketAddr) nat Dc}
  `{TaskSpec Ew Jw} `{TaskSpec Er Jr} `{!SpawnOps S M Jw Jr} `{!TcpStreamOps S}.
#[local] Abbreviation CS := (ConnectionState Os Dl Dc).
#[local] Abbreviation Local := (ConnLocal Os S M Jw Jr).
#[local] Abbreviation Mgr := (Manager Os Ch Dl Dc S M Jw Jr).
Implicit Types (cs : CS) (l : Local) (m : Mgr).

Lemma task_inv_mono cs cs' n n' t evs :
  cs_step cs cs' -> (n <= n')%nat -> task_inv cs n t evs -> task_inv cs' n' t evs.
Proof.
  intros [Hle Hst] Hn. destruct t; try done; cbn.
  - intros [-> ?]. split; [done|lia].
  - intros (-> & Hlt & Hreg). split_and!; [done|lia|]. intros Ho.
    destruct (Hst _ Hlt Ho) as (? & _ & Hl). auto.
Qed.

(** One step of a connection, put back into the system. *)
Lemma set_conn_inv m cs' k l l' ev :
  manager_inv m -> m_conns m !! k = Some l -> cs_step (m_cs m) cs' -> cs_wf cs' ->
  conn_inv cs' l' (events_of (From_conn k) (m_events m) ++ ev) ->
  manager_inv (set_conn m cs' k l' ev).
Proof.
  intros (Hwf & Hc & Ht) Hk Hst Hwf' Hl'.
  unfold manager_inv, set_conn. cbn [m_cs m_conns m_tasks m_events]. split_and!; [done|..].
  - intros k'. specialize (Hc k'). rewrite events_of_log.
    destruct (decide (k' = k)) as [->|Hne].
    + rewrite list_lookup_insert_eq by (by eapply lookup_lt_Some).
      by rewrite decide_True.
    + rewrite list_lookup_insert_ne by done. rewrite decide_False by congruence.
      rewrite app_nil_r. destruct (m_conns m !! k'); [|done]. by eapply conn_inv_mono.
  - intros k'. specialize (Ht k'). rewrite events_of_log, decide_False by done.
    rewrite app_nil_r, length_insert.
    destruct (m_tasks m !! k'); [|done]. by eapply task_inv_mono.
Qed.

(** One step of a task of the manager. *)
Lemma poll_cancel_spec cs n addr cancel deaf evs cs' t' (new : list Local) ev :
  task_inv cs n (MT_Accept addr cancel deaf) evs ->
  poll_cancel cs addr cancel deaf = (cs', t', new, ev) ->
  cs_step cs cs' /\ (cs_wf cs -> cs_wf cs') /\ task_inv cs' n t' (evs ++ ev) /\ new = [].
Proof.
  intros (-> & Hlt & Hreg) E. unfold poll_cancel in E.
  destruct (stop_closed cs cancel); injection E as <- <- <- <-; split_and!; try done.
  - apply cs_step_drop_stop.
  - apply drop_stop_wf.
Qed.

Lemma task_step_spec n cs t a evs cs' t' (new : list Local) ev :
  task_inv cs n t evs -> task_step n cs t a = (cs', t', new, ev) ->
  cs_step cs cs' /\ (cs_wf cs -> cs_wf cs') /\
  task_inv cs' (n + length new) t' (evs ++ ev) /\
  (new = [] \/ exists local peer (s : S), new = [handle_connection local peer s]).
Proof.
  intros Hinv E.
  assert (forall t, (cs, t, [], []) = (cs', t', new, ev) -> task_inv cs n t evs ->
    cs_step cs cs' /\ (cs_wf cs -> cs_wf cs') /\ task_inv cs' (n + length new) t' (evs ++ ev) /\
    (new = [] \/ exists local peer (s : S), new = [handle_connection local peer s])) as Hstay.
  { intros t0 [= <- <- <- <-] Ht. rewrite app_nil_r, Nat.add_0_r. by split_and!; [..|left]. }
  destruct t as [addr delay|addr|addr k|addr|addr|addr cancel deaf|addr|addr]; cbn [task_step] in E.
  1, 3, 4, 7, 8: try destruct a; by eapply Hstay.
  - destruct a as [|r|r|]; try (by eapply Hstay). cbn in Hinv. subst evs.
    destruct r as [s|e]; [destruct (get_address_from_stream s) as [[local peer]|e]|];
      injection E as <- <- <- <-; (split; [done|]); (split; [done|]).
    + split; [split; [done|cbn; lia]|]. right. by eexists _, _, _.
    + split; [by eexists|by left].
    + split; [by eexists|by left].
  - destruct a as [|r|[u|e]|]; try (by eapply Hstay); cbn in Hinv; subst evs.
    + destruct (new_stop cs) as [cs1 cancel] eqn:E1. injection E as <- <- <- <-.
      destruct (cs_step_listen cs cs1 cancel addr E1) as (Hst & Hwf & Hlt & Hreg).
      split; [done|]. split; [done|]. split; [|by left]. by split_and!.
    + injection E as <- <- <- <-. split; [done|]. split; [done|]. split; [by eexists|by left].
  - assert (forall d, poll_cancel cs addr cancel d = (cs', t', new, ev) ->
      cs_step cs cs' /\ (cs_wf cs -> cs_wf cs') /\ task_inv cs' (n + length new) t' (evs ++ ev) /\
      (new = [] \/ exists local peer (s : S), new = [handle_connection local peer s])) as Hpc.
    { intros d Ed. apply (poll_cancel_spec cs n addr cancel d evs) in Ed as (? & ? & ? & ->); [|done].
      rewrite Nat.add_0_r. by split_and!; [..|left]. }
    unfold accept_connections in E. destruct deaf; [by apply (Hpc true)|].
    destruct a as [|r|r|]; try (by apply (Hpc false)).
    destruct r as [s|e]; [|by apply (Hpc true)].
    destruct (get_address_from_stream s) as [[local peer]|e]; [|by eapply Hstay].
    injection E as <- <- <- <-. rewrite app_nil_r. split_and!; try done.
    right. by eexists _, _, _.
Qed.

(** Only the shared state, the channel and the main loop change. *)
Lemma manager_inv_cs m rt (cmds : Ch Command) main cs' :
  manager_inv m -> cs_step (m_cs m) cs' -> (cs_wf (m_cs m) -> cs_wf cs') ->
  manager_inv (mkManager rt cmds main cs' (m_tasks m) (m_conns m) (m_events m)).
Proof.
  intros (Hwf & Hc & Ht) Hst Hwf'. unfold manager_inv. cbn [m_cs m_conns m_tasks m_events].
  split_and!; [auto|..]; intros k; [specialize (Hc k)|specialize (Ht k)].
  - destruct (m_conns m !! k); [|done]. by eapply conn_inv_mono.
  - destruct (m_tasks m !! k); [|done]. by eapply task_inv_mono.
Qed.

(** A new task has made no callbacks. *)
Lemma manager_inv_spawn m (cmds : Ch Command) t :
  manager_inv m -> (forall cs n, task_inv cs n t []) ->
  manager_inv (set_tasks m cmds (m_cs m) (m_tasks m ++ [t])).
Proof.
  intros (Hwf & Hc & Ht) Hnew. unfold manager_inv, set_tasks. cbn [m_cs m_conns m_tasks m_events].
  split_and!; try done. intros k. specialize (Ht k).
  destruct (m_tasks m !! k) as [t'|] eqn:E.
  - by rewrite (lookup_app_l_Some _ _ _ _ E).
  - destruct ((m_tasks m ++ [t]) !! k) as [t'|] eqn:E'; [|done].
    apply lookup_app_Some in E' as [?|[_ E']]; [congruence|].
    apply list_lookup_singleton_Some in E' as [_ <-]. by rewrite Ht.
Qed.

Lemma main_step_inv cx m : manager_inv m -> manager_inv (main_step cx m).
Proof.
  intros Hm. unfold main_step. destruct (mpsc_poll_recv (m_cmds m) cx) as [cmds r].
  destruct r as [[cmd|]|]; [destruct cmd as [addr|addr delay|addr|]|..].
  - by apply manager_inv_spawn.
  - apply manager_inv_spawn; [done|]. intros. unfold connect_to_addr. by destruct (is_zero delay).
  - destruct (remove_listener (m_cs m) addr) as [cs b] eqn:E.
    apply manager_inv_cs; [done|by eapply cs_step_remove_listener|by eapply remove_listener_wf].
  - apply manager_inv_cs; [done|apply cs_step_clear_listeners|apply clear_listeners_wf].
  - unfold main_ends. destruct (mpsc_drop_rx cmds). by apply manager_inv_cs.
  - by apply manager_inv_cs.
Qed.

Lemma task_inv_app m k t t' cs' (new : list Local) ev :
  manager_inv m -> m_tasks m !! k = Some t -> cs_step (m_cs m) cs' ->
  (cs_wf (m_cs m) -> cs_wf cs') ->
  task_inv cs' (length (m_conns m) + length new) t'
    (events_of (From_task k) (m_events m) ++ ev) ->
  (new = [] \/ exists local peer (s : S), new = [handle_connection local peer s]) ->
  manager_inv (mkManager (m_runtime m) (m_cmds m) (m_main m) cs' (<[k := t']> (m_tasks m))
    (m_conns m ++ new) (m_events m ++ log (From_task k) ev)).
Proof.
  intros (Hwf & Hc & Ht) Hk Hst Hwf' Ht' Hnew.
  unfold manager_inv. cbn [m_cs m_conns m_tasks m_events].
  split_and!; [auto|..]; intros k'; [specialize (Hc k')|specialize (Ht k')];
    rewrite events_of_log.
  - rewrite decide_False by done. rewrite app_nil_r.
    destruct (m_conns m !! k') as [l|] eqn:E.
    + rewrite (lookup_app_l_Some _ _ _ _ E). by eapply conn_inv_mono.
    + destruct ((m_conns m ++ new) !! k') as [l|] eqn:E'; [|done]. rewrite Hc.
      apply lookup_app_Some in E' as [?|[_ E']]; [congruence|].
      destruct Hnew as [->|(lo & pe & s & ->)]; [done|].
      apply list_lookup_singleton_Some in E' as [_ <-]. apply handle_connection_inv.
  - rewrite length_app. destruct (decide (k' = k)) as [->|Hne].
    + rewrite list_lookup_insert_eq by (by eapply lookup_lt_Some). by rewrite decide_True.
    + rewrite list_lookup_insert_ne, decide_False, app_nil_r by congruence.
      destruct (m_tasks m !! k'); [|done]. eapply task_inv_mono; [done| |done]. lia.
Qed.

(** Every step of the system keeps the invariant, and none of them panics. *)
Lemma manager_step_inv cx (i : input S M Ew Er) m :
  manager_inv m -> exists m', manager_step cx i m = Ret m' /\ manager_inv m'.
Proof.
  intros Hm. pose proof Hm as (Hwf & Hc & Ht).
  destruct i as [c| |k a|k start ret|k u|k e|k e|k part|]; cbn [manager_step].
  - destruct (mpsc_send (m_cmds m) c) as [cmds r]. eexists. split; [done|].
    by apply manager_inv_cs.
  - destruct (m_main m); try by eexists.
    + eexists. split; [done|]. by apply main_step_inv.
    + eexists. split; [done|]. unfold main_ends. destruct (mpsc_drop_rx (m_cmds m)).
      apply manager_inv_cs; [done|apply cs_step_clear_connections|apply clear_connections_wf].
  - destruct (m_tasks m !! k) as [t|] eqn:Hk; [|by eexists].
    destruct (task_step (length (m_conns m)) (m_cs m) t a) as [[[cs t'] new] ev] eqn:E.
    specialize (Ht k). rewrite Hk in Ht.
    apply (task_step_spec _ _ _ _ _ _ _ _ _ Ht) in E as (Hst & Hwf' & Ht' & Hnew).
    eexists. split; [done|]. by eapply task_inv_app.
  - destruct (m_conns m !! k) as [l|] eqn:Hk; [|by eexists].
    specialize (Hc k). rewrite Hk in Hc.
    destruct (conn_task_step_inv cx start ret (m_cs m) l _ Hc)
      as (cs & l' & ev & E & Hinv & Hst & Hwf' & _). rewrite E. cbn [obind].
    eexists. split; [done|]. eapply set_conn_inv; eauto.
  - destruct (m_conns m !! k) as [l|] eqn:Hk; [|by eexists]. specialize (Hc k). rewrite Hk in Hc.
    destruct (conn_user_inv u (m_cs m) l _ Hc) as (cs & l' & E & Hinv & Hst & Hwf' & _).
    rewrite E. cbn [obind]. eexists. split; [done|].
    eapply set_conn_inv; eauto. by rewrite app_nil_r.
  - destruct (m_conns m !! k) as [l|] eqn:Hk; [|by eexists]. specialize (Hc k). rewrite Hk in Hc.
    eexists. split; [done|].
    eapply set_conn_inv; try done. rewrite app_nil_r. by apply writer_runs_inv.
  - destruct (m_conns m !! k) as [l|] eqn:Hk; [|by eexists]. specialize (Hc k). rewrite Hk in Hc.
    eexists. split; [done|].
    eapply set_conn_inv; try done. rewrite app_nil_r. by apply reader_runs_inv.
  - destruct (m_conns m !! k) as [l|] eqn:Hk; [|destruct (m_main m); by eexists].
    specialize (Hc k). rewrite Hk in Hc.
    destruct (runtime_drops part (m_cs m) l) as [cs l'] eqn:E.
    destruct (runtime_drops_inv part (m_cs m) l _ cs l' Hc E) as (Hl & Hst & Hwf').
    destruct (m_main m); try (by eexists); (eexists; split; [done|]); eapply set_conn_inv; eauto;
      by rewrite app_nil_r.
  - destruct (m_main m); try (by eexists); (eexists; split; [done|]); by apply manager_inv_cs.
Qed.

Lemma manager_run_app cx (l1 l2 : list (input S M Ew Er)) m :
  manager_run cx (l1 ++ l2) m =
  match manager_run cx l1 m with
  | Ret m' => manager_run cx l2 m'
  | Panic => Panic
  | NoFuel => NoFuel
  end.
Proof.
  revert m. induction l1 as [|i l1 IH]; intros m; cbn; [done|].
  destruct (manager_step cx i m); cbn; [apply IH|done..].
Qed.

Lemma manager_new_inv rt : manager_inv (manager_new rt : Mgr).
Proof. split_and!; try done. apply connection_state_new_wf. Qed.

Lemma manager_run_inv cx (inputs : list (input S M Ew Er)) m :
  manager_inv m -> exists m', manager_run cx inputs m = Ret m' /\ manager_inv m'.
Proof.
  revert m. induction inputs as [|i inputs IH]; intros m Hm; [by eexists|].
  destruct (manager_step_inv cx i m Hm) as (m1 & E & Hm1). cbn. rewrite E. by apply IH.
Qed.

(** *** Consequences *)

(** The callbacks of a connection in the invariant. *)
Lemma events_ok_language cs l evs :
  events_ok l evs -> handles_ok cs l ->
  let c := OnConnect (l_local l) (l_peer l) in
  let r := OnRemoteClose (l_local l) (l_peer l) in
  let x := OnConnectionClose (l_local l) (l_peer l) in
  (evs `prefix_of` [c; x] \/ evs `prefix_of` [c; r; x]) /\
  (x ∈ evs <-> l_task l = CT_Done) /\
  (r ∈ evs -> output_of (l_reader l) = Some ended_ok).
Proof.
  intros He Hh c r x. unfold events_ok, handles_ok in *. fold c r x in He.
  assert (evs = [] \/ evs = [c] \/ evs = [c; r] \/ evs = [c; x] \/ evs = [c; r; x]) as Hw
    by (destruct (l_task l) as [| | | |stop ws []| | | |]; naive_solver).
  destruct (protocol_words c r x evs) as (Hp & Hx & Hr); [done..|].
  split; [done|]. rewrite Hx, Hr.
  destruct (l_task l) as [| | | |stop ws []| | | |] eqn:Ht;
    try (destruct Hh as (_ & _ & _ & Hro%joining_output & _));
    try (destruct He as [[He|He]|[He Ho]]); try (destruct He as [He|[He Ho]]);
    rewrite He; split; try naive_solver.
Qed.

(** Taking the abort command: the listeners are told to stop. *)
Lemma main_step_abort cx m q :
  manager_inv m -> c_queue (mpsc_view (m_cmds m)) = C_Abort :: q ->
  exists m0, main_step cx m = m0 /\
    (forall k addr cancel deaf, m_tasks m0 !! k = Some (MT_Accept addr cancel deaf) ->
       stop_closed (m_cs m0) cancel = Ready tt).
Proof.
  intros (Hwf & _ & Ht) Hq. exists (main_step cx m). split; [done|]. unfold main_step.
  destruct (mpsc_poll_recv (m_cmds m) cx) as [cmds r] eqn:E. apply mpsc_poll_recv_view in E.
  rewrite Hq in E. destruct E as [-> _]. cbn [m_tasks m_cs main_stops].
  intros k addr cancel deaf Hk. specialize (Ht k). rewrite Hk in Ht.
  destruct Ht as (_ & Hlt & Hreg). destruct (clear_listeners_spec (m_cs m)) as (_ & _ & Hlen & Ho).
  apply stop_closed_ready; [by rewrite Hlen|]. rewrite Ho. intros [Hopen Hn].
  apply Hn. exists addr. auto.
Qed.

(** The end of the main loop: the connections are told to stop. *)
Lemma main_leaves cx m :
  manager_inv m -> m_main m = Main_Stopping ->
  exists m2, manager_step cx (I_Main : input S M Ew Er) m = Ret m2 /\ m_main m2 = Main_ShutDown /\
    (forall k l stop ws rs, m_conns m2 !! k = Some l -> l_task l = CT_Join stop ws rs ->
       stop_closed (m_cs m2) stop = Ready tt) /\
    (forall c, snd (send_command (m_cmds m2) c) = Err manager_stopped).
Proof.
  intros (Hwf & Hc & _) Hmain. cbn [manager_step]. rewrite Hmain. unfold main_ends.
  destruct (mpsc_drop_rx (m_cmds m)) as [cmds d] eqn:E. apply mpsc_drop_rx_view in E as [_ Hv].
  eexists. split; [done|]. cbn [m_main m_conns m_cs m_cmds]. split_and!; [done|..].
  - intros k l stop ws rs Hk Htk. specialize (Hc k). rewrite Hk in Hc. destruct Hc as (_ & Hh & _).
    unfold handles_ok in Hh. rewrite Htk in Hh. destruct Hh as (Hlt & Hreg & _).
    destruct (clear_connections_spec (m_cs m)) as (_ & _ & Hlen & Ho).
    apply stop_closed_ready; [by rewrite Hlen|]. rewrite Ho. intros [Hopen Hn].
    apply Hn. exists (l_local l, l_peer l). auto.
  - intros c. unfold send_command. destruct (mpsc_send cmds c) as [cmds' r] eqn:E.
    apply mpsc_send_view in E. rewrite Hv in E. cbn in E. by destruct E as [-> _].
Qed.

(** Taking [CancelListen]. *)
Lemma main_step_cancel cx m q addr :
  c_queue (mpsc_view (m_cmds m)) = C_CancelListen addr :: q ->
  exists cmds cs b, remove_listener (m_cs m) addr = (cs, b) /\
    main_step cx m = set_tasks m cmds cs (m_tasks m).
Proof.
  intros Hq. unfold main_step.
  destruct (mpsc_poll_recv (m_cmds m) cx) as [cmds r] eqn:E. apply mpsc_poll_recv_view in E.
  rewrite Hq in E. destruct E as [-> _].
  destruct (remove_listener (m_cs m) addr) as [cs b]. by exists cmds, cs, b.
Qed.

(** A task [k] that is deaf, or has ended. *)
Definition deaf_task m (k : nat) (addr : SocketAddr) (cancel : nat) : Prop :=
  exists t, m_tasks m !! k = Some t /\ (t = MT_Accept addr cancel true \/ t = MT_Cancelled addr).

Lemma deaf_step cx (i : input S M Ew Er) m m' k addr cancel :
  deaf_task m k addr cancel -> manager_step cx i m = Ret m' -> deaf_task m' k addr cancel.
Proof.
  intros Hd. assert (forall rt cmds main cs conns evs,
    deaf_task (mkManager rt cmds main cs (m_tasks m) conns evs : Mgr) k addr cancel) as Hkeep by done.
  assert (forall rt cmds main cs t conns evs,
    deaf_task (mkManager rt cmds main cs (m_tasks m ++ [t]) conns evs : Mgr) k addr cancel) as Hadd.
  { intros. destruct Hd as (t' & Ht & Hd). exists t'. split; [|done]. cbn.
    by apply lookup_app_l_Some. }
  destruct i as [c| |k' a|k' start ret|k' u|k' e|k' e|k' part|]; cbn [manager_step].
  - destruct (mpsc_send (m_cmds m) c). intros [= <-]. apply Hkeep.
  - destruct (m_main m); [|unfold main_ends; destruct (mpsc_drop_rx _)|..]; intros [= <-]; try done.
    unfold main_step. destruct (mpsc_poll_recv (m_cmds m) cx) as [cmds [[cmd|]|]];
      [destruct cmd as [a|a d|a|]; [..|destruct (remove_listener (m_cs m) a)|]
      |unfold main_ends; destruct (mpsc_drop_rx cmds)|]; done || apply Hadd.
  - destruct (m_tasks m !! k') as [t|] eqn:Hk'; [|by intros [= <-]].
    destruct (task_step (length (m_conns m)) (m_cs m) t a) as [[[cs t'] new] ev] eqn:E.
    intros [= <-]. destruct Hd as (t0 & Ht0 & Hd). unfold deaf_task; cbn.
    destruct (decide (k = k')) as [->|Hne]; [|exists t0; by rewrite list_lookup_insert_ne].
    rewrite list_lookup_insert_eq by (by eapply lookup_lt_Some). exists t'. split; [done|].
    rewrite Hk' in Ht0. injection Ht0 as ->.
    destruct Hd as [->| ->]; cbn in E; [|injection E as <- <- <- <-; by right].
    unfold poll_cancel in E. destruct (stop_closed (m_cs m) cancel); injection E as <- <- <- <-;
      [by right|by left].
  - destruct (m_conns m !! k') as [l|]; [|by intros [= <-]].
    destruct (conn_task_step cx start ret (m_cs m) l) as [[[cs l'] ev]| |]; try done.
    by intros [= <-].
  - destruct (m_conns m !! k') as [l|]; [|by intros [= <-]].
    destruct (conn_user u (m_cs m) l) as [[cs l']| |]; try done. by intros [= <-].
  - destruct (m_conns m !! k'); [|by intros [= <-]]. by intros [= <-].
  - destruct (m_conns m !! k'); [|by intros [= <-]]. by intros [= <-].
  - destruct (m_main m), (m_conns m !! k') as [l|]; try (by intros [= <-]).
    all: destruct (runtime_drops part (m_cs m) l); by intros [= <-].
  - destruct (m_main m); intros [= <-]; done || apply Hkeep.
Qed.

Lemma deaf_forever cx (inputs : list (input S M Ew Er)) m m' k addr cancel :
  deaf_task m k addr cancel -> manager_run cx inputs m = Ret m' -> deaf_task m' k addr cancel.
Proof.
  revert m. induction inputs as [|i inputs IH]; intros m Hd E; cbn in E; [by injection E as <-|].
  destruct (manager_step cx i m) as [m1| |] eqn:E1; try done. eapply IH; [|done].
  by eapply deaf_step.
Qed.

End lemmas.

(** ** Properties *)

(** The calls of [join], of [abort] and of the destructor. *)
Inductive sm_call : Type :=
| Call_join (thread : option (result unit string))
| Call_abort (wait : bool) (thread : option (result unit string)).

Definition waits (c : sm_call) : bool :=
  match c with Call_join _ => true | Call_abort wait _ => wait end.

Section properties.
Context {Os Ch : Type -> Type} {Dl Dc S M Ew Jw Er Jr : Type}.
Context `{OneshotSpec Os} `{MpscSpec Ch} `{!DashMapOps SocketAddr nat Dl}
  `{!DashMapOps (SocketAddr * SocketAddr) nat Dc}
  `{!DashMapSpec SocketAddr nat Dl} `{!DashMapSpec (SocketAddr * SocketAddr) nat Dc}
  `{TaskSpec Ew Jw} `{TaskSpec Er Jr} `{!SpawnOps S M Jw Jr} `{!TcpStreamOps S}.
#[local] Abbreviation CS := (ConnectionState Os Dl Dc).
#[local] Abbreviation Local := (ConnLocal Os S M Jw Jr).
#[local] Abbreviation Mgr := (Manager Os Ch Dl Dc S M Jw Jr).
Implicit Types (m : Mgr).

(** C5: the protocol of the connection callback.  In every interleaving of
    commands, main loop, tasks, connections, readers, writers and user calls
    nothing panics, and at any time the callbacks of each connection are
    [OnConnect], then at most one [OnRemoteClose], then [OnConnectionClose] (or
    the beginning of that), the last exactly when its task is done, and
    [OnRemoteClose] only after its reader has ended normally.  A connecting task
    that failed has called [OnConnectError] once; one that has made a connection
    has not called it, and the other way round; a listener calls at most
    [OnListenError], once, when it cannot bind. *)
Theorem callback_protocol cx rt (inputs : list (input S M Ew Er)) :
  exists m, manager_run cx inputs (manager_new rt : Mgr) = Ret m /\
    (forall k l, m_conns m !! k = Some l ->
       let evs := events_of (From_conn k) (m_events m) in
       let c := OnConnect (l_local l) (l_peer l) in
       let r := OnRemoteClose (l_local l) (l_peer l) in
       let x := OnConnectionClose (l_local l) (l_peer l) in
       (evs `prefix_of` [c; x] \/ evs `prefix_of` [c; r; x]) /\
       (x ∈ evs <-> l_task l = CT_Done) /\
       (r ∈ evs -> output_of (l_reader l) = Some ended_ok)) /\
    (forall k t, m_tasks m !! k = Some t ->
       let evs := events_of (From_task k) (m_events m) in
       match t with
       | MT_Connected _ c => evs = [] /\ (c < length (m_conns m))%nat
       | MT_ConnectFailed addr => exists e, evs = [OnConnectError addr e]
       | MT_ListenFailed addr => exists e, evs = [OnListenError addr e]
       | _ => evs = []
       end).
Proof.
  destruct (manager_run_inv cx inputs _ (manager_new_inv rt)) as (m & E & _ & Hc & Ht).
  exists m. split; [done|]. split.
  - intros k l Hk. specialize (Hc k). rewrite Hk in Hc. destruct Hc as (He & Hh & _).
    by apply (events_ok_language (m_cs m)).
  - intros k t Hk. specialize (Ht k). rewrite Hk in Ht. destruct t; try done. by destruct Ht.
Qed.


(** C17: cancelling a listener.  When the main loop takes [CancelListen] for an
    address, every task that listens on it is told to stop and ends at its next
    poll in which no connection is waiting to be accepted; the other listeners
    and all connections go on as before. *)
Theorem cancel_listen_stops cx rt (inputs : list (input S M Ew Er)) m q addr :
  manager_run cx inputs (manager_new rt : Mgr) = Ret m ->
  c_queue (mpsc_view (m_cmds m)) = C_CancelListen addr :: q ->
  let m' := main_step cx m in
  m_main m' = m_main m /\ m_tasks m' = m_tasks m /\ m_conns m' = m_conns m /\
  (forall k cancel deaf, m_tasks m !! k = Some (MT_Accept addr cancel deaf) ->
     forall n, exists cs, task_step n (m_cs m') (MT_Accept addr cancel deaf) (A_Nothing : answer S)
       = (cs, MT_Cancelled addr, [] : list Local, [])) /\
  (forall k addr' cancel deaf, m_tasks m !! k = Some (MT_Accept addr' cancel deaf) ->
     addr' <> addr -> stop_open (m_cs m') cancel <-> stop_open (m_cs m) cancel) /\
  (forall key i, connected (m_cs m) key i -> stop_open (m_cs m') i /\ connected (m_cs m') key i).
Proof.
  intros Hrun Hq m'.
  destruct (manager_run_inv cx inputs _ (manager_new_inv rt)) as (m0 & E & Hwf & Hc & Ht).
  rewrite Hrun in E. injection E as <-.
  destruct (main_step_cancel cx m q addr Hq) as (cmds & cs & b & E & Em). subst m'. rewrite Em.
  pose proof (remove_listener_spec _ _ _ _ E) as (Hcv & Hlv & Hlen & Ho & _).
  cbn [m_main m_tasks m_conns m_cs set_tasks]. destruct Hwf as (W1 & W2 & W3 & W4 & W5).
  split_and!; try done.
  - intros k cancel deaf Hk n. specialize (Ht k). rewrite Hk in Ht. destruct Ht as (_ & Hlt & Hreg).
    assert (stop_closed cs cancel = Ready tt) as Hcl.
    { apply stop_closed_ready; [by rewrite Hlen|]. rewrite Ho. intros [Hopen Hn]. auto. }
    cbn. unfold accept_connections, poll_cancel. rewrite Hcl. destruct deaf; by eexists.
  - intros k addr' cancel deaf Hk Hne. specialize (Ht k). rewrite Hk in Ht.
    destruct Ht as (_ & Hlt & Hreg). rewrite Ho. split; [tauto|]. intros Hopen. split; [done|].
    intros Hl. apply Hne. eapply W3; [by apply Hreg|done].
  - intros key i Hk. unfold connected. rewrite Hcv, Ho. split_and!; try done; [by eapply W2|].
    intros Hl. by eapply W5.
Qed.

(** C31: one failed [accept] silences a listener for good.  After an error of
    [accept] the listener stays registered, but whatever happens later its task
    accepts no connection any more: the [else] branch that would report the
    error and go on is never taken, because the other branch of the [select!] is
    still waiting. *)
Theorem accept_error_silences_listener cx m k addr cancel e (inputs : list (input S M Ew Er)) m' :
  m_tasks m !! k = Some (MT_Accept addr cancel false) ->
  stop_closed (m_cs m) cancel = Pending ->
  manager_run cx (I_Task k (A_Stream (Err e)) :: inputs) m = Ret m' ->
  exists t, m_tasks m' !! k = Some t /\
    (t = MT_Accept addr cancel true \/ t = MT_Cancelled addr) /\
    forall n (cs : CS) (a : answer S), exists cs' t',
      task_step n cs t a = (cs', t', [] : list Local, []).
Proof.
  intros Hk Hopen E. cbn [manager_run manager_step] in E. rewrite Hk in E.
  cbn [task_step] in E. unfold accept_connections, poll_cancel in E. rewrite Hopen in E.
  cbn [obind] in E.
  apply (deaf_forever cx inputs _ m' k addr cancel) in E as (t & Ht & Hd); cycle 1.
  - exists (MT_Accept addr cancel true). split; [|by left]. cbn.
    apply list_lookup_insert_eq. by eapply lookup_lt_Some.
  - exists t. split_and!; try done. intros n cs a. destruct Hd as [->| ->]; cbn; [|by eexists _, _].
    unfold poll_cancel. destruct (stop_closed cs cancel); by eexists _, _.
Qed.

(** [join] waits once.  Whatever calls of [join], [abort] and the destructor
    are made, none of them panics; an [abort] that does not wait returns [Ok]; the
    first call that waits returns what the thread has returned, or blocks while
    it runs; every later one returns [Ok] at once. *)
Theorem join_waits_once (cmds : Ch Command) (c : sm_call) (sm : SocketManager) :
  join_handle sm = (if has_joined sm then None else Some tt) ->
  exists cmds' sm' r,
    match c with
    | Call_join thread => let* '(sm, r) := join thread sm in Ret (cmds, sm, r)
    | Call_abort wait thread => abort wait thread cmds sm
    end = Ret (cmds', sm', r) /\
    join_handle sm' = (if has_joined sm' then None else Some tt) /\
    has_joined sm' = (waits c || has_joined sm) /\
    (if waits c && negb (has_joined sm)
     then match (match c with Call_join t | Call_abort _ t => t end) with
          | None => r = None
          | Some (Ok _) => r = Some (Ok tt)
          | Some (Err e) => r = Some (Err (IoNew Other ("socket manager join returned error: " +:+ e)))
          end
     else r = Some (Ok tt)).
Proof.
  intros Hsm. destruct sm as [[] h]; cbn in Hsm; subst h; destruct c as [thread|wait thread].
  all: unfold abort; try destruct (mpsc_send cmds C_Abort) as [cmds' r']; try destruct wait.
  all: destruct thread as [[u|e]|]; eexists _, _, _; (split; [reflexivity|done]).
Qed.

(** C35: the number of worker threads.  [start_runtime] builds a single-threaded
    runtime exactly for [n_threads = 1], as many workers as there are processors
    (one, if that is not known) for 0, and otherwise [n_threads] workers, but
    never more than 256; it always asks for at least one worker. *)
Theorem start_runtime_workers par build n :
  0 <= n -> (forall k, par = Ok k -> 0 < k) ->
  exists kind, start_runtime par build n = build kind /\
    (kind = CurrentThread <-> n = 1) /\
    (forall w, kind = MultiThread w ->
       0 < w /\ (if n =? 0 then w = match par with Ok k => k | Err _ => 1 end
                 else w = Z.min n 256 /\ 1 < w)).
Proof.
  intros Hn Hpar. unfold start_runtime, MAX_WORKER_THREADS.
  destruct (Z.eqb_spec (Z.min n 256) 0) as [E|E]; [|destruct (Z.eqb_spec (Z.min n 256) 1) as [E1|E1]].
  - assert (n = 0) as -> by lia. eexists. split; [done|]. split; [by split|].
    intros w [= <-]. destruct par as [k|]; [|by split]. split; [by apply Hpar|done].
  - assert (n = 1) as -> by lia. eexists. split; [done|]. by split.
  - eexists. split; [done|]. split; [split; [done|lia]|]. intros w [= <-].
    destruct (Z.eqb_spec n 0); lia.
Qed.

(** C8: the state of the manager stays well formed.  Whatever the tasks, the user,
    the clock and the network do, no step panics and in every state that is
    reached: a receiver that is in one of the two maps has not been dropped and is in
    no other place; a started connection that was not told to stop is in the map under
    its own addresses; and a [Conn] in the hands of the user carries the addresses
    of its connection and owns the setter of the configuration exactly until it is
    consumed. *)
Theorem manager_state_wf cx rt (inputs : list (input S M Ew Er)) :
  exists m, manager_run cx inputs (manager_new rt : Mgr) = Ret m /\ cs_wf (m_cs m) /\
    forall k l, m_conns m !! k = Some l ->
      (forall stop ws rs, l_task l = CT_Join stop ws rs -> stop_open (m_cs m) stop ->
         connected (m_cs m) (l_local l, l_peer l) stop) /\
      (forall c, l_conn l = Some c ->
         conn_wf c /\ local_addr c = l_local l /\ peer_addr c = l_peer l /\
         o_tx (os_view (l_conf l)) = negb (consumed c)).
Proof.
  destruct (manager_run_inv cx inputs _ (manager_new_inv rt)) as (m & E & Hwf & Hc & _).
  exists m. split_and!; [done..|]. intros k l Hk. specialize (Hc k). rewrite Hk in Hc.
  destruct Hc as (_ & Hh & _ & Hl). split.
  - intros stop ws rs Ht. unfold handles_ok in Hh. rewrite Ht in Hh. by apply Hh.
  - intros c Ec. rewrite Ec in Hl. tauto.
Qed.

End properties.

(** ** Witnesses *)

#[export] Instance unit_stream : TcpStreamOps unit := {|
  stream_local_addr _ := Ok demo_local;
  stream_peer_addr _ := Ok demo_peer
|}.

Definition DemoMgr : Type :=
  Manager oneshot_view chan_view (gmap SocketAddr nat) (gmap (SocketAddr * SocketAddr) nat)
    unit unit ScriptTask ScriptTask.
Definition demo_input : Type := input unit unit (option task_output) (option task_output).
Definition demo_cx : Waker := mkWaker 1 2.

Definition run_demo (rt : RuntimeKind) (inputs : list demo_input) : DemoMgr :=
  match manager_run demo_cx inputs (manager_new rt) with
  | Ret m => m
  | _ => manager_new rt
  end.

(** A run does not panic, so it can be continued. *)
Lemma run_demo_eq rt inputs : manager_run demo_cx inputs (manager_new rt) = Ret (run_demo rt inputs).
Proof.
  unfold run_demo. destruct (manager_run_inv (Ch := chan_view) demo_cx inputs _ (manager_new_inv rt))
    as (m & E & _). by rewrite E.
Qed.

Lemma run_demo_app rt l1 l2 :
  manager_run demo_cx l2 (run_demo rt l1) = Ret (run_demo rt (l1 ++ l2)).
Proof.
  rewrite <- (run_demo_eq rt (l1 ++ l2)). symmetry.
  etransitivity; [exact (manager_run_app demo_cx l1 l2 (manager_new rt))|].
  by rewrite (run_demo_eq rt l1).
Qed.

(** A listener on [demo_local] that has accepted a connection; the user has
    started it. *)
Definition demo_inputs : list demo_input :=
  [I_Command (C_Listen demo_local); I_Main; I_Task 0 (A_Bind (Ok tt));
   I_Task 0 (A_Stream (Ok tt)); I_Conn 0 0 (Ok tt); I_Conn 0 0 (Ok tt);
   I_User 0 (U_Call (Call_start tt (mkConnConfig (from_millis 1) (from_millis 1) 0)));
   I_Conn 0 0 (Ok tt); I_Conn 0 0 (Ok tt)].

Definition demo_aborting : list demo_input := demo_inputs ++ [I_Command C_Abort].


Lemma cancel_listen_stops_witness :
  let m := run_demo CurrentThread (demo_inputs ++ [I_Command (C_CancelListen demo_local)]) in
  exists cs, task_step 0 (m_cs (main_step demo_cx m)) (MT_Accept demo_local 0 false)
    (A_Nothing : answer unit)
    = (cs, MT_Cancelled demo_local,
       [] : list (ConnLocal oneshot_view unit unit ScriptTask ScriptTask), []).
Proof.
  destruct (cancel_listen_stops demo_cx CurrentThread
    (demo_inputs ++ [I_Command (C_CancelListen demo_local)])
    (run_demo CurrentThread (demo_inputs ++ [I_Command (C_CancelListen demo_local)])) [] demo_local)
    as (_ & _ & _ & Hc & _).
  - apply run_demo_eq.
  - vm_compute. reflexivity.
  - apply (Hc 0%nat 0%nat false). vm_compute. reflexivity.
Defined.

Definition demo_accept_error : list demo_input :=
  [I_Task 0 (A_Stream (Err (IoNew Other "EMFILE"))); I_Task 0 (A_Stream (Ok tt))].

Lemma accept_error_silences_listener_witness :
  exists t, m_tasks (run_demo CurrentThread (demo_inputs ++ demo_accept_error)) !! 0%nat = Some t /\
    (t = MT_Accept demo_local 0 true \/ t = MT_Cancelled demo_local).
Proof.
  destruct (accept_error_silences_listener demo_cx (run_demo CurrentThread demo_inputs) 0 demo_local 0
    (IoNew Other "EMFILE") [I_Task 0 (A_Stream (Ok tt)) : demo_input]
    (run_demo CurrentThread (demo_inputs ++ demo_accept_error)))
    as (t & Ht & Hd & _).
  - vm_compute. reflexivity.
  - vm_compute. reflexivity.
  - apply run_demo_app.
  - exists t. split; assumption.
Defined.

Lemma join_waits_once_witness :
  exists cmds' sm' r,
    (let* '(sm, r) := join (Some (Ok tt)) socket_manager_new in
     Ret (mpsc_new : chan_view Command, sm, r)) = Ret (cmds', sm', r) /\ r = Some (Ok tt).
Proof.
  destruct (join_waits_once (mpsc_new : chan_view Command) (Call_join (Some (Ok tt)))
    socket_manager_new eq_refl) as (cmds' & sm' & r & E & _ & _ & Hr).
  by exists cmds', sm', r.
Defined.

Lemma start_runtime_workers_witness :
  exists kind, start_runtime (Ok 8) Ok 1000 = Ok kind /\
    forall w, kind = MultiThread w -> w = 256 /\ 1 < w.
Proof.
  destruct (start_runtime_workers (Ok 8) Ok 1000) as (kind & E & _ & Hw).
  - lia.
  - intros k [= <-]. lia.
  - exists kind. split; [exact E|]. intros w Hk. apply (Hw w Hk).
Defined.
