(* ===== verification/Lifecycle.v ===== *)
(** * Connections and the manager over time ([lib.rs], [conn_handle.rs])

    [ConnHandle] has the task of one connection and [Manager] the steps of the whole
    system.  This file follows one connection through the steps of all the others:
    what an input does to it, that a connection which has to end does end if its
    task gets its turns, and what an abort and the shutdown of the runtime leave
    of it. *)

From S2P Require Import Prelude Config RingBuf Oneshot Conn ConnHandle Manager.

Section defs.
Context {Os Ch : Type -> Type} {Dl Dc S M Ew Jw Er Jr : Type}.
Context `{OneshotSpec Os} `{MpscSpec Ch} `{!DashMapOps SocketAddr nat Dl}
  `{!DashMapOps (SocketAddr * SocketAddr) nat Dc}
  `{!DashMapSpec SocketAddr nat Dl} `{!DashMapSpec (SocketAddr * SocketAddr) nat Dc}
  `{TaskSpec Ew Jw} `{TaskSpec Er Jr} `{!SpawnOps S M Jw Jr} `{!TcpStreamOps S}.
#[local] Abbreviation CS := (ConnectionState Os Dl Dc).
#[local] Abbreviation Local := (ConnLocal Os S M Jw Jr).
#[local] Abbreviation Mgr := (Manager Os Ch Dl Dc S M Jw Jr).
Implicit Types (cs : CS) (l : Local) (m : Mgr).

(** The input is a step of the task of connection [k]. *)
Definition own_turn (k : nat) (i : input S M Ew Er) : bool :=
  match i with I_Conn k' _ _ => bool_decide (k' = k) | _ => false end.

(** The runtime drops the task of connection [k]. *)
Definition own_drop (k : nat) (i : input S M Ew Er) : bool :=
  match i with I_Drop k' P_Task => bool_decide (k' = k) | _ => false end.

(** How often the task of connection [k] runs in a list of inputs. *)
Fixpoint turns (k : nat) (inputs : list (input S M Ew Er)) : nat :=
  match inputs with
  | [] => 0
  | i :: inputs => Nat.b2n (own_turn k i) + turns k inputs
  end.

(** What one step of the system does to a connection: nothing, while others change
    the shared state; a step of its own task; a call of its user; a step or an
    abort of its writer or reader; or its task is dropped with the runtime.  The
    two flags tell whether the input is a turn of the task, and a drop of it. *)
Inductive conn_change (cx : Waker) cs cs' : bool -> bool -> Local -> Local -> Prop :=
| cc_other d l : cs_step cs cs' -> conn_change cx cs cs' false d l l
| cc_own start ret l l' ev :
    conn_task_step cx start ret cs l = Ret (cs', l', ev) -> conn_change cx cs cs' true false l l'
| cc_user u l l' : conn_user u cs l = Ret (cs', l') -> conn_change cx cs cs' false false l l'
| cc_writer f l : task_map (E := Ew) f -> cs' = cs ->
    conn_change cx cs cs' false false l (set_handles l (jh_map f <$> l_writer l) (l_reader l))
| cc_reader f l : task_map (E := Er) f -> cs' = cs ->
    conn_change cx cs cs' false false l (set_handles l (l_writer l) (jh_map f <$> l_reader l))
| cc_drop l l' : cs_step cs cs' -> drop_conn_task cs l = (cs', l') ->
    conn_change cx cs cs' false true l l'.

(** A connection that was started, or can be, and has to end: nobody can start
    it any more; its loop has to stop; or it has left its loop. *)
Definition going_down cs l : Prop :=
  match l_task l with
  | CT_Callback => o_tx (os_view (l_conf l)) = false /\ o_value (os_view (l_conf l)) = None
  | _ => ending (Ok tt) cs l
  end.

(** The task of the connection is done, or was dropped; its reader and its writer
    have ended or were told to. *)
Definition wound_up l : Prop :=
  (l_task l = CT_Done \/ l_task l = CT_Dropped) /\
  (forall h, l_writer l = Some h -> tk_stopping (jh_task h) = true) /\
  (forall h, l_reader l = Some h -> tk_stopping (jh_task h) = true).
(** The connections that [close] is meant for: registered, or not started yet. *)
Definition closable l (c : Conn) : Prop :=
  (exists stop ws rs, l_task l = CT_Join stop ws rs) \/
  Conn.consumed c = false /\ (l_task l = CT_Callback \/ l_task l = CT_WaitStart).

End defs.

Section lemmas.
Context {Os Ch : Type -> Type} {Dl Dc S M Ew Jw Er Jr : Type}.
Context `{OneshotSpec Os} `{MpscSpec Ch} `{!DashMapOps SocketAddr nat Dl}
  `{!DashMapOps (SocketAddr * SocketAddr) nat Dc}
  `{!DashMapSpec SocketAddr nat Dl} `{!DashMapSpec (SocketAddr * SocketAddr) nat Dc}
  `{TaskSpec Ew Jw} `{TaskSpec Er Jr} `{!SpawnOps S M Jw Jr} `{!TcpStreamOps S}.
#[local] Abbreviation CS := (ConnectionState Os Dl Dc).
#[local] Abbreviation Local := (ConnLocal Os S M Jw Jr).
#[local] Abbreviation Mgr := (Manager Os Ch Dl Dc S M Jw Jr).
Implicit Types (cs : CS) (l : Local) (m : Mgr).

(** *** One connection in a step of the system *)

Lemma main_step_cs cx m : cs_step (m_cs m) (m_cs (main_step cx m)) /\
  m_conns (main_step cx m) = m_conns m.
Proof.
  unfold main_step. destruct (mpsc_poll_recv (m_cmds m) cx) as [cmds r].
  destruct r as [[cmd|]|]; [destruct cmd as [addr|addr delay|addr|]|..]; try done.
  - destruct (remove_listener (m_cs m) addr) as [cs b] eqn:E. split; [|done].
    by eapply cs_step_remove_listener.
  - split; [apply cs_step_clear_listeners|done].
  - unfold main_ends. by destruct (mpsc_drop_rx cmds).
Qed.

(** Replacing another connection, or this one. *)
Lemma set_conn_change cx m cs' k k' l l1 l1' ev b d :
  m_conns m !! k = Some l -> m_conns m !! k' = Some l1 -> cs_step (m_cs m) cs' ->
  (k' = k -> conn_change cx (m_cs m) cs' b d l1 l1') -> (k' <> k -> b = false /\ d = false) ->
  exists l', m_conns (set_conn m cs' k' l1' ev) !! k = Some l' /\
    conn_change cx (m_cs m) cs' b d l l'.
Proof.
  intros Hk Hk' Hst Hown Hother. cbn. destruct (decide (k' = k)) as [->|Hne].
  - rewrite list_lookup_insert_eq by (by eapply lookup_lt_Some).
    rewrite Hk in Hk'. injection Hk' as <-. eauto.
  - rewrite list_lookup_insert_ne by done. destruct (Hother Hne) as [-> ->]. exists l. split; [done|].
    by apply cc_other.
Qed.

Lemma drop_conn_task_change cs l cs' l' :
  drop_conn_task cs l = (cs', l') ->
  l_local l' = l_local l /\ l_peer l' = l_peer l /\
  l_writer l' = l_writer l /\ l_reader l' = l_reader l /\
  (l_task l' = CT_Dropped \/ l_task l = CT_Done /\ l_task l' = CT_Done).
Proof.
  unfold drop_conn_task. intros E.
  destruct (l_task l) eqn:Ht; injection E as <- <-; cbn; split_and!; auto.
Qed.

Lemma runtime_drops_change cx part cs l cs' l' :
  cs_step cs cs' -> runtime_drops part cs l = (cs', l') ->
  conn_change cx cs cs' false (match part with P_Task => true | _ => false end) l l'.
Proof.
  intros Hst E. destruct part; cbn in E.
  - by apply cc_drop.
  - injection E as <- <-. by apply cc_writer; [apply task_map_abort|].
  - injection E as <- <-. by apply cc_reader; [apply task_map_abort|].
Qed.

(** A turn of the task of some connection. *)
Lemma conn_turn_change cx start ret m k k' l l1 cs l1' ev :
  manager_inv m -> m_conns m !! k = Some l -> m_conns m !! k' = Some l1 ->
  conn_task_step cx start ret (m_cs m) l1 = Ret (cs, l1', ev) ->
  exists l', m_conns (set_conn m cs k' l1' ev) !! k = Some l' /\
    conn_change cx (m_cs m) cs (bool_decide (k' = k)) false l l'.
Proof.
  intros (_ & Hc & _) Hk Hk' E. specialize (Hc k'). rewrite Hk' in Hc.
  destruct (conn_task_step_inv cx start ret (m_cs m) l1 _ Hc) as (cs1 & l2 & ev1 & E1 & _ & Hst & _).
  rewrite E in E1. injection E1 as <- <- <-.
  apply (set_conn_change cx m cs k k' l l1); try done; [|intros Hne; by rewrite bool_decide_eq_false_2].
  intros ->. rewrite bool_decide_eq_true_2 by done. by eapply cc_own.
Qed.

(** The runtime drops a part of some connection; before the main loop has returned
    it does not. *)
Lemma drop_turn_change cx k' part m m' k l :
  manager_inv m -> manager_step cx (I_Drop k' part : input S M Ew Er) m = Ret m' ->
  m_conns m !! k = Some l ->
  exists l', m_conns m' !! k = Some l' /\
    conn_change cx (m_cs m) (m_cs m') false (own_drop k (I_Drop k' part : input S M Ew Er)) l l'.
Proof.
  intros (_ & Hc & _) E Hk. cbn [manager_step] in E.
  destruct (m_conns m !! k') as [l1|] eqn:Hk'.
  2: { destruct (m_main m); injection E as <-; (exists l; split; [done|by apply cc_other]). }
  specialize (Hc k'). rewrite Hk' in Hc.
  destruct (runtime_drops part (m_cs m) l1) as [cs l1'] eqn:E1.
  destruct (runtime_drops_inv part (m_cs m) l1 _ cs l1' Hc E1) as (_ & Hst & _).
  pose proof (runtime_drops_change cx part _ _ _ _ Hst E1) as Hcc.
  destruct (m_main m); injection E as <-; try (exists l; split; [done|by apply cc_other]).
  all: apply (set_conn_change cx m cs k k' l l1); try done; cbn [own_drop].
  all: intros Hkk; destruct part; try done.
  all: by (rewrite bool_decide_eq_true_2 by done) || (rewrite bool_decide_eq_false_2 by done).
Qed.

Lemma manager_step_change cx (i : input S M Ew Er) m m' k l :
  manager_inv m -> manager_step cx i m = Ret m' -> m_conns m !! k = Some l ->
  exists l', m_conns m' !! k = Some l' /\
    conn_change cx (m_cs m) (m_cs m') (own_turn k i) (own_drop k i) l l'.
Proof.
  intros Hm E Hk. pose proof Hm as (Hwf & Hc & Ht).
  assert (forall m1, m_conns m1 = m_conns m -> cs_step (m_cs m) (m_cs m1) ->
    exists l', m_conns m1 !! k = Some l' /\ conn_change cx (m_cs m) (m_cs m1) false false l l') as Hsame.
  { intros m1 -> Hst. exists l. split; [done|]. by apply cc_other. }
  destruct i as [c| |k' a|k' start ret|k' u|k' e|k' e|k' part|]; cbn [manager_step own_turn own_drop] in *.
  - destruct (mpsc_send (m_cmds m) c). injection E as <-. by apply Hsame.
  - destruct (m_main m); injection E as <-; try by apply Hsame.
    + destruct (main_step_cs cx m). by apply Hsame.
    + unfold main_ends. destruct (mpsc_drop_rx _). apply Hsame; [done|]. apply cs_step_clear_connections.
  - destruct (m_tasks m !! k') as [t|] eqn:Hk'; [|injection E as <-; by apply Hsame].
    destruct (task_step (length (m_conns m)) (m_cs m) t a) as [[[cs t'] new] ev] eqn:Et.
    specialize (Ht k'). rewrite Hk' in Ht.
    apply (task_step_spec _ _ _ _ _ _ _ _ _ Ht) in Et as (Hst & _). injection E as <-. cbn.
    exists l. split; [by apply lookup_app_l_Some|by apply cc_other].
  - destruct (m_conns m !! k') as [l1|] eqn:Hk'.
    2: { injection E as <-. rewrite bool_decide_eq_false_2 by congruence. by apply Hsame. }
    destruct (conn_task_step cx start ret (m_cs m) l1) as [[[cs l1'] ev]| |] eqn:E1; [|done..].
    injection E as <-. by eapply conn_turn_change.
  - destruct (m_conns m !! k') as [l1|] eqn:Hk'; [|injection E as <-; by apply Hsame].
    specialize (Hc k'). rewrite Hk' in Hc.
    destruct (conn_user_inv u (m_cs m) l1 _ Hc) as (cs & l1' & E1 & _ & Hst & _).
    rewrite E1 in E. injection E as <-.
    apply (set_conn_change cx m cs k k' l l1); try done. intros _. by eapply cc_user.
  - destruct (m_conns m !! k') as [l1|] eqn:Hk'; injection E as <-; [|by apply Hsame].
    apply (set_conn_change cx m _ k k' l l1); try done. intros _.
    by apply cc_writer; [apply task_map_step|].
  - destruct (m_conns m !! k') as [l1|] eqn:Hk'; injection E as <-; [|by apply Hsame].
    apply (set_conn_change cx m _ k k' l l1); try done. intros _.
    by apply cc_reader; [apply task_map_step|].
  - by eapply drop_turn_change.
  - destruct (m_main m); injection E as <-; by apply Hsame.
Qed.

(** *** A connection that has to end *)

Lemma must_stop_cs cs cs' stop l :
  cs_step cs cs' -> (stop < length (stops cs))%nat -> must_stop cs stop l -> must_stop cs' stop l.
Proof.
  intros [Hlen Hst] Hlt [Hs|Hm]; [left|by right]. apply stop_closed_ready; [lia|].
  apply stop_closed_ready in Hs; [|done]. intros Ho. by destruct (Hst stop Hlt Ho).
Qed.

Lemma must_stop_output cs stop l l' :
  (forall o, output_of (l_writer l) = Some o -> output_of (l_writer l') = Some o) ->
  (forall o, output_of (l_reader l) = Some o -> output_of (l_reader l') = Some o) ->
  must_stop cs stop l -> must_stop cs stop l'.
Proof.
  intros Hw Hr [?|[(o & Ho & ?)|[(o & Ho & ?)|[[o1 Ho1] [o2 Ho2]]]]]; [by left|right..].
  - left. eauto.
  - right; left. eauto.
  - right; right. split; eauto.
Qed.

Lemma going_down_cs cs cs' l :
  handles_ok cs l -> cs_step cs cs' -> going_down cs l -> going_down cs' l.
Proof.
  unfold going_down, ending, handles_ok. destruct (l_task l); try done.
  intros (Hlt & _) Hst. by apply must_stop_cs.
Qed.

Lemma going_down_ending cs l : l_task l <> CT_Callback -> going_down cs l -> ending (Ok tt) cs l.
Proof. unfold going_down. by destruct (l_task l). Qed.

Lemma ending_going_down cs l : ending (Ok tt) cs l -> going_down cs l.
Proof. unfold going_down, ending. destruct (l_task l); try done. by intros [e [=]]. Qed.

(** What the callback returns matters only while it runs. *)
Lemma conn_task_step_ret cx start ret cs l :
  l_task l <> CT_Callback ->
  conn_task_step cx start ret cs l = conn_task_step cx start (Ok tt) cs l.
Proof. intros Hne. unfold conn_task_step. by destruct (l_task l). Qed.

(** A user can not revive a connection that was consumed. *)
Lemma conn_user_going_down u cs l evs cs' l' :
  conn_inv cs l evs -> going_down cs l -> conn_user u cs l = Ret (cs', l') ->
  l_local l' = l_local l /\ l_peer l' = l_peer l /\ going_down cs' l' /\ end_cost l' = end_cost l.
Proof.
  intros Hinv Hd E. destruct (conn_user_inv u cs l evs Hinv) as (cs1 & l1 & E1 & _ & Hst & _).
  rewrite E in E1. injection E1 as <- <-. pose proof Hinv as (_ & Hh & [_ Hc]).
  pose proof (going_down_cs _ _ _ Hh Hst Hd) as Hd'.
  assert (l_local l' = l_local l /\ l_peer l' = l_peer l /\ l_task l' = l_task l /\
    l_writer l' = l_writer l /\ l_reader l' = l_reader l /\
    (l_task l = CT_WaitStart \/ l_task l = CT_Callback -> l_conf l' = l_conf l)) as (-> & -> & Ht & Hw & Hr & Hconf).
  { unfold conn_user in E. destruct (l_conn l) as [c|]; [|by injection E as <- <-].
    destruct Hc as (Hwf & _ & _ & Htx & _ & _).
    assert (l_task l = CT_WaitStart \/ l_task l = CT_Callback -> Conn.consumed c = true /\ inner c = None)
      as Hcons.
    { intros [Ht|Ht]; unfold going_down, ending in Hd; rewrite Ht in Hd; destruct Hd as [Hd _];
        rewrite Hd in Htx; unfold conn_wf in Hwf; destruct (Conn.consumed c); done. }
    destruct u as [[on_msg config|]|]; cbn in E.
    - unfold start_connection in E. cbn [compare_exchange] in E.
      destruct (Conn.consumed c) eqn:Ec; cbn in E; [by injection E as <- <-|].
      destruct (inner c) as [[]|]; [|done]. destruct (os_send _ _) as [conf [|]];
        injection E as <- <-; cbn; split_and!; try done; intros Hwt; by destruct (Hcons Hwt).
    - unfold close in E. cbn [compare_exchange] in E.
      destruct (Conn.consumed c) eqn:Ec; cbn in E; [by injection E as <- <-|].
      destruct (inner c) as [[]|]; [|done]. injection E as <- <-. cbn.
      split_and!; try done; intros Hwt; by destruct (Hcons Hwt).
    - injection E as <- <-. cbn. split_and!; try done. intros Hwt. destruct (Hcons Hwt) as [_ Hin].
      unfold drop_conn. by rewrite Hin. }
  split_and!; try done.
  - unfold going_down, ending, must_stop in *. rewrite Ht, Hw, Hr.
    destruct (l_task l); try done; rewrite Hconf; auto.
  - unfold end_cost. by rewrite Ht.
Qed.

(** Each step of the system leaves the connection on its way, or drops it; its own
    steps bring it nearer to the end. *)
Lemma going_down_change cx cs cs' b d l l' evs :
  conn_inv cs l evs -> going_down cs l -> conn_change cx cs cs' b d l l' ->
  l_local l' = l_local l /\ l_peer l' = l_peer l /\
  (l_task l' = CT_Dropped /\ d = true \/
   going_down cs' l' /\ (end_cost l' <= end_cost l - Nat.b2n b)%nat).
Proof.
  intros Hinv Hd Hcc. pose proof Hinv as (_ & Hh & _).
  assert (forall l1, l_task l1 = l_task l -> l_conf l1 = l_conf l ->
    (forall o, output_of (l_writer l) = Some o -> output_of (l_writer l1) = Some o) ->
    (forall o, output_of (l_reader l) = Some o -> output_of (l_reader l1) = Some o) ->
    going_down cs l1 /\ (end_cost l1 <= end_cost l - 0)%nat) as Hmap.
  { intros l1 Ht Hcf Hw Hr. unfold end_cost, going_down, ending in *. rewrite Ht, Hcf. split; [|lia].
    destruct (l_task l); try done. by eapply must_stop_output. }
  destruct Hcc as [d l Hst|start ret l l' ev E|u l l' E|f l [Hf _] ->|f l [Hf _] ->|l l' _ E].
  - split_and!; try done. right. split; [by eapply going_down_cs|]. cbn. lia.
  - destruct (conn_task_step_inv cx start ret cs l evs Hinv)
      as (cs1 & l1 & ev1 & E1 & _ & _ & _ & Hlo & Hpe). rewrite E in E1. injection E1 as <- <- <-.
    split_and!; try done. right.
    assert (l_task l = CT_Callback \/ l_task l <> CT_Callback) as [Ht|Hne] by (destruct (l_task l); auto).
    { unfold going_down in Hd. rewrite Ht in Hd. unfold conn_task_step in E. rewrite Ht in E.
      unfold going_down, ending, end_cost. rewrite Ht.
      destruct ret; injection E as <- <- <-; cbn; (split; [done|lia]). }
    rewrite conn_task_step_ret in E by done. apply going_down_ending in Hd; [|done].
    destruct (ending_step _ _ _ _ _ _ _ _ _ Hinv Hd E) as (Hd' & Hlt & _).
    split; [by eapply ending_going_down|].
    destruct Hlt as [Ht|Hlt]; [|cbn; lia]. unfold conn_task_step in E. rewrite Ht in E.
    injection E as <- <- <-. unfold end_cost. rewrite Ht. lia.
  - destruct (conn_user_going_down _ _ _ _ _ _ Hinv Hd E) as (? & ? & ? & ->).
    split_and!; try done. right. split; [done|]. cbn. lia.
  - split_and!; try done. right. apply Hmap; try done. intros o Ho. by apply output_map.
  - split_and!; try done. right. apply Hmap; try done. intros o Ho. by apply output_map.
  - apply drop_conn_task_change in E as (? & ? & _ & _ & Ht).
    split_and!; try done. destruct Ht as [?|[Ht Ht']]; [by left|right].
    unfold going_down, ending, end_cost. rewrite Ht', Ht. split; [done|lia].
Qed.

Lemma conn_user_same u cs l cs' l' :
  conn_user u cs l = Ret (cs', l') ->
  l_local l' = l_local l /\ l_peer l' = l_peer l /\ l_task l' = l_task l.
Proof.
  unfold conn_user. destruct (l_conn l) as [c|]; [|by intros [= <- <-]].
  destruct u as [call|]; [|by intros [= <- <-]].
  destruct (conn_do _ _ _ _) as [[[[c' conf] cs1] r]| |]; try done. by intros [= <- <-].
Qed.

Lemma dropped_change cx cs cs' b d l l' :
  l_task l = CT_Dropped -> conn_change cx cs cs' b d l l' ->
  l_local l' = l_local l /\ l_peer l' = l_peer l /\ l_task l' = CT_Dropped.
Proof.
  intros Ht. destruct 1 as [d l Hst|start ret l l' ev E|u l l' E|f l Hf _|f l Hf _|l l' _ E]; try done.
  - unfold conn_task_step in E. rewrite Ht in E. by injection E as <- <- <-.
  - apply conn_user_same in E as (? & ? & ->). by split_and!.
  - unfold drop_conn_task in E. rewrite Ht in E. by injection E as <- <-.
Qed.

Lemma dropped_run cx (inputs : list (input S M Ew Er)) m m' k l :
  manager_inv m -> m_conns m !! k = Some l -> l_task l = CT_Dropped ->
  manager_run cx inputs m = Ret m' ->
  exists l', m_conns m' !! k = Some l' /\
    l_local l' = l_local l /\ l_peer l' = l_peer l /\ l_task l' = CT_Dropped.
Proof.
  revert m l. induction inputs as [|i inputs IH]; intros m l Hm Hk Hd E; cbn in E.
  { injection E as <-. by exists l. }
  destruct (manager_step_inv cx i m Hm) as (m1 & E1 & Hm1). rewrite E1 in E. cbn in E.
  destruct (manager_step_change cx i m m1 k l Hm E1 Hk) as (l1 & Hk1 & Hcc).
  destruct (dropped_change _ _ _ _ _ _ _ Hd Hcc) as (<- & <- & Hd1). by apply (IH m1).
Qed.

Lemma own_drop_input k (i : input S M Ew Er) : own_drop k i = true -> i = I_Drop k P_Task.
Proof. destruct i as [c| |? a|? st r|? u|? e|? e|k' []|]; try done. cbn. by intros ->%bool_decide_eq_true. Qed.

Lemma going_down_run cx (inputs : list (input S M Ew Er)) m m' k l :
  manager_inv m -> m_conns m !! k = Some l -> going_down (m_cs m) l ->
  manager_run cx inputs m = Ret m' ->
  exists l', m_conns m' !! k = Some l' /\ l_local l' = l_local l /\ l_peer l' = l_peer l /\
    (l_task l' = CT_Dropped /\ I_Drop k P_Task ∈ inputs \/
     going_down (m_cs m') l' /\ (end_cost l' <= end_cost l - turns k inputs)%nat).
Proof.
  revert m l. induction inputs as [|i inputs IH]; intros m l Hm Hk Hd E; cbn in E.
  { injection E as <-. exists l. split_and!; try done. right. cbn. split; [done|lia]. }
  destruct (manager_step_inv cx i m Hm) as (m1 & E1 & Hm1). rewrite E1 in E. cbn in E.
  destruct (manager_step_change cx i m m1 k l Hm E1 Hk) as (l1 & Hk1 & Hcc).
  pose proof Hm as (_ & Hc & _). specialize (Hc k). rewrite Hk in Hc.
  destruct (going_down_change _ _ _ _ _ _ _ _ Hc Hd Hcc) as (<- & <- & [[Hd1 Hdr]|[Hd1 Hle]]).
  - destruct (dropped_run cx inputs m1 m' k l1) as (l' & ? & ? & ? & ?); try done.
    exists l'. split_and!; try done. left. split; [done|]. rewrite (own_drop_input _ _ Hdr).
    apply list_elem_of_here.
  - destruct (IH m1 l1 Hm1 Hk1 Hd1 E) as (l' & Hk' & ? & ? & Hl'). exists l'. split_and!; try done.
    destruct Hl' as [[? ?]|[? ?]]; [left; split; [done|by apply list_elem_of_further]|right].
    split; [done|]. cbn [turns]. lia.
Qed.

Lemma end_cost_le l : (end_cost l <= 4)%nat.
Proof. unfold end_cost. destruct (l_task l) as [| | | |? [] []| | | |]; cbn; lia. Qed.

Lemma going_down_done cs l : going_down cs l -> end_cost l = 0%nat -> l_task l = CT_Done.
Proof.
  unfold going_down, ending, end_cost.
  destruct (l_task l) as [| | | |? [] []| | | |]; cbn; done || lia.
Qed.

Lemma dropped_no_close m k l :
  manager_inv m -> m_conns m !! k = Some l -> l_task l = CT_Dropped ->
  OnConnectionClose (l_local l) (l_peer l) ∉ events_of (From_conn k) (m_events m).
Proof.
  intros (_ & Hc & _) Hk Hd. specialize (Hc k). rewrite Hk in Hc. destruct Hc as (He & Hh & _).
  destruct (events_ok_language _ _ _ He Hh) as (_ & Hx & _). rewrite Hd in Hx. naive_solver.
Qed.

(** Four turns are enough, if the runtime does not drop the task. *)
Lemma going_down_closes cx (inputs : list (input S M Ew Er)) m m' k l :
  manager_inv m -> m_conns m !! k = Some l -> going_down (m_cs m) l ->
  manager_run cx inputs m = Ret m' -> (4 <= turns k inputs)%nat ->
  exists l', m_conns m' !! k = Some l' /\ l_local l' = l_local l /\ l_peer l' = l_peer l /\
    (l_task l' = CT_Dropped /\ I_Drop k P_Task ∈ inputs \/
     l_task l' = CT_Done /\ wound_up l' /\
     let c := OnConnect (l_local l) (l_peer l) in
     let r := OnRemoteClose (l_local l) (l_peer l) in
     let x := OnConnectionClose (l_local l) (l_peer l) in
     let evs := events_of (From_conn k) (m_events m') in
     evs = [c; x] \/ evs = [c; r; x]).
Proof.
  intros Hm Hk Hd Hrun Hturns.
  destruct (manager_run_inv cx inputs m Hm) as (m1 & E & _ & Hc & _).
  rewrite Hrun in E. injection E as <-.
  destruct (going_down_run cx inputs m m' k l Hm Hk Hd Hrun) as (l' & Hk' & Hlo & Hpe & Hl').
  exists l'. split_and!; try done. specialize (Hc k). rewrite Hk' in Hc. destruct Hc as (He & Hh & _).
  destruct Hl' as [[Hdr Hin]|[Hd' Hle]]; [by left|right].
  assert (l_task l' = CT_Done) as Hdone.
  { eapply going_down_done; [done|]. pose proof (end_cost_le l). lia. }
  unfold events_ok, handles_ok in He, Hh. rewrite Hdone, Hlo, Hpe in *. split_and!; [done| |].
  - split_and!; [by left|..]; intros h Hx;
      destruct Hh as [[Hw Hr]|[(hw & Hw & ?) (hr & Hr & ?)]]; congruence.
  - destruct He as [?|[? _]]; auto.
Qed.

(** The step of a user who closes the connection. *)
Lemma user_close_step cx m k l c :
  manager_inv m -> m_conns m !! k = Some l -> l_conn l = Some c ->
  manager_step cx (I_User k (U_Call Call_close) : input S M Ew Er) m =
    Ret (set_conn m (remove_connection (m_cs m) (l_local l, l_peer l)) k
      (mkLocal (l_local l) (l_peer l) (l_socket l)
        (if Conn.consumed c then l_conf l else os_drop_tx (l_conf l))
        (Some (mkConn true None (local_addr c) (peer_addr c))) (l_task l) (l_writer l) (l_reader l)) []).
Proof.
  intros (_ & Hc & _) Hk Hcn. specialize (Hc k). rewrite Hk in Hc. destruct Hc as (_ & _ & _ & Hc).
  rewrite Hcn in Hc. destruct Hc as (Hwf & Hlo & Hpe & _). cbn [manager_step]. rewrite Hk.
  unfold conn_user, conn_do. rewrite Hcn, (close_spec c (l_conf l) (m_cs m) Hwf). cbn [obind].
  by rewrite Hlo, Hpe.
Qed.

Lemma closed_going_down cs l c evs conn :
  conn_inv cs l evs -> l_conn l = Some c -> closable l c ->
  going_down (remove_connection cs (l_local l, l_peer l))
    (mkLocal (l_local l) (l_peer l) (l_socket l)
       (if Conn.consumed c then l_conf l else os_drop_tx (l_conf l)) conn (l_task l) (l_writer l) (l_reader l)).
Proof.
  intros (_ & Hh & _ & Hc) Hcn Hcl. rewrite Hcn in Hc. destruct Hc as (_ & _ & _ & _ & Hv & _).
  unfold going_down, ending, handles_ok in *. cbn.
  destruct Hcl as [(stop & ws & rs & Ht)|[Hcons Ht]].
  - rewrite Ht in *. destruct Hh as (Hlt & Hreg & _). left.
    destruct (remove_connection_spec cs (l_local l, l_peer l)) as (_ & _ & Hlen & Ho).
    apply stop_closed_ready; [by rewrite Hlen|]. rewrite Ho. intros [Hopen Hn]. auto.
  - rewrite Hcons. destruct Ht as [-> | ->]; rewrite os_drop_tx_view; cbn; auto.
Qed.
End lemmas.

(** ** Properties *)

Section properties.
Context {Os Ch : Type -> Type} {Dl Dc S M Ew Jw Er Jr : Type}.
Context `{OneshotSpec Os} `{MpscSpec Ch} `{!DashMapOps SocketAddr nat Dl}
  `{!DashMapOps (SocketAddr * SocketAddr) nat Dc}
  `{!DashMapSpec SocketAddr nat Dl} `{!DashMapSpec (SocketAddr * SocketAddr) nat Dc}
  `{TaskSpec Ew Jw} `{TaskSpec Er Jr} `{!SpawnOps S M Jw Jr} `{!TcpStreamOps S}.
#[local] Abbreviation CS := (ConnectionState Os Dl Dc).
#[local] Abbreviation Local := (ConnLocal Os S M Jw Jr).
#[local] Abbreviation Mgr := (Manager Os Ch Dl Dc S M Jw Jr).
Implicit Types (m : Mgr).

(** C6: a connection that has to end does end, whatever else happens.  Take a
    connection of a running manager that nobody can start any more, that was told to
    stop, whose reader or writer has failed, or both of whose tasks have ended.
    Whatever the main loop, the other connections, the user, the reader and the
    writer do in between, after four turns of its own task it is done: its last
    callback was [OnConnectionClose] and its reader and writer have ended or were
    told to; unless the runtime, while it is shut down, has dropped the task before
    it was done. *)
Theorem ends_among_others cx rt (inputs inputs' : list (input S M Ew Er)) m m' k l :
  manager_run cx inputs (manager_new rt : Mgr) = Ret m -> m_conns m !! k = Some l ->
  going_down (m_cs m) l ->
  manager_run cx inputs' m = Ret m' -> (4 <= turns k inputs')%nat ->
  exists l', m_conns m' !! k = Some l' /\
    (l_task l' = CT_Dropped /\ I_Drop k P_Task ∈ inputs' \/
     l_task l' = CT_Done /\ wound_up l' /\
     let c := OnConnect (l_local l) (l_peer l) in
     let r := OnRemoteClose (l_local l) (l_peer l) in
     let x := OnConnectionClose (l_local l) (l_peer l) in
     let evs := events_of (From_conn k) (m_events m') in
     evs = [c; x] \/ evs = [c; r; x]).
Proof.
  intros Hrun Hk Hd Hrun' Hturns.
  destruct (manager_run_inv cx inputs _ (manager_new_inv rt)) as (m0 & E & Hm).
  rewrite Hrun in E. injection E as <-.
  destruct (going_down_closes cx inputs' m m' k l Hm Hk Hd Hrun' Hturns) as (l' & Hk' & _ & _ & Hl').
  by exists l'.
Qed.

(** C7: what an abort does to a connection.  The main loop of a manager has taken
    the abort command and makes its last step; take a connection that is registered
    then (it was started and its task has put its stopper into the map).  Whatever
    the rest of the system does afterwards, when its task has had four turns: if the
    shutdown of the runtime has not dropped that task, then the connection is
    done, its reader and writer have ended or were told to, and its last callback
    was [OnConnectionClose]; if it was dropped before it was done, then
    [OnConnectionClose] was not called, and never will be. *)
Theorem abort_closes_connections cx rt (inputs inputs' : list (input S M Ew Er)) m m2 m' k l stop ws rs :
  manager_run cx inputs (manager_new rt : Mgr) = Ret m -> m_main m = Main_Stopping ->
  manager_step cx (I_Main : input S M Ew Er) m = Ret m2 ->
  m_conns m2 !! k = Some l -> l_task l = CT_Join stop ws rs ->
  manager_run cx inputs' m2 = Ret m' -> (4 <= turns k inputs')%nat ->
  let x := OnConnectionClose (l_local l) (l_peer l) in
  exists l', m_conns m' !! k = Some l' /\
    (l_task l' = CT_Done \/ l_task l' = CT_Dropped) /\
    (I_Drop k P_Task ∉ inputs' -> l_task l' = CT_Done) /\
    (l_task l' = CT_Done ->
       wound_up l' /\ exists evs, events_of (From_conn k) (m_events m') = evs ++ [x] /\ x ∉ evs) /\
    (l_task l' = CT_Dropped -> forall later m'', manager_run cx later m' = Ret m'' ->
       x ∉ events_of (From_conn k) (m_events m'')).
Proof.
  intros Hrun Hmain Hstep Hk Ht Hrun' Hturns x.
  destruct (manager_run_inv cx inputs _ (manager_new_inv rt)) as (m0 & E & Hm).
  rewrite Hrun in E. injection E as <-.
  destruct (main_leaves cx m Hm Hmain) as (m1 & E & _ & Hc & _).
  rewrite Hstep in E. injection E as <-.
  destruct (manager_step_inv cx I_Main m Hm) as (m1 & E & Hm2). rewrite Hstep in E. injection E as <-.
  assert (going_down (m_cs m2) l) as Hd.
  { unfold going_down, ending. rewrite Ht. left. by eapply Hc. }
  destruct (going_down_closes cx inputs' m2 m' k l Hm2 Hk Hd Hrun' Hturns) as (l' & Hk' & Hlo & Hpe & Hl').
  exists l'. split; [done|]. destruct Hl' as [[Hdr Hin]|(Hdone & Hw & He)].
  - split_and!; [by right|naive_solver|congruence|]. intros _ later m'' Hlater.
    destruct (manager_run_inv cx inputs' m2 Hm2) as (m3 & E3 & Hm3).
    rewrite Hrun' in E3. injection E3 as <-.
    destruct (manager_run_inv cx later m' Hm3) as (m3 & E3 & Hm4).
    rewrite Hlater in E3. injection E3 as <-.
    destruct (dropped_run cx later m' m'' k l' Hm3 Hk' Hdr Hlater) as (l'' & Hk'' & Hlo' & Hpe' & Hdr').
    subst x. rewrite <- Hlo, <- Hpe, <- Hlo', <- Hpe'. by apply dropped_no_close.
  - split_and!; [by left|done| |congruence]. intros _. split; [done|].
    destruct He as [->| ->].
    + exists [OnConnect (l_local l) (l_peer l)]. split; [done|]. rewrite list_elem_of_singleton. done.
    + exists [OnConnect (l_local l) (l_peer l); OnRemoteClose (l_local l) (l_peer l)]. split; [done|].
      rewrite list_elem_of_In. cbn. naive_solver.
Qed.
(** C19: [close] ends a connection.  The user of a running manager calls [close] on
    the [Conn] of a connection that is registered, or that was not started yet (the
    [OnConnect] callback may still run).  The call does not panic and changes no
    other connection, no task and no callback.  It drops the receiver that the map
    holds for the pair of addresses, and no other; for a registered connection that
    was not told to stop before this is its own, and it is told to stop.  Whatever
    the rest of the system does afterwards, after four turns of the task of the
    connection it is done and its last callback was [OnConnectionClose], unless the
    shutdown of the runtime has dropped the task. *)
Theorem close_ends_connection cx rt (inputs : list (input S M Ew Er)) m k l c :
  manager_run cx inputs (manager_new rt : Mgr) = Ret m ->
  m_conns m !! k = Some l -> l_conn l = Some c -> closable l c ->
  exists m1, manager_step cx (I_User k (U_Call Call_close) : input S M Ew Er) m = Ret m1 /\
    (forall k', k' <> k -> m_conns m1 !! k' = m_conns m !! k') /\
    m_main m1 = m_main m /\ m_tasks m1 = m_tasks m /\ m_events m1 = m_events m /\
    (forall j, stop_open (m_cs m1) j <->
       stop_open (m_cs m) j /\ ~ connected (m_cs m) (l_local l, l_peer l) j) /\
    (forall stop ws rs, l_task l = CT_Join stop ws rs -> stop_open (m_cs m) stop ->
       stop_closed (m_cs m1) stop = Ready tt /\
       forall j, j <> stop -> stop_open (m_cs m1) j <-> stop_open (m_cs m) j) /\
    forall inputs' m', manager_run cx inputs' m1 = Ret m' -> (4 <= turns k inputs')%nat ->
      exists l', m_conns m' !! k = Some l' /\
        (l_task l' = CT_Dropped /\ I_Drop k P_Task ∈ inputs' \/
         l_task l' = CT_Done /\
         exists evs, events_of (From_conn k) (m_events m') =
           evs ++ [OnConnectionClose (l_local l) (l_peer l)]).
Proof.
  intros Hrun Hk Hcn Hcl.
  destruct (manager_run_inv cx inputs _ (manager_new_inv rt)) as (m0 & E & Hm).
  rewrite Hrun in E. injection E as <-.
  pose proof (user_close_step cx m k l c Hm Hk Hcn) as Hstep.
  destruct (manager_step_inv cx (I_User k (U_Call Call_close)) m Hm) as (m1 & E & Hm1).
  rewrite Hstep in E. injection E as <-.
  pose proof Hm as (_ & Hc & _). specialize (Hc k). rewrite Hk in Hc.
  eexists. split; [exact Hstep|]. cbn [set_conn m_main m_tasks m_events m_cs m_conns].
  destruct (remove_connection_spec (m_cs m) (l_local l, l_peer l)) as (_ & _ & Hlen & Ho).
  split_and!; try done.
  - intros k' Hne. by rewrite list_lookup_insert_ne.
  - by rewrite app_nil_r.
  - intros stop ws rs Ht Hopen. destruct Hc as (_ & Hh & _). unfold handles_ok in Hh.
    rewrite Ht in Hh. destruct Hh as (Hlt & Hreg & _). specialize (Hreg Hopen). split.
    + apply stop_closed_ready; [by rewrite Hlen|]. rewrite Ho. tauto.
    + intros j Hj. rewrite Ho. unfold connected in *. rewrite Hreg. naive_solver.
  - intros inputs' m' Hrun' Hturns. eapply going_down_closes in Hrun' as (l' & Hk' & _ & _ & Hl');
      [|exact Hm1| |by eapply closed_going_down|exact Hturns].
    2: { cbn. apply list_lookup_insert_eq. by eapply lookup_lt_Some. }
    exists l'. split; [done|]. destruct Hl' as [?|(? & _ & [He|He])]; [by left|right..];
      (split; [done|]); rewrite He; [by exists [OnConnect (l_local l) (l_peer l)]|].
    by exists [OnConnect (l_local l) (l_peer l); OnRemoteClose (l_local l) (l_peer l)].
Qed.
End properties.

(** ** Witnesses *)

(** The connection of [demo_inputs], the abort, and then turns of its task between
    steps of the listener, the user and the reader. *)
Definition demo_turns : list demo_input :=
  concat (replicate 4 [I_Task 0 A_Nothing; I_Conn 0 1 (Ok tt); I_User 0 U_Drop; I_Reader 0 None]).
Definition demo_left : list demo_input := demo_aborting ++ [I_Main].

(** The addresses and the task of connection 0, and whether its writer has failed. *)
Definition conn_summary (m : DemoMgr) :=
  (fun l => (l_local l, l_peer l, l_task l, output_of (l_writer l))) <$> m_conns m !! 0%nat.

Lemma demo_left_conn :
  conn_summary (run_demo (MultiThread 4) (demo_left ++ [I_Main])) =
    Some (demo_local, demo_peer, CT_Join 1 false false, None).
Proof. vm_compute. reflexivity. Qed.

Lemma demo_left_step :
  manager_step demo_cx (I_Main : demo_input) (run_demo (MultiThread 4) demo_left) =
    Ret (run_demo (MultiThread 4) (demo_left ++ [I_Main])).
Proof.
  rewrite <- run_demo_app. cbn [manager_run]. by destruct (manager_step _ _ _).
Qed.

Lemma conn_summary_some (m : DemoMgr) lo pe t o :
  conn_summary m = Some (lo, pe, t, o) ->
  exists l, m_conns m !! 0%nat = Some l /\ l_local l = lo /\ l_peer l = pe /\ l_task l = t /\
    output_of (l_writer l) = o.
Proof.
  unfold conn_summary. destruct (m_conns m !! 0%nat) as [l|]; [|done]. intros [= <- <- <- <-].
  by exists l.
Qed.

Lemma abort_closes_connections_witness :
  exists l', m_conns (run_demo (MultiThread 4) ((demo_left ++ [I_Main]) ++ demo_turns)) !! 0%nat = Some l' /\
    l_task l' = CT_Done /\
    exists evs, events_of (From_conn 0)
        (m_events (run_demo (MultiThread 4) ((demo_left ++ [I_Main]) ++ demo_turns))) =
      evs ++ [OnConnectionClose demo_local demo_peer].
Proof.
  destruct (conn_summary_some _ _ _ _ _ demo_left_conn) as (l & Hl & Hlo & Hpe & Ht & _).
  rewrite <- Hlo, <- Hpe.
  destruct (abort_closes_connections demo_cx (MultiThread 4) demo_left demo_turns
    (run_demo (MultiThread 4) demo_left) (run_demo (MultiThread 4) (demo_left ++ [I_Main]))
    (run_demo (MultiThread 4) ((demo_left ++ [I_Main]) ++ demo_turns)) 0 l 1 false false)
    as (l' & Hl' & _ & Hd & Hx & _).
  - apply run_demo_eq.
  - vm_compute. reflexivity.
  - apply demo_left_step.
  - exact Hl.
  - exact Ht.
  - apply run_demo_app.
  - vm_compute. lia.
  - exists l'. split; [exact Hl'|]. assert (l_task l' = CT_Done) as Hdone.
    { apply Hd. rewrite list_elem_of_In. vm_compute. intuition discriminate. }
    split; [exact Hdone|]. destruct (Hx Hdone) as (_ & evs & He & _). exists evs. exact He.
Defined.

(** The writer of the connection has failed. *)
Definition demo_failing : list demo_input := demo_inputs ++ [I_Writer 0 (Some (Err Panicked))].

Lemma demo_failing_conn :
  conn_summary (run_demo CurrentThread demo_failing) =
    Some (demo_local, demo_peer, CT_Join 1 false false, Some (Err Panicked)).
Proof. vm_compute. reflexivity. Qed.

Lemma ends_among_others_witness :
  exists l', m_conns (run_demo CurrentThread (demo_failing ++ demo_turns)) !! 0%nat = Some l' /\
    (l_task l' = CT_Dropped /\ I_Drop 0 P_Task ∈ demo_turns \/
     l_task l' = CT_Done /\ wound_up l' /\
     let evs := events_of (From_conn 0) (m_events (run_demo CurrentThread (demo_failing ++ demo_turns))) in
     evs = [OnConnect demo_local demo_peer; OnConnectionClose demo_local demo_peer] \/
     evs = [OnConnect demo_local demo_peer; OnRemoteClose demo_local demo_peer;
            OnConnectionClose demo_local demo_peer]).
Proof.
  destruct (conn_summary_some _ _ _ _ _ demo_failing_conn) as (l & Hl & Hlo & Hpe & Ht & Ho).
  assert (going_down (m_cs (run_demo CurrentThread demo_failing)) l) as Hd.
  { unfold going_down, ending. rewrite Ht. right; left. exists (Err Panicked). by split. }
  rewrite <- Hlo, <- Hpe.
  apply (ends_among_others demo_cx CurrentThread demo_failing demo_turns
    (run_demo CurrentThread demo_failing) _ 0 l).
  - apply run_demo_eq.
  - exact Hl.
  - exact Hd.
  - apply run_demo_app.
  - vm_compute. lia.
Defined.

(** The user closes the connection of [demo_inputs]. *)
Lemma close_ends_connection_witness :
  exists m1 : DemoMgr,
    manager_step demo_cx (I_User 0 (U_Call Call_close) : demo_input) (run_demo CurrentThread demo_inputs)
      = Ret m1 /\
    stop_closed (m_cs m1) 1 = Ready tt.
Proof.
  destruct (m_conns (run_demo CurrentThread demo_inputs) !! 0%nat) as [l|] eqn:Hl; [|by vm_compute in Hl].
  assert (l_task l = CT_Join 1 false false) as Ht by (by vm_compute in Hl; injection Hl as <-).
  assert (l_conn l = Some (mkConn true None demo_local demo_peer)) as Hc
    by (by vm_compute in Hl; injection Hl as <-).
  destruct (close_ends_connection demo_cx CurrentThread demo_inputs (run_demo CurrentThread demo_inputs)
    0 l (mkConn true None demo_local demo_peer)) as (m1 & E & _ & _ & _ & _ & _ & Hs & _).
  - apply run_demo_eq.
  - exact Hl.
  - exact Hc.
  - left. exists 1%nat, false, false. exact Ht.
  - exists m1. split; [exact E|]. apply (Hs 1%nat false false Ht).
    exists (mkOneshot None true true). vm_compute. split; reflexivity.
Defined.

(** ** Three corners *)

(** [shutdown_timeout] waits for the tasks no longer than a given time, and then the
    thread of the manager ends.  A connection whose turn comes only then still makes
    its last callback, when [join] has returned. *)
Definition demo_timed_out : list demo_input := demo_left ++ [I_Main; I_End].

Example callback_after_timeout :
  let m := run_demo (MultiThread 4) demo_timed_out in
  let m' := run_demo (MultiThread 4) (demo_timed_out ++ demo_turns) in
  m_main m = Main_Ended /\
  events_of (From_conn 0) (m_events m) = [OnConnect demo_local demo_peer] /\
  events_of (From_conn 0) (m_events m') =
    [OnConnect demo_local demo_peer; OnConnectionClose demo_local demo_peer].
Proof. vm_compute. done. Qed.

(** A connection that the abort has told to stop, but whose task the shutdown of the
    runtime drops before its turn: [OnConnectionClose] is not called. *)
Definition demo_dropped : list demo_input := demo_left ++ [I_Main; I_Drop 0 P_Task].

Example dropped_without_close :
  let m := run_demo (MultiThread 4) (demo_dropped ++ demo_turns) in
  (fun l => l_task l) <$> m_conns m !! 0%nat = Some CT_Dropped /\
  events_of (From_conn 0) (m_events m) = [OnConnect demo_local demo_peer].
Proof. vm_compute. done. Qed.

(** The writer of connection 0 has failed and its task has left the loop; before it
    removes its stopper, a connection with the same addresses is accepted and
    started.  The next step of connection 0 stops connection 1. *)
Definition demo_reused : list demo_input :=
  demo_failing ++
  [I_Conn 0 0 (Ok tt); I_Task 0 (A_Stream (Ok tt)); I_Conn 1 0 (Ok tt); I_Conn 1 0 (Ok tt);
   I_User 1 (U_Call (Call_start tt (mkConnConfig (from_millis 1) (from_millis 1) 0)));
   I_Conn 1 0 (Ok tt); I_Conn 1 0 (Ok tt)].

Example reused_addresses_stop_newer :
  let m := run_demo CurrentThread demo_reused in
  let m' := run_demo CurrentThread (demo_reused ++ [I_Conn 0 0 (Ok tt)]) in
  (fun l => l_task l) <$> m_conns m !! 0%nat = Some CT_Remove /\
  (fun l => l_task l) <$> m_conns m !! 1%nat = Some (CT_Join 2 false false) /\
  stop_closed (m_cs m) 2 = Pending /\ stop_closed (m_cs m') 2 = Ready tt.
Proof. vm_compute. done. Qed.
