(* ===== verification/Endpoint.v ===== *)
(** * The manager with the real reader and writer

    [conn_handle.rs] spawns [handle_writer] and [handle_reader] as tasks.  The
    state machines of these two are instances of the task interface that the
    model of the manager is built on, and their invariants hold in every state
    that the whole system can reach. *)

From S2P Require Import Prelude AsyncIo BufReadWrite Config Reader RingBuf MsgSender SenderCall.
From S2P Require Import Writer Duplex Oneshot Conn ConnHandle Manager.

(** ** Invariants of the spawned tasks *)

(** What has to be known of a stream, of a message callback and of the two tasks:
    new tasks satisfy it, and steps and aborts keep it. *)
Class TaskInv (S M Ew Jw Er Jr : Type) `{TaskOps Ew Jw} `{TaskOps Er Jr} `{SpawnOps S M Jw Jr} : Type := {
  ok_stream : S -> Prop;
  ok_callback : M -> Prop;
  ok_writer : Jw -> Prop;
  ok_reader : Jr -> Prop;
  spawn_writer_ok s c : ok_stream s -> ok_writer (spawn_writer s c);
  spawn_reader_ok s m c : ok_stream s -> ok_callback m -> ok_reader (spawn_reader s m c);
  writer_step_ok e j : ok_writer j -> ok_writer (tk_step e j);
  writer_abort_ok j : ok_writer j -> ok_writer (tk_abort j);
  reader_step_ok e j : ok_reader j -> ok_reader (tk_step e j);
  reader_abort_ok j : ok_reader j -> ok_reader (tk_abort j)
}.

Section inv.
Context {Os Ch : Type -> Type} {Dl Dc S M Ew Jw Er Jr : Type}.
Context `{OneshotSpec Os} `{MpscSpec Ch} `{!DashMapOps SocketAddr nat Dl}
  `{!DashMapOps (SocketAddr * SocketAddr) nat Dc}
  `{!DashMapSpec SocketAddr nat Dl} `{!DashMapSpec (SocketAddr * SocketAddr) nat Dc}
  `{TaskInv S M Ew Jw Er Jr} `{!TaskSpec Ew Jw} `{!TaskSpec Er Jr} `{!TcpStreamOps S}.
#[local] Abbreviation CS := (ConnectionState Os Dl Dc).
#[local] Abbreviation Local := (ConnLocal Os S M Jw Jr).
#[local] Abbreviation Mgr := (Manager Os Ch Dl Dc S M Jw Jr).
Implicit Types (cs : CS) (l : Local) (m : Mgr).

Definition all_handle {J} (P : J -> Prop) (h : option (JoinHandle J)) : Prop :=
  forall h', h = Some h' -> P (jh_task h').

Definition local_ok l : Prop :=
  all_handle ok_writer (l_writer l) /\ all_handle ok_reader (l_reader l) /\
  (forall s, l_socket l = Some s -> ok_stream s) /\
  (forall om c, o_value (os_view (l_conf l)) = Some (om, c) -> ok_callback om) /\
  (forall om c, l_task l = CT_Start om c -> ok_callback om).

Lemma all_handle_map {J} (P : J -> Prop) (f : J -> J) h :
  (forall j, P j -> P (f j)) -> all_handle P h -> all_handle P (jh_map f <$> h).
Proof. intros Hf Hh h'. destruct h as [h|]; [|done]. intros [= <-]. cbn. by apply Hf, Hh. Qed.

Lemma all_handle_poll {J} (P : J -> Prop) (h : JoinHandle J) b :
  all_handle P (Some h) -> all_handle P (Some (mkJoinHandle (jh_task h) b)).
Proof. intros Hh h' [= <-]. cbn. by apply Hh. Qed.

Lemma selected_local_ok cs stop ws rs l l' ev r :
  selected cs stop ws rs l l' ev r -> local_ok l ->
  local_ok l' /\ l_task l' = l_task l.
Proof.
  intros Hsel (Hw & Hr & Hs & Hv & Hc).
  destruct Hsel as [Hst Hnw Hnr|Hst|h -> Hh Ho|h o -> Hh Ho Hne|h -> Hh Ho|h o -> Hh Ho Hne];
    (split; [|done]); unfold local_ok; split_and!; try done; cbn.
  all: try (apply all_handle_map; [apply writer_abort_ok || apply reader_abort_ok|]); try done.
  all: try (apply all_handle_poll; by rewrite <- Hh).
Qed.

(** Steps of the connection. *)
Lemma conn_task_step_ok cx start ret cs l evs cs' l' ev :
  conn_inv cs l evs -> local_ok l -> conn_task_step cx start ret cs l = Ret (cs', l', ev) ->
  local_ok l'.
Proof.
  intros (_ & Hh & _) Hok E. pose proof Hok as (Hw & Hr & Hs & Hv & Hc). unfold conn_task_step in E.
  unfold handles_ok in Hh.
  destruct (l_task l) as [| | |on_msg config|stop ws rs| | | |] eqn:Ht.
  - injection E as <- <- <-. unfold local_ok. cbn. rewrite ?Ht. by split_and!.
  - destruct ret; injection E as <- <- <-; unfold local_ok; split_and!; try done; cbn.
    rewrite os_drop_rx_view. done.
  - destruct (os_poll_recv (l_conf l) cx) as [conf r] eqn:E1. apply os_poll_recv_view in E1.
    destruct (o_value (os_view (l_conf l))) as [[om c]|] eqn:Ev.
    + destruct E1 as [-> Hv']. injection E as <- <- <-. unfold local_ok. split_and!; try done; cbn.
      * by rewrite os_drop_rx_view.
      * intros om' c' [= <- <-]. by eapply Hv.
    + destruct E1 as [-> Hv']. destruct (o_tx _); injection E as <- <- <-; unfold local_ok; split_and!; try done; cbn.
      * by rewrite Hv', Ev.
      * by rewrite os_drop_rx_view.
  - destruct (l_socket l) as [s|] eqn:Es; [|done]. destruct (new_stop cs) as [cs1 stop].
    injection E as <- <- <-. unfold local_ok. split_and!; try done; cbn.
    + intros h' [= <-]. cbn. by apply spawn_writer_ok, Hs.
    + intros h' [= <-]. cbn. apply spawn_reader_ok; [by apply Hs|by eapply Hc].
  - destruct Hh as (_ & _ & Hjw & Hjr & _).
    destruct (join_select_selected cs start stop ws rs l Hjw Hjr) as (l1 & ev1 & r & E1 & Hsel).
    rewrite E1 in E. cbn [obind] in E.
    destruct (selected_local_ok _ _ _ _ _ _ _ _ Hsel Hok) as ((? & ? & ? & ? & ?) & Hta).
    destruct r; injection E as <- <- <-; unfold local_ok; cbn; rewrite ?Hta, ?Ht; by split_and!.
  - injection E as <- <- <-. unfold local_ok. cbn. rewrite ?Ht. by split_and!.
  - injection E as <- <- <-. unfold local_ok. cbn. rewrite ?Ht. by split_and!.
  - injection E as <- <- <-. unfold local_ok. cbn. rewrite ?Ht. by split_and!.
  - injection E as <- <- <-. unfold local_ok. cbn. rewrite ?Ht. by split_and!.
Qed.

(** The shutdown of the runtime. *)
Lemma abort_ok l : local_ok l -> local_ok (abort_writer l) /\ local_ok (abort_reader l).
Proof.
  intros (? & ? & ? & ? & ?). split; unfold local_ok; split_and!; try done; cbn;
    (apply all_handle_map; [apply writer_abort_ok || apply reader_abort_ok|done]).
Qed.

Lemma drop_conn_task_ok cs l cs' l' : local_ok l -> drop_conn_task cs l = (cs', l') -> local_ok l'.
Proof.
  intros Hok E. pose proof Hok as (? & ? & ? & ? & ?). unfold drop_conn_task in E.
  destruct (l_task l); injection E as <- <-; try done;
    unfold local_ok; split_and!; try done; cbn; by rewrite os_drop_rx_view.
Qed.

Lemma runtime_drops_ok part cs l cs' l' :
  local_ok l -> runtime_drops part cs l = (cs', l') -> local_ok l'.
Proof.
  intros Hok. destruct part; cbn; [by apply drop_conn_task_ok|..]; intros [= <- <-]; by apply abort_ok.
Qed.

Definition ok_action (u : user_action M) : Prop :=
  match u with U_Call (Call_start on_msg _) => ok_callback on_msg | _ => True end.

Lemma conn_user_ok u cs l cs' l' :
  ok_action u -> local_ok l -> conn_user u cs l = Ret (cs', l') -> local_ok l'.
Proof.
  intros Hu Hok E. pose proof Hok as (Hw & Hr & Hs & Hv & Hc). unfold conn_user in E.
  destruct (l_conn l) as [c|]; [|by injection E as <- <-].
  assert (forall conf conn, (forall om c, o_value (os_view conf) = Some (om, c) -> ok_callback om) ->
    local_ok (mkLocal (l_local l) (l_peer l) (l_socket l) conf conn (l_task l)
      (l_writer l) (l_reader l))) as Hset by (intros; unfold local_ok; by split_and!).
  assert (forall om c, o_value (os_view (os_drop_tx (l_conf l))) = Some (om, c) -> ok_callback om)
    as Hdrop by (by rewrite os_drop_tx_view).
  destruct u as [[on_msg config|]|].
  - cbn in E. unfold start_connection in E. cbn [compare_exchange] in E.
    destruct (negb (Conn.consumed c)); [|injection E as <- <-; by apply Hset].
    cbn in E. destruct (inner c) as [[]|]; [|done].
    destruct (os_send (l_conf l) (on_msg, config)) as [conf r] eqn:E1. apply os_send_view in E1.
    assert (forall om c, o_value (os_view conf) = Some (om, c) -> ok_callback om) as Hconf.
    { destruct (o_rx _), E1 as [_ ->]; [by intros om c' [= <- _]|done]. }
    destruct r; injection E as <- <-; by apply Hset.
  - cbn in E. unfold close in E. cbn [compare_exchange] in E.
    destruct (negb (Conn.consumed c)); cbn in E; [|injection E as <- <-; by apply Hset].
    destruct (inner c) as [[]|]; [|done]. injection E as <- <-. by apply Hset.
  - injection E as <- <-. apply Hset. unfold drop_conn. by destruct (inner c) as [[]|].
Qed.

(** Steps of the system.  The streams and the callbacks that come in are good. *)
Definition ok_input (i : input S M Ew Er) : Prop :=
  match i with
  | I_Task _ (A_Stream (Ok s)) => ok_stream s
  | I_User _ u => ok_action u
  | _ => True
  end.

Definition conns_ok m : Prop := forall k l, m_conns m !! k = Some l -> local_ok l.

Lemma handle_connection_ok local peer s : ok_stream s -> local_ok (handle_connection local peer s).
Proof.
  intros Hs. unfold local_ok. split_and!; try done; cbn; [by intros s' [= <-]|]. by rewrite os_new_view.
Qed.

Lemma task_step_ok n cs t a cs' t' (new : list Local) ev :
  (forall s, a = A_Stream (Ok s) -> ok_stream s) ->
  task_step n cs t a = (cs', t', new, ev) -> Forall local_ok new.
Proof.
  intros Ha E.
  assert (forall d addr cancel, poll_cancel cs addr cancel d = (cs', t', new, ev) -> Forall local_ok new) as Hpc.
  { intros d addr cancel Ed. unfold poll_cancel in Ed.
    destruct (stop_closed cs cancel); injection Ed as <- <- <- <-; done. }
  destruct t as [addr delay|addr|addr k|addr|addr|addr cancel deaf|addr|addr]; cbn [task_step] in E.
  all: try (injection E as <- <- <- <-; done).
  - destruct a; injection E as <- <- <- <-; done.
  - destruct a as [|[s|e]|r|]; try (injection E as <- <- <- <-; done).
    destruct (get_address_from_stream s) as [[local peer]|e]; injection E as <- <- <- <-; [|done].
    apply Forall_singleton, handle_connection_ok. by apply Ha.
  - destruct a as [|r|[u|e]|]; try destruct (new_stop cs); injection E as <- <- <- <-; done.
  - unfold accept_connections in E. destruct deaf; [by eapply Hpc|].
    destruct a as [|[s|e]|r|]; try (by eapply Hpc).
    destruct (get_address_from_stream s) as [[local peer]|e]; injection E as <- <- <- <-; [|done].
    apply Forall_singleton, handle_connection_ok. by apply Ha.
Qed.

Lemma conns_ok_insert m rt cmds main cs tasks k l evs :
  conns_ok m -> local_ok l ->
  conns_ok (mkManager rt cmds main cs tasks (<[k := l]> (m_conns m)) evs : Mgr).
Proof.
  intros Hm Hl k' l'. cbn. intros Hk. destruct (decide (k = k')) as [->|Hne].
  - apply list_lookup_insert_Some in Hk as [(_ & <- & _)|[? ?]]; [done|congruence].
  - rewrite list_lookup_insert_ne in Hk by done. by eapply Hm.
Qed.

Lemma manager_step_ok cx i m m' :
  ok_input i -> manager_inv m -> conns_ok m -> manager_step cx i m = Ret m' -> conns_ok m'.
Proof.
  intros Hi (_ & Hinv & _) Hm E.
  destruct i as [c| |k a|k start ret|k u|k e|k e|k part|]; cbn [manager_step] in E.
  - destruct (mpsc_send (m_cmds m) c). by injection E as <-.
  - destruct (m_main m); try by injection E as <-.
    + injection E as <-. unfold main_step.
      destruct (mpsc_poll_recv (m_cmds m) cx) as [cmds [[[]|]|]];
        try destruct (remove_listener _ _); unfold main_ends; try destruct (mpsc_drop_rx _); done.
    + unfold main_ends in E. destruct (mpsc_drop_rx _). by injection E as <-.
  - destruct (m_tasks m !! k) as [t|]; [|by injection E as <-].
    destruct (task_step (length (m_conns m)) (m_cs m) t a) as [[[cs t'] new] ev] eqn:Et.
    injection E as <-. apply task_step_ok in Et; [|by intros s ->].
    intros k' l Hk. cbn in Hk. apply lookup_app_Some in Hk as [Hk|[_ Hk]]; [by eapply Hm|].
    rewrite Forall_lookup in Et. by eapply Et.
  - destruct (m_conns m !! k) as [l|] eqn:Hk; [|by injection E as <-].
    destruct (conn_task_step cx start ret (m_cs m) l) as [[[cs l'] ev]| |] eqn:Ec; try done.
    injection E as <-. specialize (Hinv k). rewrite Hk in Hinv.
    apply (conns_ok_insert m); [done|]. eapply conn_task_step_ok; [done| |done]. by eapply Hm.
  - destruct (m_conns m !! k) as [l|] eqn:Hk; [|by injection E as <-].
    destruct (conn_user u (m_cs m) l) as [[cs l']| |] eqn:Ec; try done. injection E as <-.
    apply (conns_ok_insert m); [done|]. eapply conn_user_ok; [done| |done]. by eapply Hm.
  - destruct (m_conns m !! k) as [l|] eqn:Hk; [|by injection E as <-].
    injection E as <-. apply (conns_ok_insert m); [done|].
    destruct (Hm _ _ Hk) as (? & ? & ? & ? & ?). unfold local_ok. split_and!; try done. cbn.
    apply all_handle_map; [apply writer_step_ok|done].
  - destruct (m_conns m !! k) as [l|] eqn:Hk; [|by injection E as <-].
    injection E as <-. apply (conns_ok_insert m); [done|].
    destruct (Hm _ _ Hk) as (? & ? & ? & ? & ?). unfold local_ok. split_and!; try done. cbn.
    apply all_handle_map; [apply reader_step_ok|done].
  - destruct (m_conns m !! k) as [l|] eqn:Hk; [|destruct (m_main m); by injection E as <-].
    destruct (runtime_drops part (m_cs m) l) as [cs l'] eqn:Ed.
    assert (local_ok l') as Hl' by (eapply runtime_drops_ok; [by eapply Hm|done]).
    destruct (m_main m); injection E as <-; try done; by apply (conns_ok_insert m).
  - destruct (m_main m); by injection E as <-.
Qed.

Lemma manager_run_ok cx inputs m m' :
  Forall ok_input inputs -> manager_inv m -> conns_ok m ->
  manager_run cx inputs m = Ret m' -> conns_ok m'.
Proof.
  intros Hi. revert m. induction Hi as [|i inputs Hi _ IH]; intros m Hm Hc E; cbn in E.
  - by injection E as <-.
  - destruct (manager_step_inv cx i m Hm) as (m1 & E1 & Hm1). rewrite E1 in E.
    apply (IH m1); [done| |done]. by apply (manager_step_ok cx i m m1).
Qed.
End inv.

(** ** The writer and the reader as tasks *)

(** A connected stream together with the two ends of the message pipe that
    [handle_connection] makes for it. *)
Record Socket (R W Rb : Type) (Ch : Type -> Type) : Type := mkSocket {
  sk_local : io_result SocketAddr;
  sk_peer : io_result SocketAddr;
  sk_read : R;
  sk_write : W;
  sk_sender : SenderState Rb;
  sk_pipe : Pipe Rb Ch
}.

Arguments mkSocket {R W Rb Ch}.
Arguments sk_local {R W Rb Ch}.
Arguments sk_peer {R W Rb Ch}.
Arguments sk_read {R W Rb Ch}.
Arguments sk_write {R W Rb Ch}.
Arguments sk_sender {R W Rb Ch}.
Arguments sk_pipe {R W Rb Ch}.

#[export] Instance Socket_stream {R W Rb Ch} : TcpStreamOps (Socket R W Rb Ch) := {|
  stream_local_addr := sk_local;
  stream_peer_addr := sk_peer
|}.

(** The writer task with the sender it serves; [told]: its abort handle was used. *)
Inductive WriterJob (Rb : Type) (Ch : Type -> Type) (W : Type) : Type :=
| WJ (d : Duplex Rb Ch W) (told : bool)
| WJ_Panicked.

Arguments WJ {Rb Ch W}.
Arguments WJ_Panicked {Rb Ch W}.

(** What happens to them: a poll of the task, which may still come after it was told
    to abort; the runtime drops the task, if it was told to abort; an access of the
    call the sender is in, or a new call of the user. *)
Inductive writer_event : Type :=
| WE_Poll (cx : Waker) (tick : bool)
| WE_Cancel
| WE_Access (cx : Waker)
| WE_Send (k : SendKind) (bytes : list byte)
| WE_Flush
| WE_Drop.

(** A task that was not aborted; that was told to abort, and may still run; that was
    dropped. *)
Inductive AbortState : Type :=
| A_Live
| A_Told
| A_Gone.

(** The reader task with its buffer. *)
Inductive ReaderJob (R S : Type) : Type :=
| RJ (t : ReaderTask) (b : BufReadWrite R (OnMsgWrite S)) (a : AbortState)
| RJ_Panicked.

Arguments RJ {R S}.
Arguments RJ_Panicked {R S}.

Inductive reader_event : Type :=
| RE_Poll (cx : Waker) (tick : bool)
| RE_Cancel.

Section jobs.
Context {R W S Rb : Type} {Ch : Type -> Type}.
Context `{AsyncRead R} `{AsyncWrite W} `{!AsyncShutdown W} `{OnMsg S} `{RingBufOps Rb} `{MpscOps Ch}.

(** A new call of a sender that is in no call; the lengths of slices are below
    [isize::MAX]. *)
Definition sender_call (e : writer_event) (st : SenderState Rb) : SenderState Rb :=
  match st with
  | S_Idle s _ =>
      match e with
      | WE_Poll _ _ | WE_Cancel | WE_Access _ => st
      | WE_Send k bytes => if zlen bytes <? isize_bound then start_send k s bytes else st
      | WE_Flush => start_flush s
      | WE_Drop => S_DropRing s
      end
  | _ => st
  end.

(** A panic of the task ends the task; an access runs in the thread of the user. *)
Definition writer_job_step (e : writer_event) (j : WriterJob Rb Ch W) : WriterJob Rb Ch W :=
  match j with
  | WJ_Panicked => j
  | WJ d told =>
      match e with
      | WE_Poll cx tick =>
          match duplex_move (M_Writer cx tick) d with Ret d => WJ d told | _ => WJ_Panicked end
      | WE_Cancel =>
          if told then
            let '(t, p) := writer_abort (d_task d) (d_pipe d) in
            WJ (mkDuplex (d_sender d) p t (d_sock d)) told
          else j
      | WE_Access cx =>
          match duplex_move (M_Access cx) d with Ret d => WJ d told | _ => j end
      | _ => WJ (with_sender d (sender_call e (d_sender d))) told
      end
  end.

#[export] Instance writer_job_ops : TaskOps writer_event (WriterJob Rb Ch W) := {|
  tk_step := writer_job_step;
  tk_output j :=
    match j with
    | WJ_Panicked => Some (Err Panicked)
    | WJ d _ => match d_task d with
                | W_Done r => Some (Ok r)
                | W_Aborted => Some (Err Cancelled)
                | _ => None
                end
    end;
  tk_abort j :=
    match j with
    | WJ_Panicked => j
    | WJ d _ => WJ d true
    end
|}.

Definition reader_job_step (e : reader_event) (j : ReaderJob R S) : ReaderJob R S :=
  match j, e with
  | RJ t b ((A_Live | A_Told) as a), RE_Poll cx tick =>
      match reader_step cx tick t b with
      | Ret (t, b) => RJ t b a
      | _ => RJ_Panicked
      end
  | RJ t b A_Told, RE_Cancel => RJ t b A_Gone
  | _, _ => j
  end.

#[export] Instance reader_job_ops : TaskOps reader_event (ReaderJob R S) := {|
  tk_step := reader_job_step;
  tk_output j :=
    match j with
    | RJ_Panicked => Some (Err Panicked)
    | RJ (Finished r) _ _ => Some (Ok r)
    | RJ _ _ A_Gone => Some (Err Cancelled)
    | RJ _ _ _ => None
    end;
  tk_abort j :=
    match j with
    | RJ t b A_Live => RJ t b A_Told
    | _ => j
    end
|}.

#[export] Instance socket_spawn :
  SpawnOps (Socket R W Rb Ch) S (WriterJob Rb Ch W) (ReaderJob R S) := {|
  spawn_writer s config :=
    WJ (mkDuplex (sk_sender s) (sk_pipe s) (handle_writer config) (sk_write s)) false;
  spawn_reader s on_msg config :=
    match handle_reader (sk_read s) on_msg config with
    | Ret (t, b) => RJ t b A_Live
    | _ => RJ_Panicked
    end
|}.
End jobs.

Section laws.
Context {R W S Rb : Type} {Ch : Type -> Type}.
Context `{AsyncReadSpec R} `{AsyncWriteSpec W} `{!AsyncShutdown W} `{!AsyncShutdownSpec W}
  `{OnMsgSpec S} `{RingBufSpec Rb} `{MpscSpec Ch}.

Lemma writer_job_output_step e (j : WriterJob Rb Ch W) o :
  tk_output j = Some o -> tk_output (tk_step e j) = Some o.
Proof.
  destruct j as [[so p t w] told|]; [|done].
  destruct e as [cx tick| |cx|k bytes| |]; cbn -[sender_call writer_step sender_access writer_abort]; try done.
  - destruct t; done.
  - destruct told; [|done]. by destruct t.
  - by destruct (sender_access cx so p) as [[st' p']| |].
Qed.

(** Whether the task was told to abort does not change by its steps. *)
Lemma writer_job_told e (d : Duplex Rb Ch W) told :
  writer_job_step e (WJ d told) = WJ_Panicked \/ exists d', writer_job_step e (WJ d told) = WJ d' told.
Proof.
  destruct e as [cx tick| |cx|k bytes| |]; cbn -[duplex_move writer_abort]; try (right; by eexists).
  - destruct (duplex_move _ d); [right; by eexists|by left..].
  - destruct told; [|right; by eexists]. destruct (writer_abort _ _). right. by eexists.
  - destruct (duplex_move _ d); right; by eexists.
Qed.

#[export] Instance writer_job_spec : TaskSpec writer_event (WriterJob Rb Ch W).
Proof.
  refine {| tk_stopping j :=
    match tk_output j with Some _ => true | None => match j with WJ _ told => told | _ => true end end |}.
  - apply writer_job_output_step.
  - by intros [d told|] o.
  - by intros j o ->.
  - intros [d told|]; [|done]. cbn. by destruct (d_task d).
  - intros e j. destruct (tk_output j) as [o|] eqn:E; [by rewrite (writer_job_output_step e j o E)|].
    destruct j as [d told|]; [|done]. intros ->. cbn [tk_step writer_job_ops].
    destruct (writer_job_told e d true) as [->|[d' ->]]; [done|]. cbn. by destruct (d_task d').
Defined.

Lemma reader_job_output_step e (j : ReaderJob R S) o :
  tk_output j = Some o -> tk_output (tk_step e j) = Some o.
Proof.
  destruct j as [t b a|]; [|by destruct e]. destruct t, a, e; try done.
Qed.

#[export] Instance reader_job_spec : TaskSpec reader_event (ReaderJob R S).
Proof.
  refine {| tk_stopping j :=
    match tk_output j with Some _ => true | None => match j with RJ _ _ A_Live => false | _ => true end end |}.
  - apply reader_job_output_step.
  - intros [t b a|] o; [|done]. by destruct t, a.
  - by intros j o ->.
  - intros [t b a|]; [|done]. by destruct t, a.
  - intros e j. destruct (tk_output j) as [o|] eqn:E; [by rewrite (reader_job_output_step e j o E)|].
    destruct j as [t b a|]; [|done]. destruct a as [| |]; [done| |].
    + intros _. destruct e as [cx tick|]; [|by destruct t]. cbn -[reader_step].
      destruct (reader_step cx tick t b) as [[t' b']| |]; [|done..]. by destruct t'.
    + intros _. destruct e; by destruct t.
Defined.

(** A call of the sender is a step of the pipe, or does nothing. *)
Lemma sender_call_step e (d : Duplex Rb Ch W) :
  rtc duplex_step d (with_sender d (sender_call e (d_sender d))).
Proof.
  assert (d = with_sender d (d_sender d)) as Hid by (by destruct d).
  unfold sender_call. destruct (d_sender d) as [s last| | | | | | | | |] eqn:Es;
    try (rewrite <- Hid; reflexivity).
  destruct e as [cx tick| |cx|k bytes| |]; try (rewrite <- Hid; reflexivity).
  - destruct (Z.ltb_spec (zlen bytes) isize_bound); [|rewrite <- Hid; reflexivity].
    by eapply rtc_once, step_send.
  - by eapply rtc_once, step_flush.
  - by eapply rtc_once, step_drop.
Qed.

Lemma writer_job_step_inv e (d : Duplex Rb Ch W) told :
  duplex_inv d -> exists d', writer_job_step e (WJ d told) = WJ d' told /\ duplex_inv d'.
Proof.
  intros Hd. unfold writer_job_step.
  assert (exists d', WJ (with_sender d (sender_call e (d_sender d))) told = WJ d' told /\ duplex_inv d')
    as Hcall.
  { eexists. split; [done|]. eapply reachable_inv; [apply sender_call_step|done]. }
  destruct e as [cx tick| |cx|k bytes| |]; [| | |exact Hcall..].
  - destruct (duplex_move_inv (M_Writer cx tick) d Hd) as (d' & -> & Hd'). by eexists.
  - destruct told; [|by eexists]. destruct d as [so p t w]. cbn -[writer_abort].
    destruct (writer_abort t p) as [t' p'] eqn:E. eexists. split; [done|]. by eapply abort_inv.
  - destruct (duplex_move_inv (M_Access cx) d Hd) as (d' & -> & Hd'). by eexists.
Qed.

Lemma reader_job_step_inv e (t : ReaderTask) (b : BufReadWrite R (OnMsgWrite S)) a size :
  brw_inv size b -> Reader.task_inv t b ->
  exists t' b' a', reader_job_step e (RJ t b a) = RJ t' b' a' /\ brw_inv size b' /\ Reader.task_inv t' b'.
Proof.
  intros Hb Ht. destruct e as [cx tick|], a; cbn -[reader_step]; try by eexists _, _, _.
  all: destruct (reader_step_inv cx tick size t b Hb Ht) as (t' & b' & -> & Hb' & Ht').
  all: by eexists _, _, _.
Qed.

(** What holds of a stream when its connection starts: nothing was written to it or
    read from it; whatever the user has sent already is in the pipe. *)
#[export] Instance job_inv : TaskInv (Socket R W Rb Ch) S writer_event (WriterJob Rb Ch W)
    reader_event (ReaderJob R S).
Proof.
  refine {|
    ok_stream s := duplex_inv (mkDuplex (sk_sender s) (sk_pipe s) WN_Recv (sk_write s)) /\
      AsyncIo.consumed (sk_read s) = [];
    ok_callback m := acked m = [];
    ok_writer j := exists d told, j = WJ d told /\ duplex_inv d;
    ok_reader j := exists t b a size, j = RJ t b a /\ brw_inv size b /\ Reader.task_inv t b
  |}.
  - intros s c [Hs _]. eexists _, _. split; [done|]. unfold handle_writer. by destruct (is_zero _).
  - intros s m c [_ Hr] Hm. cbn -[handle_reader].
    destruct (handle_reader_inv (sk_read s) m c) as (size & t & b & -> & _ & Hb & Ht & _);
      [congruence|]. by eexists _, _, _, _.
  - intros e j (d & told & -> & Hd). destruct (writer_job_step_inv e d told Hd) as (d' & ? & ?).
    by eexists _, _.
  - intros j (d & told & -> & Hd). by eexists _, _.
  - intros e j (t & b & a & size & -> & Hb & Ht).
    destruct (reader_job_step_inv e t b a size Hb Ht) as (t' & b' & a' & ? & ? & ?). by eexists _, _, _, _.
  - intros j (t & b & a & size & -> & Hb & Ht). destruct a; by eexists _, _, _, _.
Defined.
End laws.

(** ** Properties *)

Section properties.
Context {R W S Rb : Type} {Os Ch : Type -> Type} {Dl Dc : Type}.
Context `{AsyncReadSpec R} `{AsyncWriteSpec W} `{!AsyncShutdown W} `{!AsyncShutdownSpec W}
  `{OnMsgSpec S} `{RingBufSpec Rb} `{MpscSpec Ch} `{OneshotSpec Os}
  `{!DashMapOps SocketAddr nat Dl} `{!DashMapOps (SocketAddr * SocketAddr) nat Dc}
  `{!DashMapSpec SocketAddr nat Dl} `{!DashMapSpec (SocketAddr * SocketAddr) nat Dc}.
#[local] Abbreviation Sock := (Socket R W Rb Ch).
#[local] Abbreviation Mgr := (Manager Os Ch Dl Dc Sock S (WriterJob Rb Ch W) (ReaderJob R S)).

(** C1: the bytes of every connection of the running manager.  Take any
    interleaving of commands, tasks, user calls, single accesses of sends, reads,
    writes and aborts,
    in which streams and callbacks are new when they come in.  For each connection
    that was started, neither of its two tasks has panicked; its socket has
    received a prefix of what was sent on it, and all of it if the writer has
    ended normally, which needs the sender to be dropped; the callback has
    acknowledged, in order, what was read from the socket except for what is still
    buffered; and once [OnRemoteClose] was called nothing is buffered any more:
    the callback has acknowledged everything. *)
Theorem manager_delivers cx rt (inputs : list (input Sock S writer_event reader_event)) :
  Forall ok_input inputs ->
  exists m, manager_run cx inputs (manager_new rt : Mgr) = Ret m /\
    forall k l, m_conns m !! k = Some l ->
      (forall h, l_writer l = Some h -> exists d told, jh_task h = WJ d told /\
         written (d_sock d) `prefix_of` stream (d_pipe d) /\
         (tk_output (jh_task h) = Some ended_ok ->
          d_sender d = S_Dropped /\ written (d_sock d) = stream (d_pipe d))) /\
      (forall h, l_reader l = Some h -> exists t b a, jh_task h = RJ t b a /\
         AsyncIo.consumed (reader b) = acked (on_msg_obj (writer b)) ++ pending_bytes b /\
         (OnRemoteClose (l_local l) (l_peer l) ∈ events_of (From_conn k) (m_events m) ->
          acked (on_msg_obj (writer b)) = AsyncIo.consumed (reader b))).
Proof.
  intros Hin. destruct (manager_run_inv cx inputs _ (manager_new_inv rt)) as (m & E & Hm).
  exists m. split; [done|]. intros k l Hk.
  assert (conns_ok m) as Hok by (by eapply manager_run_ok; [..|exact E]; try apply manager_new_inv).
  destruct (Hok k l Hk) as (Hw & Hr & _). pose proof Hm as (_ & Hc & _).
  specialize (Hc k). rewrite Hk in Hc. destruct Hc as (He & Hh & _).
  destruct (events_ok_language (m_cs m) l _ He Hh) as (_ & _ & Hro). split.
  - intros h Hlw. destruct (Hw h Hlw) as (d & told & Ej & Hd). exists d, told. split; [done|].
    split; [by apply duplex_inv_prefix|]. rewrite Ej. cbn. intros Ho.
    destruct d as [so p t w], Hd as [_ Hd]. cbn in *.
    destruct t as [| | | | | | | | | |[[]|e]|]; try done.
  - intros h Hlr. destruct (Hr h Hlr) as (t & b & a & size & Ej & (Hwf & Hcons & _) & Ht).
    exists t, b, a. split; [done|]. split; [done|]. intros Hev.
    specialize (Hro Hev). rewrite Hlr in Hro. cbn -[tk_output] in Hro. rewrite Ej in Hro.
    destruct t as [ff| |ff hd| | |[[]|e]]; cbn in Hro; try (by destruct a).
    cbn in Ht. unfold conserved in Hcons. by rewrite Ht, app_nil_r in Hcons.
Qed.

End properties.

(** ** Witnesses *)

(** A socket from which [3; 4] can be read; the user has a new sender. *)
Definition demo_socket : Socket ScriptReader ByteWriter ListRing chan_view :=
  mkSocket (Ok demo_local) (Ok demo_peer) (mkScriptReader [Ready (Ok [x03; x04])] [])
    (mkByteWriter []) (S_Idle (mkSender 0) None)
    (mkPipe [rb_new RING_BUFFER_SIZE] (mkChan [0%nat] true true)).

Definition demo_conn_config : ConnConfig := mkConnConfig 0 0 0.

(** Connect, start, send two bytes and drop the sender; the writer runs to its end. *)
Definition demo_session
  : list (input (Socket ScriptReader ByteWriter ListRing chan_view) (list byte)
           writer_event reader_event) :=
  [I_Command (C_Connect demo_local 0); I_Main; I_Task 0 (A_Stream (Ok demo_socket));
   I_Conn 0 0 (Ok tt); I_Conn 0 0 (Ok tt); I_User 0 (U_Call (Call_start [] demo_conn_config));
   I_Conn 0 0 (Ok tt); I_Conn 0 0 (Ok tt);
   I_Writer 0 (WE_Send K_Nonblock [x01; x02]); I_Writer 0 (WE_Access (mkWaker 1 2));
   I_Writer 0 (WE_Poll (mkWaker 1 2) false); I_Writer 0 WE_Drop;
   I_Writer 0 (WE_Access (mkWaker 1 2)); I_Writer 0 (WE_Access (mkWaker 1 2))]
  ++ replicate 8 (I_Writer 0 (WE_Poll (mkWaker 1 2) false))
  ++ replicate 4 (I_Reader 0 (RE_Poll (mkWaker 1 2) false))
  ++ [I_Conn 0 2 (Ok tt); I_Conn 0 1 (Ok tt)].

Definition DemoEndpoint : Type :=
  Manager oneshot_view chan_view (gmap SocketAddr nat) (gmap (SocketAddr * SocketAddr) nat)
    (Socket ScriptReader ByteWriter ListRing chan_view) (list byte)
    (WriterJob ListRing chan_view ByteWriter) (ReaderJob ScriptReader (list byte)).

Lemma demo_socket_ok :
  duplex_inv (mkDuplex (sk_sender demo_socket) (sk_pipe demo_socket) WN_Recv (sk_write demo_socket)).
Proof.
  destruct (duplex_start_inv (Rb := ListRing) (Ch := chan_view) demo_conn_config (mkByteWriter []))
    as (d & E & Hd & _); [reflexivity|]. by injection E as <-.
Qed.

(** The callbacks of the session and whether its connection was started. *)
Definition summary (o : outcome DemoEndpoint) : list (Source * ConnState) * option bool :=
  match o with
  | Ret m =>
      (m_events m,
       match m_conns m !! 0%nat with
       | Some l => Some (match l_writer l with Some _ => true | None => false end)
       | None => None
       end)
  | _ => ([], None)
  end.

Lemma demo_summary :
  summary (manager_run (mkWaker 1 2) demo_session (manager_new CurrentThread)) =
    ([(From_conn 0, OnConnect demo_local demo_peer);
      (From_conn 0, OnRemoteClose demo_local demo_peer)], Some true).
Proof. vm_compute. reflexivity. Qed.

Lemma summary_started (m : DemoEndpoint) evs :
  summary (Ret m) = (evs, Some true) ->
  m_events m = evs /\ exists l h, m_conns m !! 0%nat = Some l /\ l_writer l = Some h.
Proof.
  cbn. intros [= <- Hl]. split; [done|]. destruct (m_conns m !! 0%nat) as [l|]; [|done].
  destruct (l_writer l) as [h|] eqn:Hh; [|done]. by exists l, h.
Qed.

Lemma manager_delivers_witness :
  exists m : DemoEndpoint,
    manager_run (mkWaker 1 2) demo_session (manager_new CurrentThread) = Ret m /\
    m_events m = [(From_conn 0, OnConnect demo_local demo_peer);
                  (From_conn 0, OnRemoteClose demo_local demo_peer)] /\
    exists l h, m_conns m !! 0%nat = Some l /\ l_writer l = Some h /\
      exists (d : Duplex ListRing chan_view ByteWriter) told,
        jh_task h = WJ d told /\ written (d_sock d) `prefix_of` stream (d_pipe d).
Proof.
  destruct (manager_delivers (Os := oneshot_view) (Dl := gmap SocketAddr nat)
    (Dc := gmap (SocketAddr * SocketAddr) nat) (mkWaker 1 2) CurrentThread demo_session)
    as (m & E & Hm).
  - unfold demo_session. cbn [replicate app].
    repeat (apply Forall_cons; split; [try exact I|]); [|reflexivity|apply Forall_nil; exact I].
    split; [apply demo_socket_ok|reflexivity].
  - pose proof demo_summary as Hr. rewrite E in Hr.
    destruct (summary_started m _ Hr) as (Hev & l & h & Hl & Hh).
    exists m. split; [exact E|]. split; [exact Hev|].
    exists l, h. split; [exact Hl|]. split; [exact Hh|].
    destruct (Hm 0%nat l Hl) as [Hw _]. destruct (Hw h Hh) as (d & told & Ej & Hp & _).
    exists d, told. split; assumption.
Defined.
