(* ===== verification/SockAddr.v ===== *)
(** * The text form of addresses

    The C interface takes and gives addresses as text: it prints them with [Display]
    and reads them with [str::parse::<SocketAddr>()], both of the standard library.
    The two are written out for IPv4; what the library does with the text of an IPv6
    address is left open. *)

From Stdlib Require Import Ascii.
From S2P Require Import Prelude Conn.

(** ** [Display] *)

Definition digit_char (d : Z) : ascii := ascii_of_N (Z.to_N (48 + d)).

(** The decimal digits of an unsigned number; [fuel] bounds their number. *)
Fixpoint decimal_go (fuel : nat) (n : Z) (acc : string) : string :=
  match fuel with
  | O => acc
  | S fuel =>
      let acc := String (digit_char (n mod 10)) acc in
      if n / 10 =? 0 then acc else decimal_go fuel (n / 10) acc
  end.

(** A [u8] or a [u16], which has at most five digits. *)
Definition decimal (n : Z) : string := decimal_go 5 n "".

(** [Ipv4Addr::octets]. *)
Definition octet (k : Z) (ip : Z) : Z := Z.land (Z.shiftr ip (8 * k)) 255.

Definition display_ipv4 (ip : Z) : string :=
  decimal (octet 3 ip) +:+ "." +:+ decimal (octet 2 ip) +:+ "." +:+
  decimal (octet 1 ip) +:+ "." +:+ decimal (octet 0 ip).

Definition display_socket_addr_v4 (ip port : Z) : string :=
  display_ipv4 ip +:+ ":" +:+ decimal port.

(** ** The parser

    A parser takes a part of the text and leaves the rest, or fails without taking
    anything. *)

Definition parser (A : Type) : Type := string -> option (A * string).

Definition read_given_char (c : ascii) : parser unit := fun s =>
  match s with
  | String a s => if Ascii.eqb a c then Some (tt, s) else None
  | EmptyString => None
  end.

(** [char::to_digit(10)]. *)
Definition to_digit (a : ascii) : option Z :=
  let n := Z.of_N (N_of_ascii a) in
  if (48 <=? n) && (n <=? 57) then Some (n - 48) else None.

(** The loop of [read_number] with [max_digits]; it also counts the digits. *)
Fixpoint read_digits_max (max count : nat) (result : Z) (s : string) : option (Z * nat * string) :=
  match s with
  | String a rest =>
      match to_digit a with
      | Some digit =>
          if (max <? S count)%nat then None
          else read_digits_max max (S count) (result * 10 + digit) rest
      | None => Some (result, count, s)
      end
  | EmptyString => Some (result, count, s)
  end.

(** The loop without it: [checked_mul] and [checked_add] at the width of the
    number, whose values are below [bound]. *)
Fixpoint read_digits_checked (bound : Z) (count : nat) (result : Z) (s : string)
  : option (Z * nat * string) :=
  match s with
  | String a rest =>
      match to_digit a with
      | Some digit =>
          if bound <=? result * 10 then None
          else if bound <=? result * 10 + digit then None
          else read_digits_checked bound (S count) (result * 10 + digit) rest
      | None => Some (result, count, s)
      end
  | EmptyString => Some (result, count, s)
  end.

(** [read_number(10, max_digits, allow_zero_prefix)]. *)
Definition read_number (bound : Z) (max_digits : option nat) (allow_zero_prefix : bool) : parser Z :=
  fun s =>
    let has_leading_zero := match s with String a _ => Ascii.eqb a "0" | EmptyString => false end in
    match (match max_digits with
           | Some max => read_digits_max max 0 0 s
           | None => read_digits_checked bound 0 0 s
           end) with
    | None => None
    | Some (result, count, rest) =>
        if (count =? 0)%nat then None
        else if negb allow_zero_prefix && has_leading_zero && (1 <? count)%nat then None
        else if result <? bound then Some (result, rest) else None
    end.

Definition read_octet : parser Z := read_number 256 (Some 3%nat) false.

(** [read_separator('.', i, ..)] for the octets after the first. *)
Definition read_dot_octet : parser Z := fun s =>
  '(_, s) ← read_given_char "." s; read_octet s.

Definition read_ipv4_addr : parser Z := fun s =>
  '(a, s) ← read_octet s;
  '(b, s) ← read_dot_octet s;
  '(c, s) ← read_dot_octet s;
  '(d, s) ← read_dot_octet s;
  Some (((a * 256 + b) * 256 + c) * 256 + d, s).

Definition read_port : parser Z := fun s =>
  '(_, s) ← read_given_char ":" s; read_number 65536 None true s.

Definition read_socket_addr_v4 : parser (Z * Z) := fun s =>
  '(ip, s) ← read_ipv4_addr s;
  '(port, s) ← read_port s;
  Some ((ip, port), s).

(** ** Both kinds of address *)

(** The two directions for IPv6: the address, the port, the flow information and
    the scope. *)
Class Ipv6Text : Type := {
  display_socket_addr_v6 : Z -> Z -> Z -> Z -> string;
  read_socket_addr_v6 : parser (Z * Z * Z * Z)
}.

Definition addr_parse_error : string := "invalid socket address syntax".

Section defs.
Context `{Ipv6Text}.

Definition display_socket_addr (a : SocketAddr) : string :=
  match a with
  | AddrV4 ip port => display_socket_addr_v4 ip port
  | AddrV6 ip port flowinfo scope_id => display_socket_addr_v6 ip port flowinfo scope_id
  end.

(** [read_socket_addr]: IPv4 is tried first. *)
Definition read_socket_addr : parser SocketAddr := fun s =>
  match read_socket_addr_v4 s with
  | Some (ip, port, s) => Some (AddrV4 ip port, s)
  | None =>
      match read_socket_addr_v6 s with
      | Some (ip, port, flowinfo, scope_id, s) => Some (AddrV6 ip port flowinfo scope_id, s)
      | None => None
      end
  end.

(** [str::parse::<SocketAddr>()]: nothing may be left. *)
Definition parse_socket_addr (s : string) : result SocketAddr string :=
  match read_socket_addr s with
  | Some (a, EmptyString) => Ok a
  | _ => Err addr_parse_error
  end.
End defs.

(** ** Text *)

(** A string without an interior NUL, as [CString::new] asks for. *)
Fixpoint no_nul (s : string) : bool :=
  match s with
  | EmptyString => true
  | String a s => negb (Ascii.eqb a Ascii.zero) && no_nul s
  end.

Fixpoint ascii_only (s : string) : bool :=
  match s with
  | EmptyString => true
  | String a s => (Ascii.nat_of_ascii a <? 128)%nat && ascii_only s
  end.

(** The text of an IPv6 address is made of hexadecimal digits and a few signs. *)
Class Ipv6TextSpec `{Ipv6Text} : Prop := {
  display_v6_text ip port f sc :
    no_nul (display_socket_addr_v6 ip port f sc) = true /\
    ascii_only (display_socket_addr_v6 ip port f sc) = true
}.

(** ** Lemmas *)

Lemma string_app_cons a (s t : string) : String a s +:+ t = String a (s +:+ t).
Proof. done. Qed.

Lemma no_nul_app s t : no_nul (s +:+ t) = no_nul s && no_nul t.
Proof.
  induction s as [|a s IH]; [done|]. rewrite string_app_cons. cbn [no_nul ascii_only].
  by rewrite IH, andb_assoc.
Qed.

Lemma ascii_only_app s t : ascii_only (s +:+ t) = ascii_only s && ascii_only t.
Proof.
  induction s as [|a s IH]; [done|]. rewrite string_app_cons. cbn [no_nul ascii_only].
  by rewrite IH, andb_assoc.
Qed.

Lemma string_app_assoc (s t u : string) : (s +:+ t) +:+ u = s +:+ t +:+ u.
Proof. induction s as [|a s IH]; [done|]. by rewrite !string_app_cons, IH. Qed.

(** The value of a string of digits, from [acc] on, if it is one. *)
Fixpoint digits_value (acc : Z) (s : string) : option Z :=
  match s with
  | EmptyString => Some acc
  | String a s => d ← to_digit a; digits_value (acc * 10 + d) s
  end.

(** The rest of the text does not go on with a digit. *)
Definition no_digit (s : string) : Prop :=
  match s with String a _ => to_digit a = None | EmptyString => True end.

Lemma to_digit_range a d : to_digit a = Some d -> 0 <= d <= 9.
Proof. unfold to_digit. destruct (_ && _) eqn:E; [|done]. intros [= <-]. lia. Qed.

Lemma read_digits_max_app max s t count acc v :
  digits_value acc s = Some v -> no_digit t -> (count + String.length s <= max)%nat ->
  read_digits_max max count acc (s +:+ t) = Some (v, (count + String.length s)%nat, t).
Proof.
  revert count acc. induction s as [|a s IH]; intros count acc Hv Ht Hle;
    rewrite ?string_app_cons; cbn [read_digits_max read_digits_checked digits_value String.length no_digit] in *.
  - injection Hv as ->. rewrite Nat.add_0_r. change ("" +:+ t) with t. destruct t as [|a t]; [done|].
    cbn in *. by rewrite Ht.
  - destruct (to_digit a) as [d|]; [|done]. cbn in Hv. rewrite (proj2 (Nat.ltb_ge _ _)) by lia.
    rewrite (IH (S count)) by (done || lia). by rewrite Nat.add_succ_r.
Qed.

Lemma digits_value_ge acc s v : 0 <= acc -> digits_value acc s = Some v -> acc <= v.
Proof.
  revert acc. induction s as [|a s IH]; intros acc Ha Hv; cbn in Hv; [injection Hv as ->; lia|].
  destruct (to_digit a) as [d|] eqn:Ed; [|done]. apply to_digit_range in Ed.
  apply IH in Hv; lia.
Qed.

Lemma read_digits_checked_app bound s t count acc v :
  0 <= acc -> digits_value acc s = Some v -> v < bound -> no_digit t ->
  read_digits_checked bound count acc (s +:+ t) = Some (v, (count + String.length s)%nat, t).
Proof.
  revert count acc. induction s as [|a s IH]; intros count acc Ha Hv Hlt Ht;
    rewrite ?string_app_cons; cbn [read_digits_max read_digits_checked digits_value String.length no_digit] in *.
  - injection Hv as ->. rewrite Nat.add_0_r. change ("" +:+ t) with t. destruct t as [|a t]; [done|].
    cbn in *. by rewrite Ht.
  - destruct (to_digit a) as [d|] eqn:Ed; [|done]. apply to_digit_range in Ed.
    cbn in Hv. pose proof (digits_value_ge (acc * 10 + d) s v ltac:(lia) Hv).
    rewrite !(proj2 (Z.leb_gt _ _)) by lia.
    rewrite (IH (S count)) by (done || lia). by rewrite Nat.add_succ_r.
Qed.

(** What is printed: digits with just that value. *)
Lemma digit_char_ok d : 0 <= d < 10 ->
  to_digit (digit_char d) = Some d /\ digit_char d <> Ascii.zero /\
  (Ascii.nat_of_ascii (digit_char d) < 128)%nat.
Proof.
  intros Hd.
  assert (d = 0 \/ d = 1 \/ d = 2 \/ d = 3 \/ d = 4 \/ d = 5 \/ d = 6 \/ d = 7 \/ d = 8 \/ d = 9)
    as Hcases by lia.
  repeat destruct Hcases as [->|Hcases]; [..|subst d]; (split; [done|]); (split; [done|]); vm_compute; lia.
Qed.

Lemma decimal_go_value fuel n acc :
  0 <= n < 10 ^ Z.of_nat (S fuel) ->
  digits_value 0 (decimal_go (S fuel) n acc) = digits_value n acc.
Proof.
  revert n acc. induction fuel as [|fuel IH]; intros n acc Hn.
  all: pose proof (Z.mod_pos_bound n 10 ltac:(lia)) as Hm; pose proof (Z.div_mod n 10 ltac:(lia)) as Hdm.
  all: destruct (digit_char_ok _ Hm) as [Hd _].
  - change (10 ^ Z.of_nat 1) with 10 in Hn. cbn [decimal_go]. rewrite Z.div_small by lia.
    cbn. rewrite Hd. cbn. f_equal. lia.
  - cbn [decimal_go]. destruct (Z.eqb_spec (n / 10) 0) as [E|E].
    + cbn. rewrite Hd. cbn. f_equal. lia.
    + change (digits_value 0 (decimal_go (S fuel) (n / 10) (String (digit_char (n mod 10)) acc)) =
        digits_value n acc).
      rewrite IH; [cbn; rewrite Hd; cbn; f_equal; lia|].
      rewrite (Nat2Z.inj_succ (S fuel)), Z.pow_succ_r in Hn by lia.
      split; [apply Z.div_pos; lia|]. apply Z.div_lt_upper_bound; lia.
Qed.

Lemma decimal_go_text fuel n acc :
  no_nul acc = true -> ascii_only acc = true ->
  no_nul (decimal_go fuel n acc) = true /\ ascii_only (decimal_go fuel n acc) = true /\
  (Nat.min fuel 1 + String.length acc <= String.length (decimal_go fuel n acc))%nat.
Proof.
  revert n acc. induction fuel as [|fuel IH]; intros n acc Hz Ha; [done|]. cbn [decimal_go].
  destruct (digit_char_ok (n mod 10)) as (_ & Hne & Hlt); [by apply Z.mod_pos_bound|].
  assert (no_nul (String (digit_char (n mod 10)) acc) = true) as Hz'.
  { cbn [no_nul]. by rewrite Hz, (proj2 (Ascii.eqb_neq _ _) Hne). }
  assert (ascii_only (String (digit_char (n mod 10)) acc) = true) as Ha'.
  { cbn [ascii_only]. by rewrite Ha, (proj2 (Nat.ltb_lt _ _) Hlt). }
  destruct (_ =? 0); [split_and!; try done; cbn; lia|].
  destruct (IH (n / 10) (String (digit_char (n mod 10)) acc)) as (? & ? & Hl); try done.
  split_and!; try done. cbn [String.length] in Hl. lia.
Qed.

Lemma decimal_text n : no_nul (decimal n) = true /\ ascii_only (decimal n) = true.
Proof. by destruct (decimal_go_text 5 n "") as (? & ? & _). Qed.

Lemma decimal_value n :
  0 <= n < 65536 -> digits_value 0 (decimal n) = Some n /\ (1 <= String.length (decimal n))%nat.
Proof.
  intros Hn. unfold decimal. split.
  - rewrite decimal_go_value; [done|]. change (10 ^ Z.of_nat 5) with 100000. lia.
  - by destruct (decimal_go_text 5 n "") as (_ & _ & ?).
Qed.

(** An octet has at most three digits and no zero in front. *)
Definition octet_text_ok (n : Z) : bool :=
  (String.length (decimal n) <=? 3)%nat &&
  match decimal n with
  | String a (String _ _) => negb (Ascii.eqb a "0")
  | _ => true
  end.

Lemma octet_text n : 0 <= n < 256 -> octet_text_ok n = true.
Proof.
  intros Hn. assert (forallb octet_text_ok (seqZ 0 256) = true) as Hall by (vm_compute; reflexivity).
  rewrite forallb_forall in Hall. apply Hall, list_elem_of_In, elem_of_seqZ. lia.
Qed.

Lemma read_octet_decimal n t :
  0 <= n < 256 -> no_digit t -> read_octet (decimal n +:+ t) = Some (n, t).
Proof.
  intros Hn Ht. destruct (decimal_value n) as [Hv Hl]; [lia|].
  pose proof (octet_text n Hn) as Hok. unfold octet_text_ok in Hok.
  apply andb_true_iff in Hok as [H3 Hz]. apply Nat.leb_le in H3.
  unfold read_octet, read_number. rewrite (read_digits_max_app 3 (decimal n) t 0 0 n) by (done || lia).
  cbn [Nat.add negb andb]. rewrite (proj2 (Nat.eqb_neq _ _)) by lia.
  rewrite (proj2 (Z.ltb_lt n 256)) by lia.
  destruct (decimal n) as [|a [|a' s]]; [cbn in Hl; lia| |].
  - by rewrite andb_false_r.
  - rewrite string_app_cons. apply negb_true_iff in Hz. by rewrite Hz.
Qed.

Lemma read_port_decimal n t :
  0 <= n < 65536 -> no_digit t -> read_port (":" +:+ decimal n +:+ t) = Some (n, t).
Proof.
  intros Hn Ht. destruct (decimal_value n) as [Hv Hl]; [lia|].
  change (read_number 65536 None true (decimal n +:+ t) = Some (n, t)).
  unfold read_number. rewrite (read_digits_checked_app 65536 (decimal n) t 0 0 n) by (done || lia).
  cbn [Nat.add negb andb]. rewrite (proj2 (Nat.eqb_neq _ _)), (proj2 (Z.ltb_lt _ _)) by lia. done.
Qed.

Lemma octet_range k ip : 0 <= octet k ip < 256.
Proof. unfold octet. change 255 with (Z.ones 8). rewrite Z.land_ones by lia. apply Z.mod_pos_bound. lia. Qed.

Lemma octets_value ip :
  0 <= ip < 2 ^ 32 ->
  ((octet 3 ip * 256 + octet 2 ip) * 256 + octet 1 ip) * 256 + octet 0 ip = ip.
Proof.
  intros Hip. unfold octet. change 255 with (Z.ones 8). rewrite !Z.land_ones, !Z.shiftr_div_pow2 by lia.
  change (2 ^ (8 * 3)) with 16777216. change (2 ^ (8 * 2)) with 65536.
  change (2 ^ (8 * 1)) with 256. change (2 ^ (8 * 0)) with 1. change (2 ^ 8) with 256.
  change (2 ^ 32) with 4294967296 in Hip. Z.to_euclidean_division_equations. lia.
Qed.

Lemma read_socket_addr_v4_display ip port t :
  0 <= ip < 2 ^ 32 -> 0 <= port < 65536 -> no_digit t ->
  read_socket_addr_v4 (display_socket_addr_v4 ip port +:+ t) = Some ((ip, port), t).
Proof.
  intros Hip Hport Ht. unfold display_socket_addr_v4, display_ipv4. rewrite !string_app_assoc.
  unfold read_socket_addr_v4, read_ipv4_addr.
  assert (forall k t, no_digit t -> read_dot_octet ("." +:+ decimal (octet k ip) +:+ t) = Some (octet k ip, t))
    as Hdot by (intros k t' Ht'; apply (read_octet_decimal _ _ (octet_range k ip) Ht')).
  rewrite (read_octet_decimal _ _ (octet_range 3 ip)) by done. cbn [mbind option_bind].
  rewrite Hdot by done. cbn [mbind option_bind]. rewrite Hdot by done. cbn [mbind option_bind].
  rewrite Hdot by done. cbn [mbind option_bind]. rewrite octets_value by done.
  by rewrite read_port_decimal.
Qed.

(** What the parser accepts is in range. *)
Lemma read_digits_max_nonneg max s count acc v c rest :
  0 <= acc -> read_digits_max max count acc s = Some (v, c, rest) -> 0 <= v.
Proof.
  revert count acc. induction s as [|a s IH]; intros count acc Ha; cbn [read_digits_max].
  - intros [= <- _ _]. done.
  - destruct (to_digit a) as [d|] eqn:Ed; [|intros [= <- _ _]; done]. apply to_digit_range in Ed.
    destruct (_ <? _)%nat; [done|]. apply IH. lia.
Qed.

Lemma read_digits_checked_nonneg bound s count acc v c rest :
  0 <= acc -> read_digits_checked bound count acc s = Some (v, c, rest) -> 0 <= v.
Proof.
  revert count acc. induction s as [|a s IH]; intros count acc Ha; cbn [read_digits_checked].
  - intros [= <- _ _]. done.
  - destruct (to_digit a) as [d|] eqn:Ed; [|intros [= <- _ _]; done]. apply to_digit_range in Ed.
    destruct (_ <=? _); [done|]. destruct (_ <=? _); [done|]. apply IH. lia.
Qed.

Lemma read_number_range bound max zp s n rest :
  read_number bound max zp s = Some (n, rest) -> 0 <= n < bound.
Proof.
  unfold read_number. destruct (match max with Some _ => _ | None => _ end) as [[[v c] r]|] eqn:E; [|done].
  destruct (c =? 0)%nat; [done|]. destruct (_ && _ && _); [done|].
  destruct (Z.ltb_spec v bound); [|done]. intros [= <- <-]. split; [|done].
  destruct max; [by eapply read_digits_max_nonneg in E|by eapply read_digits_checked_nonneg in E].
Qed.

Lemma read_dot_octet_range s n rest : read_dot_octet s = Some (n, rest) -> 0 <= n < 256.
Proof.
  unfold read_dot_octet. destruct (read_given_char "." s) as [[u s']|]; [|done]. cbn.
  apply read_number_range.
Qed.

Lemma read_socket_addr_v4_range s ip port rest :
  read_socket_addr_v4 s = Some (ip, port, rest) -> 0 <= ip < 2 ^ 32 /\ 0 <= port < 65536.
Proof.
  unfold read_socket_addr_v4, read_ipv4_addr, read_port.
  destruct (read_octet s) as [[a s1]|] eqn:Ea; [|done].
  apply (read_number_range 256 (Some 3%nat) false) in Ea. cbn.
  destruct (read_dot_octet s1) as [[b s2]|] eqn:Eb; [|done]. apply read_dot_octet_range in Eb. cbn.
  destruct (read_dot_octet s2) as [[c s3]|] eqn:Ec; [|done]. apply read_dot_octet_range in Ec. cbn.
  destruct (read_dot_octet s3) as [[d s4]|] eqn:Ed; [|done]. apply read_dot_octet_range in Ed. cbn.
  destruct (read_given_char ":" s4) as [[u s5]|]; [|done]. cbn.
  destruct (read_number 65536 None true s5) as [[q s6]|] eqn:Eq; [|done]. apply read_number_range in Eq.
  cbn. intros [= <- <- <-]. change (2 ^ 32) with 4294967296. lia.
Qed.

Section lemmas.
Context `{Ipv6TextSpec}.

Lemma display_socket_addr_v4_text ip port :
  no_nul (display_socket_addr_v4 ip port) = true /\ ascii_only (display_socket_addr_v4 ip port) = true.
Proof.
  unfold display_socket_addr_v4, display_ipv4.
  rewrite !no_nul_app, !ascii_only_app.
  assert (forall k, no_nul (decimal (octet k ip)) = true /\ ascii_only (decimal (octet k ip)) = true) as Ho.
  { intros k. apply decimal_text. }
  destruct (Ho 0) as [-> ->], (Ho 1) as [-> ->], (Ho 2) as [-> ->], (Ho 3) as [-> ->].
  by destruct (decimal_text port) as [-> ->].
Qed.

(** Printed and read back. *)
Lemma parse_display_v4 ip port :
  0 <= ip < 2 ^ 32 -> 0 <= port < 65536 ->
  parse_socket_addr (display_socket_addr (AddrV4 ip port)) = Ok (AddrV4 ip port).
Proof.
  intros Hip Hport. unfold parse_socket_addr, read_socket_addr, display_socket_addr.
  pose proof (read_socket_addr_v4_display ip port "" Hip Hport I) as E.
  assert (forall s : string, s +:+ "" = s) as Hnil
    by (intros s; induction s as [|a s IH]; [done|]; by rewrite string_app_cons, IH).
  rewrite Hnil in E. by rewrite E.
Qed.

Lemma parse_v4_range s ip port :
  parse_socket_addr s = Ok (AddrV4 ip port) -> 0 <= ip < 2 ^ 32 /\ 0 <= port < 65536.
Proof.
  unfold parse_socket_addr, read_socket_addr.
  destruct (read_socket_addr_v4 s) as [[[i q] rest]|] eqn:E.
  - destruct rest; [|done]. intros [= <- <-]. by eapply read_socket_addr_v4_range.
  - destruct (read_socket_addr_v6 s) as [[[[[i q] f] sc] rest]|]; [|done]. by destruct rest.
Qed.

Lemma display_no_nul a : no_nul (display_socket_addr a) = true.
Proof. destruct a; [apply display_socket_addr_v4_text|apply display_v6_text]. Qed.

Lemma display_ascii a : ascii_only (display_socket_addr a) = true.
Proof. destruct a; [apply display_socket_addr_v4_text|apply display_v6_text]. Qed.

Lemma parse_error s e : parse_socket_addr s = Err e -> e = addr_parse_error.
Proof.
  unfold parse_socket_addr. destruct (read_socket_addr s) as [[a []]|]; [done| |]; by intros [= <-].
Qed.
End lemmas.

(** ** Concrete texts *)

(** A library without IPv6. *)
#[export] Instance no_ipv6 : Ipv6Text := {|
  display_socket_addr_v6 _ _ _ _ := "[::]:0";
  read_socket_addr_v6 _ := None
|}.

#[export] Instance no_ipv6_spec : Ipv6TextSpec.
Proof. by split. Qed.

Example demo_addresses :
  display_socket_addr demo_local = "127.0.0.1:8080"%string /\
  parse_socket_addr "127.0.0.1:8080" = Ok demo_local /\
  parse_socket_addr "10.0.0.255:00080" = Ok (AddrV4 167772415 80) /\
  parse_socket_addr "127.0.0.01:80" = Err addr_parse_error /\
  parse_socket_addr "127.0.0.256:80" = Err addr_parse_error /\
  parse_socket_addr "127.0.0.1:65536" = Err addr_parse_error /\
  parse_socket_addr "127.0.0.1" = Err addr_parse_error /\
  parse_socket_addr "127.0.0.1:80 " = Err addr_parse_error.
Proof. vm_compute. done. Qed.
