(* ===== verification/CStrings.v ===== *)
(** * Strings across the C interface ([c_api/utils.rs])

    Errors and addresses cross the interface as NUL-terminated strings that were
    allocated with [malloc].  The three functions of libc that are used are a
    class over an abstract heap; their laws say what happens inside a block and
    nothing about accesses outside of one. *)

From S2P Require Import Prelude Conn SockAddr.

(** The length of a string in bytes. *)
Definition slen (s : string) : Z := Z.of_nat (String.length s).

(** A pointer; [0] is null. *)
Definition ptr : Type := Z.
Definition null_mut : ptr := 0.

Class LibcOps (H : Type) : Type := {
  malloc : H -> Z -> H * ptr;
  strcpy : H -> ptr -> string -> H;
  free : H -> ptr -> H;
  (** [CStr::from_ptr]: the bytes before the NUL. *)
  c_str : H -> ptr -> option string
}.

(** The live blocks: their size and the string in them. *)
Class LibcSpec (H : Type) `{LibcOps H} : Type := {
  blocks : H -> gmap ptr (Z * option string);
  malloc_blocks h n h' p :
    malloc h n = (h', p) ->
    p <> null_mut /\ blocks h !! p = None /\ blocks h' = <[p := (n, None)]> (blocks h);
  strcpy_blocks h p n c s :
    blocks h !! p = Some (n, c) -> slen s + 1 <= n ->
    blocks (strcpy h p s) = <[p := (n, Some s)]> (blocks h);
  free_blocks h p b : blocks h !! p = Some b -> blocks (free h p) = delete p (blocks h);
  c_str_blocks h p : c_str h p = b ← blocks h !! p; snd b
}.

(** [Display] of [std::io::Error]; [os_error] is the text the operating system has
    for a code. *)
Definition kind_description (k : ErrorKind) : string :=
  match k with
  | Other => "other error"
  | WriteZero => "write zero"
  | InvalidInput => "invalid input parameter"
  end.

Definition display (os_error : Z -> string) (e : io_error) : string :=
  match e with
  | IoNew _ msg => msg
  | IoSimple k => kind_description k
  | IoOs code => os_error code
  end.

(** What the standard library does with the bytes of a C string: [to_str] and its
    error text, and [to_string_lossy]. *)
Class CStrOps : Type := {
  to_str : string -> result string string;
  to_string_lossy : string -> string;
  #[global] c_ipv6_text :: Ipv6Text
}.

(** Text that is valid UTF-8 is not changed, ASCII is valid, and the text of an error
    has no NUL. *)
Class CStrSpec `{CStrOps} : Prop := {
  to_str_lossy s t : to_str s = Ok t -> t = s /\ to_string_lossy s = s;
  to_str_ascii s : ascii_only s = true -> to_str s = Ok s;
  to_str_error s e : to_str s = Err e -> no_nul e = true;
  #[global] c_ipv6_text_spec :: Ipv6TextSpec
}.

Section defs.
Context {H : Type} `{LibcOps H} `{CStrOps}.

Definition addr_is_null : io_error := IoNew InvalidInput "addr is null".

(** [socket_addr]; [Panic] stands for a pointer that is not a C string. *)
Definition socket_addr (h : H) (addr : ptr) : outcome (io_result SocketAddr) :=
  if addr =? null_mut then Ret (Err addr_is_null)
  else
    match c_str h addr with
    | None => Panic
    | Some s =>
        match to_str s with
        | Err e => Ret (Err (IoNew InvalidInput e))
        | Ok s =>
            match parse_socket_addr s with
            | Err e => Ret (Err (IoNew InvalidInput e))
            | Ok a => Ret (Ok a)
            end
        end
    end.

(** [parse_c_err_str]: takes the string over and frees it. *)
Definition parse_c_err_str (h : H) (p : ptr) : outcome (H * result unit string) :=
  if p =? null_mut then Ret (h, Ok tt)
  else
    match c_str h p with
    | None => Panic
    | Some s => Ret (free h p, Err (to_string_lossy s))
    end.

(** [write_display_c_str]; the result is the new value of [*error]. *)
Definition write_display_c_str (h : H) (d : string) : outcome (H * ptr) :=
  if no_nul d then
    let '(h, p) := malloc h (slen d + 1) in
    Ret (strcpy h p d, p)
  else Panic.

(** The end of the functions of the interface:
    [match r { Ok(_) => { *err = null_mut(); 0 } Err(e) => { write_display_c_str(e, err); 1 } }];
    the results are the heap, the new value of [*err] and the return code. *)
Definition c_return (os_error : Z -> string) (h : H) (r : io_result unit)
  : outcome (H * ptr * Z) :=
  match r with
  | Ok _ => Ret (h, null_mut, 0)
  | Err e =>
      let* '(h, err) := write_display_c_str h (display os_error e) in
      Ret (h, err, 1)
  end.
End defs.

(** [as c_long]: 64 bits wide, with a sign. *)
Definition as_c_long (n : Z) : Z := to_signed 64 n.

(** ** Lemmas *)

Lemma as_c_long_id n : 0 <= n < isize_bound -> as_c_long n = n.
Proof.
  intros Hn. unfold as_c_long, to_signed, isize_bound in *.
  change (2 ^ 64) with 18446744073709551616. change (2 ^ (64 - 1)) with 9223372036854775808.
  change (2 ^ 63) with 9223372036854775808 in Hn.
  rewrite Z.mod_small by lia. by rewrite (proj2 (Z.ltb_lt _ _)) by lia.
Qed.

Section lemmas.
Context {H : Type} `{LibcSpec H} `{CStrSpec}.
Implicit Types (h : H).

(** The string is written into a new block of just its size. *)
Lemma write_display_spec h d :
  no_nul d = true ->
  exists h' p, write_display_c_str h d = Ret (h', p) /\ p <> null_mut /\ blocks h !! p = None /\
    blocks h' = <[p := (slen d + 1, Some d)]> (blocks h).
Proof.
  intros Hd. unfold write_display_c_str. rewrite Hd.
  destruct (malloc h (slen d + 1)) as [h1 p] eqn:E. apply malloc_blocks in E as (Hp & Hf & Hb).
  exists (strcpy h1 p d), p. split_and!; try done.
  rewrite (strcpy_blocks h1 p (slen d + 1) None); [|by rewrite Hb, lookup_insert_eq|lia].
  by rewrite Hb, insert_insert_eq.
Qed.

Lemma c_return_spec os_error h r :
  (forall e, r = Err e -> no_nul (display os_error e) = true) ->
  exists h' err code, c_return os_error h r = Ret (h', err, code) /\
    match r with
    | Ok _ => code = 0 /\ err = null_mut /\ h' = h
    | Err e => code = 1 /\ err <> null_mut /\ blocks h !! err = None /\
        blocks h' = <[err := (slen (display os_error e) + 1, Some (display os_error e))]> (blocks h)
    end.
Proof.
  intros Hn. destruct r as [u|e]; cbn; [by eexists _, _, _|].
  destruct (write_display_spec h (display os_error e) (Hn e eq_refl)) as (h' & p & -> & Hp).
  by eexists _, _, _.
Qed.
End lemmas.

(** ** Properties *)

Section properties.
Context {H : Type} `{LibcSpec H} `{CStrSpec}.

(** C32: an error survives the way through the C interface and leaves nothing
    behind.  [write_display_c_str] puts the text of an error (valid UTF-8 without
    NUL) and its terminator into a new block of exactly that size and touches no
    other block; [parse_c_err_str] on that pointer gives the same text back as an
    error and frees the block, so that the heap is as it was before. *)
Theorem c_error_roundtrip (h : H) d t :
  no_nul d = true -> to_str d = Ok t ->
  exists h1 p h2, write_display_c_str h d = Ret (h1, p) /\ p <> null_mut /\
    blocks h1 = <[p := (slen d + 1, Some d)]> (blocks h) /\
    parse_c_err_str h1 p = Ret (h2, Err d) /\ blocks h2 = blocks h.
Proof.
  intros Hd Ht. destruct (write_display_spec h d Hd) as (h1 & p & E & Hp & Hf & Hb).
  exists h1, p, (free h1 p). split_and!; try done.
  - unfold parse_c_err_str. rewrite (proj2 (Z.eqb_neq _ _) Hp), c_str_blocks, Hb, lookup_insert_eq.
    cbn. by destruct (to_str_lossy d t Ht) as [_ ->].
  - rewrite (free_blocks h1 p (slen d + 1, Some d)) by (by rewrite Hb, lookup_insert_eq).
    rewrite Hb, delete_insert_eq. by apply delete_id.
Qed.

(** C33: addresses of connections can be used to open new ones.  The string that
    the interface hands out for an IPv4 address ([a.b.c.d:port]) is read back by
    [socket_addr] as that very address.  Whatever string it is given, [socket_addr]
    does not panic, and an IPv4 address it reads is in range; a null pointer and a
    string that it cannot read are refused with [InvalidInput]. *)
Theorem socket_addr_roundtrip (h : H) ip port :
  0 <= ip < 2 ^ 32 -> 0 <= port < 2 ^ 16 ->
  exists h1 p, write_display_c_str h (display_socket_addr (AddrV4 ip port)) = Ret (h1, p) /\
    socket_addr h1 p = Ret (Ok (AddrV4 ip port)) /\
    socket_addr h null_mut = Ret (Err addr_is_null) /\
    forall q s, c_str h q = Some s ->
      match socket_addr h q with
      | Ret (Ok (AddrV4 ip' port')) => 0 <= ip' < 2 ^ 32 /\ 0 <= port' < 2 ^ 16
      | Ret (Ok (AddrV6 _ _ _ _)) => True
      | Ret (Err e) => exists msg, e = IoNew InvalidInput msg
      | _ => False
      end.
Proof.
  intros Hip Hport. change (2 ^ 16) with 65536 in *.
  destruct (write_display_spec h (display_socket_addr (AddrV4 ip port)) (display_no_nul _))
    as (h1 & p & E & Hp & _ & Hb).
  exists h1, p. split_and!; try done.
  - unfold socket_addr. rewrite (proj2 (Z.eqb_neq _ _) Hp), c_str_blocks, Hb, lookup_insert_eq.
    cbn -[display_socket_addr parse_socket_addr].
    by rewrite (to_str_ascii _ (display_ascii _)), parse_display_v4.
  - intros q s Hs. unfold socket_addr. destruct (q =? null_mut); [by eexists|]. rewrite Hs.
    destruct (to_str s) as [t|e]; [|by eexists].
    destruct (parse_socket_addr t) as [[ip' port'|? ? ? ?]|e] eqn:Ep; [|done|by eexists].
    by apply parse_v4_range in Ep.
Qed.
End properties.

(** ** Witnesses *)

(** A heap as its own view, with the next free address. *)
Record BlockHeap : Type := mkBlockHeap {
  bh_blocks : gmap ptr (Z * option string)
}.

Definition fresh_ptr {V} (m : gmap ptr V) : ptr :=
  1 + foldr Z.max 0 (elements (dom m)).

Lemma fresh_ptr_spec {V} (m : gmap ptr V) : fresh_ptr m <> null_mut /\ m !! fresh_ptr m = None.
Proof.
  assert (forall p, p ∈ elements (dom m) -> p <= foldr Z.max 0 (elements (dom m))) as Hmax.
  { intros p. induction (elements (dom m)) as [|q l IH]; [by intros ?%elem_of_nil|].
    rewrite elem_of_cons. cbn [foldr]. intros [->|Hp]; [lia|]. specialize (IH Hp). lia. }
  assert (0 <= foldr Z.max 0 (elements (dom m))) as Hpos
    by (clear; induction (elements (dom m)); cbn [foldr]; lia).
  unfold fresh_ptr, null_mut. split; [lia|]. apply not_elem_of_dom. intros Hin.
  apply elem_of_elements, Hmax in Hin. lia.
Qed.

#[export] Instance BlockHeap_ops : LibcOps BlockHeap := {|
  malloc h n := (mkBlockHeap (<[fresh_ptr (bh_blocks h) := (n, None)]> (bh_blocks h)),
                 fresh_ptr (bh_blocks h));
  strcpy h p s :=
    match bh_blocks h !! p with
    | Some (n, _) => mkBlockHeap (<[p := (n, Some s)]> (bh_blocks h))
    | None => h
    end;
  free h p := mkBlockHeap (delete p (bh_blocks h));
  c_str h p := b ← bh_blocks h !! p; snd b
|}.

#[export] Instance BlockHeap_spec : LibcSpec BlockHeap.
Proof.
  refine {| blocks := bh_blocks |}; try done.
  - intros h n h' p [= <- <-]. by destruct (fresh_ptr_spec (bh_blocks h)).
  - intros h p n c s E _. cbn. by rewrite E.
Defined.

(** A library whose text is ASCII. *)
#[export] Instance AsciiCStr : CStrOps := {|
  to_str s := if ascii_only s then Ok s else Err "invalid utf-8 sequence";
  to_string_lossy s := s;
  c_ipv6_text := no_ipv6
|}.

#[export] Instance AsciiCStr_spec : CStrSpec.
Proof.
  split; cbn.
  - intros s t. destruct (ascii_only s); [|done]. by intros [= <-].
  - by intros s ->.
  - intros s e. destruct (ascii_only s); [done|]. by intros [= <-].
  - apply no_ipv6_spec.
Qed.

Lemma c_error_roundtrip_witness :
  exists h1 p h2, write_display_c_str (mkBlockHeap {[7 := (4, Some "abc"%string)]}) "connection closed"
      = Ret (h1, p) /\
    parse_c_err_str h1 p = Ret (h2, Err "connection closed"%string) /\
    blocks h2 = {[7 := (4, Some "abc"%string)]}.
Proof.
  destruct (c_error_roundtrip (mkBlockHeap {[7 := (4, Some "abc"%string)]}) "connection closed"
    "connection closed") as (h1 & p & h2 & E1 & _ & _ & E2 & Hb).
  - reflexivity.
  - reflexivity.
  - by exists h1, p, h2.
Defined.

Lemma socket_addr_roundtrip_witness :
  exists h1 p, write_display_c_str (mkBlockHeap ∅) (display_socket_addr demo_local) = Ret (h1, p) /\
    socket_addr h1 p = Ret (Ok demo_local).
Proof.
  destruct (socket_addr_roundtrip (mkBlockHeap ∅) 2130706433 8080) as (h1 & p & E1 & E2 & _).
  - lia.
  - lia.
  - exists h1, p. split; [exact E1|exact E2].
Defined.
