(* ===== verification/CWakers.v ===== *)
(** * Wakers across the C interface ([c_api/async_ffi])

    A [CWaker] lets C++ code wake a Rust task: it is a [Waker] taken apart into its
    two pointers, and owns the reference to the task that the waker was.  A
    [Notifier] is the other direction: an object of the C++ side made into a
    [Waker] that Rust code can call. *)

From S2P Require Import Prelude CStrings.

(** ** Wakers of the runtime *)

(** A Rust waker calls the functions of its vtable; [Wk] is the state of the tasks
    behind the wakers. *)
Class WakerOps (Wk : Type) : Type := {
  raw_clone : Wk -> Waker -> Wk * Waker;
  raw_wake_by_ref : Wk -> Waker -> Wk;
  raw_drop : Wk -> Waker -> Wk
}.

(** The contract of [RawWakerVTable]: a clone is one more reference to the same
    task, a drop gives one back, and a wake changes no reference.  Nothing is said
    about a waker whose task has no reference left. *)
Class WakerSpec (Wk : Type) `{WakerOps Wk} : Type := {
  task_of : Waker -> Z;
  task_refs : Wk -> Z -> Z;
  task_wakes : Wk -> list Z;
  raw_clone_spec s w s' w' :
    raw_clone s w = (s', w') -> 0 < task_refs s (task_of w) ->
    task_of w' = task_of w /\ task_wakes s' = task_wakes s /\
    forall t, task_refs s' t = task_refs s t + if decide (task_of w = t) then 1 else 0;
  raw_wake_spec s w :
    0 < task_refs s (task_of w) ->
    task_wakes (raw_wake_by_ref s w) = task_wakes s ++ [task_of w] /\
    forall t, task_refs (raw_wake_by_ref s w) t = task_refs s t;
  raw_drop_spec s w :
    0 < task_refs s (task_of w) ->
    task_wakes (raw_drop s w) = task_wakes s /\
    forall t, task_refs (raw_drop s w) t = task_refs s t - if decide (task_of w = t) then 1 else 0
}.

(** ** [async_ffi/waker.rs] *)

(** [CWaker]: the two pointers of a [RawWaker]. *)
Record CWaker : Type := mkCWaker { cw_data : Z; cw_vtable : Z }.

(** [CWaker::from_waker]: the waker is forgotten, not dropped, so that no function
    of the vtable is called. *)
Definition from_waker (waker : Waker) : CWaker :=
  mkCWaker (waker_data waker) (waker_vtable waker).

(** [CWaker::into_waker]. *)
Definition into_waker (c : CWaker) : Waker := mkWaker (cw_data c) (cw_vtable c).

Section c_waker.
Context {Wk : Type} `{WakerOps Wk}.

(** [CWaker::wake_by_ref]: a waker is made, used and forgotten. *)
Definition wake_by_ref (s : Wk) (c : CWaker) : Wk :=
  let waker := mkWaker (cw_data c) (cw_vtable c) in
  raw_wake_by_ref s waker.

Definition socket_manager_waker_wake (s : Wk) (waker : CWaker) : Wk := wake_by_ref s waker.

Definition socket_manager_waker_free (s : Wk) (waker : CWaker) : Wk :=
  raw_drop s (into_waker waker).
End c_waker.

(** ** [async_ffi/notifier.rs] *)

(** [Notifier]: a pointer to an object of the C++ side. *)
Record Notifier : Type := mkNotifier { notifier_this : ptr }.

(** The functions of a [RawWakerVTable]. *)
Inductive VTableCall : Type :=
| VT_clone
| VT_wake
| VT_wake_by_ref
| VT_drop.

#[export] Instance VTableCall_eq_decision : EqDecision VTableCall.
Proof. solve_decision. Defined.

(** The vtable of [Notifier::to_waker]: a clone is the same pointer, both wakes call
    [socket_manager_extern_notifier_wake] and a drop does nothing.  The result is
    the new waker, if any, and the calls of the C++ function. *)
Definition notifier_vtable (vtable : Z) (call : VTableCall) (dat : Z)
  : option Waker * list Notifier :=
  match call with
  | VT_clone => (Some (mkWaker dat vtable), [])
  | VT_wake | VT_wake_by_ref => (None, [mkNotifier dat])
  | VT_drop => (None, [])
  end.

Definition to_waker (vtable : Z) (n : Notifier) : Waker := mkWaker (notifier_this n) vtable.

(** ** Who owns which waker *)

(** The wakers that Rust code and C++ code hold. *)
Record owners (Wk : Type) : Type := mkOwners {
  ow_tasks : Wk;
  ow_rust : list Waker;
  ow_c : list CWaker
}.

Arguments mkOwners {Wk}.
Arguments ow_tasks {Wk}.
Arguments ow_rust {Wk}.
Arguments ow_c {Wk}.

(** What the two sides do with a waker they hold, by its place in the list. *)
Inductive waker_op : Type :=
| WO_clone (i : nat)
| WO_wake (i : nat)
| WO_drop (i : nat)
| WO_to_c (i : nat)
| WO_c_wake (j : nat)
| WO_c_free (j : nat).

Section owners.
Context {Wk : Type} `{WakerOps Wk}.
Implicit Types (o : owners Wk).

Definition waker_step o (op : waker_op) : owners Wk :=
  match op with
  | WO_clone i =>
      match ow_rust o !! i with
      | Some w => let '(s, w') := raw_clone (ow_tasks o) w in
          mkOwners s (ow_rust o ++ [w']) (ow_c o)
      | None => o
      end
  | WO_wake i =>
      match ow_rust o !! i with
      | Some w => mkOwners (raw_wake_by_ref (ow_tasks o) w) (ow_rust o) (ow_c o)
      | None => o
      end
  | WO_drop i =>
      match ow_rust o !! i with
      | Some w => mkOwners (raw_drop (ow_tasks o) w) (delete i (ow_rust o)) (ow_c o)
      | None => o
      end
  | WO_to_c i =>
      match ow_rust o !! i with
      | Some w => mkOwners (ow_tasks o) (delete i (ow_rust o)) (ow_c o ++ [from_waker w])
      | None => o
      end
  | WO_c_wake j =>
      match ow_c o !! j with
      | Some c => mkOwners (socket_manager_waker_wake (ow_tasks o) c) (ow_rust o) (ow_c o)
      | None => o
      end
  | WO_c_free j =>
      match ow_c o !! j with
      | Some c => mkOwners (socket_manager_waker_free (ow_tasks o) c) (ow_rust o) (delete j (ow_c o))
      | None => o
      end
  end.

Definition waker_run (ops : list waker_op) o : owners Wk := foldl waker_step o ops.

Context `{!WakerSpec Wk}.

(** How many of some wakers belong to task [t]. *)
Fixpoint refs_to (t : Z) (ws : list Waker) : Z :=
  match ws with
  | [] => 0
  | w :: ws => (if decide (task_of w = t) then 1 else 0) + refs_to t ws
  end.

(** Every waker that somebody holds. *)
Definition all_wakers o : list Waker := ow_rust o ++ (into_waker <$> ow_c o).

(** Every task has exactly as many references as there are wakers of it. *)
Definition owners_inv o : Prop := forall t, task_refs (ow_tasks o) t = refs_to t (all_wakers o).

(** The task that a step wakes. *)
Definition wakes_of o (op : waker_op) : list Z :=
  match op with
  | WO_wake i => option_list (task_of <$> ow_rust o !! i)
  | WO_c_wake j => option_list ((task_of ∘ into_waker) <$> ow_c o !! j)
  | _ => []
  end.

Fixpoint wakes_of_run o (ops : list waker_op) : list Z :=
  match ops with
  | [] => []
  | op :: ops => wakes_of o op ++ wakes_of_run (waker_step o op) ops
  end.
End owners.

(** ** Lemmas *)

Lemma into_from_waker w : into_waker (from_waker w) = w.
Proof. by destruct w. Qed.

Section lemmas.
Context {Wk : Type} `{WakerSpec Wk}.
Implicit Types (o : owners Wk).

Lemma refs_to_app t ws ws' : refs_to t (ws ++ ws') = refs_to t ws + refs_to t ws'.
Proof. induction ws as [|w ws IH]; cbn; [done|]. rewrite IH. lia. Qed.

Lemma refs_to_nonneg t ws : 0 <= refs_to t ws.
Proof. induction ws as [|w ws IH]; cbn; [done|]. destruct (decide _); lia. Qed.

Lemma refs_to_delete t ws i w :
  ws !! i = Some w ->
  refs_to t (delete i ws) = refs_to t ws - if decide (task_of w = t) then 1 else 0.
Proof.
  revert i. induction ws as [|w' ws IH]; intros [|i] Hi; try done.
  - injection Hi as ->. cbn. lia.
  - change (delete (S i) (w' :: ws)) with (w' :: delete i ws). cbn. rewrite (IH i Hi). lia.
Qed.

Lemma refs_to_pos ws w : w ∈ ws -> 0 < refs_to (task_of w) ws.
Proof.
  induction 1 as [w ws|w w' ws _ IH]; cbn.
  - rewrite decide_True by done. pose proof (refs_to_nonneg (task_of w) ws). lia.
  - destruct (decide _); lia.
Qed.

(** A waker that is held belongs to a live task. *)
Lemma held_is_live o w : owners_inv o -> w ∈ all_wakers o -> 0 < task_refs (ow_tasks o) (task_of w).
Proof. intros Ho Hw. rewrite Ho. by apply refs_to_pos. Qed.

Lemma rust_is_held o i w : ow_rust o !! i = Some w -> w ∈ all_wakers o.
Proof. intros Hi. apply elem_of_app. left. by eapply list_elem_of_lookup_2. Qed.

Lemma c_is_held o j c : ow_c o !! j = Some c -> into_waker c ∈ all_wakers o.
Proof.
  intros Hj. apply elem_of_app. right. apply list_elem_of_fmap_2. by eapply list_elem_of_lookup_2.
Qed.

Lemma waker_step_spec o op :
  owners_inv o ->
  owners_inv (waker_step o op) /\
  task_wakes (ow_tasks (waker_step o op)) = task_wakes (ow_tasks o) ++ wakes_of o op.
Proof.
  intros Ho. destruct op as [i|i|i|i|j|j]; cbn [waker_step wakes_of].
  1-4: destruct (ow_rust o !! i) as [w|] eqn:Hi; cbn [option_list fmap option_fmap option_map];
    rewrite ?app_nil_r; [|done].
  5,6: destruct (ow_c o !! j) as [c|] eqn:Hj; cbn [option_list fmap option_fmap option_map];
    rewrite ?app_nil_r; [|done].
  1-4: pose proof (held_is_live o w Ho (rust_is_held o i w Hi)) as Hl.
  5,6: pose proof (held_is_live o _ Ho (c_is_held o j c Hj)) as Hl.
  - destruct (raw_clone (ow_tasks o) w) as [s w'] eqn:E.
    apply raw_clone_spec in E as (Hw & Hs & Hr); [|done]. split; [|done].
    intros t. unfold all_wakers in *. cbn. rewrite Hr, (Ho t). unfold all_wakers.
    rewrite !refs_to_app. cbn. rewrite Hw. lia.
  - destruct (raw_wake_spec (ow_tasks o) w Hl) as [Hs Hr]. split; [|done].
    intros t. cbn. by rewrite Hr, (Ho t).
  - destruct (raw_drop_spec (ow_tasks o) w Hl) as [Hs Hr]. split; [|done].
    intros t. unfold all_wakers in *. cbn. rewrite Hr, (Ho t). unfold all_wakers.
    rewrite !refs_to_app, (refs_to_delete t _ _ _ Hi). lia.
  - split; [|done]. intros t. unfold all_wakers in *. cbn. rewrite (Ho t). unfold all_wakers.
    rewrite fmap_app, !refs_to_app, (refs_to_delete t _ _ _ Hi). cbn.
    rewrite into_from_waker. lia.
  - destruct (raw_wake_spec (ow_tasks o) (into_waker c) Hl) as [Hs Hr]. split; [|done].
    intros t. cbn. unfold socket_manager_waker_wake, wake_by_ref. by rewrite Hr, (Ho t).
  - destruct (raw_drop_spec (ow_tasks o) (into_waker c) Hl) as [Hs Hr]. split; [|done].
    intros t. unfold all_wakers in *. cbn. unfold socket_manager_waker_free.
    rewrite Hr, (Ho t). unfold all_wakers. rewrite !refs_to_app, list_fmap_delete.
    rewrite (refs_to_delete t (into_waker <$> ow_c o) j (into_waker c)); [lia|].
    by rewrite list_lookup_fmap, Hj.
Qed.
End lemmas.

(** ** Properties *)

Section properties.
Context {Wk : Type} `{WakerSpec Wk}.

(** C14: wakers are neither leaked nor used after they were freed.  Let Rust code
    clone, wake and drop its wakers and hand some of them to C++ code, and let the
    C++ code wake and free the [CWaker]s that it owns, in any order.  At every time
    each task has exactly one reference for every waker that one of the sides
    holds, so that every waker which is used belongs to a live task; when all are
    given back no reference is left; and the tasks are woken exactly as often and
    in the order that the two sides have asked for. *)
Theorem waker_accounting (ops : list waker_op) (o : owners Wk) :
  owners_inv o ->
  let o' := waker_run ops o in
  (forall t, task_refs (ow_tasks o') t = refs_to t (all_wakers o')) /\
  (forall w, w ∈ all_wakers o' -> 0 < task_refs (ow_tasks o') (task_of w)) /\
  (ow_rust o' = [] -> ow_c o' = [] -> forall t, task_refs (ow_tasks o') t = 0) /\
  task_wakes (ow_tasks o') = task_wakes (ow_tasks o) ++ wakes_of_run o ops.
Proof.
  intros Ho. cbn zeta.
  assert (owners_inv (waker_run ops o) /\ task_wakes (ow_tasks (waker_run ops o)) =
    task_wakes (ow_tasks o) ++ wakes_of_run o ops) as [Ho' Hw].
  { revert o Ho. induction ops as [|op ops IH]; intros o Ho; [split; [done|by rewrite app_nil_r]|].
    destruct (waker_step_spec o op Ho) as [Ho1 Hw1]. destruct (IH _ Ho1) as [Ho2 Hw2].
    split; [done|]. cbn [waker_run foldl wakes_of_run]. rewrite app_assoc, <- Hw1. exact Hw2. }
  split_and!; [done| |..|done].
  - intros w. by apply held_is_live.
  - intros Hr Hc t. rewrite Ho'. unfold all_wakers. by rewrite Hr, Hc.
Qed.

(** Only the wakes of a notifier reach its object: as long as the vtable is used,
    the C++ side is not told how many wakers of it there are. *)
Lemma notifier_calls vtable (n : Notifier) (calls : list VTableCall) :
  concat ((fun c => snd (notifier_vtable vtable c (waker_data (to_waker vtable n)))) <$> calls) =
    replicate (length (filter (fun c => c = VT_wake \/ c = VT_wake_by_ref) calls)) n.
Proof.
  destruct n as [this]. induction calls as [|c calls IH]; [done|].
  rewrite fmap_cons, filter_cons. cbn [concat]. rewrite IH.
  destruct c; [rewrite decide_False by naive_solver|rewrite decide_True by auto..|
    rewrite decide_False by naive_solver]; done.
Qed.
End properties.

(** ** Witnesses *)

(** Reference counts by the data pointer, and the wakes. *)
Record WakerTable : Type := mkWakerTable { wt_refs : gmap Z Z; wt_wakes : list Z }.

Definition wt_count (s : WakerTable) (t : Z) : Z := default 0 (wt_refs s !! t).
Definition wt_add (s : WakerTable) (t n : Z) : gmap Z Z := <[t := wt_count s t + n]> (wt_refs s).

#[export] Instance WakerTable_ops : WakerOps WakerTable := {|
  raw_clone s w := (mkWakerTable (wt_add s (waker_data w) 1) (wt_wakes s), w);
  raw_wake_by_ref s w := mkWakerTable (wt_refs s) (wt_wakes s ++ [waker_data w]);
  raw_drop s w := mkWakerTable (wt_add s (waker_data w) (-1)) (wt_wakes s)
|}.

Lemma wt_add_count s t n t' l :
  wt_count (mkWakerTable (wt_add s t n) l) t' = wt_count s t' + if decide (t = t') then n else 0.
Proof.
  unfold wt_count at 1, wt_add. cbn. destruct (decide (t = t')) as [->|Hn].
  - by rewrite lookup_insert_eq.
  - rewrite lookup_insert_ne by done. by rewrite Z.add_0_r.
Qed.

#[export] Instance WakerTable_spec : WakerSpec WakerTable.
Proof.
  refine {| task_of := waker_data; task_refs := wt_count; task_wakes := wt_wakes |}; cbn.
  - intros s w s' w' [= <- <-] _. split_and!; [done..|]. intros t. apply wt_add_count.
  - done.
  - intros s w _. split; [done|]. intros t. rewrite wt_add_count. destruct (decide _); lia.
Defined.

(** One waker of task 7. *)
Definition demo_owners : owners WakerTable :=
  mkOwners (mkWakerTable {[7 := 1]} []) [mkWaker 7 3] [].

Lemma demo_owners_inv : owners_inv demo_owners.
Proof.
  intros t. unfold demo_owners. cbn. unfold wt_count. cbn. destruct (decide (7 = t)) as [<-|Hn].
  - by rewrite lookup_singleton_eq.
  - by rewrite lookup_singleton_ne.
Qed.

(** The waker is cloned, the clone goes to the C++ side and is woken twice. *)
Definition demo_ops : list waker_op := [WO_clone 0; WO_to_c 1; WO_c_wake 0; WO_drop 0; WO_c_wake 0].

Lemma waker_accounting_witness :
  task_refs (ow_tasks (waker_run demo_ops demo_owners)) 7 = 1 /\
  task_wakes (ow_tasks (waker_run demo_ops demo_owners)) = [7; 7] /\
  task_refs (ow_tasks (waker_run (demo_ops ++ [WO_c_free 0]) demo_owners)) 7 = 0.
Proof.
  destruct (waker_accounting demo_ops demo_owners demo_owners_inv) as (Hr & _ & _ & Hw).
  destruct (waker_accounting (demo_ops ++ [WO_c_free 0]) demo_owners demo_owners_inv)
    as (_ & _ & Hz & _).
  split_and!.
  - rewrite Hr. vm_compute. reflexivity.
  - rewrite Hw. vm_compute. reflexivity.
  - apply Hz; vm_compute; reflexivity.
Defined.
