(* ===== verification/CCallbacks.v ===== *)
(** * The callbacks of the C interface ([c_api/on_msg.rs], [c_api/on_conn.rs],
    [c_api/conn_events.rs])

    The callbacks of the library are objects of the C++ side: [OnConnObj] and
    [OnMsgObj] are callable, and a call goes through a C++ function.  These
    functions are parameters: they may change the state [U] of the C++ side, the
    heap [H] of [malloc], the boxes that were handed out and the tasks [Wk] behind
    wakers. *)

From S2P Require Import Prelude Oneshot Conn ConnHandle MsgSender Manager SockAddr CStrings CWakers.

(** ** Boxes *)

(** [Connection] of [conn_events.rs]. *)
Record Connection : Type := mkConnection { conn : Conn }.

(** What the interface hands out as raw pointers ([Box::into_raw]). *)
Inductive boxed : Type :=
| Box_MsgSender (send : MsgSender)
| Box_Connection (conn : Connection)
| Box_SocketManager (manager : SocketManager).

Abbreviation Boxes := (gmap ptr boxed).

(** The allocator: a new box is at an address that is not in use. *)
Class Allocator : Type := new_box : Boxes -> ptr.
Class AllocatorSpec `{Allocator} : Prop :=
  new_box_fresh b : new_box b <> null_mut /\ b !! new_box b = None.

Definition box_into_raw `{Allocator} (b : Boxes) (v : boxed) : Boxes * ptr :=
  (<[new_box b := v]> b, new_box b).

(** [Box::from_raw]; [Panic] stands for a pointer that is not a live box. *)
Definition box_from_raw (b : Boxes) (p : ptr) : outcome (Boxes * boxed) :=
  match b !! p with
  | Some v => Ret (delete p b, v)
  | None => Panic
  end.

Lemma box_from_raw_insert (b : Boxes) p v :
  b !! p = None -> box_from_raw (<[p := v]> b) p = Ret (b, v).
Proof.
  intros Hp. unfold box_from_raw. by rewrite lookup_insert_eq, delete_insert_eq, delete_id.
Qed.

(** ** Messages ([lib.rs], [conn_events.rs]) *)

Record Msg : Type := mkMsg { msg_bytes : list byte }.

(** [ConnMsg]; the pointer is shown as the bytes it points to, which live as long
    as the call. *)
Record ConnMsg : Type := mkConnMsg { cm_bytes : list byte; cm_len : Z }.

(** ** States of connections ([conn_events.rs]) *)

Inductive ConnStateCode : Type :=
| Code_Connect
| Code_ConnectionClose
| Code_ListenError
| Code_ConnectError
| Code_RemoteClose.

Definition conn_state_code (c : ConnStateCode) : Z :=
  match c with
  | Code_Connect => 0
  | Code_ConnectionClose => 1
  | Code_ListenError => 2
  | Code_ConnectError => 3
  | Code_RemoteClose => 4
  end.

(** The union [ConnStateData], by the field that was written; a [*const c_char] is
    shown as the string it points to, which lives as long as the call. *)
Inductive ConnStateData : Type :=
| on_connect (send conn : ptr)
| on_connection_close (local peer : string)
| on_listen_error (addr err : string)
| on_connect_error (addr err : string)
| on_remote_close (local peer : string).

Record ConnStates : Type := mkConnStates {
  cs_code : ConnStateCode;
  cs_data : ConnStateData
}.

(** The field that a reader of the union takes for a code. *)
Definition field_of (d : ConnStateData) : ConnStateCode :=
  match d with
  | on_connect _ _ => Code_Connect
  | on_connection_close _ _ => Code_ConnectionClose
  | on_listen_error _ _ => Code_ListenError
  | on_connect_error _ _ => Code_ConnectError
  | on_remote_close _ _ => Code_RemoteClose
  end.

(** [CString::new(s).unwrap()]. *)
Definition cstring_new (s : string) : outcome string := if no_nul s then Ret s else Panic.

(** ** The callback objects *)

Record OnMsgObj : Type := mkOnMsgObj { om_this : ptr }.
Record OnConnObj : Type := mkOnConnObj { oc_this : ptr }.

Section defs.
Context {U H Wk : Type} `{LibcOps H} `{CStrOps} `{Allocator}.
Context (os_error : Z -> string).

(** *** [c_api/on_msg.rs] *)

(** The C++ function gets the object, the message, a [CWaker] it owns, and [err],
    which is null.  The last two results are [err] and the return value. *)
Context (socket_manager_extern_on_msg :
  U -> H -> Wk -> OnMsgObj -> ConnMsg -> CWaker -> U * H * Wk * ptr * Z).

(** [OnMsgObj::call_inner]. *)
Definition on_msg_call_inner (self : OnMsgObj) (u : U) (h : H) (wk : Wk) (conn_msg : Msg)
    (waker : Waker) : outcome (U * H * Wk * poll (result Z string)) :=
  let len := zlen (msg_bytes conn_msg) in
  let conn_msg := mkConnMsg (msg_bytes conn_msg) len in
  let waker := from_waker waker in
  let this := mkOnMsgObj (om_this self) in
  let '(u, h, wk, err, cb_result) := socket_manager_extern_on_msg u h wk this conn_msg waker in
  let* '(h, r) := parse_c_err_str h err in
  match r with
  | Err e => Ret (u, h, wk, Ready (Err e))
  | Ok _ =>
      if 0 <? cb_result then
        if cb_result <=? as_c_long len then Ret (u, h, wk, Ready (Ok cb_result)) else Panic
      else Ret (u, h, wk, Pending)
  end.

(** The impls of [FnMut], [FnOnce] and [Fn]. *)
Definition on_msg_call_mut (self : OnMsgObj) u h wk (args : Msg * Waker) :=
  on_msg_call_inner self u h wk (fst args) (snd args).
Definition on_msg_call_once (self : OnMsgObj) u h wk (args : Msg * Waker) :=
  on_msg_call_inner self u h wk (fst args) (snd args).
Definition on_msg_call (self : OnMsgObj) u h wk (args : Msg * Waker) :=
  on_msg_call_inner self u h wk (fst args) (snd args).

(** *** [c_api/on_conn.rs] *)

Context (socket_manager_extern_on_conn :
  U -> H -> Boxes -> OnConnObj -> ConnStates -> U * H * Boxes * ptr).

(** The closure [on_conn] of [OnConnObj::call_inner]. *)
Definition call_on_conn (self : OnConnObj) (u : U) (h : H) (b : Boxes) (states : ConnStates)
  : outcome (U * H * Boxes * result unit string) :=
  let '(u, h, b, err) := socket_manager_extern_on_conn u h b self states in
  let* '(h, r) := parse_c_err_str h err in
  Ret (u, h, b, r).

(** What [call_inner] builds for a state; [send] and [conn] are what [OnConnect] has
    besides the addresses. *)
Definition conn_states (b : Boxes) (st : ConnState) (send : MsgSender) (conn : Conn)
  : outcome (Boxes * ConnStates) :=
  match st with
  | OnConnect _ _ =>
      let '(b, send) := box_into_raw b (Box_MsgSender send) in
      let '(b, conn) := box_into_raw b (Box_Connection (mkConnection conn)) in
      Ret (b, mkConnStates Code_Connect (on_connect send conn))
  | OnConnectionClose local peer =>
      let* local := cstring_new (display_socket_addr local) in
      let* peer := cstring_new (display_socket_addr peer) in
      Ret (b, mkConnStates Code_ConnectionClose (on_connection_close local peer))
  | OnListenError addr error =>
      let* c_addr := cstring_new (display_socket_addr addr) in
      let* error := cstring_new (display os_error error) in
      Ret (b, mkConnStates Code_ListenError (on_listen_error c_addr error))
  | OnConnectError addr error =>
      let* c_addr := cstring_new (display_socket_addr addr) in
      let* error := cstring_new (display os_error error) in
      Ret (b, mkConnStates Code_ConnectError (on_connect_error c_addr error))
  | OnRemoteClose local peer =>
      let* local := cstring_new (display_socket_addr local) in
      let* peer := cstring_new (display_socket_addr peer) in
      Ret (b, mkConnStates Code_RemoteClose (on_remote_close local peer))
  end.

(** [OnConnObj::call_inner]. *)
Definition on_conn_call_inner (self : OnConnObj) (u : U) (h : H) (b : Boxes) (st : ConnState)
    (send : MsgSender) (conn : Conn) : outcome (U * H * Boxes * result unit string) :=
  let* '(b, states) := conn_states b st send conn in
  call_on_conn self u h b states.

(** The impls of [FnMut], [FnOnce] and [Fn]. *)
Definition on_conn_call_mut (self : OnConnObj) u h b (args : ConnState * MsgSender * Conn) :=
  let '(st, send, conn) := args in on_conn_call_inner self u h b st send conn.
Definition on_conn_call_once (self : OnConnObj) u h b (args : ConnState * MsgSender * Conn) :=
  let '(st, send, conn) := args in on_conn_call_inner self u h b st send conn.
Definition on_conn_call (self : OnConnObj) u h b (args : ConnState * MsgSender * Conn) :=
  let '(st, send, conn) := args in on_conn_call_inner self u h b st send conn.
End defs.

(** ** Properties *)

Section properties.
Context {U H Wk : Type} `{LibcSpec H} `{CStrSpec} `{AllocatorSpec}.
Context (os_error : Z -> string).

(** A C++ function that claims no more bytes than it was given, or sets a proper
    error, makes no call panic. *)
Lemma on_msg_call_returns (ext : U -> H -> Wk -> OnMsgObj -> ConnMsg -> CWaker -> U * H * Wk * ptr * Z)
    self u (h : H) wk bytes waker u' h' wk' err ret :
  zlen bytes < isize_bound ->
  ext u h wk self (mkConnMsg bytes (zlen bytes)) (from_waker waker) = (u', h', wk', err, ret) ->
  err = null_mut /\ ret <= zlen bytes \/ err <> null_mut /\ is_Some (c_str h' err) ->
  exists h2 r, on_msg_call ext self u h wk (mkMsg bytes, waker) = Ret (u', h2, wk', r).
Proof.
  intros Hlen E Herr. unfold on_msg_call, on_msg_call_inner. cbn [fst snd msg_bytes].
  destruct self as [this]. cbn [om_this]. rewrite E. unfold parse_c_err_str.
  destruct Herr as [[-> Hret]|[Hne [txt Htxt]]].
  - cbn. rewrite as_c_long_id by (pose proof (zlen_nonneg bytes); lia).
    rewrite (proj2 (Z.leb_le _ _) Hret). destruct (0 <? ret); by eexists _, _.
  - rewrite (proj2 (Z.eqb_neq _ _) Hne), Htxt. by eexists _, _.
Qed.

(** C37: the message callback through the C interface.  The C++ function is called
    once, for the object itself, with the bytes, their number and the two pointers
    of the waker.  When it returns without an error, the outcome is decided by its
    return value alone: a value from 1 to the number of bytes is passed on as the
    number of bytes that were taken, zero and every negative value mean "not now",
    and a larger value panics instead of being believed; with an error string the
    callback fails with that text and the string is freed.  So the reader never
    sees more bytes acknowledged than it has offered. *)
Theorem c_on_msg_contract (ext : U -> H -> Wk -> OnMsgObj -> ConnMsg -> CWaker -> U * H * Wk * ptr * Z)
    self u (h : H) wk bytes waker u' h' wk' err ret :
  zlen bytes < isize_bound ->
  ext u h wk self (mkConnMsg bytes (zlen bytes)) (mkCWaker (waker_data waker) (waker_vtable waker))
    = (u', h', wk', err, ret) ->
  (err = null_mut \/ exists txt, c_str h' err = Some txt) ->
  match on_msg_call ext self u h wk (mkMsg bytes, waker) with
  | Ret (u2, h2, wk2, r) => u2 = u' /\ wk2 = wk' /\
      match r with
      | Ready (Ok n) => err = null_mut /\ n = ret /\ 0 < n <= zlen bytes /\ h2 = h'
      | Ready (Err e) => err <> null_mut /\ h2 = free h' err /\
          exists txt, c_str h' err = Some txt /\ e = to_string_lossy txt
      | Pending => err = null_mut /\ ret <= 0 /\ h2 = h'
      end
  | Panic => err = null_mut /\ zlen bytes < ret
  | NoFuel => False
  end.
Proof.
  intros Hlen E Herr. unfold on_msg_call, on_msg_call_inner, from_waker. cbn [fst snd msg_bytes].
  destruct self as [this]. cbn [om_this]. rewrite E.
  unfold parse_c_err_str. destruct (Z.eqb_spec err null_mut) as [->|Hne].
  - cbn [obind]. rewrite as_c_long_id by (pose proof (zlen_nonneg bytes); lia).
    destruct (Z.ltb_spec 0 ret); [destruct (Z.leb_spec ret (zlen bytes))|];
      split_and!; done || lia.
  - destruct Herr as [|[txt Htxt]]; [done|]. rewrite Htxt. cbn [obind].
    split_and!; try done. by exists txt.
Qed.

(** The boxes and the data of the union that a state is turned into. *)
Definition states_of (b : Boxes) (st : ConnState) (send : MsgSender) (conn : Conn)
    (b' : Boxes) (data : ConnStateData) : Prop :=
  match st with
  | OnConnect _ _ => exists p q,
      data = on_connect p q /\ p <> null_mut /\ q <> null_mut /\ p <> q /\
      b !! p = None /\ b !! q = None /\
      b' = <[q := Box_Connection (mkConnection conn)]> (<[p := Box_MsgSender send]> b)
  | OnRemoteClose l p =>
      b' = b /\ data = on_remote_close (display_socket_addr l) (display_socket_addr p)
  | OnConnectionClose l p =>
      b' = b /\ data = on_connection_close (display_socket_addr l) (display_socket_addr p)
  | OnListenError a e =>
      b' = b /\ data = on_listen_error (display_socket_addr a) (display os_error e)
  | OnConnectError a e =>
      b' = b /\ data = on_connect_error (display_socket_addr a) (display os_error e)
  end.

Lemma conn_states_spec b st send conn :
  (forall addr e, st = OnListenError addr e \/ st = OnConnectError addr e ->
     no_nul (display os_error e) = true) ->
  exists b' data, conn_states os_error b st send conn = Ret (b', mkConnStates (field_of data) data) /\
    states_of b st send conn b' data.
Proof.
  intros Hn. destruct st as [l p|l p|l p|a e|a e]; cbn [conn_states states_of]; unfold cstring_new;
    rewrite ?display_no_nul; cbn [obind].
  - unfold box_into_raw. set (b1 := <[new_box b := Box_MsgSender send]> b).
    eexists _, (on_connect _ _). split; [done|].
    destruct (new_box_fresh b) as [Hp Hb]. destruct (new_box_fresh b1) as [Hq Hb1].
    apply lookup_insert_None in Hb1 as [Hb1 Hpq]. by eexists _, _.
  - by eexists _, (on_remote_close _ _).
  - by eexists _, (on_connection_close _ _).
  - rewrite (Hn a e) by (by left). by eexists _, (on_listen_error _ _).
  - rewrite (Hn a e) by (by right). by eexists _, (on_connect_error _ _).
Qed.

(** C38: the connection callback through the C interface.  For every state the C++
    function is called exactly once, with a code that names the field of the
    union that was written, and with the addresses and the error in text form; for
    [OnConnect] it gets two new boxes, with just the sender and the connection in
    them; no other box is made or changed.  The callback succeeds exactly when the
    C++ function leaves the error null. *)
Theorem c_on_conn_states (ext : U -> H -> Boxes -> OnConnObj -> ConnStates -> U * H * Boxes * ptr)
    self u (h : H) b st send conn :
  (forall addr e, st = OnListenError addr e \/ st = OnConnectError addr e ->
     no_nul (display os_error e) = true) ->
  exists b1 data, states_of b st send conn b1 data /\
    forall u' h' b' err, ext u h b1 self (mkConnStates (field_of data) data) = (u', h', b', err) ->
      (err = null_mut ->
         on_conn_call os_error ext self u h b (st, send, conn) = Ret (u', h', b', Ok tt)) /\
      (forall txt, err <> null_mut -> c_str h' err = Some txt ->
         on_conn_call os_error ext self u h b (st, send, conn)
           = Ret (u', free h' err, b', Err (to_string_lossy txt))).
Proof.
  intros Hn. destruct (conn_states_spec b st send conn Hn) as (b1 & data & E & Hs).
  exists b1, data. split; [done|]. intros u' h' b' err Ee.
  unfold on_conn_call, on_conn_call_inner. rewrite E. cbn [obind].
  unfold call_on_conn. rewrite Ee. unfold parse_c_err_str. split.
  - by intros ->.
  - intros txt Hne Ht. by rewrite (proj2 (Z.eqb_neq _ _) Hne), Ht.
Qed.
End properties.

(** ** Witnesses *)

#[export] Instance max_allocator : Allocator := fresh_ptr.
#[export] Instance max_allocator_spec : AllocatorSpec.
Proof. intros b. apply fresh_ptr_spec. Qed.

(** A heap in which block 7 holds the text of an address. *)
Definition demo_heap : BlockHeap :=
  mkBlockHeap {[7 := (slen (display_socket_addr demo_local) + 1,
                      Some (display_socket_addr demo_local))]}.

Definition demo_os_error (code : Z) : string := "os error".

Definition demo_tasks : WakerTable := mkWakerTable {[1 := 2]} [].

(** A C++ function that takes all but one of the bytes and frees the waker. *)
Definition demo_on_msg (u : unit) (h : BlockHeap) (wk : WakerTable) (self : OnMsgObj) (msg : ConnMsg)
    (w : CWaker) : unit * BlockHeap * WakerTable * ptr * Z :=
  (u, h, socket_manager_waker_free wk w, null_mut, cm_len msg - 1).

Lemma c_on_msg_contract_witness :
  let bytes := [x01; x02; x03] in
  let wk' := socket_manager_waker_free demo_tasks (mkCWaker 1 2) in
  match on_msg_call demo_on_msg (mkOnMsgObj 9) tt demo_heap demo_tasks (mkMsg bytes, mkWaker 1 2) with
  | Ret (u2, h2, wk2, r) => u2 = tt /\ wk2 = wk' /\
      match r with
      | Ready (Ok n) => null_mut = null_mut /\ n = 2 /\ 0 < n <= zlen bytes /\ h2 = demo_heap
      | Ready (Err e) => null_mut <> null_mut /\ h2 = free demo_heap null_mut /\
          exists txt, c_str demo_heap null_mut = Some txt /\ e = to_string_lossy txt
      | Pending => null_mut = null_mut /\ 2 <= 0 /\ h2 = demo_heap
      end
  | Panic => null_mut = null_mut /\ zlen bytes < 2
  | NoFuel => False
  end.
Proof.
  apply (c_on_msg_contract demo_on_msg (mkOnMsgObj 9) tt demo_heap demo_tasks [x01; x02; x03]
    (mkWaker 1 2) tt demo_heap (socket_manager_waker_free demo_tasks (mkCWaker 1 2)) null_mut 2).
  - reflexivity.
  - reflexivity.
  - by left.
Defined.

(** A C++ function that accepts every state. *)
Definition demo_on_conn (u : list ConnStates) (h : BlockHeap) (b : Boxes) (self : OnConnObj)
    (cs : ConnStates) : list ConnStates * BlockHeap * Boxes * ptr := (u ++ [cs], h, b, null_mut).

Lemma c_on_conn_states_witness :
  exists b1 data,
    on_conn_call demo_os_error demo_on_conn (mkOnConnObj 8) [] demo_heap ∅
      (OnConnect demo_local demo_peer, mkSender 0, conn_new demo_local demo_peer)
      = Ret ([mkConnStates (field_of data) data], demo_heap, b1, Ok tt) /\
    exists p q, data = on_connect p q /\ b1 !! q =
      Some (Box_Connection (mkConnection (conn_new demo_local demo_peer))).
Proof.
  destruct (c_on_conn_states demo_os_error demo_on_conn (mkOnConnObj 8) [] demo_heap ∅
    (OnConnect demo_local demo_peer) (mkSender 0) (conn_new demo_local demo_peer))
    as (b1 & data & Hs & Hcall).
  - by intros addr e [|].
  - exists b1, data. split.
    + apply (proj1 (Hcall [mkConnStates (field_of data) data] demo_heap b1 null_mut eq_refl) eq_refl).
    + destruct Hs as (p & q & -> & _ & _ & _ & _ & _ & ->). exists p, q. split; [done|].
      apply lookup_insert_eq.
Defined.
