(* ===== verification/CApi.v ===== *)
(** * The functions of the C interface ([c_api/socket_manager.rs],
    [c_api/connection.rs], [c_api/msg_sender.rs])

    Every function of the interface is a thin layer over a method of the library:
    it turns C arguments into Rust values and a [Result] into a return code and an
    error string.  A pointer to an object of the library is a box; the functions
    that borrow the object are given here the object itself, those that make or
    free a box work on the boxes. *)

From S2P Require Import Prelude Config RingBuf MsgSender Oneshot Conn ConnHandle Manager.
From S2P Require Import SockAddr CStrings CWakers CCallbacks.

Definition PENDING : Z := -1.

Section defs.
Context {H : Type} `{LibcOps H} `{CStrOps} `{Allocator}.
Context (os_error : Z -> string).
Context {Os Ch : Type -> Type} {Dl Dc Rb : Type}.
Context `{OneshotOps Os} `{MpscOps Ch} `{RingBufOps Rb} `{!DashMapOps SocketAddr nat Dl}
  `{!DashMapOps (SocketAddr * SocketAddr) nat Dc}.

(** ** [c_api/socket_manager.rs] *)

(** The common body of the functions that send a command. *)
Definition c_send_command (h : H) (cmds : Ch Command) (addr : ptr) (cmd : SocketAddr -> Command)
  : outcome (H * Ch Command * ptr * Z) :=
  let* r := socket_addr h addr in
  match r with
  | Ok addr =>
      let '(cmds, r) := send_command cmds (cmd addr) in
      let* '(h, err, code) := c_return os_error h r in
      Ret (h, cmds, err, code)
  | Err e =>
      let* '(h, err, code) := c_return os_error h (Err e) in
      Ret (h, cmds, err, code)
  end.

Definition socket_manager_listen_on_addr h cmds addr := c_send_command h cmds addr C_Listen.
Definition socket_manager_connect_to_addr h cmds addr (delay : Z) :=
  c_send_command h cmds addr (fun a => C_Connect a (from_millis delay)).
Definition socket_manager_cancel_listen_on_addr h cmds addr :=
  c_send_command h cmds addr C_CancelListen.

(** [socket_manager_init]: the results are the heap, the boxes, [*err], the
    returned pointer, and the runtime that was started. *)
Definition socket_manager_init (h : H) (b : Boxes) (par : io_result Z)
    (build : RuntimeKind -> io_result RuntimeKind) (n_threads : Z)
  : outcome (H * Boxes * ptr * ptr * option RuntimeKind) :=
  match start_runtime par build n_threads with
  | Ok rt =>
      let '(b, manager) := box_into_raw b (Box_SocketManager socket_manager_new) in
      Ret (h, b, null_mut, manager, Some rt)
  | Err e =>
      let* '(h, err) := write_display_c_str h (display os_error e) in
      Ret (h, b, err, null_mut, None)
  end.

(** [socket_manager_abort] and [socket_manager_join]; [None] while they block. *)
Definition socket_manager_abort (h : H) (cmds : Ch Command) (sm : SocketManager) (wait : bool)
    (thread : option (result unit string))
  : outcome (H * Ch Command * SocketManager * option (ptr * Z)) :=
  let* '(cmds, sm, r) := abort wait thread cmds sm in
  match r with
  | None => Ret (h, cmds, sm, None)
  | Some r =>
      let* '(h, err, code) := c_return os_error h r in
      Ret (h, cmds, sm, Some (err, code))
  end.

Definition socket_manager_join (h : H) (sm : SocketManager) (thread : option (result unit string))
  : outcome (H * SocketManager * option (ptr * Z)) :=
  let* '(sm, r) := join thread sm in
  match r with
  | None => Ret (h, sm, None)
  | Some r =>
      let* '(h, err, code) := c_return os_error h r in
      Ret (h, sm, Some (err, code))
  end.

(** [socket_manager_free]; [false] while it blocks in [join].  A pointer to
    anything else than a live manager is [Panic]. *)
Definition socket_manager_free (b : Boxes) (manager : ptr) (thread : option (result unit string))
    (cmds : Ch Command) : outcome (Boxes * Ch Command * bool) :=
  let* '(b, v) := box_from_raw b manager in
  match v with
  | Box_SocketManager sm =>
      let* '(cmds, done) := drop_socket_manager thread cmds sm in
      Ret (b, cmds, done)
  | _ => Panic
  end.

(** ** [c_api/connection.rs] *)

Context {M : Type}.
Implicit Types (conf : Os (M * ConnConfig)) (cs : ConnectionState Os Dl Dc) (c : Connection).

Definition socket_manager_connection_start (h : H) c conf (on_msg : M)
    (msg_buffer_size read_msg_flush_interval write_flush_interval : Z)
  : outcome (H * Connection * Os (M * ConnConfig) * ptr * Z) :=
  let config := mkConnConfig (from_millis write_flush_interval)
                  (from_millis read_msg_flush_interval) msg_buffer_size in
  let* '(conn, conf, r) := start_connection (conn c) conf on_msg config in
  let* '(h, err, code) := c_return os_error h r in
  Ret (h, mkConnection conn, conf, err, code).

Definition socket_manager_connection_local_addr (h : H) c : outcome (H * ptr) :=
  write_display_c_str h (display_socket_addr (local_addr (conn c))).

Definition socket_manager_connection_peer_addr (h : H) c : outcome (H * ptr) :=
  write_display_c_str h (display_socket_addr (peer_addr (conn c))).

Definition socket_manager_connection_close (h : H) c conf cs
  : outcome (H * Connection * Os (M * ConnConfig) * ConnectionState Os Dl Dc * ptr * Z) :=
  let* '(conn, conf, cs, r) := close (conn c) conf cs in
  let* '(h, err, code) := c_return os_error h r in
  Ret (h, mkConnection conn, conf, cs, err, code).

Definition socket_manager_connection_free (b : Boxes) (p : ptr) conf
  : outcome (Boxes * Os (M * ConnConfig)) :=
  let* '(b, v) := box_from_raw b p in
  match v with
  | Box_Connection c => Ret (b, drop_conn (conn c) conf)
  | _ => Panic
  end.

(** ** [c_api/msg_sender.rs] *)

Implicit Types (s : MsgSender) (p : Pipe Rb Ch) (env : list (Rb -> Rb)).

Definition socket_manager_msg_sender_send_block (polls : nat) (cx : Waker) env (h : H) s p
    (msg : list byte) : outcome (H * MsgSender * Pipe Rb Ch * ptr * Z) :=
  let* '(s, p, r) := send_block polls cx env s p msg in
  let* '(h, err, code) := c_return os_error h r in
  Ret (h, s, p, err, code).

Definition socket_manager_msg_sender_send_nonblock env (h : H) s p (msg : list byte)
  : outcome (H * MsgSender * Pipe Rb Ch * ptr * Z) :=
  let* '(s, p, r) := send_nonblock env s p msg in
  let* '(h, err, code) := c_return os_error h r in
  Ret (h, s, p, err, code).

(** [err] is the value that [*err] has before the call: it is not written when the
    send is pending. *)
Definition socket_manager_msg_sender_send_async (vtable : Z) env (h : H) s p (msg : list byte)
    (notifier : Notifier) (err : ptr) : outcome (H * MsgSender * Pipe Rb Ch * ptr * Z) :=
  if notifier_this notifier =? null_mut then Panic
  else
    let waker := to_waker vtable notifier in
    let* '(s, p, r) := send_async env s p msg waker in
    match r with
    | Ready (Ok n) => Ret (h, s, p, null_mut, as_c_long n)
    | Ready (Err e) =>
        let* '(h, err) := write_display_c_str h (display os_error e) in
        Ret (h, s, p, err, 0)
    | Pending => Ret (h, s, p, err, PENDING)
    end.

Definition socket_manager_msg_sender_flush (h : H) s p
  : outcome (H * MsgSender * Pipe Rb Ch * ptr * Z) :=
  let* '(s, p, r) := flush s p in
  let* '(h, err, code) := c_return os_error h r in
  Ret (h, s, p, err, code).

Definition socket_manager_msg_sender_free (b : Boxes) (send : ptr) p
  : outcome (Boxes * Pipe Rb Ch) :=
  let* '(b, v) := box_from_raw b send in
  match v with
  | Box_MsgSender s =>
      let* p := drop_sender s p in
      Ret (b, p)
  | _ => Panic
  end.

End defs.

(** ** Specification *)

(** What the C++ side reads off the result of a send: the error string, a pending
    send or a number of bytes. *)
Inductive send_result : Type :=
| Send_error (err : ptr)
| Send_pending
| Send_bytes (n : Z).

Definition decode_send (err : ptr) (ret : Z) : send_result :=
  if err =? null_mut then (if ret =? PENDING then Send_pending else Send_bytes ret)
  else Send_error err.

(** *** The manager in the hands of C code *)

(** A call of a function that borrows the manager; [thread] is what the background
    thread has returned by then, if it has ended. *)
Inductive c_call : Type :=
| CC_Listen (addr : ptr)
| CC_Connect (addr : ptr) (delay : Z)
| CC_Cancel (addr : ptr)
| CC_Abort (wait : bool) (thread : option (result unit string))
| CC_Join (thread : option (result unit string)).

Section lifecycle.
Context {H : Type} `{LibcOps H} `{CStrOps}.
Context (os_error : Z -> string).
Context {Ch : Type -> Type} `{MpscOps Ch}.

Definition c_do (call : c_call) (h : H) (cmds : Ch Command) (sm : SocketManager)
  : outcome (H * Ch Command * SocketManager * option (ptr * Z)) :=
  match call with
  | CC_Listen addr =>
      let* '(h, cmds, err, code) := socket_manager_listen_on_addr os_error h cmds addr in
      Ret (h, cmds, sm, Some (err, code))
  | CC_Connect addr delay =>
      let* '(h, cmds, err, code) := socket_manager_connect_to_addr os_error h cmds addr delay in
      Ret (h, cmds, sm, Some (err, code))
  | CC_Cancel addr =>
      let* '(h, cmds, err, code) := socket_manager_cancel_listen_on_addr os_error h cmds addr in
      Ret (h, cmds, sm, Some (err, code))
  | CC_Abort wait thread => socket_manager_abort os_error h cmds sm wait thread
  | CC_Join thread =>
      let* '(h, sm, r) := socket_manager_join os_error h sm thread in
      Ret (h, cmds, sm, r)
  end.

Fixpoint c_calls (calls : list c_call) (h : H) (cmds : Ch Command) (sm : SocketManager)
  : outcome (H * Ch Command * SocketManager * list (option (ptr * Z))) :=
  match calls with
  | [] => Ret (h, cmds, sm, [])
  | call :: calls =>
      let* '(h, cmds, sm, r) := c_do call h cmds sm in
      let* '(h, cmds, sm, rs) := c_calls calls h cmds sm in
      Ret (h, cmds, sm, r :: rs)
  end.

(** The address that a C string stands for. *)
Definition addr_of (h : H) (addr : ptr) : option SocketAddr :=
  match socket_addr h addr with Ret (Ok a) => Some a | _ => None end.

(** The command that a call hands to the main loop, if it is there to take it. *)
Definition command_of (h : H) (call : c_call) : list Command :=
  match call with
  | CC_Listen addr => C_Listen <$> option_list (addr_of h addr)
  | CC_Connect addr delay =>
      (fun a => C_Connect a (from_millis delay)) <$> option_list (addr_of h addr)
  | CC_Cancel addr => C_CancelListen <$> option_list (addr_of h addr)
  | CC_Abort _ _ => [C_Abort]
  | CC_Join _ => []
  end.

(** What the caller of the interface is asked for: an address is null or a C
    string.  The text of the panic of a thread has no NUL. *)
Definition call_ok (h : H) (call : c_call) : Prop :=
  match call with
  | CC_Listen addr | CC_Connect addr _ | CC_Cancel addr => addr = null_mut \/ is_Some (c_str h addr)
  | CC_Abort _ thread | CC_Join thread => forall e, thread = Some (Err e) -> no_nul e = true
  end.

Definition call_waits (call : c_call) : bool :=
  match call with CC_Abort wait _ => wait | CC_Join _ => true | _ => false end.

(** Zero with a null error, or one with an error string; nothing while the call
    blocks. *)
Definition answer_ok (h : H) (r : option (ptr * Z)) : Prop :=
  match r with
  | None => True
  | Some (err, code) =>
      code = 0 /\ err = null_mut \/ code = 1 /\ err <> null_mut /\ is_Some (c_str h err)
  end.

(** The handle of the thread is there until somebody waits for it. *)
Definition sm_wf (sm : SocketManager) : Prop :=
  join_handle sm = if has_joined sm then None else Some tt.
End lifecycle.

(** ** Lemmas *)

Section lemmas.
Context {H : Type} `{LibcSpec H} `{CStrSpec}.
Context (os_error : Z -> string).
Context {Ch : Type -> Type} `{MpscSpec Ch}.
Implicit Types (h : H) (cmds : Ch Command).

Lemma c_str_mono h h' p s : blocks h ⊆ blocks h' -> c_str h p = Some s -> c_str h' p = Some s.
Proof.
  rewrite !c_str_blocks. intros Hsub. destruct (blocks h !! p) as [b|] eqn:E; [|done].
  by rewrite (lookup_weaken _ _ _ _ E Hsub).
Qed.

Lemma answer_ok_mono h h' r : blocks h ⊆ blocks h' -> answer_ok h r -> answer_ok h' r.
Proof.
  intros Hsub. destruct r as [[err code]|]; [|done]. cbn. intros [?|(? & ? & [s Hs])]; [by left|right].
  split_and!; try done. exists s. by eapply c_str_mono.
Qed.

(** The end of a function: the heap grows at most by the error string. *)
Lemma c_return_ok h r :
  (forall e, r = Err e -> no_nul (display os_error e) = true) ->
  exists h' err code, c_return os_error h r = Ret (h', err, code) /\ blocks h ⊆ blocks h' /\
    answer_ok h' (Some (err, code)).
Proof.
  intros Hn. destruct (c_return_spec os_error h r Hn) as (h' & err & code & E & Hr).
  exists h', err, code. split; [done|]. destruct r as [u|e].
  - destruct Hr as (-> & -> & ->). split; [done|]. by left.
  - destruct Hr as (-> & Hne & Hf & Hb). rewrite Hb. split; [by apply insert_subseteq|].
    right. split_and!; try done. rewrite c_str_blocks, Hb, lookup_insert_eq. by eexists.
Qed.

(** What [socket_addr] says about a string does not change while the string is
    there, and its errors can be shown. *)
Lemma socket_addr_spec h h' addr :
  blocks h ⊆ blocks h' -> addr = null_mut \/ is_Some (c_str h addr) ->
  exists r, socket_addr h' addr = Ret r /\
    addr_of h addr = (match r with Ok a => Some a | Err _ => None end) /\
    forall e, r = Err e -> no_nul (display os_error e) = true.
Proof.
  intros Hsub [->|[s Hs]].
  - exists (Err addr_is_null). split_and!; try done. by intros e [= <-].
  - unfold addr_of, socket_addr. destruct (Z.eqb_spec addr null_mut).
    + exists (Err addr_is_null). split_and!; try done. by intros e' [= <-].
    + rewrite Hs, (c_str_mono h h' addr s Hsub Hs). destruct (to_str s) as [t|e] eqn:Et.
      * destruct (parse_socket_addr t) as [a|e] eqn:Ep; eexists; (split_and!; [done..|]); [done|].
        intros e' [= <-]. by rewrite (parse_error _ _ Ep).
      * eexists. split_and!; [done..|]. intros e' [= <-]. by eapply to_str_error.
Qed.

(** One step of the life of a manager, from a state of the heap that has all the
    strings of [h0]. *)
Definition c_step_ok h0 call h cmds sm h' cmds' sm' r : Prop :=
  blocks h ⊆ blocks h' /\ answer_ok h' r /\ sm_wf sm' /\
  has_joined sm' = call_waits call || has_joined sm /\
  c_rx (mpsc_view cmds') = c_rx (mpsc_view cmds) /\ c_tx (mpsc_view cmds') = c_tx (mpsc_view cmds) /\
  c_queue (mpsc_view cmds') = c_queue (mpsc_view cmds) ++
    (if c_rx (mpsc_view cmds) then command_of h0 call else []).

(** The view of the channel after a command was sent, or refused. *)
Lemma mpsc_send_grows cmds c cmds' r :
  mpsc_send cmds c = (cmds', r) ->
  c_rx (mpsc_view cmds') = c_rx (mpsc_view cmds) /\ c_tx (mpsc_view cmds') = c_tx (mpsc_view cmds) /\
  c_queue (mpsc_view cmds') = c_queue (mpsc_view cmds) ++
    (if c_rx (mpsc_view cmds) then [c] else []).
Proof.
  intros E%mpsc_send_view. destruct (c_rx (mpsc_view cmds)) eqn:Hrx; destruct E as [_ ->]; cbn.
  - done.
  - by rewrite app_nil_r, Hrx.
Qed.

Lemma c_send_command_ok h0 h cmds sm addr cmd :
  blocks h0 ⊆ blocks h -> addr = null_mut \/ is_Some (c_str h0 addr) ->
  exists h' cmds' err code, c_send_command os_error h cmds addr cmd = Ret (h', cmds', err, code) /\
    forall call, command_of h0 call = cmd <$> option_list (addr_of h0 addr) -> call_waits call = false ->
      sm_wf sm -> c_step_ok h0 call h cmds sm h' cmds' sm (Some (err, code)).
Proof.
  intros Hsub Ha. destruct (socket_addr_spec h0 h addr Hsub Ha) as (r & E & Ho & Hn).
  unfold c_send_command. rewrite E. cbn [obind]. destruct r as [a|e].
  - unfold send_command. destruct (mpsc_send cmds (cmd a)) as [cmds' [u|c]] eqn:Es;
      apply mpsc_send_grows in Es as (Hrx & Htx & Hq).
    + eexists _, _, _, _. split; [done|]. intros call Hc Hw Hwf. unfold c_step_ok.
      rewrite Hc, Ho, Hw. cbn. split_and!; try done. by left.
    + destruct (c_return_ok h (Err manager_stopped)) as (h' & err & code & -> & Hs & Hans);
        [by intros e [= <-]|].
      eexists _, _, _, _. split; [done|]. intros call Hc Hw Hwf. unfold c_step_ok.
      rewrite Hc, Ho, Hw. by split_and!.
  - destruct (c_return_ok h (Err e)) as (h' & err & code & -> & Hs & Hans); [by intros ? [= <-]; auto|].
    eexists _, _, _, _. split; [done|]. intros call Hc Hw Hwf. unfold c_step_ok.
    rewrite Hc, Ho, Hw. cbn. split_and!; try done. destruct (c_rx _); by rewrite app_nil_r.
Qed.

(** [join] takes the handle once; it returns if the thread has ended or somebody
    has waited before, and its answer can be shown. *)
Lemma join_ok thread sm :
  sm_wf sm ->
  exists sm' r, join thread sm = Ret (sm', r) /\ sm_wf sm' /\ has_joined sm' = true /\
    (is_Some r <-> is_Some thread \/ has_joined sm = true) /\
    ((forall e, thread = Some (Err e) -> no_nul e = true) ->
     forall e, r = Some (Err e) -> no_nul (display os_error e) = true).
Proof.
  intros Hwf. unfold join, compare_exchange, sm_wf in *.
  destruct sm as [[] jh]; cbn in *; subst jh.
  - eexists _, _. split; [done|]. split_and!; try done. split; [by right|by eexists].
  - destruct thread as [[u|e]|]; eexists _, _; (split; [done|]); split_and!; try done.
    1, 2: split; [left|]; by eexists.
    + intros Hn e' [= <-]. cbn [display]. rewrite no_nul_app, (Hn e eq_refl). done.
    + split; [by intros []|by intros [[]|]].
Qed.

(** The destructor leaves an abort behind and closes the channel when it is done. *)
Lemma drop_socket_manager_ok thread cmds sm :
  sm_wf sm ->
  exists cmds' done, drop_socket_manager thread cmds sm = Ret (cmds', done) /\
    (done = true <-> is_Some thread \/ has_joined sm = true) /\
    c_tx (mpsc_view cmds') = c_tx (mpsc_view cmds) && negb done /\
    c_queue (mpsc_view cmds') = c_queue (mpsc_view cmds) ++
      (if c_rx (mpsc_view cmds) then [C_Abort] else []).
Proof.
  intros Hwf. unfold drop_socket_manager, abort.
  destruct (mpsc_send cmds C_Abort) as [cmds1 u] eqn:Es. apply mpsc_send_grows in Es as (_ & Htx & Hq).
  destruct (join_ok thread sm Hwf) as (sm' & r & -> & _ & _ & Hr & _). cbn [obind].
  destruct r as [r|]; eexists _, _; (split; [done|]); (split; [rewrite <- Hr|split]).
  - split; [by eexists|done].
  - rewrite mpsc_drop_tx_view. cbn. by rewrite andb_false_r.
  - by rewrite mpsc_drop_tx_view.
  - split; [done|]. by intros [].
  - by rewrite Htx, andb_true_r.
  - done.
Qed.

Lemma c_do_ok h0 call h cmds sm :
  blocks h0 ⊆ blocks h -> call_ok h0 call -> sm_wf sm ->
  exists h' cmds' sm' r, c_do os_error call h cmds sm = Ret (h', cmds', sm', r) /\
    c_step_ok h0 call h cmds sm h' cmds' sm' r.
Proof.
  intros Hsub Hok Hwf.
  assert (forall addr cmd, addr = null_mut \/ is_Some (c_str h0 addr) ->
    command_of h0 call = cmd <$> option_list (addr_of h0 addr) -> call_waits call = false ->
    c_do os_error call h cmds sm =
      (let* '(h, cmds, err, code) := c_send_command os_error h cmds addr cmd in
       Ret (h, cmds, sm, Some (err, code))) ->
    exists h' cmds' sm' r, c_do os_error call h cmds sm = Ret (h', cmds', sm', r) /\
      c_step_ok h0 call h cmds sm h' cmds' sm' r) as Hsend.
  { intros addr cmd Ha Hc Hw ->.
    destruct (c_send_command_ok h0 h cmds sm addr cmd Hsub Ha) as (h' & cmds' & err & code & -> & Hs).
    eexists _, _, _, _. split; [done|]. by apply Hs. }
  destruct call as [addr|addr delay|addr|wait thread|thread].
  - by apply (Hsend addr C_Listen).
  - by apply (Hsend addr (fun a => C_Connect a (from_millis delay))).
  - by apply (Hsend addr C_CancelListen).
  - cbn [c_do]. unfold socket_manager_abort, abort.
    destruct (mpsc_send cmds C_Abort) as [cmds' u] eqn:Es. apply mpsc_send_grows in Es as (Hrx & Htx & Hq).
    destruct wait; cbn [obind].
    + destruct (join_ok thread sm Hwf) as (sm' & r & -> & Hwf' & Hj & _ & Hn). cbn [obind].
    specialize (Hn Hok).
      destruct r as [r|].
      * destruct (c_return_ok h r) as (h' & err & code & -> & Hs & Hans); [by intros e ->; apply Hn|].
        eexists _, _, _, _. split; [done|]. unfold c_step_ok. by split_and!.
      * eexists _, _, _, _. split; [done|]. unfold c_step_ok. by split_and!.
    + eexists _, _, _, _. split; [done|]. unfold c_step_ok. split_and!; try done. by left.
  - cbn [c_do]. unfold socket_manager_join.
    destruct (join_ok thread sm Hwf) as (sm' & r & -> & Hwf' & Hj & _ & Hn). cbn [obind].
    specialize (Hn Hok).
    destruct r as [r|].
    + destruct (c_return_ok h r) as (h' & err & code & -> & Hs & Hans); [by intros e ->; apply Hn|].
      eexists _, _, _, _. split; [done|]. unfold c_step_ok. split_and!; try done.
      destruct (c_rx _); by rewrite app_nil_r.
    + eexists _, _, _, _. split; [done|]. unfold c_step_ok. split_and!; try done.
      destruct (c_rx _); by rewrite app_nil_r.
Qed.

Lemma c_calls_ok h0 calls h cmds sm :
  blocks h0 ⊆ blocks h -> Forall (call_ok h0) calls -> sm_wf sm ->
  exists h' cmds' sm' rs, c_calls os_error calls h cmds sm = Ret (h', cmds', sm', rs) /\
    blocks h ⊆ blocks h' /\ Forall (answer_ok h') rs /\ length rs = length calls /\ sm_wf sm' /\
    has_joined sm' = existsb call_waits calls || has_joined sm /\
    c_rx (mpsc_view cmds') = c_rx (mpsc_view cmds) /\
    c_queue (mpsc_view cmds') = c_queue (mpsc_view cmds) ++
      (if c_rx (mpsc_view cmds) then concat (command_of h0 <$> calls) else []).
Proof.
  intros Hsub Hok Hwf. revert h cmds sm Hsub Hwf.
  induction Hok as [|call calls Hc _ IH]; intros h cmds sm Hsub Hwf.
  - eexists _, _, _, _. split; [done|]. split_and!; try done. destruct (c_rx _); by rewrite app_nil_r.
  - destruct (c_do_ok h0 call h cmds sm Hsub Hc Hwf)
      as (h1 & cmds1 & sm1 & r & E & Hs1 & Ha & Hwf1 & Hj & Hrx & _ & Hq).
    cbn [c_calls]. rewrite E. cbn [obind].
    destruct (IH h1 cmds1 sm1) as (h2 & cmds2 & sm2 & rs & E2 & Hs2 & Has & Hl & Hwf2 & Hj2 & Hrx2 & Hq2);
      [by etrans|done|].
    rewrite E2. cbn [obind]. eexists _, _, _, _. split; [done|]. split_and!.
    + by etrans.
    + constructor; [by eapply answer_ok_mono|done].
    + cbn. by rewrite Hl.
    + done.
    + rewrite Hj2, Hj. cbn. by destruct (call_waits call), (existsb call_waits calls).
    + by rewrite Hrx2.
    + rewrite Hq2, Hrx, Hq, fmap_cons. destruct (c_rx (mpsc_view cmds)); [|by rewrite !app_nil_r].
      cbn [concat]. by rewrite app_assoc.
Qed.
End lemmas.

(** ** Properties *)

Section properties.
Context {H : Type} `{LibcSpec H} `{CStrSpec} `{AllocatorSpec}.
Context (os_error : Z -> string).
Context {Ch : Type -> Type} {Rb : Type} `{MpscSpec Ch} `{RingBufSpec Rb}.

(** The command functions of the interface, by the command they send. *)
Definition command_function (h : H) (cmds : Ch Command) (addr : ptr) (a : SocketAddr) (c : Command)
  : outcome (H * Ch Command * ptr * Z) :=
  match c with
  | C_Listen _ => socket_manager_listen_on_addr os_error h cmds addr
  | C_Connect _ delay => socket_manager_connect_to_addr os_error h cmds addr (delay / 1000000)
  | C_CancelListen _ => socket_manager_cancel_listen_on_addr os_error h cmds addr
  | C_Abort => Panic
  end.

Lemma c_send_command_spec (h : H) (cmds : Ch Command) addr cmd s a :
  addr <> null_mut -> c_str h addr = Some s -> to_str s = Ok s -> parse_socket_addr s = Ok a ->
  exists h' cmds' err code,
    c_send_command os_error h cmds addr cmd = Ret (h', cmds', err, code) /\
    if c_rx (mpsc_view cmds)
    then code = 0 /\ err = null_mut /\ h' = h /\
      c_queue (mpsc_view cmds') = c_queue (mpsc_view cmds) ++ [cmd a]
    else code = 1 /\ err <> null_mut /\ c_str h' err = Some "socket manager has stopped"%string /\
      mpsc_view cmds' = mpsc_view cmds.
Proof.
  intros Hne Hs Ht Hp. unfold c_send_command, socket_addr.
  rewrite (proj2 (Z.eqb_neq _ _) Hne), Hs, Ht, Hp. cbn [obind]. unfold send_command.
  destruct (mpsc_send cmds (cmd a)) as [cmds' r] eqn:E. apply mpsc_send_view in E.
  destruct (c_rx (mpsc_view cmds)).
  - destruct E as [-> Hv]. cbn. eexists _, _, _, _. split; [done|]. by rewrite Hv.
  - destruct E as [-> Hv].
    destruct (c_return_spec os_error h (Err manager_stopped)) as (h' & err & code & -> & Hc & Hn & _ & Hb);
      [by intros e [= <-]|].
    cbn. eexists _, _, _, _. split; [done|]. split_and!; try done.
    by rewrite c_str_blocks, Hb, lookup_insert_eq.
Qed.

(** The command functions of the C interface.  For the text of an address
    each of them hands exactly one command, with that address (and delay), to the
    main loop and returns 0 with a null error; once the manager has stopped they
    return 1 with the error text and hand over nothing; and so they do for a null
    address. *)
Theorem c_command_functions (h : H) (cmds : Ch Command) addr s a c :
  addr <> null_mut -> c_str h addr = Some s -> to_str s = Ok s -> parse_socket_addr s = Ok a ->
  c = C_Listen a \/ c = C_CancelListen a \/ (exists ms, c = C_Connect a (from_millis ms)) ->
  (exists h' cmds' err code, command_function h cmds addr a c = Ret (h', cmds', err, code) /\
     if c_rx (mpsc_view cmds)
     then code = 0 /\ err = null_mut /\ h' = h /\
       c_queue (mpsc_view cmds') = c_queue (mpsc_view cmds) ++ [c]
     else code = 1 /\ err <> null_mut /\ c_str h' err = Some "socket manager has stopped"%string /\
       mpsc_view cmds' = mpsc_view cmds) /\
  (exists h' err, command_function h cmds null_mut a c = Ret (h', cmds, err, 1) /\
     err <> null_mut /\ c_str h' err = Some "addr is null"%string).
Proof.
  intros Hne Hs Ht Hp Hc.
  assert (exists h' err, forall cmd, c_send_command os_error h cmds null_mut cmd = Ret (h', cmds, err, 1) /\
     err <> null_mut /\ c_str h' err = Some "addr is null"%string) as (h0 & e0 & Hnull).
  { destruct (c_return_spec os_error h (Err addr_is_null)) as (h' & err & code & E & -> & Hn & _ & Hb);
      [by intros e [= <-]|].
    exists h', err. intros cmd. unfold c_send_command, socket_addr. cbn [obind null_mut Z.eqb].
    rewrite E. split_and!; try done. by rewrite c_str_blocks, Hb, lookup_insert_eq. }
  destruct Hc as [->|[->|[ms ->]]]; (split; [|exists h0, e0; apply Hnull]).
  - by apply (c_send_command_spec h cmds addr C_Listen s a).
  - by apply (c_send_command_spec h cmds addr C_CancelListen s a).
  - destruct (c_send_command_spec h cmds addr (fun a => C_Connect a (from_millis ms)) s a)
      as (h' & cmds' & err & code & E & Hr); try done.
    exists h', cmds', err, code. split; [|done]. cbn. unfold socket_manager_connect_to_addr.
    replace (from_millis ms / 1000000) with ms; [done|].
    unfold from_millis. by rewrite Z.div_mul.
Qed.

(** C36: the result of an asynchronous send can be told apart.  With [*err] set to
    null before the call, error, pending and success are three different answers
    for the caller: on success the returned number of bytes was appended to the
    stream; on a pending send nothing was, and the notifier is registered as the
    waker of the full ring unless the connection is closing; on an error nothing
    was, and the error string says that the connection is closed. *)
Theorem c_send_async_result vtable env (h : H) (s : MsgSender) (p : Pipe Rb Ch) msg notifier :
  sender_wf s p -> Forall consumer_move env -> zlen msg < isize_bound ->
  notifier_this notifier <> null_mut ->
  exists h' s' p' err ret,
    socket_manager_msg_sender_send_async os_error vtable env h s p msg notifier null_mut
      = Ret (h', s', p', err, ret) /\ sender_wf s' p' /\
    match decode_send err ret with
    | Send_bytes n => h' = h /\ stream p' = stream p ++ ztake n msg /\
        (msg = [] /\ n = 0 \/ 0 < n <= zlen msg)
    | Send_pending => h' = h /\ stream p' = stream p /\
        exists rb, rings p' !! ring_buf s' = Some rb /\
          zlen (v_contents (rb_view rb)) = v_cap (rb_view rb) /\
          (v_waker (rb_view rb) = Some (to_waker vtable notifier) \/ v_cons (rb_view rb) = false)
    | Send_error e => stream p' = stream p /\ c_str h' e = Some "connection closed"%string
    end.
Proof.
  intros Hwf Henv Hlen Hnot. unfold socket_manager_msg_sender_send_async.
  rewrite (proj2 (Z.eqb_neq _ _) Hnot).
  destruct (send_async_effect env s p msg (to_waker vtable notifier) Hwf Henv Hlen)
    as (s' & p' & r & data & -> & Hext & Hr). cbn [obind].
  pose proof (extends_wf _ _ _ _ _ _ Hext) as Hwf'. apply extends_stream in Hext.
  destruct r as [[n|e]|].
  - destruct Hr as [-> Hn]. eexists _, _, _, _, _. split; [done|]. split; [done|].
    assert (0 <= n < isize_bound) as Hb by (destruct Hn as [[_ ->]|]; [done|lia]).
    unfold decode_send. rewrite as_c_long_id by done. cbn [null_mut Z.eqb].
    rewrite (proj2 (Z.eqb_neq n PENDING)) by (unfold PENDING; lia). by rewrite Hext.
  - destruct Hr as (-> & -> & _). cbn [display].
    destruct (write_display_spec h "connection closed" eq_refl) as (h' & err & -> & Hp & _ & Hb).
    cbn [obind]. eexists _, _, _, _, _. split; [done|]. split; [done|].
    unfold decode_send. rewrite (proj2 (Z.eqb_neq _ _) Hp), Hext, app_nil_r. split; [done|].
    by rewrite c_str_blocks, Hb, lookup_insert_eq.
  - destruct Hr as (-> & Hrb). eexists _, _, _, _, _. split; [done|]. split; [done|].
    cbn. by rewrite Hext, app_nil_r.
Qed.

(** C13: the life of a manager in the hands of C code.  When the runtime cannot be
    started, [socket_manager_init] returns null, the text of the error and no box.
    Otherwise it returns a new box, and any sequence of calls on it goes well: none
    panics; every call that returns gives 0 with a null error or 1 with an error
    string, and these strings stay valid; the commands for the addresses that can be
    read reach the main loop in the order of the calls, unless it is gone.  In the
    end [socket_manager_free] hands over an abort, closes the channel of commands
    and frees the box; it waits for the end of the thread unless an earlier call
    has. *)
Theorem c_manager_lifecycle par build n (h : H) b (cmds : Ch Command) (calls : list c_call) :
  (forall e, start_runtime par build n = Err e -> no_nul (display os_error e) = true) ->
  Forall (call_ok h) calls ->
  match start_runtime par build n with
  | Err e => exists h' err,
      socket_manager_init os_error h b par build n = Ret (h', b, err, null_mut, None) /\
      err <> null_mut /\ c_str h' err = Some (display os_error e)
  | Ok rt => exists p h' cmds' sm' rs,
      socket_manager_init os_error h b par build n =
        Ret (h, <[p := Box_SocketManager socket_manager_new]> b, null_mut, p, Some rt) /\
      p <> null_mut /\ b !! p = None /\
      c_calls os_error calls h cmds socket_manager_new = Ret (h', cmds', sm', rs) /\
      length rs = length calls /\ Forall (answer_ok h') rs /\
      c_queue (mpsc_view cmds') = c_queue (mpsc_view cmds) ++
        (if c_rx (mpsc_view cmds) then concat (command_of h <$> calls) else []) /\
      forall thread, exists cmds2 done,
        socket_manager_free (<[p := Box_SocketManager sm']> b) p thread cmds' = Ret (b, cmds2, done) /\
        (done = true <-> is_Some thread \/ existsb call_waits calls = true) /\
        c_tx (mpsc_view cmds2) = c_tx (mpsc_view cmds') && negb done /\
        c_queue (mpsc_view cmds2) = c_queue (mpsc_view cmds') ++
          (if c_rx (mpsc_view cmds') then [C_Abort] else [])
  end.
Proof.
  intros He Hok. unfold socket_manager_init. destruct (start_runtime par build n) as [rt|e] eqn:Ert.
  - destruct (c_calls_ok os_error h calls h cmds socket_manager_new)
      as (h' & cmds' & sm' & rs & E & _ & Ha & Hl & Hwf & Hj & _ & Hq); try done.
    destruct (new_box_fresh b) as [Hp Hb].
    exists (new_box b), h', cmds', sm', rs. split_and!; try done. intros thread.
    destruct (drop_socket_manager_ok os_error thread cmds' sm' Hwf) as (cmds2 & fin & Ed & Hd & Hx).
    exists cmds2, fin. rewrite Hj, orb_false_r in Hd. split; [|by split].
    unfold socket_manager_free. rewrite box_from_raw_insert by done. cbn [obind].
    by rewrite Ed.
  - destruct (write_display_spec h (display os_error e) (He e eq_refl)) as (h' & err & -> & Hp & _ & Hb).
    exists h', err. split_and!; try done. by rewrite c_str_blocks, Hb, lookup_insert_eq.
Qed.
End properties.

(** ** Witnesses *)

Lemma c_command_functions_witness :
  exists h' cmds' err code,
    socket_manager_connect_to_addr demo_os_error demo_heap (mpsc_new : chan_view Command) 7 20
      = Ret (h', cmds', err, code) /\ code = 0 /\
    c_queue (mpsc_view cmds') = [C_Connect demo_local (from_millis 20)].
Proof.
  destruct (c_command_functions demo_os_error demo_heap (mpsc_new : chan_view Command) 7
    (display_socket_addr demo_local) demo_local (C_Connect demo_local (from_millis 20)))
    as ((h' & cmds' & err & code & E & Hc & _ & _ & Hq) & _).
  - done.
  - vm_compute. reflexivity.
  - vm_compute. reflexivity.
  - vm_compute. reflexivity.
  - right. right. by exists 20.
  - exists h', cmds', err, code. split; [exact E|]. split; [exact Hc|]. exact Hq.
Defined.

Lemma c_send_async_result_witness :
  exists h' s' p' err ret,
    socket_manager_msg_sender_send_async demo_os_error 5 [pop1] demo_heap demo_sender demo_pipe
      [x06; x07; x08] (mkNotifier 9) null_mut = Ret (h', s', p', err, ret) /\ sender_wf s' p'.
Proof.
  destruct (c_send_async_result demo_os_error 5 [pop1] demo_heap demo_sender demo_pipe
    [x06; x07; x08] (mkNotifier 9)) as (h' & s' & p' & err & ret & E & Hwf & _).
  - apply demo_sender_wf.
  - apply Forall_singleton, pop1_move.
  - reflexivity.
  - done.
  - by exists h', s', p', err, ret.
Defined.

(** Listen, connect with an address that is null, abort, and join after the end of
    the thread. *)
Definition demo_calls : list c_call :=
  [CC_Listen 7; CC_Connect null_mut 5; CC_Abort false None; CC_Join (Some (Ok tt))].

Lemma c_manager_lifecycle_witness :
  exists p h' cmds' sm' rs,
    socket_manager_init demo_os_error demo_heap ∅ (Ok 8) Ok 4 =
      Ret (demo_heap, {[p := Box_SocketManager socket_manager_new]}, null_mut, p, Some (MultiThread 4)) /\
    c_calls demo_os_error demo_calls demo_heap (mpsc_new : chan_view Command) socket_manager_new
      = Ret (h', cmds', sm', rs) /\
    Forall (answer_ok h') rs /\ c_queue (mpsc_view cmds') = [C_Listen demo_local; C_Abort].
Proof.
  destruct (c_manager_lifecycle demo_os_error (Ok 8) Ok 4 demo_heap ∅ (mpsc_new : chan_view Command)
    demo_calls) as (p & h' & cmds' & sm' & rs & Ei & _ & _ & Ec & _ & Ha & Hq & _).
  - done.
  - repeat (apply Forall_cons; split); try done; cbn; [|by left]. right. vm_compute. by eexists.
  - by exists p, h', cmds', sm', rs.
Defined.
