(* ===== verification/CReader.v ===== *)
(** * The reader task with a callback of the C interface

    The message callback of a connection that was started through the C interface is
    an [OnMsgObj].  This file makes it an instance of the interface that the reader
    task is verified against, so that the theorems on the reader hold for it, and
    follows the references to the task that go to the C++ side as [CWaker]s. *)

From S2P Require Import Prelude AsyncIo Config BufReadWrite Reader CStrings CWakers CCallbacks.

(** ** The C++ side *)

Class CppReceiver (U H Wk : Type) : Type :=
  socket_manager_extern_on_msg : U -> H -> Wk -> OnMsgObj -> ConnMsg -> CWaker -> U * H * Wk * ptr * Z.

(** What is documented of [socket_manager_extern_on_msg]: it returns the exact
    number of bytes it has taken, a number that is not positive if it cannot take
    any, or sets [err] to a C string and has taken nothing.  [held] are the wakers
    that it keeps; what it does not keep it has freed, once. *)
Class CppReceiverSpec (U H Wk : Type) `{CppReceiver U H Wk} `{LibcSpec H} `{WakerSpec Wk} : Type := {
  received : U -> OnMsgObj -> list byte;
  held : U -> list CWaker;
  extern_on_msg_takes u h wk self msg w u' h' wk' err ret :
    socket_manager_extern_on_msg u h wk self msg w = (u', h', wk', err, ret) ->
    cm_len msg = zlen (cm_bytes msg) ->
    err = null_mut /\ ret <= cm_len msg /\
      received u' self = received u self ++ ztake ret (cm_bytes msg) \/
    err <> null_mut /\ is_Some (c_str h' err) /\ received u' self = received u self;
  extern_on_msg_wakers u h wk self msg w u' h' wk' err ret :
    socket_manager_extern_on_msg u h wk self msg w = (u', h', wk', err, ret) ->
    (forall t, refs_to t (into_waker <$> held u ++ [w]) <= task_refs wk t) ->
    forall t, task_refs wk' t - refs_to t (into_waker <$> held u') =
      task_refs wk t - refs_to t (into_waker <$> held u ++ [w])
}.

(** ** The callback *)

(** An [OnMsgObj] with the C++ side, the heap and the tasks that a call may change.
    [cr_panicked] tells that a call has panicked. *)
Record CReceiver (U H Wk : Type) : Type := mkCReceiver {
  cr_obj : OnMsgObj;
  cr_u : U;
  cr_heap : H;
  cr_tasks : Wk;
  cr_panicked : bool
}.

Arguments mkCReceiver {U H Wk}.
Arguments cr_obj {U H Wk}.
Arguments cr_u {U H Wk}.
Arguments cr_heap {U H Wk}.
Arguments cr_tasks {U H Wk}.
Arguments cr_panicked {U H Wk}.

Section defs.
Context {U H Wk : Type} `{CppReceiver U H Wk} `{LibcOps H} `{WakerOps Wk} `{CStrOps}.

(** [on_msg(Msg { bytes }, cx.waker().clone())] of [OnMsgWrite::poll_write]. *)
Definition call_c_receiver (s : CReceiver U H Wk) (bytes : list byte) (cx : Waker)
  : outcome (U * H * Wk * poll (result Z string)) :=
  let '(wk, waker) := raw_clone (cr_tasks s) cx in
  on_msg_call socket_manager_extern_on_msg (cr_obj s) (cr_u s) (cr_heap s) wk (mkMsg bytes, waker).

#[export] Instance CReceiver_on_msg : OnMsg (CReceiver U H Wk) := fun s bytes cx =>
  match call_c_receiver s bytes cx with
  | Ret (u, h, wk, r) => (mkCReceiver (cr_obj s) u h wk (cr_panicked s), r)
  | _ => (mkCReceiver (cr_obj s) (cr_u s) (cr_heap s) (cr_tasks s) true, Pending)
  end.
End defs.

(** ** Lemmas *)

Section lemmas.
Context {U H Wk : Type} `{CppReceiverSpec U H Wk} `{CStrSpec}.
Implicit Types (s : CReceiver U H Wk).

(** A call that returns: what it has taken is what it has returned. *)
Lemma call_c_receiver_spec s bytes cx u h wk r :
  call_c_receiver s bytes cx = Ret (u, h, wk, r) ->
  match r with
  | Ready (Ok n) => 0 < n <= zlen bytes /\
      received u (cr_obj s) = received (cr_u s) (cr_obj s) ++ ztake n bytes
  | _ => received u (cr_obj s) = received (cr_u s) (cr_obj s)
  end.
Proof.
  unfold call_c_receiver, on_msg_call, on_msg_call_inner.
  destruct (raw_clone (cr_tasks s) cx) as [wk0 waker]. cbn [fst snd msg_bytes].
  destruct (cr_obj s) as [this]. cbn [om_this].
  destruct (socket_manager_extern_on_msg _ _ _ _ _ _) as [[[[u1 h1] wk1] err] ret] eqn:E.
  apply extern_on_msg_takes in E; [|done]. cbn [cm_bytes cm_len] in E.
  unfold parse_c_err_str. destruct E as [(-> & Hle & Hr)|(Hne & [txt Htxt] & Hr)].
  - cbn. destruct (Z.ltb_spec 0 ret) as [Hp|Hp].
    + destruct (Z.leb_spec ret (as_c_long (zlen bytes))); [|done]. intros [= <- <- <- <-]. split; [lia|done].
    + intros [= <- <- <- <-]. rewrite Hr. unfold ztake. replace (Z.to_nat ret) with 0%nat by lia.
      by rewrite take_0, app_nil_r.
  - rewrite (proj2 (Z.eqb_neq _ _) Hne), Htxt. cbn. by intros [= <- <- <- <-].
Qed.

#[export] Instance CReceiver_spec : OnMsgSpec (CReceiver U H Wk).
Proof.
  refine {| acked := fun s => received (cr_u s) (cr_obj s) |};
    intros s bytes cx s'; unfold on_msg, CReceiver_on_msg;
    destruct (call_c_receiver s bytes cx) as [[[[u h] wk] r]| |] eqn:E;
    try apply call_c_receiver_spec in E; intros; simplify_eq; cbn; try done.
  destruct E as [? ?]. split; [lia|done].
Defined.

(** The references of every task, apart from those of the C++ side, are [own], and
    the reader has one to its own task. *)
Definition wakers_balanced (own : Z -> Z) (cx : Waker) s : Prop :=
  cr_panicked s = false /\ 0 < own (task_of cx) /\ (forall t, 0 <= own t) /\
  forall t, task_refs (cr_tasks s) t = own t + refs_to t (into_waker <$> held (cr_u s)).

(** A call does not panic, and the reference it gives away is with the C++ side or
    has been given back. *)
Lemma on_msg_balanced own cx s bytes s' r :
  zlen bytes < isize_bound -> wakers_balanced own cx s -> on_msg s bytes cx = (s', r) ->
  wakers_balanced own cx s' /\ cr_obj s' = cr_obj s.
Proof.
  intros Hlen (Hp & Hcx & Hown & Hw). unfold on_msg, CReceiver_on_msg.
  unfold call_c_receiver. destruct (raw_clone (cr_tasks s) cx) as [wk0 waker] eqn:Ec.
  apply raw_clone_spec in Ec as (Ht & _ & Hr0).
  2:{ rewrite Hw. pose proof (refs_to_nonneg (task_of cx) (into_waker <$> held (cr_u s))). lia. }
  destruct (socket_manager_extern_on_msg (cr_u s) (cr_heap s) wk0 (cr_obj s)
    (mkConnMsg bytes (zlen bytes)) (from_waker waker)) as [[[[u1 h1] wk1] err] ret] eqn:E.
  assert (forall t, task_refs wk1 t = own t + refs_to t (into_waker <$> held u1)) as Hw1.
  { intros t. pose proof (extern_on_msg_wakers _ _ _ _ _ _ _ _ _ _ _ E) as Hb.
    assert (forall t', task_refs wk0 t' =
      own t' + refs_to t' (into_waker <$> held (cr_u s) ++ [from_waker waker])) as Heq.
    { intros t'. rewrite Hr0, Hw, fmap_app, refs_to_app. cbn. rewrite into_from_waker, Ht. lia. }
    specialize (Hb (fun t' => ltac:(rewrite Heq; specialize (Hown t'); lia)) t).
    rewrite Heq in Hb. lia. }
  destruct (on_msg_call_returns socket_manager_extern_on_msg (cr_obj s) (cr_u s) (cr_heap s) wk0 bytes
    waker u1 h1 wk1 err ret Hlen E) as (h2 & r2 & ->).
  { destruct (extern_on_msg_takes _ _ _ _ _ _ _ _ _ _ _ E eq_refl) as [(? & ? & _)|(? & ? & _)]; auto. }
  by intros [= <- <-].
Qed.
End lemmas.

(** ** Properties *)

Section properties.
Context {U H Wk R : Type} `{CppReceiverSpec U H Wk} `{CStrSpec} `{AsyncReadSpec R}.

(** C12: the reader task and a C++ receiver.  For every configuration, every
    behaviour of the socket and of the flush timer, and every receiver that does
    what is documented: the reader does not panic, nor does a call of the
    receiver; the receiver has taken, in order, exactly what was read from the
    socket except for what is still in the buffer, and all of it when the reader
    has ended with [Ok]; and for every task the references are those that were
    there before and the wakers that the receiver keeps, so that no call leaks a
    task or frees it early. *)
Theorem c_reader_delivers cx ticks (r : R) (s : CReceiver U H Wk) config own :
  received (cr_u s) (cr_obj s) = consumed r -> wakers_balanced own cx s ->
  exists t0 b0 t b,
    handle_reader r s config = Ret (t0, b0) /\ reader_run cx ticks t0 b0 = Ret (t, b) /\
    let s' := on_msg_obj (writer b) in
    cr_panicked s' = false /\ cr_obj s' = cr_obj s /\
    consumed (reader b) = received (cr_u s') (cr_obj s) ++ pending_bytes b /\
    (t = Finished (Ok tt) -> received (cr_u s') (cr_obj s) = consumed (reader b)) /\
    forall t, task_refs (cr_tasks s') t = own t + refs_to t (into_waker <$> held (cr_u s')).
Proof.
  intros Hs Hbal. change (acked s = consumed r) in Hs. destruct (handle_reader_inv r s config Hs)
    as (size & t0 & b0 & E0 & Hsize & Hb0 & Ht0 & _ & Hw0).
  destruct (reader_run_inv cx ticks size t0 b0 Hb0 Ht0) as (t & b & E & Hb & Ht).
  exists t0, b0, t, b. split_and!; [done..|]. cbn zeta.
  assert (wakers_balanced own cx (on_msg_obj (writer b)) /\
    cr_obj (on_msg_obj (writer b)) = cr_obj s) as [(Hp & _ & _ & Hr) Ho].
  { apply (reader_run_keeps (fun w => wakers_balanced own cx (on_msg_obj w) /\
      cr_obj (on_msg_obj w) = cr_obj s) cx ticks size t0 b0 t b Hb0 Ht0); [|by rewrite Hw0|done].
    intros w bytes w' p Hn [Hw Hwo]. unfold poll_write, OnMsgWrite_poll_write.
    destruct (on_msg (on_msg_obj w) bytes cx) as [s1 q] eqn:Eq.
    apply (on_msg_balanced own) in Eq as [Hw1 Hwo1];
      [|unfold MAX_MSG_BUFFER_SIZE, isize_bound in *; lia|done].
    destruct q as [[n|e]|]; intros [= <- _]; cbn; split; congruence. }
  destruct Hb as (_ & Hc & _). unfold conserved in Hc. cbn in Hc. rewrite Ho in Hc.
  split_and!; try done. intros ->. cbn in Ht. by rewrite Ht, app_nil_r in Hc.
Qed.
End properties.

(** ** Witnesses *)

(** A receiver with room for some bytes; when it is full it keeps the waker. *)
Record RoomReceiver : Type := mkRoom {
  rr_bytes : list byte;
  rr_room : Z;
  rr_wakers : list CWaker
}.

#[export] Instance RoomReceiver_on_msg : CppReceiver RoomReceiver BlockHeap WakerTable :=
  fun u h wk _ msg w =>
    if rr_room u <=? 0 then
      (mkRoom (rr_bytes u) (rr_room u) (rr_wakers u ++ [w]), h, wk, null_mut, -1)
    else
      let n := Z.min (rr_room u) (cm_len msg) in
      (mkRoom (rr_bytes u ++ ztake n (cm_bytes msg)) (rr_room u - n) (rr_wakers u), h,
       socket_manager_waker_free wk w, null_mut, n).

#[export] Instance RoomReceiver_spec : CppReceiverSpec RoomReceiver BlockHeap WakerTable.
Proof.
  refine {| received := fun u _ => rr_bytes u; held := rr_wakers |};
    intros u h wk self msg w u' h' wk' err ret;
    unfold socket_manager_extern_on_msg, RoomReceiver_on_msg;
    destruct (rr_room u <=? 0); intros [= <- <- <- <- <-]; cbn [rr_bytes rr_wakers].
  - intros Hl. left. split_and!; [done| |]; [pose proof (zlen_nonneg (cm_bytes msg)); lia|].
    change (ztake (-1) (cm_bytes msg)) with (@nil byte). by rewrite app_nil_r.
  - intros Hl. left. split_and!; [done|lia|done].
  - done.
  - intros Hw t. unfold socket_manager_waker_free.
    destruct (raw_drop_spec wk (into_waker w)) as [_ Hr].
    { specialize (Hw (task_of (into_waker w))). rewrite fmap_app, refs_to_app in Hw. cbn in Hw.
      pose proof (refs_to_nonneg (task_of (into_waker w)) (into_waker <$> rr_wakers u)).
      rewrite decide_True in Hw by done. cbn in *. lia. }
    rewrite Hr, fmap_app, refs_to_app. cbn [fmap list_fmap refs_to]. lia.
Defined.

(** Room for two bytes; the reader runs in task 1. *)
Definition demo_receiver : CReceiver RoomReceiver BlockHeap WakerTable :=
  mkCReceiver (mkOnMsgObj 9) (mkRoom [] 2 []) demo_heap (mkWakerTable {[1 := 1]} []) false.

Lemma demo_receiver_balanced :
  wakers_balanced (fun t => if decide (t = 1) then 1 else 0) demo_cx demo_receiver.
Proof.
  split_and!; [done..| |].
  - intros t. destruct (decide (t = 1)); lia.
  - intros t. cbn. unfold wt_count. cbn. destruct (decide (t = 1)) as [->|Hn].
    + by rewrite lookup_singleton_eq.
    + by rewrite lookup_singleton_ne.
Qed.

(** Three bytes are read; the receiver takes two of them and keeps a waker when it
    is offered the third one. *)
Example demo_c_reader :
  (let* '(t0, b0) := handle_reader demo_reader demo_receiver demo_config in
   let* '(t, b) := reader_run demo_cx [false; true; false; false; false; false] t0 b0 in
   let s := on_msg_obj (writer b) in
   Ret (rr_bytes (cr_u s), rr_wakers (cr_u s), pending_bytes b, task_refs (cr_tasks s) 1))
  = Ret ([x01; x02], [mkCWaker 1 1], [x03], 2).
Proof. vm_compute. reflexivity. Qed.

Lemma c_reader_delivers_witness :
  exists t0 b0 t b,
    handle_reader demo_reader demo_receiver demo_config = Ret (t0, b0) /\
    reader_run demo_cx [false; true; false; false; false; false] t0 b0 = Ret (t, b) /\
    cr_panicked (on_msg_obj (writer b)) = false.
Proof.
  destruct (c_reader_delivers demo_cx [false; true; false; false; false; false] demo_reader demo_receiver
    demo_config (fun t => if decide (t = 1) then 1 else 0)) as (t0 & b0 & t & b & E0 & E & Hp & _).
  - reflexivity.
  - exact demo_receiver_balanced.
  - by exists t0, b0, t, b.
Defined.
