(* ===== verification/Tracer.v ===== *)
(** * Log messages for the C side ([c_api/tracer.rs], [init_logger] of [lib.rs])

    The C side installs one function that gets the log messages.  The crate tracing,
    which keeps the global subscriber and filters events, is a parameter. *)

From S2P Require Import Prelude Conn SockAddr CStrings.

Inductive TraceLevel : Type := TL_Trace | TL_Debug | TL_Info | TL_Warn | TL_Error | TL_Off.

Definition trace_level_code (l : TraceLevel) : Z :=
  match l with
  | TL_Trace => 0 | TL_Debug => 1 | TL_Info => 2 | TL_Warn => 3 | TL_Error => 4 | TL_Off => 5
  end.

(** [tracing::Level] and [LevelFilter]: a filter lets a level through that is at
    least as severe. *)
Inductive Level : Type := TRACE | DEBUG | INFO | WARN | ERROR.
Inductive LevelFilter : Type := LF_TRACE | LF_DEBUG | LF_INFO | LF_WARN | LF_ERROR | LF_OFF.

Definition severity (l : Level) : Z :=
  match l with TRACE => 0 | DEBUG => 1 | INFO => 2 | WARN => 3 | ERROR => 4 end.
Definition filter_severity (f : LevelFilter) : Z :=
  match f with
  | LF_TRACE => 0 | LF_DEBUG => 1 | LF_INFO => 2 | LF_WARN => 3 | LF_ERROR => 4 | LF_OFF => 5
  end.
Definition enabled (f : LevelFilter) (l : Level) : bool := filter_severity f <=? severity l.

(** [Into<LevelFilter> for TraceLevel]. *)
Definition into_filter (l : TraceLevel) : LevelFilter :=
  match l with
  | TL_Trace => LF_TRACE
  | TL_Debug => LF_DEBUG
  | TL_Info => LF_INFO
  | TL_Warn => LF_WARN
  | TL_Error => LF_ERROR
  | TL_Off => LF_OFF
  end.

(** [From<&Level> for TraceLevel]. *)
Definition from_level (l : Level) : TraceLevel :=
  match l with
  | TRACE => TL_Trace
  | DEBUG => TL_Debug
  | INFO => TL_Info
  | WARN => TL_Warn
  | ERROR => TL_Error
  end.

(** What a [tracing::Event] says: its metadata, and its fields with the [Debug]
    form of their values. *)
Record Event : Type := mkEvent {
  e_level : Level;
  e_target : string;
  e_file : option string;
  e_line : option Z;
  e_fields : list (string * string)
}.

(** [LogData]; a pointer and a length are shown as the string and the length. *)
Record LogData : Type := mkLogData {
  d_level : TraceLevel;
  target : string;
  target_n : Z;
  file : string;
  file_n : Z;
  line : Z;
  message : string;
  message_n : Z
}.

Definition MESSAGE : string := "message".
Definition EMPTY : string := "".

(** [GetMsgVisitor::record_debug]. *)
Definition record_debug (msg : option string) (field : string * string) : option string :=
  if String.eqb (fst field) MESSAGE then Some (snd field) else msg.

(** [ForeignLogger::on_event]: the data the C function is called with. *)
Definition on_event (e : Event) : LogData :=
  let get_msg := foldl record_debug None (e_fields e) in
  let file := match e_file e with Some f => f | None => EMPTY end in
  let line := match e_line e with Some l => Some (to_signed 32 l) | None => None end in
  let message := match get_msg with Some m => m | None => EMPTY end in
  mkLogData (from_level (e_level e)) (e_target e) (slen (e_target e)) file (slen file)
    (match line with Some l => l | None => -1 end) message (slen message).

(** [ForeignLogger]: a pointer to a C function. *)
Record ForeignLogger : Type := mkForeignLogger { fl_tracer : ptr }.

(** The global subscriber of tracing: [try_init] installs a foreign logger with its
    filter and a printer with its filter; [dispatch] gives the foreign loggers whose
    [on_event] is called for an event. *)
Class TracingOps (T : Type) : Type := {
  try_init : T -> ForeignLogger -> LevelFilter -> LevelFilter -> T * result unit string;
  dispatch : T -> Event -> list ForeignLogger
}.

(** What tracing documents: there is one global subscriber, which is set once, and a
    filtered layer sees the events that its filter lets through. *)
Class TracingSpec (T : Type) `{TracingOps T} : Type := {
  installed : T -> option (ForeignLogger * LevelFilter);
  try_init_installs t logger filter print_filter t' r :
    try_init t logger filter print_filter = (t', r) ->
    match installed t with
    | None => r = Ok tt /\ installed t' = Some (logger, filter)
    | Some _ => (exists e, r = Err e /\ no_nul e = true) /\ installed t' = installed t
    end;
  dispatch_filtered t e :
    dispatch t e =
      match installed t with
      | Some (logger, filter) => if enabled filter (e_level e) then [logger] else []
      | None => []
      end
}.

Section init.
Context {T H : Type} `{TracingOps T} `{LibcOps H}.

(** [init_logger] of [lib.rs]. *)
Definition init_logger (t : T) (log_print_level : LevelFilter)
    (foreign_logger : ForeignLogger * LevelFilter) : T * result unit string :=
  try_init t (fst foreign_logger) (snd foreign_logger) log_print_level.

Definition socket_manager_logger_init (t : T) (h : H) (tracer : ptr)
    (tracer_max_level log_print_level : TraceLevel) : outcome (T * H * ptr) :=
  let foreign_logger := (mkForeignLogger tracer, into_filter tracer_max_level) in
  let '(t, r) := init_logger t (into_filter log_print_level) foreign_logger in
  match r with
  | Ok _ => Ret (t, h, null_mut)
  | Err e =>
      let* '(h, err) := write_display_c_str h e in
      Ret (t, h, err)
  end.

(** A sequence of calls, with the values of [*err]. *)
Fixpoint logger_inits (t : T) (h : H) (calls : list (ptr * TraceLevel * TraceLevel))
  : outcome (T * H * list ptr) :=
  match calls with
  | [] => Ret (t, h, [])
  | (tracer, max_level, print_level) :: calls =>
      let* '(t, h, err) := socket_manager_logger_init t h tracer max_level print_level in
      let* '(t, h, errs) := logger_inits t h calls in
      Ret (t, h, err :: errs)
  end.

(** The calls of C functions for an event. *)
Definition log (t : T) (e : Event) : list (ptr * LogData) :=
  (fun logger => (fl_tracer logger, on_event e)) <$> dispatch t e.
End init.

(** The levels that the C side sees and sets agree with those of tracing: a filter
    set to a level lets an event through exactly if the code that is reported for
    the event is not smaller. *)
Lemma enabled_code f l :
  enabled (into_filter f) l = (trace_level_code f <=? trace_level_code (from_level l)).
Proof. by destruct f, l. Qed.

(** The message is the last field of that name. *)
Lemma on_event_message e m fs :
  e_fields e = fs ++ [(MESSAGE, m)] -> message (on_event e) = m.
Proof. intros E. unfold on_event; cbn. rewrite E, foldl_app. done. Qed.

(** The line is [-1] exactly when it is not known. *)
Lemma on_event_line e :
  (forall l, e_line e = Some l -> 0 <= l < 2 ^ 31) ->
  line (on_event e) = match e_line e with Some l => l | None => -1 end.
Proof.
  intros Hl. unfold on_event; cbn. destruct (e_line e) as [l|]; [|done].
  specialize (Hl l eq_refl). unfold to_signed. change (2 ^ (32 - 1)) with (2 ^ 31).
  rewrite Z.mod_small by lia. by rewrite (proj2 (Z.ltb_lt _ _)) by lia.
Qed.

Section lemmas.
Context {T H : Type} `{TracingSpec T} `{LibcSpec H}.

(** Once a logger is set every further call fails and changes nothing. *)
Lemma later_inits_fail (t : T) (h : H) logger filter (later : list (ptr * TraceLevel * TraceLevel)) :
  installed t = Some (logger, filter) ->
  exists t' h' errs, logger_inits t h later = Ret (t', h', errs) /\
    length errs = length later /\ Forall (fun err => err <> null_mut) errs /\
    installed t' = Some (logger, filter).
Proof.
  revert t h. induction later as [|[[tr lv] pl] later IH]; intros t h Hi; [by exists t, h, []|].
  cbn [logger_inits]. unfold socket_manager_logger_init, init_logger. cbn [fst snd].
  destruct (try_init t _ _ _) as [t1 r] eqn:E. apply try_init_installs in E. rewrite Hi in E.
  destruct E as [(e & -> & He) Hi1].
  destruct (write_display_spec h e He) as (h1 & p & -> & Hp & _). cbn [obind].
  destruct (IH t1 h1 Hi1) as (t2 & h2 & errs & -> & Hl & Herr & Hi2). cbn [obind].
  exists t2, h2, (p :: errs). split_and!; try done; [cbn; by rewrite Hl|by constructor].
Qed.
End lemmas.

(** ** Properties *)

Section properties.
Context {T H : Type} `{TracingSpec T} `{LibcSpec H}.

(** C39: the logger is set once and then gets what it asked for.  If no logger is set
    the call succeeds, the error is null and from then on every event calls the C
    function exactly if its level is not below the one that was given, with the
    level, the message, the texts and their lengths, and a line of -1 if it is not
    known; every later call fails with an error string and changes nothing. *)
Theorem logger_init_once (t : T) (h : H) tracer max_level print_level later :
  installed t = None ->
  exists t1, socket_manager_logger_init t h tracer max_level print_level = Ret (t1, h, null_mut) /\
    exists t2 h2 errs, logger_inits t1 h later = Ret (t2, h2, errs) /\
      length errs = length later /\ Forall (fun err => err <> null_mut) errs /\
      forall e, log t2 e =
        (if trace_level_code max_level <=? trace_level_code (d_level (on_event e))
         then [(tracer, on_event e)] else []) /\
        d_level (on_event e) = from_level (e_level e) /\
        target_n (on_event e) = slen (target (on_event e)) /\
        file_n (on_event e) = slen (file (on_event e)) /\
        message_n (on_event e) = slen (message (on_event e)) /\
        (e_line e = None -> line (on_event e) = -1).
Proof.
  intros Hn. unfold socket_manager_logger_init at 1, init_logger.
  cbn [fst snd]. destruct (try_init t _ _ _) as [t1 r] eqn:E. apply try_init_installs in E.
  rewrite Hn in E. destruct E as [-> Hi]. exists t1. split; [done|].
  destruct (later_inits_fail t1 h (mkForeignLogger tracer) (into_filter max_level) later Hi)
    as (t2 & h2 & errs & Hf & Hl & Herr & Hi2). exists t2, h2, errs. split_and!; try done.
  intros e. split_and!; try done; [|intros El; cbn; by rewrite El].
  unfold log. rewrite dispatch_filtered, Hi2, enabled_code. cbn [on_event d_level].
  by destruct (_ <=? _).
Qed.
End properties.

(** ** Witnesses *)

(** Tracing as its global subscriber. *)
#[export] Instance global_tracing : TracingOps (option (ForeignLogger * LevelFilter)) := {|
  try_init t logger filter _ :=
    match t with
    | None => (Some (logger, filter), Ok tt)
    | Some _ => (t, Err "a global default trace dispatcher has already been set")
    end;
  dispatch t e :=
    match t with
    | Some (logger, filter) => if enabled filter (e_level e) then [logger] else []
    | None => []
    end
|}.

#[export] Instance global_tracing_spec : TracingSpec (option (ForeignLogger * LevelFilter)).
Proof.
  refine {| installed := fun t => t |}; [|done].
  intros t logger filter pf t' r. unfold try_init, global_tracing.
  destruct t as [[l f]|]; intros [= <- <-]; [|done]. split; [by eexists|done].
Defined.

Definition no_logger : option (ForeignLogger * LevelFilter) := None.

Definition demo_event : Event :=
  mkEvent WARN "socket_manager" None (Some 7) [(MESSAGE, "closed"); ("addr", "x")].

Lemma logger_init_once_witness :
  exists t1, socket_manager_logger_init no_logger (mkBlockHeap ∅) 5 TL_Info TL_Off
      = Ret (t1, mkBlockHeap ∅, null_mut) /\
    log t1 demo_event = [(5, on_event demo_event)].
Proof.
  destruct (logger_init_once no_logger (mkBlockHeap ∅) 5 TL_Info TL_Off [])
    as (t1 & E & t2 & h2 & errs & Ef & _ & _ & Hlog); [reflexivity|].
  exists t1. split; [exact E|]. cbn in Ef. injection Ef as -> _ _.
  rewrite (proj1 (Hlog demo_event)). reflexivity.
Defined.
